(* ===== verification/_CoqProject ===== *)
-Q . S2P
Prelude.v
Codec.v
Defs.v
Transaction.v
MemModel.v
RamModel.v
CacheDir.v
CacheSpec.v
CacheDirPlru.v
CacheData.v
Amo.v
MemResp.v
MemProcs.v
MemProcsProps.v
Sequence.v
Scoreboard.v
ScoreboardProps.v
ScoreboardLrsc.v
ScoreboardData.v
ScoreboardSafe.v
Device.v
DeviceSb.v
DeviceProps.v
DeviceMem.v
DeviceRuns.v
DeviceAlarm.v
QemuPlugin.v
Trace.v
TraceProps.v
SeqGen.v
SeqProps.v
FromTrace.v
Driver.v
System.v
SystemLive.v
FaultInj.v
Interrupt.v
InterruptProps.v
Firmware.v
MatMul.v
Hwlp.v
HwlpLoops.v
HwlpProps.v
Delays.v
SeqRuns.v
SeqRegion.v
Bench.v
Tb.v
Netlist.v
MemLoop.v
MemLoopProps.v
Messages.v
