(* ===== verification/Prelude.v ===== *)
(** * Verification of the HPDcache test bench and of the firmware around it

    The repository holds the CV32E40P core, the HPDcache level-one cache, the
    SystemC test bench of the cache and the C programs run on the core. This
    library models the C and C++ code: the test bench
    ([src/rtl/l1_cache/hpdcache/cv-hpdcache/rtl/tb], written TB below), with the
    QEMU plugin that records its traces, and the programs of
    [src/example_tb/core]. Of the hardware only what that code relies on is
    translated: the atomic codes the cache puts on its memory interface, the packed
    structures of its core interface, and of the core the interrupt arbiter, the
    interrupt entry and the hardware loops.

    ** How the program works

    A sequence draws requests and hands each to the driver under an identifier that
    no request in flight holds. The driver packs the request into the bit vector of
    the core interface, holds it until the cache is ready, acknowledges it to the
    sequence and copies it to the scoreboard; it also injects the faults a request
    carries into the RAMs of the cache. The memory response model is the slave on
    the memory side of the cache. The scoreboard sees every request and response on
    both sides: it keeps a reference memory, the requests in flight and the LR/SC
    reservation, compares each response with what it expects, and gives the
    identifier back. Traces recorded by the QEMU plugin, compressed, can be replayed
    instead of random requests. The programs of the core are separate: they test its
    interrupts and its hardware loops, print statistics and implement the system calls
    of the C library.

    ** Files, in the order they are compiled

    Shared
    - [Prelude]: machine integers as [Z] with their wrap-around, bit-vector ranges
      and masked updates with the rewrite base [bits], byte splitting, searching an
      array, and [exec], the outcomes of a program that can exit or fault.
    - [Codec]: the interface [Codec] of the compressor (TB/thirdparty/miniz), with
      the contract [CodecLaws] its header documents, and an instance.
    - [Defs]: TB/include/hpdcache_test_defs.h; the macros are the class [HpdConfig],
      their defaults the instance [default_config], what any configuration must
      satisfy [ConfigWf].
    - [Transaction]: the transaction types, codes and predicates of
      hpdcache_test_transaction.h and sc_verif_lib/include/transaction.h.

    Library components (TB/sc_verif_lib/modules)
    - [MemModel] (mem_model.h) and [RamModel] (ram_model.h): the memory of the
      response model, filled at random on first access, and the scoreboard's memory
      with one "written" bit per byte.
    - [CacheDir] (generic_cache_directory_base.h), over the interface
      [ReplacementPolicy] with its laws; [CacheSpec], the abstract cache, a finite
      set of lines, and the proof against the interface that a directory refines it;
      [CacheDirPlru] (generic_cache_directory_plru.h), which discharges the interface.
    - [CacheData] (generic_cache_data.h).

    Memory side (TB/include)
    - [Amo]: the [compute_amo] of hpdcache_test_amo.h and that of
      hpdcache_test_mem_resp_model_base.h, and the translation between their codes.
    - [MemResp]: [readOperation], [writeOperation], [check_excl] and error segments
      of hpdcache_test_mem_resp_model.h, as functions of the model's state.
    - [MemProcs], [MemProcsProps]: its six threads as a machine stepped by the clock
      ([mem_edge]), with the FIFOs between them, and conservation and order on each
      channel; [Delays]: the distributions of their delays, which a sequence can
      replace, and how often a channel moves a flit.

    Core side
    - [Sequence]: identifiers, memory segments, transaction pool
      (hpdcache_test_sequence.h, sc_verif_lib/include/transaction_pool.h, sequence.h).
    - [SeqGen], [SeqProps]: the requests of the sequences of TB/sequence_lib as
      functions of the values drawn, the loop of the random sequence as a machine;
      [SeqRuns], the runs of the other sequences; [SeqRegion], their addresses in the
      reference memory; [FromTrace], the sequence that replays a trace.
    - [Driver] (hpdcache_test_driver.h): packing, and [drive_request] as a machine.
    - [FaultInj] (hpdcache_fault_injection.h): the masks and the DPI calls.
    - [Scoreboard] (hpdcache_test_scoreboard.h): one Definition per process in the
      monad [SB]; [ScoreboardProps], [ScoreboardLrsc], [ScoreboardData],
      [ScoreboardSafe]: accounting, reservation, reference memory, definedness.
    - [Device]: what the test bench expects of the cache, as an abstract device, the
      labelled step relation [dev_step]; [DeviceSb], [DeviceProps], [DeviceMem],
      [DeviceRuns]: what the handlers of the scoreboard do when they report nothing, the
      relation between the scoreboard and the device, and that every step keeps it;
      [DeviceAlarm]: what they have checked when they report nothing.
    - [System]: sequence, driver and scoreboard connected, as the step relation
      [sys_step] with an executable counterpart [exec]; [SystemLive]: the loop is
      defined and makes progress; [Bench]: the loop closed with the device of [Device],
      as the step relation [bench_step].
    - [Tb] (hpdcache_tb.cpp, sc_verif_lib/include/logger.h): command line, reset and
      clock.

    The whole test bench
    - [Netlist]: the ports of every component, the channels of [hpdcache_test] and of
      the agent and the bindings [build] makes, as lists, with their elaboration; the
      request and response structures of hpdcache_typedef.svh and hpdcache_pkg.sv.
    - [MemLoop], [MemLoopProps]: the machine of [MemProcs] and the scoreboard connected
      by their four FIFOs, as the step relation [ml_step].
    - [Messages]: the lines of the log, one [to_string] per kind of transaction, the
      other printers of TB/include and the names of the scopes of the RAMs.

    Traces
    - [QemuPlugin] (TB/qemu_plugin/qemu_plugin.c), [Trace]
      (hpdcache_test_trace_manager.h), [TraceProps]: recording and reading back.

    Programs of the core (src/example_tb/core)
    - [Interrupt], [InterruptProps]: interrupt/interrupt.c with its matrices and
      vector table, over the registers of the core and of the test bench.
    - [Hwlp]: the twelve programs of hwlp_test/hwlp.h, instruction by instruction, and
      the statements of [main] of hwlp_test.c, on a machine with the two hardware loops; [HwlpLoops],
      structured code with a checker of programs and the simulation between the two;
      [HwlpProps], what the programs compute.
    - [MatMul]: custom_fp/matmulNxN.c and [main] of custom_fp/main.c, in binary32
      arithmetic over a memory in blocks, and custom/hello_world.c.
    - [Firmware]: modules [Stats] (firmware/stats.c), [Syscalls] (custom/syscalls.c),
      [Stall] (mem_stall/mem_stall.c, custom_fp/main.c) and [Vectors] (the exception
      handler of custom/vectors.S and interrupt/vectors.S).

    ** How code is modelled

    State is a [Record] with the fields of the class; a C++ container used as a map
    is a [gmap], a deque or a list a [list]. An [sc_bv<w>] or an unsigned integer is a
    [Z] below [2^w] with the truncations of the source written out. A thread that
    waits for the clock is a machine whose state is the point where it waits; a
    thread that only waits for its FIFO is a handler run once per element. [None],
    [Undef] and [Fault] stand for undefined behaviour and failed assertions, and are
    kept apart from [std::exit]. Random values ([rand], SCV, the random words of the
    core's test bench) are arguments, so theorems hold for all of them.

    ** What the theorems show

    The theorems named without a remark are the properties of the library; those in
    braces are lemmas about the same operations.

    - Identifiers and order. The scoreboard's counters and identifiers agree with its
      tables in every interleaving ([scoreboard_accounts]); with the sequence and the
      driver connected no identifier is reused before its response and none is lost
      ([closed_loop_ids], [one_request_at_a_time], [closed_loop_end]); requests leave
      the driver in order and all leave it ([driver_in_order], {[driver_finishes]}); from
      every state the loop can run on until it waits for the device, and to its end when
      the device answers, with no process undefined on the core side
      ([closed_loop_lives], [closed_loop_defined]); the
      memory processes neither lose, repeat nor reorder a flit pushed into their FIFOs
      ([mem_writes_in_order], [mem_reads_in_order]); a sink whose FIFO is full loses the
      flit it takes from the channel ([sink_exact_unless_full]), and on a channel that
      never finds it so the flits pushed are those sent; the channels keep moving
      ([channels_progress]); the memory processes and the scoreboard connected agree on
      which identifiers are in flight, and no error is about one
      ([mem_scoreboard_agree]); an allocation ends and the pool hands out free objects
      {[allocate_id_terminates], [pool_acquire_fresh]}.
    - No false alarms, no missed errors. The scoreboard accepts every run of a device
      that keeps its promises: it reports nothing and its reference memory is the
      device's ([no_false_alarm]); after such a run it reports a response that breaks
      one, where it knows the data ([no_missed_error]); with the sequence and the driver connected the test runs to
      its end and passes ([faithful_cache_passes]). The reference memory, which takes
      addresses modulo its size, has a byte for each address of a sequence
      ([sequence_fits_ram]).
    - Data. What a load is compared with ([load_checked]), what a store and a response of
      the memory write ([store_updates_ram], [refill_spec]); the same on the memory side
      ([write_stores_bytes], [amo_write_spec], [stex_spec], {[read_returns_memory],
      [write_answered]}); the two models of atomic operations agree
      ([amo_translation_sound]); an SC may succeed exactly when its reservation holds
      ([sc_atomic_iff]); errors are counted and stop the run
      ({[error_limit_enforced]}).
    - Requests. Every random request is well formed and an SC follows its LR
      ([random_request_ok], [sc_follows_lr], {[unique_set_turn], [single_turn],
      [seq_turn_progress]}); the RTL reads from the vector of the driver the fields of
      the transaction ([rtl_reads_request], from {[core_req_to_bv_fields]}); its fault
      flips the bits it says ([dat_fault_bits], {[random_fault_injected]}); a line of the
      log determines the transaction it prints ([log_unambiguous]).
    - Refinement. The directory is a run of the abstract cache, which with one way stops
      at its assertion when a full set allocates ([plru_refines_spec]); the read thread,
      stopped by a full FIFO and resumed by the clock, is [readOperation]
      ([read_thread_refines]).
    - Traces. A trace of riscv64 without 128-bit stores is read back when its length
      leaves at least two bytes in the last block; what the plugin does of the others
      ([trace_roundtrip], {[plugin_exit_endings]}).
    - Wiring. Every port is bound once, to a channel of its kind and type, every input
      reads the signal it is named after whatever drives it, and the channels between the
      components are those [System] and [MemLoop] compose them by ([netlist_connected]).
    - Programs. The interrupt program succeeds on the core ([main_succeeds]), its
      tests check what they announce ([test2_checks_order], [test3_serves_enabled],
      {[interrupted_product]}); the statistics and the heap {[cpi_two_decimals],
      [sbrk_blocks]}; what the command line starts ([command_line]). The machine with
      hardware loops runs every program that obeys the rules of the documentation as its
      structured code ([hwlp_follows_source]); of the interrupt programs of hwlp.h that
      obey them one returns what its comment expects and one does not, since the end
      address is one instruction earlier than the comments count ([interrupt_results]).
      The matrix product is the sum of products it should be ([matmul_product]), and
      whether the floating-point test passes depends on the compiler fusing them
      {[fp_main_result]}.

    ** Fuel and bounds

    [allocate_loop] has one turn per identifier, enough while one is free;
    [refill_be] has 32, more than the words of a line; [serve] has 32, one per
    interrupt line; [middle_loop] has 4, more than the 32-bit elements of a 72-bit
    mask; [fill] has 32, the size of its buffer, after which the code writes out of
    it; [main_loop] has one turn per cycle of [max_cycles]. The loops around the
    compressor have a fuel with no bound in the source: their theorems are stated
    with [eventually], for every fuel from some value on, so they include termination;
    so are those of the hardware loops, whose programs run some tens of thousands
    of instructions each at most.
    The write queues of the memory processes have the 16 elements SystemC gives them
    by default, the two queues of responses 2.

    ** Parameters

    The cache, of which [Device] states the behaviour the test bench relies on: the
    order in which requests take effect, what a response carries, one atomic operation
    at a time, and what the first beat of a read without an error returns ([truthful]). The theorems about it hold for
    any error segments [segs] and any addresses [region] the reference memory keeps
    apart. For the hardware loops, what interrupts write below the stack pointer ([env])
    and what an illegal [dret] does ([trap]); the width of the timer of
    the write buffer, which the port of the wrapper takes from the RTL and the test
    bench writes as 3; the rule that the
    cache does not reuse an identifier in flight on its memory side ([disciplined]).
    What SystemC prints of a bit vector ([ScPrint]) and the scopes Verilator knows;
    whether the compiler fuses multiplications and additions ([contract]).
    The compressor ([Codec]); the parity and packing macro of the simulator
    ([SV_PACKED_DATA_NELEMS], [RamWf]); the heap symbols of the linker script; the
    interrupt arbiter, where a property is stated for any; which files can be opened
    ([good], [opens]), and when Verilator finishes. Each hypothesis about them has an instance.

    ** Not modelled

    The messages of the test bench other than the lines of its log (errors are values,
    kept apart by kind) and what the programs of the core print, but for [Stats],
    [Syscalls] and [Vectors]. Waves and coverage, which are calls of Verilator. The pipeline of the core under the hardware loops: [Hwlp] executes whole
    instructions, and keeps the code apart from the memory the programs write. A [dret] outside debug
    mode raises an illegal instruction, whose handler in custom/vectors.S clobbers
    registers and prints: it is the argument [trap], and the programs that hold one, which
    the documentation forbids and [main] does not run, are modelled and excluded from the
    properties. The scheduling of the
    four processes of the scoreboard that read from the memory model is free in
    [ml_step], and their FIFOs are drained before the next edge. The cache and the core
    themselves, which are SystemVerilog: the device is an environment, which answers
    freely in [System] and [MemLoop] and keeps the promises of [Device] in [Bench]. That
    the RTL keeps them is not shown. [Bench] leaves the data of the memory side to the
    device: the memory of [MemLoop] is not connected to it. The parts of the scoreboard under [ENABLE_CACHE_DIR_VERIF], which is
    commented out. The constraint solving of SCV ([keep_only] on a distribution is a
    parameter of [Delays]). miniz. *)
From Stdlib Require Export ZArith Lia Btauto.
From stdpp Require Export base gmap list numbers option.

#[global] Open Scope Z_scope.
#[global] Arguments Nat.div : simpl never.
#[global] Arguments Nat.modulo : simpl never.
#[global] Arguments Z.of_nat : simpl never.
#[global] Arguments Z.mul : simpl never.
#[global] Arguments Z.pow : simpl never.

(** ** Machine integers

    A [w]-bit unsigned integer of the source is a [Z] in [0, 2^w); [wrap w]
    writes the wrap-around out. *)
Definition wrap (w x : Z) : Z := x mod 2 ^ w.
Abbreviation u8 := (wrap 8).
Abbreviation u32 := (wrap 32).
Abbreviation u64 := (wrap 64).

(** The value of a two's complement [w]-bit integer whose bits are those of [x]. *)
Definition to_signed (w x : Z) : Z :=
  let y := wrap w x in if y <? 2 ^ (w - 1) then y else y - 2 ^ w.

(** [is_word w x]: [x] fits an unsigned [w]-bit integer. *)
Definition is_word (w x : Z) : Prop := 0 <= x < 2 ^ w.

#[export] Instance is_word_dec w x : Decision (is_word w x).
Proof. unfold is_word. apply _. Defined.

(** [sc_bv::range(hi, lo)] read as an unsigned integer, and its assignment. *)
Definition range (hi lo v : Z) : Z := Z.land (Z.shiftr v lo) (Z.ones (hi - lo + 1)).
Definition set_range (hi lo v x : Z) : Z :=
  Z.lor (Z.ldiff v (Z.shiftl (Z.ones (hi - lo + 1)) lo))
        (Z.shiftl (Z.land x (Z.ones (hi - lo + 1))) lo).

(** The masked update [(old & ~mask) | (data & mask)] the test bench uses. *)
Definition merge (old data mask : Z) : Z :=
  Z.lor (Z.ldiff old mask) (Z.land data mask).

(** Byte [i] of a word (little endian). *)
Definition byte_of (w : Z) (i : Z) : Z := Z.land (Z.shiftr w (8 * i)) 255.

(** ** Bit reasoning *)
Create Rewrite HintDb bits.

Lemma testbit_wrap w x i : 0 <= w -> Z.testbit (wrap w x) i = (i <? w) && Z.testbit x i.
Proof.
  intros Hw. unfold wrap. destruct (Z.ltb_spec i w).
  - destruct (Z.lt_ge_cases i 0).
    + by rewrite !Z.testbit_neg_r.
    + by rewrite Z.mod_pow2_bits_low.
  - rewrite Z.mod_pow2_bits_high; [done|lia].
Qed.

Lemma testbit_shiftl a n i :
  Z.testbit (Z.shiftl a n) i = (0 <=? i) && Z.testbit a (i - n).
Proof.
  destruct (Z.leb_spec 0 i); [by rewrite Z.shiftl_spec | by rewrite Z.testbit_neg_r].
Qed.

Lemma testbit_shiftr a n i :
  Z.testbit (Z.shiftr a n) i = (0 <=? i) && Z.testbit a (i + n).
Proof.
  destruct (Z.leb_spec 0 i); [by rewrite Z.shiftr_spec | by rewrite Z.testbit_neg_r].
Qed.

Lemma testbit_lnot a i : Z.testbit (Z.lnot a) i = (0 <=? i) && negb (Z.testbit a i).
Proof.
  destruct (Z.leb_spec 0 i); [by rewrite Z.lnot_spec | by rewrite Z.testbit_neg_r].
Qed.

Lemma testbit_ones n i : 0 <= n -> Z.testbit (Z.ones n) i = (0 <=? i) && (i <? n).
Proof. intros. by apply Z.testbit_ones. Qed.

Lemma testbit_255 i : Z.testbit 255 i = (0 <=? i) && (i <? 8).
Proof. change 255 with (Z.ones 8). by apply Z.testbit_ones. Qed.

Lemma testbit_1 i : Z.testbit 1 i = (i =? 0).
Proof. change 1 with (2 ^ 0). rewrite Z.pow2_bits_eqb by lia. apply Z.eqb_sym. Qed.

Lemma testbit_word w x i : is_word w x -> w <= i -> Z.testbit x i = false.
Proof.
  intros [H1 H2] Hi. destruct (Z.le_gt_cases 0 w).
  - rewrite <-(Z.mod_small x (2 ^ w)) by lia. apply Z.mod_pow2_bits_high. lia.
  - rewrite Z.pow_neg_r in H2; lia.
Qed.

#[export] Hint Rewrite Z.land_spec Z.lor_spec Z.lxor_spec Z.ldiff_spec
  testbit_shiftl testbit_shiftr testbit_lnot Z.testbit_0_l testbit_255 testbit_1 : bits.
#[export] Hint Rewrite testbit_wrap testbit_ones using lia : bits.

(** Splits every integer comparison of the goal, discharging the impossible
    branches, and finishes with boolean algebra. *)
Ltac split_cmps :=
  repeat match goal with
  | |- context [?a <? ?b] => destruct (Z.ltb_spec a b); try lia
  | |- context [?a <=? ?b] => destruct (Z.leb_spec a b); try lia
  | |- context [?a =? ?b] => destruct (Z.eqb_spec a b); try lia
  end.

Ltac bits_simpl :=
  autorewrite with bits; split_cmps;
  rewrite ?andb_true_l, ?andb_false_l, ?andb_true_r, ?andb_false_r,
          ?orb_false_l, ?orb_false_r, ?orb_true_l, ?orb_true_r.

(** Equality of integers, bit by bit. *)
Ltac bitwise :=
  apply Z.bits_inj'; intros ?i ?Hi; bits_simpl; try done; try btauto.

(** ** Ranges of the word operations *)
Lemma wrap_word w x : 0 <= w -> is_word w (wrap w x).
Proof. intros. apply Z.mod_pos_bound. lia. Qed.

Lemma wrap_small w x : is_word w x -> wrap w x = x.
Proof. intros H. by apply Z.mod_small. Qed.

Lemma wrap_wrap w x : wrap w (wrap w x) = wrap w x.
Proof. apply Zmod_mod. Qed.

Lemma is_word_bits w x :
  0 <= w -> 0 <= x -> (forall i, w <= i -> Z.testbit x i = false) -> is_word w x.
Proof.
  intros Hw Hx Hb. assert (x = wrap w x) as ->; [|by apply wrap_word].
  apply Z.bits_inj'. intros i Hi. rewrite testbit_wrap by lia.
  destruct (Z.ltb_spec i w); [done|]. by rewrite Hb by lia.
Qed.

Lemma lor_word w x y : 0 <= w -> is_word w x -> is_word w y -> is_word w (Z.lor x y).
Proof.
  intros Hw Hx Hy. apply is_word_bits; [done| |].
  - apply Z.lor_nonneg. unfold is_word in *. lia.
  - intros i Hi. by rewrite Z.lor_spec, (testbit_word w x), (testbit_word w y).
Qed.

Lemma land_word_r w x y : 0 <= w -> is_word w y -> is_word w (Z.land x y).
Proof.
  intros Hw Hy. apply is_word_bits; [done| |].
  - apply Z.land_nonneg. unfold is_word in *. lia.
  - intros i Hi. by rewrite Z.land_spec, (testbit_word w y), andb_false_r.
Qed.

Lemma land_word_l w x y : 0 <= w -> is_word w x -> is_word w (Z.land x y).
Proof. intros. rewrite Z.land_comm. by apply land_word_r. Qed.

Lemma ldiff_word w x y : 0 <= w -> is_word w x -> is_word w (Z.ldiff x y).
Proof.
  intros Hw Hx. apply is_word_bits; [done| |].
  - apply Z.ldiff_nonneg. unfold is_word in *. lia.
  - intros i Hi. by rewrite Z.ldiff_spec, (testbit_word w x).
Qed.

Lemma lxor_word w x y : 0 <= w -> is_word w x -> is_word w y -> is_word w (Z.lxor x y).
Proof.
  intros Hw Hx Hy. apply is_word_bits; [done| |].
  - apply Z.lxor_nonneg. unfold is_word in *. lia.
  - intros i Hi. by rewrite Z.lxor_spec, (testbit_word w x), (testbit_word w y).
Qed.

Lemma merge_word w old data mask :
  0 <= w -> is_word w old -> is_word w data -> is_word w (merge old data mask).
Proof.
  intros. unfold merge. apply lor_word; [done|by apply ldiff_word|by apply land_word_l].
Qed.

Lemma byte_of_word w i : is_word 8 (byte_of w i).
Proof. apply land_word_r; [lia|done]. Qed.

Create HintDb words.
#[export] Hint Resolve wrap_word lor_word land_word_l land_word_r ldiff_word lxor_word
  merge_word byte_of_word : words.

(** ** Masked updates *)
Lemma testbit_merge old data mask i :
  Z.testbit (merge old data mask) i =
  if Z.testbit mask i then Z.testbit data i else Z.testbit old i.
Proof.
  unfold merge. autorewrite with bits.
  destruct (Z.testbit mask i), (Z.testbit old i), (Z.testbit data i); done.
Qed.
#[export] Hint Rewrite testbit_merge : bits.

Lemma merge_idem old data mask : merge (merge old data mask) data mask = merge old data mask.
Proof. bitwise. Qed.

Lemma merge_zero_mask old data : merge old data 0 = old.
Proof. bitwise. Qed.

Lemma merge_comm old d1 m1 d2 m2 :
  Z.land m1 m2 = 0 -> merge (merge old d1 m1) d2 m2 = merge (merge old d2 m2) d1 m1.
Proof.
  intros H. bitwise. apply (f_equal (fun z => Z.testbit z i)) in H.
  rewrite Z.land_spec, Z.testbit_0_l in H.
  destruct (Z.testbit m1 i), (Z.testbit m2 i); done.
Qed.

Lemma merge_full w old data :
  0 <= w -> is_word w old -> is_word w data -> merge old data (Z.ones w) = data.
Proof.
  intros Hw Ho Hd. bitwise. by rewrite (testbit_word w old), (testbit_word w data).
Qed.

(** ** Bit-vector slices *)
Lemma testbit_range hi lo v i :
  0 <= lo -> lo <= hi + 1 ->
  Z.testbit (range hi lo v) i = (0 <=? i) && (i <? hi - lo + 1) && Z.testbit v (i + lo).
Proof.
  intros. unfold range. autorewrite with bits.
  destruct (0 <=? i); simpl; [apply andb_comm|done].
Qed.

Lemma testbit_set_range hi lo v x i :
  0 <= lo -> lo <= hi + 1 ->
  Z.testbit (set_range hi lo v x) i =
  if (lo <=? i) && (i <=? hi) then Z.testbit x (i - lo) else Z.testbit v i.
Proof.
  intros. unfold set_range. autorewrite with bits.
  split_cmps; simpl; rewrite ?andb_true_r, ?andb_false_r, ?orb_false_r; try done;
    rewrite !Z.testbit_neg_r by lia; done.
Qed.
#[export] Hint Rewrite testbit_range testbit_set_range using lia : bits.

Lemma range_word hi lo v : lo <= hi + 1 -> is_word (hi - lo + 1) (range hi lo v).
Proof.
  intros. apply land_word_r; [lia|]. rewrite Z.ones_equiv.
  pose proof (Z.pow_pos_nonneg 2 (hi - lo + 1)). unfold is_word. lia.
Qed.

(** Reading back the slice that was assigned gives the value, truncated to the
    slice's width; reading a slice disjoint from it is not affected. *)
Lemma range_set_range_same hi lo v x :
  0 <= lo -> lo <= hi + 1 -> range hi lo (set_range hi lo v x) = wrap (hi - lo + 1) x.
Proof. intros. bitwise. by replace (i + lo - lo) with i by lia. Qed.

Lemma range_set_range_other hi lo hi' lo' v x :
  0 <= lo -> lo <= hi + 1 -> 0 <= lo' -> lo' <= hi' + 1 -> hi' < lo \/ hi < lo' ->
  range hi' lo' (set_range hi lo v x) = range hi' lo' v.
Proof. intros. bitwise. Qed.

(** ** Bytes of words *)
Lemma testbit_byte_of w k i :
  0 <= k -> Z.testbit (byte_of w k) i = (0 <=? i) && (i <? 8) && Z.testbit w (i + 8 * k).
Proof. intros. unfold byte_of. bits_simpl; done. Qed.
#[export] Hint Rewrite testbit_byte_of using lia : bits.

Lemma byte_of_merge old data mask k :
  0 <= k -> byte_of (merge old data mask) k = merge (byte_of old k) (byte_of data k) (byte_of mask k).
Proof. intros. bitwise. Qed.

(** A mask that is uniform on byte [k] selects or keeps that byte. *)
Lemma byte_of_merge_uniform old data mask k b :
  0 <= k -> (forall j, 8 * k <= j < 8 * k + 8 -> Z.testbit mask j = b) ->
  byte_of (merge old data mask) k = if b then byte_of data k else byte_of old k.
Proof.
  intros Hk Hm. unfold byte_of, merge. apply Z.bits_inj'. intros i Hi.
  destruct b; bits_simpl; try done; rewrite Hm by lia; bits_simpl; done || btauto.
Qed.

(** A boolean property of the integers of an interval, by enumeration. *)
Lemma forallb_interval (P : Z -> bool) lo hi :
  forallb P (seqZ lo (hi - lo)) = true -> forall x, lo <= x < hi -> P x = true.
Proof.
  intros H x Hx. rewrite forallb_forall in H. apply H, list_elem_of_In, elem_of_seqZ. lia.
Qed.

(** Two 64-bit words with the same eight bytes are equal. *)
Lemma word64_ext x y :
  is_word 64 x -> is_word 64 y ->
  (forall k, 0 <= k < 8 -> byte_of x k = byte_of y k) -> x = y.
Proof.
  intros Hx Hy H. apply Z.bits_inj'. intros i Hi.
  destruct (Z.lt_ge_cases i 64).
  - specialize (H (i / 8) ltac:(split; [apply Z.div_pos|apply Z.div_lt_upper_bound]; lia)).
    apply (f_equal (fun z => Z.testbit z (i mod 8))) in H.
    pose proof (Z.mod_pos_bound i 8 ltac:(lia)).
    pose proof (Z.div_pos i 8 ltac:(lia) ltac:(lia)).
    rewrite !testbit_byte_of in H by lia.
    rewrite (Z.add_comm (i mod 8)), <-Z.div_mod in H by lia.
    destruct (Z.leb_spec 0 (i mod 8)), (Z.ltb_spec (i mod 8) 8); simpl in H; [done|lia..].
  - by rewrite !(testbit_word 64).
Qed.

(** The bytes of a list of 64-bit words, as [reinterpret_cast<uint8_t*>] shows
    them on the little-endian host. *)
Definition bytes_of_words (ws : list Z) : list Z :=
  flat_map (fun w => map (fun k => byte_of w (Z.of_nat k)) (seq 0 8)) ws.

Lemma length_bytes_of_words ws : length (bytes_of_words ws) = (8 * length ws)%nat.
Proof. induction ws; simpl; [done|]. simpl in *. lia. Qed.

Lemma bytes_of_words_lookup ws i w :
  ws !! (i `div` 8)%nat = Some w ->
  bytes_of_words ws !! i = Some (byte_of w (Z.of_nat (i `mod` 8)%nat)).
Proof.
  revert i. induction ws as [|w' ws IH]; intros i Hi; [done|].
  change (bytes_of_words (w' :: ws))
    with (map (fun k => byte_of w' (Z.of_nat k)) (seq 0 8) ++ bytes_of_words ws).
  destruct (decide (i < 8)%nat) as [Hlt|Hge].
  - rewrite Nat.div_small in Hi by done. injection Hi as ->.
    rewrite Nat.mod_small, lookup_app_l by (simpl; lia).
    do 8 (destruct i as [|i]; [done|]). lia.
  - rewrite lookup_app_r by (simpl; lia).
    replace (length (map (fun k => byte_of w' (Z.of_nat k)) (seq 0 8))) with 8%nat by done.
    assert (i = (1 * 8 + (i - 8))%nat) as Hi' by lia.
    rewrite Hi', Nat.div_add_l in Hi by lia. rewrite (IH (i - 8)%nat Hi).
    do 3 f_equal. rewrite Hi' at 2. by rewrite Nat.add_comm, Nat.Div0.mod_add.
Qed.

(** ** Searching an array from its first index *)
Fixpoint find_first (n : nat) (p : nat -> bool) : option nat :=
  match n with
  | O => None
  | S m => match find_first m p with
           | Some i => Some i
           | None => if p m then Some m else None
           end
  end.

Lemma find_first_Some n p i :
  find_first n p = Some i <->
  (i < n)%nat /\ p i = true /\ forall j, (j < i)%nat -> p j = false.
Proof.
  revert i. induction n as [|n IH]; intros i; simpl.
  - split; [done|]. intros (?&_). lia.
  - destruct (find_first n p) as [k|] eqn:E.
    + destruct (proj1 (IH k) eq_refl) as (Hk & Hp & Hmin). split.
      * intros [= ->]. auto with lia.
      * intros (Hi & Hpi & Hmini). f_equal.
        destruct (Nat.lt_trichotomy k i) as [Hlt|[->|Hlt]]; [|done|].
        -- by rewrite Hmini in Hp.
        -- by rewrite Hmin in Hpi.
    + assert (forall j, (j < n)%nat -> p j = false) as Hnone.
      { intros j. induction j as [j IHj] using lt_wf_ind. intros Hj.
        destruct (p j) eqn:Hpj; [|done]. exfalso.
        assert (@None nat = Some j) as [=]. apply IH. split_and!; [done|done|].
        intros k Hk. apply IHj; lia. }
      destruct (p n) eqn:Hpn; split.
      * intros [= <-]. auto with lia.
      * intros (Hi & Hpi & _). f_equal.
        destruct (decide (i < n)%nat); [by rewrite Hnone in Hpi|lia].
      * done.
      * intros (Hi & Hpi & _). destruct (decide (i < n)%nat) as [|Hn]; [by rewrite Hnone in Hpi|].
        assert (i = n) as -> by lia. congruence.
Qed.

Lemma find_first_None n p :
  find_first n p = None <-> forall j, (j < n)%nat -> p j = false.
Proof.
  split.
  - intros E j. induction j as [j IHj] using lt_wf_ind. intros Hj.
    destruct (p j) eqn:Hpj; [|done]. exfalso.
    assert (find_first n p = Some j) as E'; [|congruence].
    apply find_first_Some. split_and!; [done|done|]. intros k Hk. apply IHj; lia.
  - intros H. destruct (find_first n p) eqn:E; [|done].
    apply find_first_Some in E as (?&Hp&_). by rewrite H in Hp.
Qed.

Lemma find_first_ext n p q :
  (forall j, (j < n)%nat -> p j = q j) -> find_first n p = find_first n q.
Proof.
  intros H. induction n as [|n IH]; simpl; [done|].
  rewrite IH by auto with lia. destruct (find_first n q); [done|]. by rewrite H by lia.
Qed.

(** ** C computations

    A computation that may end the program with [exit], reach undefined behaviour
    (or a failed assertion), or use up the fuel of a loop. *)
Inductive exec (A : Type) :=
  | Ret (a : A)
  | Exited (code : Z)
  | Fault
  | Diverges.
Arguments Ret {A}. Arguments Exited {A}. Arguments Fault {A}. Arguments Diverges {A}.

#[export] Instance exec_ret : MRet exec := @Ret.
#[export] Instance exec_bind : MBind exec := fun _ _ f m =>
  match m with Ret a => f a | Exited c => Exited c | Fault => Fault | Diverges => Diverges end.

Definition fault_if_none {A} (o : option A) : exec A :=
  match o with Some a => Ret a | None => Fault end.

Lemma exec_bind_ret {A B} (a : A) (f : A -> exec B) : (Ret a ≫= f) = f a.
Proof. done. Qed.

Lemma exec_bind_Ret_inv {A B} (m : exec A) (f : A -> exec B) b :
  (m ≫= f) = Ret b -> exists a, m = Ret a /\ f a = Ret b.
Proof. destruct m; simpl; try done. eauto. Qed.

(** [m] returns the same result whatever the fuel, once it is large enough. *)
Definition eventually {A} (m : nat -> exec A) (P : A -> Prop) : Prop :=
  exists n a, (forall fuel, (n <= fuel)%nat -> m fuel = Ret a) /\ P a.

Lemma eventually_ret {A} (m : nat -> exec A) (a : A) (P : A -> Prop) :
  (forall fuel, m fuel = Ret a) -> P a -> eventually m P.
Proof. intros H Hp. exists 0%nat, a. auto. Qed.

Lemma eventually_bind {A B} (m : nat -> exec A) (f : nat -> A -> exec B) P Q :
  eventually m P -> (forall a, P a -> eventually (fun fuel => f fuel a) Q) ->
  eventually (fun fuel => m fuel ≫= f fuel) Q.
Proof.
  intros (n & a & Hm & Hp) Hf. destruct (Hf a Hp) as (n' & b & Hb & Hq).
  exists (max n n'), b. split; [|done]. intros fuel Hle.
  rewrite Hm, exec_bind_ret by lia. apply Hb. lia.
Qed.

Lemma eventually_mono {A} (m : nat -> exec A) (P Q : A -> Prop) :
  eventually m P -> (forall a, P a -> Q a) -> eventually m Q.
Proof. intros (n & a & Hm & Hp) H. exists n, a. auto. Qed.

Lemma eventually_ext {A} (m m' : nat -> exec A) P :
  (forall fuel, m fuel = m' fuel) -> eventually m' P -> eventually m P.
Proof. intros He (n & a & Hm & Hp). exists n, a. split; [|done]. intros. rewrite He. auto. Qed.

Lemma eventually_S {A} (m m' : nat -> exec A) P :
  (forall fuel, m (S fuel) = m' fuel) -> eventually m' P -> eventually m P.
Proof.
  intros He (n & a & Hm & Hp). exists (S n), a. split; [|done].
  intros [|fuel] Hle; [lia|]. rewrite He. apply Hm. lia.
Qed.

(** ** Little-endian integers *)
Fixpoint le_split (n : nat) (w : Z) : list Z :=
  match n with O => [] | S n => Z.land w 255 :: le_split n (Z.shiftr w 8) end.
Fixpoint le_combine (l : list Z) : Z :=
  match l with [] => 0 | b :: l => Z.lor b (Z.shiftl (le_combine l) 8) end.

Lemma length_le_split n w : length (le_split n w) = n.
Proof. revert w. induction n; intros; simpl; auto. Qed.

Lemma le_combine_nonneg l : Forall (is_word 8) l -> 0 <= le_combine l.
Proof.
  induction 1 as [|b l [Hb _] _ IH]; simpl; [done|].
  apply Z.lor_nonneg. split; [done|]. by apply Z.shiftl_nonneg.
Qed.

Lemma le_split_bytes n w : Forall (is_word 8) (le_split n w).
Proof.
  revert w. induction n; intros w; simpl; constructor; [|done]. apply land_word_r; [lia|done].
Qed.

Lemma le_combine_split n w : le_combine (le_split n w) = wrap (8 * Z.of_nat n) w.
Proof.
  revert w. induction n as [|n IH]; intros w; simpl le_combine.
  { unfold wrap. by rewrite Z.mul_0_r, Z.mod_1_r. }
  rewrite IH. apply Z.bits_inj'. intros i Hi.
  rewrite testbit_wrap, Z.lor_spec, Z.land_spec, testbit_shiftl, testbit_255 by lia.
  rewrite testbit_wrap, testbit_shiftr by lia.
  destruct (Z.ltb_spec i 8).
  - rewrite (proj2 (Z.leb_le 0 i)), (proj2 (Z.ltb_lt i (8 * Z.of_nat (S n)))) by lia.
    rewrite (proj2 (Z.leb_gt 0 (i - 8))) by lia. simpl. rewrite !andb_true_r, andb_false_r. apply orb_false_r.
  - rewrite andb_false_r, andb_false_r. simpl.
    rewrite (proj2 (Z.leb_le 0 i)), (proj2 (Z.leb_le 0 (i - 8))) by lia. simpl.
    replace (i - 8 + 8) with i by lia. f_equal. split_cmps; done.
Qed.
