(* ===== verification/Codec.v ===== *)
(** * Compressed streams: the calls of [miniz] the trace files use

    The QEMU plugin writes its trace through [mz_deflate] and the trace reader
    reads it through [mz_inflate]. The compression library is third-party code; it
    is an interface here: the two calls as functions of the stream, the input
    offered and the room for output, with the contract its header documents as the
    laws. A codec that stores each byte behind a marker satisfies the interface. *)
From S2P Require Import Prelude.

Definition MZ_NO_FLUSH : Z := 0.
Definition MZ_SYNC_FLUSH : Z := 2.
Definition MZ_FINISH : Z := 4.
Definition MZ_OK : Z := 0.
Definition MZ_STREAM_END : Z := 1.
Definition MZ_STREAM_ERROR : Z := -2.
Definition MZ_BUF_ERROR : Z := -5.

(** What a call returns: its code, the stream, the number of input bytes it
    consumed and the bytes it produced. *)
Record stream_call (S : Type) := {
  call_ret : Z; call_stream : S; call_used : nat; call_out : list Z;
}.
Arguments call_ret {S}. Arguments call_stream {S}.
Arguments call_used {S}. Arguments call_out {S}.

(** [mz_deflate st flush input avail_out] and [mz_inflate], with the streams
    [mz_deflateInit] and [mz_inflateInit] make. *)
Class Codec := {
  dstream : Type;
  istream : Type;
  deflateInit : dstream;
  inflateInit : istream;
  mz_deflate : dstream -> Z -> list Z -> nat -> stream_call dstream;
  mz_inflate : istream -> Z -> list Z -> nat -> stream_call istream;
}.

(** A deflate stream is open, finishing with the input it was not yet able to
    take, or ended. *)
Inductive phase := Open | Finishing (rest : list Z) | Ended.

#[export] Instance phase_eq_dec : EqDecision phase.
Proof. solve_decision. Defined.

Definition legal (ph : phase) (flush : Z) (input : list Z) : Prop :=
  match ph with
  | Open => flush = MZ_NO_FLUSH \/ flush = MZ_FINISH
  | Finishing rest => flush = MZ_FINISH /\ input = rest
  | Ended => False
  end.

Definition phase_after (flush : Z) (input : list Z) (used nout room : nat) (ph : phase) : Prop :=
  match ph with
  | Open => flush = MZ_NO_FLUSH /\ (nout < room -> used = length input)%nat
  | Finishing rest => flush = MZ_FINISH /\ rest = drop used input /\ nout = room
  | Ended => flush = MZ_FINISH /\ used = length input
  end.

Class CodecLaws (C : Codec) := {
  (** [deflated st i o ph]: the stream has taken [i] and produced [o]. *)
  deflated : dstream -> list Z -> list Z -> phase -> Prop;
  (** [inflated st c d ended]: the stream has taken [c] and produced [d]. *)
  inflated : istream -> list Z -> list Z -> bool -> Prop;
  (** A bound on the output bytes left to produce. *)
  deflate_todo : dstream -> Z -> list Z -> nat;
  deflate_init_law : deflated deflateInit [] [] Open;
  inflate_init_law : inflated inflateInit [] [] false;
  deflate_no_room st flush input :
    mz_deflate st flush input 0 =
      {| call_ret := MZ_BUF_ERROR; call_stream := st; call_used := 0; call_out := [] |};
  deflate_step st flush input room i o ph :
    room <> 0%nat -> deflated st i o ph -> legal ph flush input ->
    let c := mz_deflate st flush input room in
    call_ret c <> MZ_STREAM_ERROR /\ (call_used c <= length input)%nat
    /\ (length (call_out c) <= room)%nat
    /\ exists ph', deflated (call_stream c) (i ++ take (call_used c) input) (o ++ call_out c) ph'
       /\ phase_after flush input (call_used c) (length (call_out c)) room ph'
       /\ (length (call_out c) = room -> ph' <> Ended ->
           deflate_todo (call_stream c) flush (drop (call_used c) input)
             < deflate_todo st flush input)%nat;
  deflate_ended st i o room :
    room <> 0%nat -> deflated st i o Ended ->
    mz_deflate st MZ_FINISH [] room =
      {| call_ret := MZ_STREAM_END; call_stream := st; call_used := 0; call_out := [] |};
  (** Inflating what was deflated: the output is the original, in order; the call
      stops short of its input only when the output is full, and reports the end
      exactly when the stream is over. *)
  inflate_step st0 i o st input room c d :
    room <> 0%nat -> deflated st0 i o Ended -> inflated st c d false ->
    c ++ input `prefix_of` o -> d `prefix_of` i ->
    let r := mz_inflate st MZ_SYNC_FLUSH input room in
    call_ret r <> MZ_STREAM_ERROR /\ (call_used r <= length input)%nat
    /\ (length (call_out r) <= room)%nat
    /\ d ++ call_out r `prefix_of` i
    /\ exists ended, inflated (call_stream r) (c ++ take (call_used r) input) (d ++ call_out r) ended
       /\ (call_ret r = MZ_STREAM_END <-> ended = true)
       /\ (ended = true -> c ++ take (call_used r) input = o /\ d ++ call_out r = i)
       /\ (length (call_out r) < room ->
           call_used r = length input /\ (c ++ input = o -> ended = true))%nat;
}.

(** ** A codec *)
Module Stored.
Definition enc (l : list Z) : list Z := flat_map (fun b => [1; b]) l.

Record dstate := { pending : list Z; finishing : bool }.

Definition deflate (st : dstate) (flush : Z) (input : list Z) (room : nat) : stream_call dstate :=
  match room with
  | O => {| call_ret := MZ_BUF_ERROR; call_stream := st; call_used := 0; call_out := [] |}
  | _ =>
    if finishing st && bool_decide (pending st = []) then
      {| call_ret := MZ_STREAM_END; call_stream := st; call_used := 0; call_out := [] |}
    else
    let fin := bool_decide (flush = MZ_FINISH) in
    let all := pending st ++ enc input ++ (if fin && negb (finishing st) then [0] else []) in
    {| call_ret := if (fin || finishing st) && bool_decide (drop room all = []) then MZ_STREAM_END else MZ_OK;
       call_stream := {| pending := drop room all; finishing := fin || finishing st |};
       call_used := length input; call_out := take room all |}
  end.

(** Decoding at most [n] bytes: the output and the input left over. *)
Fixpoint dec (n : nat) (l : list Z) : list Z * list Z :=
  match n, l with
  | S n, 1 :: b :: l => let '(out, rest) := dec n l in (b :: out, rest)
  | _, _ => ([], l)
  end.

Definition inflate (st : list Z) (flush : Z) (input : list Z) (room : nat) : stream_call (list Z) :=
  let '(out, rest) := dec room (st ++ input) in
  {| call_ret := if bool_decide (head rest = Some 0) then MZ_STREAM_END else MZ_OK;
     call_stream := rest; call_used := length input; call_out := out |}.

#[export] Instance stored_codec : Codec := {|
  dstream := dstate; istream := list Z;
  deflateInit := {| pending := []; finishing := false |}; inflateInit := [];
  mz_deflate := deflate; mz_inflate := inflate;
|}.

Definition deflated_rel (st : dstate) (i o : list Z) (ph : phase) : Prop :=
  o ++ pending st = enc i ++ (if finishing st then [0] else [])
  /\ ph = (if finishing st then if decide (pending st = []) then Ended else Finishing [] else Open).

Definition inflated_rel (st c d : list Z) (ended : bool) : Prop :=
  c = enc d ++ st /\ (ended = true <-> head st = Some 0).

Definition todo (st : dstate) (flush : Z) (input : list Z) : nat :=
  length (pending st) + length (enc input) + (if finishing st then 0 else 1).

Lemma enc_app a b : enc (a ++ b) = enc a ++ enc b.
Proof. apply flat_map_app. Qed.

Lemma dec_spec n l i :
  l `prefix_of` enc i ++ [0] ->
  exists out rest, dec n l = (out, rest) /\ l = enc out ++ rest /\ (length out <= n)%nat
    /\ out `prefix_of` i
    /\ (head rest = Some 0 -> out = i /\ rest = [0])
    /\ ((length out < n)%nat -> rest = [] \/ rest = [1] \/ rest = [0]).
Proof.
  revert l i. induction n as [|n IH]; intros l i Hp.
  - exists [], l. simpl. split_and!; [done|done|lia|apply prefix_nil| |lia].
    destruct i as [|b i]; simpl in *.
    + destruct l as [|x l]; [done|]. apply prefix_cons_inv_2 in Hp as Hq.
      intros [= ->]. apply prefix_nil_inv in Hq as ->. done.
    + destruct l as [|x l]; [done|]. apply prefix_cons_inv_1 in Hp as ->. done.
  - destruct i as [|b i]; simpl in Hp.
    + exists [], l. destruct l as [|x l]; simpl.
      { split_and!; try done; [lia|by left]. }
      apply prefix_cons_inv_1 in Hp as Hx. apply prefix_cons_inv_2, prefix_nil_inv in Hp as ->.
      subst x. simpl. split_and!; try done; [lia|by right; right].
    + destruct l as [|x [|y l]].
      * exists [], []. simpl. split_and!; try done; [lia|apply prefix_nil|by left].
      * apply prefix_cons_inv_1 in Hp as Hx. subst x. exists [], [1]. simpl.
        split_and!; try done; [lia|apply prefix_nil|by right; left].
      * apply prefix_cons_inv_1 in Hp as Hx. apply prefix_cons_inv_2 in Hp.
        apply prefix_cons_inv_1 in Hp as Hy. apply prefix_cons_inv_2 in Hp. subst x y.
        destruct (IH l i Hp) as (out & rest & Hd & Hl & Hn & Ho & Hh & Hr).
        exists (b :: out), rest. cbn [dec]. rewrite Hd. simpl.
        split_and!; [done|by rewrite Hl|lia|by apply prefix_cons| |intros; apply Hr; lia].
        intros Hz. destruct (Hh Hz) as [-> ->]. done.
Qed.

#[export] Program Instance stored_laws : CodecLaws stored_codec := {|
  deflated := deflated_rel; inflated := inflated_rel; deflate_todo := todo;
|}.
Next Obligation. by split. Qed.
Next Obligation. by split. Qed.
Next Obligation. done. Qed.
Next Obligation.
  intros st flush input room i o ph Hroom [Ho ->] Hl. simpl in *. destruct room as [|room]; [done|].
  unfold deflate. destruct (finishing st) eqn:Hf; [destruct (decide (pending st = [])) as [|Hp]; [done|]|].
  - destruct Hl as [-> ->]. rewrite (bool_decide_false (pending st = [])) by done. simpl.
    rewrite ?app_nil_r.
    split_and!; [by destruct bool_decide|lia|rewrite length_take; lia|].
    eexists. split; [split; [|reflexivity]|].
    + simpl. by rewrite <-app_assoc, take_drop.
    + simpl. destruct decide as [Hd|Hd]; simpl; [done|]. split_and!; try done.
      * apply length_take_le. apply Nat.lt_le_incl, Nat.lt_nge. intros Hle.
        apply Hd, drop_ge. lia.
      * intros Ht _. unfold todo. simpl. rewrite Hf, length_drop. rewrite length_take in Ht.
        change (length (@nil Z)) with O. destruct (pending st); [done|]. simpl length in *. lia.
  - simpl. rewrite (take_ge input) by lia. split_and!; [by destruct (_ && _)|done|rewrite length_take; lia|].
    eexists. split; [split; [|reflexivity]|].
    + simpl. rewrite <-app_assoc, take_drop, app_assoc, Ho, app_nil_r, enc_app, <-app_assoc.
      by destruct Hl as [-> | ->].
    + destruct Hl as [-> | ->]; simpl.
      * split_and!; [done|done|]. intros Ht _. unfold todo. simpl.
        rewrite Hf, drop_all, length_drop. rewrite length_take in Ht.
        rewrite !length_app in *. change (length (@nil Z)) with O in *.
        change (length (enc [])) with O. lia.
      * destruct decide as [Hd|Hd]; simpl; [done|]. split_and!; [done|by rewrite drop_all| |].
        -- apply length_take_le. apply Nat.lt_le_incl, Nat.lt_nge. intros Hle. apply Hd, drop_ge. lia.
        -- intros Ht _. unfold todo. simpl. rewrite Hf, drop_all, length_drop.
           rewrite length_take in Ht. rewrite !length_app in *. change (length [0]) with 1%nat in *.
           change (length (enc [])) with O. lia.
Qed.
Next Obligation.
  intros st i o room Hroom [Ho He]. simpl in *. unfold deflate. destruct room; [done|].
  destruct (finishing st); [|done]. destruct (decide (pending st = [])) as [->|]; [|done]. done.
Qed.
Next Obligation.
  intros st0 i o st input room c d Hroom [Ho He] [Hc Hend] Hp Hd. simpl in *.
  destruct (finishing st0); [|done]. destruct (decide (pending st0 = [])) as [Hpe|]; [|done].
  rewrite Hpe, app_nil_r in Ho. subst o c. destruct Hd as [i' ->].
  assert (st ++ input `prefix_of` enc i' ++ [0]) as Hp'.
  { rewrite enc_app, <-!app_assoc in Hp. by apply prefix_app_inv in Hp. }
  destruct (dec_spec room _ _ Hp') as (out & rest & Hdec & Hl & Hn & Hpre & Hz & Hr).
  unfold inflate. rewrite Hdec. simpl. rewrite (take_ge input) by lia.
  split_and!; [by destruct bool_decide|done|done|by apply prefix_app|].
  exists (bool_decide (head rest = Some 0)). split_and!.
  - split; [|by rewrite bool_decide_eq_true]. by rewrite <-app_assoc, Hl, enc_app, app_assoc.
  - by destruct bool_decide.
  - intros Hb%bool_decide_eq_true. destruct (Hz Hb) as [-> ->].
    split; [|done]. by rewrite <-app_assoc, Hl, enc_app, app_assoc.
  - intros Hlt. split; [done|]. intros Hall.
    rewrite <-app_assoc, Hl, enc_app, <-app_assoc in Hall.
    apply app_inv_head in Hall. destruct Hpre as [i'' ->]. rewrite enc_app, <-app_assoc in Hall.
    apply app_inv_head in Hall. destruct (Hr Hlt) as [-> | [-> | ->]]; [|destruct i''; done|done].
    destruct i''; done.
Qed.
End Stored.
