(* ===== verification/Defs.v ===== *)
(** * Global definitions of the test bench ([hpdcache_test_defs.h])

    The preprocessor configuration of the test bench is a class, [HpdConfig],
    whose instance [default_config] holds the values of the [#ifndef] branches;
    the derived widths are definitions over it. [config_wf] collects what every
    shipped configuration satisfies. *)
From S2P Require Import Prelude.

(** [HPDCACHE_TEST_DEFS_LOG2(x)] *)
Definition HPDCACHE_TEST_DEFS_LOG2 (x : Z) : Z :=
  if x <=? 1 then 0 else
  if x <=? 2 then 1 else
  if x <=? 4 then 2 else
  if x <=? 8 then 3 else
  if x <=? 16 then 4 else
  if x <=? 32 then 5 else
  if x <=? 64 then 6 else
  if x <=? 128 then 7 else
  if x <=? 256 then 8 else
  if x <=? 512 then 9 else
  if x <=? 1024 then 10 else
  if x <=? 2048 then 11 else
  if x <=? 4096 then 12 else
  if x <=? 8192 then 13 else
  if x <=? 16384 then 14 else 0.

(** [#define SCOREBOARD_RAM_SIZE (16 << 20)] *)
Definition SCOREBOARD_RAM_SIZE : Z := Z.shiftl 16 20.

(** The parameters a build may override with [-DCONF_HPDCACHE_...]. *)
Class HpdConfig := {
  HPDCACHE_WAYS : Z;
  HPDCACHE_SETS : Z;
  HPDCACHE_CL_WORDS : Z;
  HPDCACHE_WORD_WIDTH : Z;
  HPDCACHE_PA_WIDTH : Z;
  HPDCACHE_REQ_WORDS : Z;
  HPDCACHE_MEM_ADDR_WIDTH : Z;
  HPDCACHE_MEM_DATA_WIDTH : Z;
  HPDCACHE_MEM_ID_WIDTH : Z;
  HPDCACHE_REQ_SRC_ID_WIDTH : Z;
  HPDCACHE_REQ_TRANS_ID_WIDTH : Z;
}.

Definition default_config : HpdConfig := {|
  HPDCACHE_WAYS := 8;
  HPDCACHE_SETS := 64;
  HPDCACHE_CL_WORDS := 8;
  HPDCACHE_WORD_WIDTH := 64;
  HPDCACHE_PA_WIDTH := 49;
  HPDCACHE_REQ_WORDS := 1;
  HPDCACHE_MEM_ADDR_WIDTH := 64;
  HPDCACHE_MEM_DATA_WIDTH := 512;
  HPDCACHE_MEM_ID_WIDTH := 4;
  HPDCACHE_REQ_SRC_ID_WIDTH := 3;
  HPDCACHE_REQ_TRANS_ID_WIDTH := 6;
|}.

Definition HPDCACHE_REQ_OP_WIDTH : Z := 5.
Definition HPDCACHE_REQ_SIZE_WIDTH : Z := 3.
Definition HPDCACHE_REQ_PMA_WIDTH : Z := 5.
Definition HPDCACHE_REQ_NEED_RSP_WIDTH : Z := 1.
Definition HPDCACHE_REQ_PHYS_INDEXED_WIDTH : Z := 1.
Definition HPDCACHE_RSP_ERROR_WIDTH : Z := 1.
Definition HPDCACHE_RSP_ABORTED_WIDTH : Z := 1.

Section Derived.
Context {cfg : HpdConfig}.

Definition HPDCACHE_REQ_DATA_WIDTH : Z := HPDCACHE_REQ_WORDS * HPDCACHE_WORD_WIDTH.
Definition HPDCACHE_SET_WIDTH : Z := HPDCACHE_TEST_DEFS_LOG2 HPDCACHE_SETS.
Definition HPDCACHE_CL_OFFSET_WIDTH : Z :=
  HPDCACHE_TEST_DEFS_LOG2 ((HPDCACHE_CL_WORDS * HPDCACHE_WORD_WIDTH) / 8).
Definition HPDCACHE_NLINE_WIDTH : Z := HPDCACHE_PA_WIDTH - HPDCACHE_CL_OFFSET_WIDTH.
Definition HPDCACHE_TAG_WIDTH : Z := HPDCACHE_NLINE_WIDTH - HPDCACHE_SET_WIDTH.
Definition HPDCACHE_ADDR_OFFSET_WIDTH : Z := HPDCACHE_PA_WIDTH - HPDCACHE_TAG_WIDTH.

Definition HPDCACHE_CORE_REQ_WIDTH : Z :=
  HPDCACHE_ADDR_OFFSET_WIDTH + HPDCACHE_REQ_DATA_WIDTH + HPDCACHE_REQ_OP_WIDTH
  + HPDCACHE_REQ_DATA_WIDTH / 8 + HPDCACHE_REQ_SIZE_WIDTH + HPDCACHE_REQ_SRC_ID_WIDTH
  + HPDCACHE_REQ_TRANS_ID_WIDTH + HPDCACHE_REQ_NEED_RSP_WIDTH
  + HPDCACHE_REQ_PHYS_INDEXED_WIDTH + HPDCACHE_TAG_WIDTH + HPDCACHE_REQ_PMA_WIDTH.

Definition HPDCACHE_CORE_RSP_WIDTH : Z :=
  HPDCACHE_REQ_DATA_WIDTH + HPDCACHE_REQ_SRC_ID_WIDTH + HPDCACHE_REQ_TRANS_ID_WIDTH
  + HPDCACHE_RSP_ERROR_WIDTH + HPDCACHE_RSP_ABORTED_WIDTH.

(** What the shipped configurations satisfy: sizes are powers of two within the
    range of the logarithm macro, and the physical address holds a tag. *)
Class ConfigWf := {
  cfg_sets : exists k, 0 <= k <= 14 /\ HPDCACHE_SETS = 2 ^ k;
  cfg_line : exists k, 3 <= k <= 14 /\ (HPDCACHE_CL_WORDS * HPDCACHE_WORD_WIDTH) / 8 = 2 ^ k;
  cfg_word : HPDCACHE_WORD_WIDTH = 32 \/ HPDCACHE_WORD_WIDTH = 64;
  cfg_req_words : 1 <= HPDCACHE_REQ_WORDS;
  cfg_ids : 0 <= HPDCACHE_REQ_SRC_ID_WIDTH /\ 0 <= HPDCACHE_REQ_TRANS_ID_WIDTH <= 30;
  cfg_pa : HPDCACHE_SET_WIDTH + HPDCACHE_CL_OFFSET_WIDTH < HPDCACHE_PA_WIDTH <= 64;
  cfg_mem : exists k, 0 <= k <= 5 /\ HPDCACHE_MEM_DATA_WIDTH = 64 * 2 ^ k;
}.
End Derived.
Arguments ConfigWf : clear implicits.

(** ** The logarithm macro *)
Lemma LOG2_branch x k : 0 < k -> 2 ^ (k - 1) < x <= 2 ^ k -> k = Z.log2_up x.
Proof.
  intros Hk Hx. symmetry. apply Z.log2_up_unique; [done|].
  by replace (Z.pred k) with (k - 1) by lia.
Qed.

Lemma LOG2_nonneg x : 0 <= HPDCACHE_TEST_DEFS_LOG2 x.
Proof.
  unfold HPDCACHE_TEST_DEFS_LOG2.
  repeat match goal with |- context [if ?b then _ else _] => destruct b end; lia.
Qed.

(** In the macro's table ([x <= 16384]) the macro is the ceiling of the base-2
    logarithm. *)
Lemma LOG2_spec x : 1 <= x <= 16384 -> HPDCACHE_TEST_DEFS_LOG2 x = Z.log2_up x.
Proof.
  intros Hx. cbv beta delta [HPDCACHE_TEST_DEFS_LOG2].
  destruct (Z.leb_spec x 1); [assert (x = 1) as -> by lia; reflexivity|].
  repeat match goal with
  | |- (if x <=? ?c then ?k else _) = _ =>
      destruct (Z.leb_spec x c); [apply (LOG2_branch x k); lia|]
  end. lia.
Qed.

Lemma LOG2_pow2 k : 0 <= k <= 14 -> HPDCACHE_TEST_DEFS_LOG2 (2 ^ k) = k.
Proof.
  intros Hk. rewrite LOG2_spec; [apply Z.log2_up_pow2; lia|].
  split; [change 1 with (2 ^ 0)|change 16384 with (2 ^ 14)]; apply Z.pow_le_mono_r; lia.
Qed.

#[export] Instance default_config_wf : ConfigWf default_config.
Proof.
  constructor.
  - exists 6. vm_compute. intuition discriminate.
  - exists 6. vm_compute. intuition discriminate.
  - by right.
  - vm_compute. discriminate.
  - vm_compute. intuition discriminate.
  - vm_compute. intuition discriminate.
  - exists 3. vm_compute. intuition discriminate.
Qed.
