(* ===== verification/Transaction.v ===== *)
(** * Transactions ([hpdcache_test_transaction.h], [transaction.h])

    Core requests and responses, memory requests and responses, with the
    predicates and the address fields the other components read. A [sc_bv<w>]
    field is a [Z] in [0, 2^w); [req_wf] and [resp_wf] say so. *)
From stdpp Require Import strings.
From S2P Require Import Prelude Defs.

(** [enum hpdcache_req_op_e] *)
Inductive hpdcache_req_op_e :=
  | HPDCACHE_REQ_LOAD | HPDCACHE_REQ_STORE
  | HPDCACHE_REQ_AMO_LR | HPDCACHE_REQ_AMO_SC | HPDCACHE_REQ_AMO_SWAP
  | HPDCACHE_REQ_AMO_ADD | HPDCACHE_REQ_AMO_AND | HPDCACHE_REQ_AMO_OR
  | HPDCACHE_REQ_AMO_XOR | HPDCACHE_REQ_AMO_MAX | HPDCACHE_REQ_AMO_MAXU
  | HPDCACHE_REQ_AMO_MIN | HPDCACHE_REQ_AMO_MINU
  | HPDCACHE_REQ_CMO_FENCE | HPDCACHE_REQ_CMO_PREFETCH
  | HPDCACHE_REQ_CMO_INVAL_NLINE | HPDCACHE_REQ_CMO_INVAL_ALL
  | HPDCACHE_REQ_CMO_FLUSH_NLINE | HPDCACHE_REQ_CMO_FLUSH_ALL
  | HPDCACHE_REQ_CMO_FLUSH_INVAL_NLINE | HPDCACHE_REQ_CMO_FLUSH_INVAL_ALL.

#[export] Instance hpdcache_req_op_eq_dec : EqDecision hpdcache_req_op_e.
Proof. solve_decision. Defined.

(** The enumerators' values. *)
Definition req_op_value (op : hpdcache_req_op_e) : Z :=
  match op with
  | HPDCACHE_REQ_LOAD => 0x00
  | HPDCACHE_REQ_STORE => 0x01
  | HPDCACHE_REQ_AMO_LR => 0x04
  | HPDCACHE_REQ_AMO_SC => 0x05
  | HPDCACHE_REQ_AMO_SWAP => 0x06
  | HPDCACHE_REQ_AMO_ADD => 0x07
  | HPDCACHE_REQ_AMO_AND => 0x08
  | HPDCACHE_REQ_AMO_OR => 0x09
  | HPDCACHE_REQ_AMO_XOR => 0x0a
  | HPDCACHE_REQ_AMO_MAX => 0x0b
  | HPDCACHE_REQ_AMO_MAXU => 0x0c
  | HPDCACHE_REQ_AMO_MIN => 0x0d
  | HPDCACHE_REQ_AMO_MINU => 0x0e
  | HPDCACHE_REQ_CMO_FENCE => 0x10
  | HPDCACHE_REQ_CMO_PREFETCH => 0x11
  | HPDCACHE_REQ_CMO_INVAL_NLINE => 0x12
  | HPDCACHE_REQ_CMO_INVAL_ALL => 0x13
  | HPDCACHE_REQ_CMO_FLUSH_NLINE => 0x14
  | HPDCACHE_REQ_CMO_FLUSH_ALL => 0x15
  | HPDCACHE_REQ_CMO_FLUSH_INVAL_NLINE => 0x16
  | HPDCACHE_REQ_CMO_FLUSH_INVAL_ALL => 0x17
  end.

Definition all_req_ops : list hpdcache_req_op_e :=
  [HPDCACHE_REQ_LOAD; HPDCACHE_REQ_STORE; HPDCACHE_REQ_AMO_LR; HPDCACHE_REQ_AMO_SC;
   HPDCACHE_REQ_AMO_SWAP; HPDCACHE_REQ_AMO_ADD; HPDCACHE_REQ_AMO_AND; HPDCACHE_REQ_AMO_OR;
   HPDCACHE_REQ_AMO_XOR; HPDCACHE_REQ_AMO_MAX; HPDCACHE_REQ_AMO_MAXU; HPDCACHE_REQ_AMO_MIN;
   HPDCACHE_REQ_AMO_MINU; HPDCACHE_REQ_CMO_FENCE; HPDCACHE_REQ_CMO_PREFETCH;
   HPDCACHE_REQ_CMO_INVAL_NLINE; HPDCACHE_REQ_CMO_INVAL_ALL; HPDCACHE_REQ_CMO_FLUSH_NLINE;
   HPDCACHE_REQ_CMO_FLUSH_ALL; HPDCACHE_REQ_CMO_FLUSH_INVAL_NLINE;
   HPDCACHE_REQ_CMO_FLUSH_INVAL_ALL].

(** The enumerator a value denotes: how a [switch] over the values selects its case. *)
Definition req_op_of_value (v : Z) : option hpdcache_req_op_e :=
  list_find (fun op => req_op_value op = v) all_req_ops ≫= fun p => Some p.2.

(** [enum hpdcache_wr_policy_hint_e] *)
Inductive hpdcache_wr_policy_hint_e :=
  | HPDCACHE_WR_POLICY_AUTO | HPDCACHE_WR_POLICY_WB | HPDCACHE_WR_POLICY_WT.

#[export] Instance hpdcache_wr_policy_hint_eq_dec : EqDecision hpdcache_wr_policy_hint_e.
Proof. solve_decision. Defined.

(** [struct hpdcache_fault_injection_req] with [hpdcache_fault_injection::domain_e]. *)
Inductive fault_domain_e := CACHE_DIR | CACHE_DAT.

Record hpdcache_fault_injection_req := {
  fault_valid : bool;
  fault_set : Z;
  fault_way : Z;
  fault_word : Z;
  fault_dom : fault_domain_e;
  fault_mask : Z;
}.

(** [class hpdcache_test_transaction_req] *)
Record transaction_req := {
  req_id : Z;                 (* Transaction::__id *)
  req_addr : Z;
  req_wdata : Z;
  req_op : Z;
  req_be : Z;
  req_size : Z;
  req_sid : Z;
  req_tid : Z;
  req_need_rsp : bool;
  req_phys_indexed : bool;
  req_uncacheable : bool;
  req_io : bool;
  req_wr_policy_hint : hpdcache_wr_policy_hint_e;
  req_abort : bool;
  req_fault : hpdcache_fault_injection_req;
}.

Definition fault_req_init : hpdcache_fault_injection_req :=
  {| fault_valid := false; fault_set := 0; fault_way := 0; fault_word := 0;
     fault_dom := CACHE_DIR; fault_mask := 0 |}.

(** The default constructor; [Transaction()] sets the identifier to 0. *)
Definition transaction_req_init : transaction_req :=
  {| req_id := 0; req_addr := 0; req_wdata := 0; req_op := 0; req_be := 0; req_size := 0;
     req_sid := 0; req_tid := 0; req_need_rsp := false; req_phys_indexed := false;
     req_uncacheable := false; req_io := false;
     req_wr_policy_hint := HPDCACHE_WR_POLICY_AUTO; req_abort := false;
     req_fault := fault_req_init |}.

Definition is_wr_policy_wb (t : transaction_req) : bool :=
  bool_decide (req_wr_policy_hint t = HPDCACHE_WR_POLICY_WB).
Definition is_wr_policy_wt (t : transaction_req) : bool :=
  bool_decide (req_wr_policy_hint t = HPDCACHE_WR_POLICY_WT).
Definition is_wr_policy_auto (t : transaction_req) : bool :=
  bool_decide (req_wr_policy_hint t = HPDCACHE_WR_POLICY_AUTO).

Definition is_load (t : transaction_req) : bool := req_op t =? req_op_value HPDCACHE_REQ_LOAD.
Definition is_store (t : transaction_req) : bool := req_op t =? req_op_value HPDCACHE_REQ_STORE.

Definition is_amo (t : transaction_req) : bool :=
  let op := req_op t in
  (op =? req_op_value HPDCACHE_REQ_AMO_SWAP) || (op =? req_op_value HPDCACHE_REQ_AMO_ADD)
  || (op =? req_op_value HPDCACHE_REQ_AMO_AND) || (op =? req_op_value HPDCACHE_REQ_AMO_OR)
  || (op =? req_op_value HPDCACHE_REQ_AMO_XOR) || (op =? req_op_value HPDCACHE_REQ_AMO_MAX)
  || (op =? req_op_value HPDCACHE_REQ_AMO_MAXU) || (op =? req_op_value HPDCACHE_REQ_AMO_MIN)
  || (op =? req_op_value HPDCACHE_REQ_AMO_MINU).

Definition is_amo_lr (t : transaction_req) : bool := req_op t =? req_op_value HPDCACHE_REQ_AMO_LR.
Definition is_amo_sc (t : transaction_req) : bool := req_op t =? req_op_value HPDCACHE_REQ_AMO_SC.

Definition is_cmo (t : transaction_req) : bool :=
  let op := req_op t in
  (op =? req_op_value HPDCACHE_REQ_CMO_FENCE) || (op =? req_op_value HPDCACHE_REQ_CMO_PREFETCH)
  || (op =? req_op_value HPDCACHE_REQ_CMO_INVAL_NLINE)
  || (op =? req_op_value HPDCACHE_REQ_CMO_INVAL_ALL)
  || (op =? req_op_value HPDCACHE_REQ_CMO_FLUSH_NLINE)
  || (op =? req_op_value HPDCACHE_REQ_CMO_FLUSH_ALL)
  || (op =? req_op_value HPDCACHE_REQ_CMO_FLUSH_INVAL_NLINE)
  || (op =? req_op_value HPDCACHE_REQ_CMO_FLUSH_INVAL_ALL).

Definition is_cmo_prefetch (t : transaction_req) : bool :=
  req_op t =? req_op_value HPDCACHE_REQ_CMO_PREFETCH.

(** [op_to_string] *)
Definition op_to_string (op : Z) : string :=
  match req_op_of_value op with
  | Some HPDCACHE_REQ_LOAD => "LOAD"
  | Some HPDCACHE_REQ_STORE => "STORE"
  | Some HPDCACHE_REQ_AMO_LR => "LR"
  | Some HPDCACHE_REQ_AMO_SC => "SC"
  | Some HPDCACHE_REQ_AMO_SWAP => "AMO_SWAP"
  | Some HPDCACHE_REQ_AMO_ADD => "AMO_ADD"
  | Some HPDCACHE_REQ_AMO_AND => "AMO_AND"
  | Some HPDCACHE_REQ_AMO_OR => "AMO_OR"
  | Some HPDCACHE_REQ_AMO_XOR => "AMO_XOR"
  | Some HPDCACHE_REQ_AMO_MAX => "AMO_MAX"
  | Some HPDCACHE_REQ_AMO_MAXU => "AMO_MAXU"
  | Some HPDCACHE_REQ_AMO_MIN => "AMO_MIN"
  | Some HPDCACHE_REQ_AMO_MINU => "AMO_MINU"
  | Some HPDCACHE_REQ_CMO_FENCE => "CMO_FENCE"
  | Some HPDCACHE_REQ_CMO_PREFETCH => "CMO_PREFETCH"
  | Some HPDCACHE_REQ_CMO_INVAL_NLINE => "CMO_INVAL_NLINE"
  | Some HPDCACHE_REQ_CMO_INVAL_ALL => "CMO_INVAL_ALL"
  | Some HPDCACHE_REQ_CMO_FLUSH_NLINE => "CMO_FLUSH_NLINE"
  | Some HPDCACHE_REQ_CMO_FLUSH_ALL => "CMO_FLUSH_ALL"
  | Some HPDCACHE_REQ_CMO_FLUSH_INVAL_NLINE => "CMO_FLUSH_INVAL_NLINE"
  | Some HPDCACHE_REQ_CMO_FLUSH_INVAL_ALL => "CMO_FLUSH_INVAL_ALL"
  | None => "UNKNOWN"
  end%string.

(** [cmo_to_string] *)
Definition cmo_to_string (cmo : Z) : string :=
  match req_op_of_value cmo with
  | Some HPDCACHE_REQ_CMO_FENCE => "CMO_FENCE"
  | Some HPDCACHE_REQ_CMO_PREFETCH => "CMO_PREFETCH"
  | Some HPDCACHE_REQ_CMO_INVAL_NLINE => "CMO_INVAL_NLINE"
  | Some HPDCACHE_REQ_CMO_INVAL_ALL => "CMO_INVAL_ALL"
  | Some HPDCACHE_REQ_CMO_FLUSH_NLINE => "CMO_FLUSH_NLINE"
  | Some HPDCACHE_REQ_CMO_FLUSH_ALL => "CMO_FLUSH_ALL"
  | Some HPDCACHE_REQ_CMO_FLUSH_INVAL_NLINE => "CMO_FLUSH_INVAL_NLINE"
  | Some HPDCACHE_REQ_CMO_FLUSH_INVAL_ALL => "CMO_FLUSH_INVAL_ALL"
  | _ => "UNKNOWN"
  end%string.

(** ** Responses and memory transactions *)

(** [class hpdcache_test_transaction_resp] *)
Record transaction_resp := {
  rsp_rdata : Z;
  rsp_sid : Z;
  rsp_tid : Z;
  rsp_error : bool;
  rsp_aborted : bool;
}.

(** [enum hpdcache_mem_command_e] and [enum hpdcache_mem_atomic_e]: the fields
    that hold them are [uint32_t], so they are compared as integers. *)
Definition HPDCACHE_MEM_READ : Z := 0x0.
Definition HPDCACHE_MEM_WRITE : Z := 0x1.
Definition HPDCACHE_MEM_ATOMIC : Z := 0x2.

Definition HPDCACHE_MEM_ATOMIC_ADD : Z := 0x0.
Definition HPDCACHE_MEM_ATOMIC_CLR : Z := 0x1.
Definition HPDCACHE_MEM_ATOMIC_SET : Z := 0x2.
Definition HPDCACHE_MEM_ATOMIC_EOR : Z := 0x3.
Definition HPDCACHE_MEM_ATOMIC_SMAX : Z := 0x4.
Definition HPDCACHE_MEM_ATOMIC_SMIN : Z := 0x5.
Definition HPDCACHE_MEM_ATOMIC_UMAX : Z := 0x6.
Definition HPDCACHE_MEM_ATOMIC_UMIN : Z := 0x7.
Definition HPDCACHE_MEM_ATOMIC_SWAP : Z := 0x8.
Definition HPDCACHE_MEM_ATOMIC_LDEX : Z := 0xc.
Definition HPDCACHE_MEM_ATOMIC_STEX : Z := 0xd.

(** [class hpdcache_test_transaction_mem_req]; a read request is just this. *)
Record mem_req := {
  mreq_addr : Z;
  mreq_len : Z;
  mreq_size : Z;
  mreq_id : Z;
  mreq_command : Z;
  mreq_atomic : Z;
  mreq_cacheable : bool;
}.

Definition mem_is_amo (r : mem_req) : bool :=
  (mreq_command r =? HPDCACHE_MEM_ATOMIC)
  && negb (mreq_atomic r =? HPDCACHE_MEM_ATOMIC_STEX)
  && negb (mreq_atomic r =? HPDCACHE_MEM_ATOMIC_LDEX).
Definition mem_is_stex (r : mem_req) : bool :=
  (mreq_command r =? HPDCACHE_MEM_ATOMIC) && (mreq_atomic r =? HPDCACHE_MEM_ATOMIC_STEX).
Definition mem_is_ldex (r : mem_req) : bool :=
  (mreq_command r =? HPDCACHE_MEM_ATOMIC) && (mreq_atomic r =? HPDCACHE_MEM_ATOMIC_LDEX).

Definition command_to_string (command : Z) : string :=
  (if (command =? HPDCACHE_MEM_READ)%Z then "READ"
   else if (command =? HPDCACHE_MEM_WRITE)%Z then "STORE"
   else if (command =? HPDCACHE_MEM_ATOMIC)%Z then "ATOMIC"
   else "UNKNOWN")%string.

(** [class hpdcache_test_transaction_mem_write_req] *)
Record mem_write_req := {
  wreq : mem_req;
  wreq_data : Z;
  wreq_be : Z;
  wreq_last : bool;
}.

(** [class hpdcache_test_transaction_mem_read_resp], [..._mem_write_resp] *)
Record mem_read_resp := {
  rresp_error : Z;
  rresp_id : Z;
  rresp_data : Z;
  rresp_last : bool;
}.
Record mem_write_resp := {
  wresp_is_atomic : bool;
  wresp_error : Z;
  wresp_id : Z;
}.

Definition mem_read_resp_init : mem_read_resp :=
  {| rresp_error := 0; rresp_id := 0; rresp_data := 0; rresp_last := false |}.
Definition mem_write_resp_init : mem_write_resp :=
  {| wresp_is_atomic := false; wresp_error := 0; wresp_id := 0 |}.

Section Fields.
Context {cfg : HpdConfig}.

(** [get_cache_tag], [get_cache_set], [get_cache_word] *)
Definition get_cache_tag (t : transaction_req) : Z :=
  Z.shiftr (req_addr t) (HPDCACHE_CL_OFFSET_WIDTH + HPDCACHE_SET_WIDTH).
Definition get_cache_set (t : transaction_req) : Z :=
  Z.land (Z.shiftr (req_addr t) HPDCACHE_CL_OFFSET_WIDTH) (Z.shiftl 1 HPDCACHE_SET_WIDTH - 1).
Definition get_cache_word (t : transaction_req) : Z :=
  (u64 (req_addr t * 8) / HPDCACHE_WORD_WIDTH) mod HPDCACHE_CL_WORDS.

(** The widths of the bit-vector fields. *)
Record req_wf (t : transaction_req) : Prop := {
  wf_addr : is_word HPDCACHE_PA_WIDTH (req_addr t);
  wf_wdata : is_word HPDCACHE_REQ_DATA_WIDTH (req_wdata t);
  wf_op : is_word HPDCACHE_REQ_OP_WIDTH (req_op t);
  wf_be : is_word (HPDCACHE_REQ_DATA_WIDTH / 8) (req_be t);
  wf_size : is_word HPDCACHE_REQ_SIZE_WIDTH (req_size t);
  wf_sid : is_word HPDCACHE_REQ_SRC_ID_WIDTH (req_sid t);
  wf_tid : is_word HPDCACHE_REQ_TRANS_ID_WIDTH (req_tid t);
}.
End Fields.

(** ** Properties *)

Lemma req_op_of_value_value op : req_op_of_value (req_op_value op) = Some op.
Proof. by destruct op. Qed.

Lemma req_op_value_range op : 0 <= req_op_value op < 24.
Proof. by destruct op. Qed.

Lemma req_op_of_value_Some v op : req_op_of_value v = Some op <-> v = req_op_value op.
Proof.
  split; [|intros ->; apply req_op_of_value_value].
  unfold req_op_of_value. intros H.
  apply bind_Some in H as ([i op'] & Hf & [= <-]). by apply list_find_Some in Hf as (_ & <- & _).
Qed.

(** The kinds the test bench distinguishes, as one list of flags. *)
Definition req_kinds (t : transaction_req) : list bool :=
  [is_load t; is_store t; is_amo t; is_amo_lr t; is_amo_sc t; is_cmo t].

(** Each operation code the enumeration defines is of exactly one kind, and a
    reserved code is of none: the guards of the scoreboard never overlap. *)
Lemma req_kinds_partition t :
  match req_op_of_value (req_op t) with
  | Some _ => length (filter Is_true (req_kinds t)) = 1%nat
  | None => filter Is_true (req_kinds t) = []
  end.
Proof.
  destruct (req_op_of_value (req_op t)) as [op|] eqn:E.
  - apply req_op_of_value_Some in E.
    unfold req_kinds, is_load, is_store, is_amo, is_amo_lr, is_amo_sc, is_cmo.
    rewrite E. by destruct op.
  - assert (forall op, (req_op t =? req_op_value op) = false) as Hne.
    { intros op. apply Z.eqb_neq. intros Hv. apply req_op_of_value_Some in Hv. congruence. }
    unfold req_kinds, is_load, is_store, is_amo, is_amo_lr, is_amo_sc, is_cmo.
    by rewrite !Hne.
Qed.

(** [op_to_string] distinguishes the defined operations and answers "UNKNOWN"
    exactly for the reserved codes. *)
Lemma op_to_string_inj v1 v2 :
  op_to_string v1 = op_to_string v2 -> op_to_string v1 <> "UNKNOWN"%string -> v1 = v2.
Proof.
  unfold op_to_string.
  destruct (req_op_of_value v1) as [o1|] eqn:E1, (req_op_of_value v2) as [o2|] eqn:E2;
    [|destruct o1; done..|done|done].
  apply req_op_of_value_Some in E1, E2. intros H _. subst. by destruct o1, o2.
Qed.

(** A memory request is at most one of AMO, store-exclusive, load-exclusive. *)
Lemma mem_kinds_exclusive r :
  (mem_is_amo r && mem_is_stex r = false) /\ (mem_is_amo r && mem_is_ldex r = false)
  /\ (mem_is_stex r && mem_is_ldex r = false).
Proof.
  unfold mem_is_amo, mem_is_stex, mem_is_ldex.
  destruct (mreq_command r =? HPDCACHE_MEM_ATOMIC); simpl; [|done].
  destruct (Z.eqb_spec (mreq_atomic r) HPDCACHE_MEM_ATOMIC_STEX) as [->|]; [done|].
  by destruct (mreq_atomic r =? HPDCACHE_MEM_ATOMIC_LDEX).
Qed.

Lemma op_to_string_inj_witness : req_op_value HPDCACHE_REQ_AMO_SC = 5.
Proof. by apply (op_to_string_inj (req_op_value HPDCACHE_REQ_AMO_SC) 5). Defined.
