(* ===== verification/MemModel.v ===== *)
(** * The external memory ([mem_model.h])

    A sparse array of 64-bit words filled on first access. [rand()] is a
    function of the standard library: its values are a stream fixed before the
    run, [rng_draw], read in order, so a property holds for every sequence of
    values it may return. *)
From S2P Require Import Prelude.

(** [rand()]: the [n]-th value of the run, and how many were drawn so far. *)
Record rng := { rng_draw : nat -> Z; rng_pos : nat }.

Definition rand (g : rng) : Z * rng :=
  (rng_draw g (rng_pos g), {| rng_draw := rng_draw g; rng_pos := S (rng_pos g) |}).

(** [rand()] returns a non-negative [int]. *)
Definition rng_wf (g : rng) : Prop := forall n, is_word 31 (rng_draw g n).

(** [enum mem_model_init_mode_e] *)
Inductive mem_model_init_mode_e := MEM_MODEL_INIT_VALUE | MEM_MODEL_INIT_RANDOM.

#[export] Instance mem_model_init_mode_eq_dec : EqDecision mem_model_init_mode_e.
Proof. solve_decision. Defined.

Record mem_model := {
  mem_array_m : gmap Z Z;
  init_mode_m : mem_model_init_mode_e;
  init_val_m : Z;
}.

(** The constructor: whatever [init_mode] the caller passes, the member is
    initialised with [MEM_MODEL_INIT_RANDOM]. *)
Definition mk_mem_model (init_mode : mem_model_init_mode_e) (init_val : Z) : mem_model :=
  {| mem_array_m := ∅; init_mode_m := MEM_MODEL_INIT_RANDOM; init_val_m := init_val |}.

(** [((uint64_t)rand() << 32) | (uint64_t)rand()], operands left to right. *)
Definition rand_word (g : rng) : Z * rng :=
  let '(hi, g1) := rand g in
  let '(lo, g2) := rand g1 in
  (Z.lor (u64 (Z.shiftl hi 32)) lo, g2).

(** The [switch (init_mode_m)] both operations share. *)
Definition init_value (m : mem_model) (g : rng) : Z * rng :=
  match init_mode_m m with
  | MEM_MODEL_INIT_RANDOM => rand_word g
  | MEM_MODEL_INIT_VALUE => (init_val_m m, g)
  end.

Definition set_mem_array (a : gmap Z Z) (m : mem_model) : mem_model :=
  {| mem_array_m := a; init_mode_m := init_mode_m m; init_val_m := init_val_m m |}.

(** [readMemory(word_addr)] *)
Definition readMemory (word_addr : Z) (m : mem_model) (g : rng) : Z * mem_model * rng :=
  match mem_array_m m !! word_addr with
  | Some v => (v, m, g)
  | None =>
      let '(value, g') := init_value m g in
      (value, set_mem_array (<[word_addr := value]> (mem_array_m m)) m, g')
  end.

(** [writeMemory(word_addr, data, mask)] *)
Definition writeMemory (word_addr data mask : Z) (m : mem_model) (g : rng) : mem_model * rng :=
  match mem_array_m m !! word_addr with
  | Some v => (set_mem_array (<[word_addr := merge v data mask]> (mem_array_m m)) m, g)
  | None =>
      let '(value, g') := init_value m g in
      (set_mem_array (<[word_addr := merge value data mask]> (mem_array_m m)) m, g')
  end.

(** [beToMask(be)]: the loop over the eight byte-enable bits. *)
Fixpoint beToMask_loop (be : Z) (n : nat) : Z :=
  match n with
  | O => 0
  | S k =>
      let mask := beToMask_loop be k in
      let j := Z.of_nat k in
      if Z.land (Z.shiftr be j) 1 =? 0 then mask
      else Z.lor mask (u64 (Z.shiftl 0xff (j * 8)))
  end.
Definition beToMask (be : Z) : Z := beToMask_loop be 8.

(** ** The contents of the memory, as an observer sees them

    [peek m g a]: the word a read of [a] would return now. *)
Definition peek (m : mem_model) (g : rng) (a : Z) : Z := (readMemory a m g).1.1.

(** Every stored word is a 64-bit word. *)
Definition mem_wf (m : mem_model) : Prop :=
  map_Forall (fun _ v => is_word 64 v) (mem_array_m m) /\ is_word 64 (init_val_m m).

(** ** Properties *)

Lemma land_1_testbit x : (Z.land x 1 =? 0) = negb (Z.testbit x 0).
Proof.
  destruct (Z.eqb_spec (Z.land x 1) 0) as [H|H].
  - apply (f_equal (fun z => Z.testbit z 0)) in H. rewrite Z.land_spec, andb_true_r in H.
    by rewrite H.
  - destruct (Z.testbit x 0) eqn:E; [done|]. exfalso. apply H.
    bitwise. by assert (i = 0) as -> by lia.
Qed.

Lemma bit_test be j : 0 <= j -> (Z.land (Z.shiftr be j) 1 =? 0) = negb (Z.testbit be j).
Proof. intros. rewrite land_1_testbit, Z.shiftr_spec by lia. by rewrite Z.add_0_l. Qed.

Lemma testbit_beToMask_loop be n i :
  0 <= i < 64 -> Z.testbit (beToMask_loop be n) i = (i <? 8 * Z.of_nat n) && Z.testbit be (i / 8).
Proof.
  intros Hi. induction n as [|n IH].
  - simpl beToMask_loop. rewrite Z.testbit_0_l. by split_cmps.
  - simpl beToMask_loop. rewrite bit_test by lia.
    assert (i / 8 = Z.of_nat n <-> 8 * Z.of_nat n <= i < 8 * Z.of_nat (S n)) as Hq.
    { pose proof (Z.div_mod i 8 ltac:(lia)). pose proof (Z.mod_pos_bound i 8 ltac:(lia)). lia. }
    destruct (Z.testbit be (Z.of_nat n)) eqn:Hb; simpl negb; cbv iota.
    + rewrite Z.lor_spec, IH, testbit_wrap, testbit_shiftl, testbit_255 by lia.
      split_cmps; simpl; rewrite ?orb_true_r, ?orb_false_r; try done.
      replace (i / 8) with (Z.of_nat n) by lia. done.
    + rewrite IH. split_cmps; simpl; try done.
      replace (i / 8) with (Z.of_nat n) by lia. done.
Qed.

Lemma testbit_beToMask be i : 0 <= i < 64 -> Z.testbit (beToMask be) i = Z.testbit be (i / 8).
Proof.
  intros Hi. unfold beToMask. rewrite testbit_beToMask_loop by done.
  split_cmps. done.
Qed.

Lemma beToMask_word be : is_word 64 (beToMask be).
Proof.
  unfold beToMask. generalize 8%nat as n. induction n as [|n IH]; [by vm_compute|].
  simpl. case_match; [done|]. apply lor_word; auto with words lia.
Qed.

(** The mask of a byte enable has byte [k] full exactly when bit [k] is set. *)
Lemma byte_of_beToMask be k :
  0 <= k < 8 -> byte_of (beToMask be) k = if Z.testbit be k then 255 else 0.
Proof.
  intros Hk. apply Z.bits_inj'. intros i Hi.
  rewrite testbit_byte_of by lia.
  destruct (Z.ltb_spec i 8).
  - rewrite testbit_beToMask by lia.
    replace ((i + 8 * k) / 8) with k
      by (rewrite Z.add_comm, Z.mul_comm, Z.div_add_l, (Z.div_small i) by lia; lia).
    destruct (Z.leb_spec 0 i); [|lia]. simpl.
    destruct (Z.testbit be k); [rewrite testbit_255|by rewrite Z.testbit_0_l].
    split_cmps; done.
  - rewrite andb_false_r. simpl. destruct (Z.testbit be k); [|by rewrite Z.testbit_0_l].
    rewrite testbit_255. split_cmps; done.
Qed.

(** Writing through a byte enable replaces the enabled bytes and keeps the rest. *)
Lemma byte_of_merge_be old data be k :
  0 <= k < 8 ->
  byte_of (merge old data (beToMask be)) k =
  if Z.testbit be k then byte_of data k else byte_of old k.
Proof.
  intros Hk. rewrite byte_of_merge, byte_of_beToMask by lia.
  destruct (Z.testbit be k); [|apply merge_zero_mask].
  apply (merge_full 8); auto with words lia.
Qed.

Lemma set_mem_array_id m : set_mem_array (mem_array_m m) m = m.
Proof. by destruct m. Qed.

(** A read is stable: the first read of an address fixes its value. *)
Lemma readMemory_stable a m g v m' g' h :
  readMemory a m g = (v, m', g') -> readMemory a m' h = (v, m', h).
Proof.
  unfold readMemory. destruct (mem_array_m m !! a) as [w|] eqn:E.
  - intros [= <- <- <-]. by rewrite E.
  - destruct (init_value m g) as [value g1]. intros [= <- <- <-]. simpl.
    by rewrite lookup_insert_eq.
Qed.

(** A read never changes what a later access to an initialised word sees. *)
Lemma readMemory_frame a m g v m' g' b w :
  readMemory a m g = (v, m', g') -> mem_array_m m !! b = Some w ->
  mem_array_m m' !! b = Some w.
Proof.
  unfold readMemory. destruct (mem_array_m m !! a) as [x|] eqn:E.
  - by intros [= <- <- <-].
  - destruct (init_value m g) as [value g1]. intros [= <- <- <-] Hb. simpl.
    rewrite lookup_insert_ne; [done|]. intros ->. congruence.
Qed.

(** What a write leaves: the masked update of the word a read would have
    returned, at that address only. *)
Lemma writeMemory_lookup a data mask m g m' g' :
  writeMemory a data mask m g = (m', g') ->
  mem_array_m m' = <[a := merge (peek m g a) data mask]> (mem_array_m m)
  /\ init_mode_m m' = init_mode_m m /\ init_val_m m' = init_val_m m.
Proof.
  unfold writeMemory, peek, readMemory. destruct (mem_array_m m !! a) as [x|] eqn:E.
  - by intros [= <- <-].
  - destruct (init_value m g) as [value g1]. by intros [= <- <-].
Qed.

(** Read after write: the word written, merged with what was there. *)
Lemma readMemory_writeMemory a data mask m g m' g' h :
  writeMemory a data mask m g = (m', g') ->
  readMemory a m' h = (merge (peek m g a) data mask, m', h).
Proof.
  intros H. apply writeMemory_lookup in H as (Hm & _ & _).
  unfold readMemory. by rewrite Hm, lookup_insert_eq.
Qed.

(** The word a first access creates does not depend on the access being a read
    or a write, and a write does not disturb the other initialised words. *)
Lemma writeMemory_frame a data mask m g m' g' b :
  writeMemory a data mask m g = (m', g') -> a <> b ->
  mem_array_m m' !! b = mem_array_m m !! b.
Proof.
  intros H Hab. apply writeMemory_lookup in H as (-> & _ & _).
  by rewrite lookup_insert_ne.
Qed.

Lemma rand_word_word g : rng_wf g -> is_word 64 (rand_word g).1.
Proof.
  intros H. unfold rand_word, rand. simpl. apply lor_word; auto with words lia.
  specialize (H (S (rng_pos g))). unfold is_word in *. lia.
Qed.

Lemma init_value_word m g : mem_wf m -> rng_wf g -> is_word 64 (init_value m g).1.
Proof.
  intros [_ Hi] Hg. unfold init_value. destruct (init_mode_m m); [done|by apply rand_word_word].
Qed.

Lemma peek_word m g a : mem_wf m -> rng_wf g -> is_word 64 (peek m g a).
Proof.
  intros Hm Hg. unfold peek, readMemory. destruct (mem_array_m m !! a) as [v|] eqn:E.
  - simpl. by apply (proj1 Hm) in E.
  - pose proof (init_value_word m g Hm Hg). by destruct (init_value m g).
Qed.

Lemma writeMemory_wf a data mask m g m' g' :
  writeMemory a data mask m g = (m', g') -> is_word 64 data ->
  mem_wf m -> rng_wf g -> mem_wf m'.
Proof.
  intros H Hd Hm Hg. pose proof (peek_word m g a Hm Hg).
  apply writeMemory_lookup in H as (Ha & _ & Hv). destruct Hm as [Hm Hi]. split.
  - rewrite Ha. apply map_Forall_insert_2; [|done]. auto with words lia.
  - by rewrite Hv.
Qed.

Lemma readMemory_wf a m g v m' g' :
  readMemory a m g = (v, m', g') -> mem_wf m -> rng_wf g -> mem_wf m' /\ is_word 64 v.
Proof.
  intros H Hm Hg. pose proof (peek_word m g a Hm Hg) as Hw.
  unfold peek in Hw. rewrite H in Hw. simpl in Hw. split; [|done]. revert H.
  unfold readMemory. destruct (mem_array_m m !! a) as [x|] eqn:E.
  - by intros [= <- <- <-].
  - destruct (init_value m g) as [value g1]. intros [= <- <- <-].
    destruct Hm as [Hm Hi]. split; [|done]. simpl. by apply map_Forall_insert_2.
Qed.

Lemma rand_word_draw g : rng_draw (rand_word g).2 = rng_draw g.
Proof. done. Qed.

Lemma init_value_draw m g : rng_draw (init_value m g).2 = rng_draw g.
Proof. unfold init_value. by destruct (init_mode_m m). Qed.

Lemma readMemory_rng a m g v m' g' :
  readMemory a m g = (v, m', g') -> rng_wf g -> rng_wf g'.
Proof.
  intros H Hg. pose proof (init_value_draw m g) as Hd. revert H. unfold readMemory.
  destruct (mem_array_m m !! a); [by intros [= <- <- <-]|].
  destruct (init_value m g) as [x g1]. intros [= <- <- <-]. simpl in Hd.
  intros n. rewrite Hd. apply Hg.
Qed.

Lemma writeMemory_rng a data mask m g m' g' :
  writeMemory a data mask m g = (m', g') -> rng_wf g -> rng_wf g'.
Proof.
  intros H Hg. pose proof (init_value_draw m g) as Hd. revert H. unfold writeMemory.
  destruct (mem_array_m m !! a); [by intros [= <- <-]|].
  destruct (init_value m g) as [x g1]. intros [= <- <-]. simpl in Hd.
  intros n. rewrite Hd. apply Hg.
Qed.

Lemma writeMemory_hit a data mask m g v :
  mem_array_m m !! a = Some v ->
  writeMemory a data mask m g = (set_mem_array (<[a := merge v data mask]> (mem_array_m m)) m, g).
Proof. unfold writeMemory. by intros ->. Qed.

(** Two writes with disjoint masks to an initialised word commute. *)
Lemma writeMemory_comm a d1 k1 d2 k2 m g v :
  mem_array_m m !! a = Some v -> Z.land k1 k2 = 0 ->
  (let '(m1, g1) := writeMemory a d1 k1 m g in writeMemory a d2 k2 m1 g1) =
  (let '(m2, g2) := writeMemory a d2 k2 m g in writeMemory a d1 k1 m2 g2).
Proof.
  intros Hv Hk. rewrite !(writeMemory_hit _ _ _ _ _ _ Hv).
  erewrite !writeMemory_hit by (simpl; apply lookup_insert_eq).
  unfold set_mem_array; simpl. by rewrite !insert_insert_eq, (merge_comm v d1 k1 d2 k2 Hk).
Qed.

(** A write through a byte enable is what the next read of the word returns, byte by
    byte, whether or not the word had been accessed before; reading changes nothing
    a later read can see, and the words at other addresses are untouched. *)
Theorem memory_read_after_write a be data m g m' g' h :
  writeMemory a data (beToMask be) m g = (m', g') ->
  exists v, readMemory a m' h = (v, m', h) /\
    (forall k, 0 <= k < 8 ->
       byte_of v k = if Z.testbit be k then byte_of data k else byte_of (peek m g a) k) /\
    forall b, b <> a -> mem_array_m m' !! b = mem_array_m m !! b.
Proof.
  intros H. exists (merge (peek m g a) data (beToMask be)).
  pose proof (writeMemory_lookup _ _ _ _ _ _ _ H) as (Hm & _ & _). split.
  - unfold readMemory. by rewrite Hm, lookup_insert_eq.
  - split; [intros; by apply byte_of_merge_be|].
    intros b Hb. rewrite Hm. by apply lookup_insert_ne.
Qed.

(** The initialisation mode asked of the constructor is ignored: a memory built for
    [MEM_MODEL_INIT_VALUE] still answers the first read of a word with [rand()]. *)
Theorem mem_model_init_ignored init_val a g :
  (readMemory a (mk_mem_model MEM_MODEL_INIT_VALUE init_val) g).1.1 = (rand_word g).1.
Proof. unfold readMemory. simpl. rewrite lookup_empty. unfold init_value. simpl. done. Qed.

(** ** Witness *)
Lemma memory_read_after_write_witness :
  exists v m', (writeMemory 5 0xaabb (beToMask 1) (mk_mem_model MEM_MODEL_INIT_RANDOM 0)
      {| rng_draw := fun _ => 7; rng_pos := 0 |}).1 = m' /\
    readMemory 5 m' {| rng_draw := fun _ => 0; rng_pos := 0 |}
      = (v, m', {| rng_draw := fun _ => 0; rng_pos := 0 |}).
Proof.
  destruct (memory_read_after_write 5 1 0xaabb (mk_mem_model MEM_MODEL_INIT_RANDOM 0)
    {| rng_draw := fun _ => 7; rng_pos := 0 |} _ _ {| rng_draw := fun _ => 0; rng_pos := 0 |} eq_refl)
    as (v & H & _). exists v. eexists. split; [reflexivity|]. exact H.
Defined.
