(* ===== verification/RamModel.v ===== *)
(** * The scoreboard's RAM ([ram_model.h])

    An array of [N] bytes with one "written" bit per byte. Both arrays are
    created by [std::make_shared<std::array<..>>()], which zeroes them, so a cell
    no operation touched reads 0. An index of the byte array past its end is
    undefined behaviour: the operations answer [None] there. *)
From S2P Require Import Prelude.

Record ram_model := { mem_m : gmap Z Z; bmap_m : gmap Z Z }.

(** The constructor. *)
Definition mk_ram : ram_model := {| mem_m := ∅; bmap_m := ∅ |}.

Definition mem_get (r : ram_model) (off : Z) : Z := default 0 (mem_m r !! off).
Definition bmap_get (r : ram_model) (i : Z) : Z := default 0 (bmap_m r !! i).

Definition getBit (byte pos : Z) : Z := Z.land (Z.shiftr byte pos) 0x1.
Definition setBit (byte pos : Z) : Z := u8 (Z.lor byte (Z.shiftl 1 pos)).

Section Ram.
Context (N : Z).

(** [getBmap(addr)] and [setBmap(addr)] *)
Definition getBmap (r : ram_model) (addr : Z) : bool :=
  let off := addr mod N in negb (getBit (bmap_get r (off / 8)) (off mod 8) =? 0).

Definition setBmap (r : ram_model) (addr : Z) : ram_model :=
  let off := addr mod N in
  {| mem_m := mem_m r;
     bmap_m := <[off / 8 := setBit (bmap_get r (off / 8)) (off mod 8)]> (bmap_m r) |}.

Definition mem_set (r : ram_model) (off v : Z) : ram_model :=
  {| mem_m := <[off := v]> (mem_m r); bmap_m := bmap_m r |}.

(** The loop of [read]: [n] bytes are left, the next one has index [i]. *)
Fixpoint read_loop (r : ram_model) (off : Z) (valid : option (list Z)) (i n : nat)
    : option (list Z * option (list Z)) :=
  match n with
  | O => Some ([], valid)
  | S n' =>
      let a := off + Z.of_nat i in
      if a <? N then
        let rdata := mem_get r a in
        let valid' :=
          (fun v => if getBmap r a
                    then <[(i / 8)%nat := setBit (v !!! (i / 8)%nat) (Z.of_nat (i mod 8))]> v
                    else v) <$> valid in
        '(buf, v) ← read_loop r off valid' (S i) n';
        Some (rdata :: buf, v)
      else None
  end.

(** [read(buf, n, addr, valid)]: the bytes stored to [buf] and, when [valid] is
    not null, the bytes stored to it. *)
Definition read (r : ram_model) (with_valid : bool) (n : nat) (addr : Z)
    : option (list Z * option (list Z)) :=
  let off := addr mod N in
  read_loop r off (if with_valid then Some (replicate ((n + 7) / 8) 0) else None) 0 n.

(** The loop of [write]. *)
Fixpoint write_loop (r : ram_model) (buf be : list Z) (off : Z) (i n : nat) : option ram_model :=
  match n with
  | O => Some r
  | S n' =>
      b ← be !! (i / 8)%nat;
      if getBit b (Z.of_nat (i mod 8)) =? 0 then write_loop r buf be off (S i) n'
      else
        let a := off + Z.of_nat i in
        x ← buf !! i;
        if a <? N then write_loop (setBmap (mem_set r a x) a) buf be off (S i) n' else None
  end.

(** [write(buf, be, n, addr)] *)
Definition write (r : ram_model) (buf be : list Z) (n : nat) (addr : Z) : option ram_model :=
  write_loop r buf be (addr mod N) 0 n.

(** ** Abstract view

    What the RAM stands for: a partial map from byte addresses to the bytes
    written so far. [spec_write] is the abstract effect of [write]. *)
Definition contents (r : ram_model) (a : Z) : option Z :=
  if getBmap r a then Some (mem_get r a) else None.

Definition be_bit (be : list Z) (i : nat) : bool :=
  match be !! (i / 8)%nat with
  | Some b => Z.testbit b (Z.of_nat (i mod 8))
  | None => false
  end.

Definition spec_write (c : Z -> option Z) (buf be : list Z) (off : Z) (n : nat) (a : Z) : option Z :=
  if (off <=? a) && (a <? off + Z.of_nat n) && be_bit be (Z.to_nat (a - off))
  then buf !! Z.to_nat (a - off)
  else c a.

(** ** Lemmas *)

Lemma getBit_testbit b p : 0 <= p -> (getBit b p =? 0) = negb (Z.testbit b p).
Proof.
  intros Hp. unfold getBit.
  destruct (Z.eqb_spec (Z.land (Z.shiftr b p) 1) 0) as [H|H].
  - apply (f_equal (fun z => Z.testbit z 0)) in H.
    rewrite Z.land_spec, Z.shiftr_spec, andb_true_r, Z.add_0_l in H by lia. by rewrite H.
  - destruct (Z.testbit b p) eqn:E; [done|]. exfalso. apply H. bitwise.
    by replace (i + p) with p by lia.
Qed.

Lemma testbit_setBit b p i :
  0 <= p < 8 -> 0 <= i < 8 -> Z.testbit (setBit b p) i = (i =? p) || Z.testbit b i.
Proof.
  intros Hp Hi. unfold setBit. autorewrite with bits. split_cmps; simpl; btauto.
Qed.

Lemma getBmap_testbit r a :
  getBmap r a = Z.testbit (bmap_get r (a mod N / 8)) (a mod N mod 8).
Proof.
  unfold getBmap. rewrite getBit_testbit by (apply Z.mod_pos_bound; lia).
  apply negb_involutive.
Qed.

Lemma same_bit x y : 0 <= x -> 0 <= y -> x / 8 = y / 8 -> x mod 8 = y mod 8 -> x = y.
Proof. intros. rewrite (Z.div_mod x 8), (Z.div_mod y 8) by lia. congruence. Qed.

Lemma mod8_range x : 0 <= x mod 8 < 8.
Proof. apply Z.mod_pos_bound. lia. Qed.

Hypothesis HN : 0 < N.

Lemma getBmap_setBmap r a b :
  getBmap (setBmap r a) b = (a mod N =? b mod N) || getBmap r b.
Proof.
  rewrite !getBmap_testbit. unfold setBmap, bmap_get at 1. simpl.
  pose proof (Z.mod_pos_bound a N HN). pose proof (Z.mod_pos_bound b N HN).
  destruct (decide (a mod N / 8 = b mod N / 8)) as [Hd|Hd].
  - rewrite <-Hd, lookup_insert_eq. simpl.
    rewrite testbit_setBit by apply mod8_range. f_equal.
    destruct (Z.eqb_spec (b mod N mod 8) (a mod N mod 8)) as [Hm|Hm],
      (Z.eqb_spec (a mod N) (b mod N)) as [Heq|Heq]; try done.
    + exfalso. apply Heq. apply same_bit; done || lia.
    + congruence.
  - rewrite lookup_insert_ne by done. fold (bmap_get r (b mod N / 8)).
    destruct (Z.eqb_spec (a mod N) (b mod N)) as [Heq|Heq]; [congruence|done].
Qed.

(** The abstract effect of storing one byte. *)
Lemma contents_store r a x b :
  0 <= a < N -> 0 <= b < N ->
  contents (setBmap (mem_set r a x) a) b = if a =? b then Some x else contents r b.
Proof.
  intros Ha Hb. unfold contents. rewrite getBmap_setBmap, !Z.mod_small by lia.
  change (getBmap (mem_set r a x) b) with (getBmap r b).
  destruct (Z.eqb_spec a b) as [->|Hab]; simpl.
  - unfold mem_get. simpl. by rewrite lookup_insert_eq.
  - unfold mem_get. simpl. by rewrite lookup_insert_ne.
Qed.

Lemma write_loop_spec r buf be off i n r' :
  0 <= off -> write_loop r buf be off i n = Some r' ->
  forall a, 0 <= a < N ->
  contents r' a =
  if (off + Z.of_nat i <=? a) && (a <? off + Z.of_nat (i + n)) && be_bit be (Z.to_nat (a - off))
  then buf !! Z.to_nat (a - off) else contents r a.
Proof.
  intros Hoff. revert r i. induction n as [|n IH]; intros r i Hw a Ha; simpl in Hw.
  - injection Hw as <-. split_cmps; done.
  - apply bind_Some in Hw as (b & Hb & Hw).
    rewrite getBit_testbit in Hw by lia.
    assert (be_bit be i = Z.testbit b (Z.of_nat (i mod 8))) as Hbit
      by (unfold be_bit; by rewrite Hb).
    rewrite <-Hbit in Hw.
    destruct (be_bit be i) eqn:Hbi; simpl in Hw.
    + apply bind_Some in Hw as (x & Hx & Hw).
      destruct (Z.ltb_spec (off + Z.of_nat i) N) as [Hlt|]; [|done].
      rewrite (IH _ _ Hw a Ha), contents_store by lia.
      destruct (Z.eqb_spec (off + Z.of_nat i) a) as [<-|Hne].
      * replace (Z.to_nat (off + Z.of_nat i - off)) with i by lia.
        rewrite Hbi, Hx. split_cmps; done.
      * split_cmps; done.
    + rewrite (IH _ _ Hw a Ha).
      destruct (decide (a = off + Z.of_nat i)) as [->|Hne].
      * replace (Z.to_nat (off + Z.of_nat i - off)) with i by lia.
        rewrite Hbi. split_cmps; done.
      * split_cmps; done.
Qed.

Lemma write_contents r buf be n addr r' :
  write r buf be n addr = Some r' ->
  forall a, 0 <= a < N ->
  contents r' a = spec_write (contents r) buf be (addr mod N) n a.
Proof.
  intros Hw a Ha. pose proof (Z.mod_pos_bound addr N HN).
  rewrite (write_loop_spec r buf be (addr mod N) 0 n r' ltac:(lia) Hw a Ha). unfold spec_write.
  by rewrite Z.add_0_r, Nat.add_0_l.
Qed.

Lemma write_loop_total r buf be off i n :
  off + Z.of_nat (i + n) <= N -> (i + n <= length buf)%nat ->
  (i + n <= 8 * length be)%nat -> is_Some (write_loop r buf be off i n).
Proof.
  revert r i. induction n as [|n IH]; intros r i Hoff Hbuf Hbe; simpl; [by eexists|].
  destruct (lookup_lt_is_Some_2 be (i / 8)) as [b ->].
  { apply Nat.Div0.div_lt_upper_bound. lia. }
  simpl. case_match; [apply IH; lia|].
  destruct (lookup_lt_is_Some_2 buf i) as [x ->]; [lia|]. simpl.
  destruct (Z.ltb_spec (off + Z.of_nat i) N); [|lia]. apply IH; lia.
Qed.

(** An access aligned on its size never leaves the array. *)
Lemma aligned_in_range n addr : 0 < n -> (n | N) -> (n | addr) -> addr mod N + n <= N.
Proof.
  intros Hn [q Hq] [k Hk]. subst.
  rewrite Z.mul_mod_distr_r by nia.
  assert (0 < q) by nia. pose proof (Z.mod_pos_bound k q ltac:(lia)). nia.
Qed.

Lemma write_total r buf be n addr :
  (Z.of_nat n | N) -> (Z.of_nat n | addr) -> (0 < n)%nat ->
  (n <= length buf)%nat -> (n <= 8 * length be)%nat -> is_Some (write r buf be n addr).
Proof.
  intros. apply write_loop_total; [|done..].
  apply aligned_in_range; [lia|done..].
Qed.

Lemma length_read_loop r off valid i n buf v :
  read_loop r off valid i n = Some (buf, v) -> length buf = n.
Proof.
  revert valid i buf v. induction n as [|n IH]; intros valid i buf v H; simpl in H.
  - by injection H as <- _.
  - destruct (off + Z.of_nat i <? N); [|done].
    apply bind_Some in H as ([buf' v'] & Hr & [= <- <-]). simpl. f_equal. by eapply IH.
Qed.

Lemma read_loop_buf r off valid i n buf v k :
  read_loop r off valid i n = Some (buf, v) -> (k < n)%nat ->
  buf !! k = Some (mem_get r (off + Z.of_nat (i + k))).
Proof.
  revert valid i buf v k. induction n as [|n IH]; intros valid i buf v k H Hk; [lia|].
  simpl in H. destruct (off + Z.of_nat i <? N); [|done].
  apply bind_Some in H as ([buf' v'] & Hr & [= <- <-]). destruct k as [|k]; simpl.
  - by rewrite Nat.add_0_r.
  - rewrite (IH _ _ _ _ k Hr) by lia. do 3 f_equal. lia.
Qed.

Lemma be_bit_insert v i j :
  (i / 8 < length v)%nat ->
  be_bit (<[(i / 8)%nat := setBit (v !!! (i / 8)%nat) (Z.of_nat (i mod 8))]> v) j =
  (i =? j)%nat || be_bit v j.
Proof.
  intros Hi. unfold be_bit. destruct (decide (i / 8 = j / 8)%nat) as [Hd|Hd].
  - rewrite <-Hd, list_lookup_insert_eq by done.
    destruct (lookup_lt_is_Some_2 v (i / 8)) as [b Hb]; [done|].
    rewrite (list_lookup_total_correct _ _ _ Hb), Hb.
    pose proof (Nat.mod_upper_bound i 8 ltac:(lia)).
    pose proof (Nat.mod_upper_bound j 8 ltac:(lia)).
    rewrite testbit_setBit by lia. f_equal.
    pose proof (Nat.div_mod_eq i 8). pose proof (Nat.div_mod_eq j 8).
    destruct (Nat.eqb_spec i j) as [->|Hne]; [by rewrite Z.eqb_refl|].
    apply Z.eqb_neq. intros ?. apply Hne. lia.
  - rewrite list_lookup_insert_ne by done.
    destruct (Nat.eqb_spec i j); [congruence|done].
Qed.

Lemma interval_step i n k :
  (i <=? k)%nat && (k <? i + S n)%nat = (i =? k)%nat || ((S i <=? k)%nat && (k <? S i + n)%nat).
Proof.
  destruct (Nat.leb_spec i k), (Nat.ltb_spec k (i + S n)), (Nat.eqb_spec i k),
    (Nat.leb_spec (S i) k), (Nat.ltb_spec k (S i + n)); simpl; done || lia.
Qed.

Lemma read_loop_valid r off v0 i n buf v k :
  read_loop r off (Some v0) i n = Some (buf, Some v) -> (i + n <= 8 * length v0)%nat ->
  be_bit v k = be_bit v0 k ||
    ((i <=? k)%nat && (k <? i + n)%nat && getBmap r (off + Z.of_nat k)).
Proof.
  revert v0 i buf v. induction n as [|n IH]; intros v0 i buf v H Hlen.
  - injection H as _ <-. destruct (Nat.leb_spec i k), (Nat.ltb_spec k (i + 0));
      simpl; rewrite ?orb_false_r; done || lia.
  - simpl in H. destruct (off + Z.of_nat i <? N); [|done].
    apply bind_Some in H as ([buf' v'] & Hr & [= <- ->]).
    assert (i / 8 < length v0)%nat as Hi by (apply Nat.Div0.div_lt_upper_bound; lia).
    rewrite interval_step. destruct (getBmap r (off + Z.of_nat i)) eqn:Hg.
    + rewrite (IH _ _ _ _ Hr), be_bit_insert by (rewrite ?length_insert; lia).
      destruct (Nat.eqb_spec i k) as [<-|Hne]; [rewrite Hg|]; btauto.
    + rewrite (IH _ _ _ _ Hr) by lia.
      destruct (Nat.eqb_spec i k) as [<-|Hne]; [rewrite Hg|]; btauto.
Qed.

Lemma read_loop_total r off valid i n :
  off + Z.of_nat (i + n) <= N -> is_Some (read_loop r off valid i n).
Proof.
  revert valid i. induction n as [|n IH]; intros valid i H; simpl; [by eexists|].
  destruct (Z.ltb_spec (off + Z.of_nat i) N); [|lia].
  match goal with |- context [read_loop r off ?v' (S i) n] =>
    destruct (IH v' (S i) ltac:(lia)) as [[buf v] ->] end.
  by eexists.
Qed.

Lemma read_loop_valid_Some r off v0 i n buf v :
  read_loop r off (Some v0) i n = Some (buf, v) -> exists v', v = Some v'.
Proof.
  revert v0 i buf v. induction n as [|n IH]; intros v0 i buf v H; simpl in H.
  - injection H as _ <-. by eexists.
  - destruct (off + Z.of_nat i <? N); [|done].
    apply bind_Some in H as ([buf' v'] & Hr & [= <- ->]). by eapply IH.
Qed.

Lemma length_read_loop_valid r off v0 i n buf v :
  read_loop r off (Some v0) i n = Some (buf, Some v) -> length v = length v0.
Proof.
  revert v0 i buf v. induction n as [|n IH]; intros v0 i buf v H; simpl in H.
  - by injection H as _ <-.
  - destruct (off + Z.of_nat i <? N); [|done].
    apply bind_Some in H as ([buf' v'] & Hr & [= <- ->]). apply IH in Hr. rewrite Hr.
    case_match; [by rewrite length_insert|done].
Qed.

Lemma be_bit_replicate_0 n k : be_bit (replicate n 0) k = false.
Proof.
  unfold be_bit. destruct (replicate n 0 !! (k / 8)%nat) as [b|] eqn:E; [|done].
  apply lookup_replicate in E as [-> _]. apply Z.testbit_0_l.
Qed.

(** [read] with a valid buffer: the bytes of the array, and for each of them
    whether it was ever written. *)
Lemma read_spec r n addr buf v :
  read r true n addr = Some (buf, v) ->
  length buf = n /\
  exists valid, v = Some valid /\ length valid = ((n + 7) / 8)%nat /\
  forall k, (k < n)%nat ->
    buf !! k = Some (mem_get r (addr mod N + Z.of_nat k)) /\
    be_bit valid k = getBmap r (addr mod N + Z.of_nat k).
Proof.
  intros H. unfold read in H. split; [by eapply length_read_loop|].
  destruct (read_loop_valid_Some _ _ _ _ _ _ _ H) as [valid ->].
  exists valid. split; [done|]. split.
  { rewrite (length_read_loop_valid _ _ _ _ _ _ _ H). apply length_replicate. }
  intros k Hk. split.
  - rewrite (read_loop_buf _ _ _ _ _ _ _ k H) by done. by rewrite Nat.add_0_l.
  - rewrite (read_loop_valid _ _ _ _ _ _ _ k H), be_bit_replicate_0.
    + destruct (Nat.leb_spec 0 k), (Nat.ltb_spec k (0 + n)); simpl; done || lia.
    + rewrite length_replicate.
      pose proof (Nat.div_mod_eq (n + 7) 8). pose proof (Nat.mod_upper_bound (n + 7) 8). lia.
Qed.

Lemma read_total r with_valid n addr :
  (Z.of_nat n | N) -> (Z.of_nat n | addr) -> (0 < n)%nat -> is_Some (read r with_valid n addr).
Proof.
  intros. apply read_loop_total. apply aligned_in_range; [lia|done..].
Qed.

(** Reading back what was just written: each enabled byte is the one written and
    is marked valid, each other byte is what a read before the write would have
    returned, with the validity it had. *)
Theorem ram_write_read r buf be n addr r' old oldv new newv :
  (n <= length buf)%nat -> write r buf be n addr = Some r' ->
  read r true n addr = Some (old, Some oldv) -> read r' true n addr = Some (new, Some newv) ->
  addr mod N + Z.of_nat n <= N ->
  forall k, (k < n)%nat ->
    if be_bit be k then new !! k = buf !! k /\ be_bit newv k = true
    else be_bit newv k = be_bit oldv k /\ (be_bit oldv k = true -> new !! k = old !! k).
Proof using HN.
  intros Hbuf Hw Ho Hn Hfit k Hk. pose proof (Z.mod_pos_bound addr N HN).
  destruct (read_spec _ _ _ _ _ Ho) as (_ & v1 & [= <-] & _ & Hold).
  destruct (read_spec _ _ _ _ _ Hn) as (_ & v2 & [= <-] & _ & Hnew).
  destruct (Hold k Hk) as [Ho1 Ho2], (Hnew k Hk) as [Hn1 Hn2].
  pose proof (write_contents r buf be n addr r' Hw (addr mod N + Z.of_nat k) ltac:(lia)) as Hc.
  unfold spec_write in Hc.
  replace (addr mod N + Z.of_nat k - addr mod N) with (Z.of_nat k) in Hc by lia.
  rewrite Nat2Z.id in Hc. destruct (Z.leb_spec (addr mod N) (addr mod N + Z.of_nat k)); [|lia].
  destruct (Z.ltb_spec (addr mod N + Z.of_nat k) (addr mod N + Z.of_nat n)); [|lia].
  unfold contents in Hc. rewrite Ho1, Ho2, Hn1, Hn2. simpl in Hc.
  destruct (lookup_lt_is_Some_2 buf k) as [x Hx]; [lia|]. rewrite Hx in *. destruct (be_bit be k).
  - destruct (getBmap r' _); [by simplify_eq|done].
  - destruct (getBmap r' _), (getBmap r _); simplify_eq; split; done || congruence.
Qed.
End Ram.

(** ** Witness: four bytes of a 64-byte RAM, two of them enabled *)
Definition ex_ram (r : option ram_model) : ram_model := default mk_ram r.
Definition ex_ram0 : ram_model := ex_ram (write 64 mk_ram [1; 2; 3; 4] [15] 4 8).

Lemma ram_write_read_witness :
  exists r' new newv, write 64 ex_ram0 [9; 9; 9; 9] [6] 4 8 = Some r' /\
    read 64 r' true 4 8 = Some (new, Some newv) /\
    new !! 1%nat = Some 9 /\ be_bit newv 1 = true /\ new !! 0%nat = Some 1.
Proof.
  eexists _, _, _. split; [reflexivity|]. split; [reflexivity|].
  pose proof (ram_write_read 64 ltac:(lia) ex_ram0 [9; 9; 9; 9] [6] 4 8 _ _ _ _ _
    ltac:(simpl; lia) eq_refl eq_refl eq_refl ltac:(vm_compute; discriminate)) as H.
  split; [exact (proj1 (H 1%nat ltac:(lia)))|]. split; [exact (proj2 (H 1%nat ltac:(lia)))|].
  exact (proj2 (H 0%nat ltac:(lia)) eq_refl).
Defined.
