(* ===== verification/CacheDir.v ===== *)
(** * The cache directory ([generic_cache_directory_base.h])

    Tags and valid bits of a set-associative cache. The replacement policy is
    the pair of pure virtual methods [repl] and [replUpdate]: here an interface,
    [ReplacementPolicy], over which [access] and [alloc] are defined, with its
    laws, [ReplacementPolicyLaws]. [CacheDirPlru.v] implements it.

    The arrays are lists indexed by [way * sets + set]; [idx_lt] shows that every
    index the operations form is in range on a well-formed directory. *)
From S2P Require Import Prelude.

(** [class GenericCacheDirectoryBase] *)
Record directory := {
  tag_m : list Z;
  val_m : list bool;
  ways_m : nat;
  sets_m : nat;
  bytes_m : Z;
}.

(** [UINT_MAX], the way and set a miss reports. *)
Definition UINT_MAX : Z := 4294967295.

Definition set_tag_m (l : list Z) (d : directory) : directory :=
  {| tag_m := l; val_m := val_m d; ways_m := ways_m d; sets_m := sets_m d; bytes_m := bytes_m d |}.
Definition set_val_m (l : list bool) (d : directory) : directory :=
  {| tag_m := tag_m d; val_m := l; ways_m := ways_m d; sets_m := sets_m d; bytes_m := bytes_m d |}.

Definition dir_index (d : directory) (way set : nat) : nat := (way * sets_m d + set)%nat.

(** [getCacheTag] and [getCacheValid] return references: a read and a write each. *)
Definition getCacheTag (d : directory) (way set : nat) : Z := tag_m d !!! dir_index d way set.
Definition getCacheValid (d : directory) (way set : nat) : bool := val_m d !!! dir_index d way set.
Definition setCacheTag (way set : nat) (t : Z) (d : directory) : directory :=
  set_tag_m (<[dir_index d way set := t]> (tag_m d)) d.
Definition setCacheValid (way set : nat) (v : bool) (d : directory) : directory :=
  set_val_m (<[dir_index d way set := v]> (val_m d)) d.

(** The constructor: [new uint64_t[..]] and [new bool[..]] leave the cells
    indeterminate, so their contents are arguments; [None] is a failed
    [sc_assert]. *)
Definition mk_directory (nways nsets : nat) (nbytes : Z) (tags : list Z) (vals : list bool)
    : option directory :=
  if (0 <? nsets)%nat && (0 <? nways)%nat && (0 <? nbytes) then
    Some {| tag_m := tags; val_m := vals; ways_m := nways; sets_m := nsets; bytes_m := nbytes |}
  else None.

(** [getNline(tag, set)], [getNline(addr)], [getAddr], [getAddrTag], [getAddrSet] *)
Definition getNline_of_tag (d : directory) (tag : Z) (set : nat) : Z :=
  u64 (u64 (tag * Z.of_nat (sets_m d)) + Z.of_nat set).
Definition getNline (d : directory) (addr : Z) : Z := addr / bytes_m d.
Definition getAddr (d : directory) (tag : Z) (set : nat) : Z :=
  u64 (getNline_of_tag d tag set * bytes_m d).
Definition getAddrTag (d : directory) (addr : Z) : Z :=
  addr / u64 (Z.of_nat (sets_m d) * bytes_m d).
Definition getAddrSet (d : directory) (addr : Z) : nat :=
  Z.to_nat ((addr / bytes_m d) mod Z.of_nat (sets_m d)).

(** [reset()]: two nested loops over ways and sets. *)
Definition reset_cell (way set : nat) (d : directory) : directory :=
  setCacheTag way set 0 (setCacheValid way set false d).
Definition for_cells (ways sets : nat) {A} (f : nat -> nat -> A -> A) (a : A) : A :=
  fold_left (fun a way => fold_left (fun a set => f way set a) (seq 0 sets) a) (seq 0 ways) a.
Definition reset (d : directory) : directory := for_cells (ways_m d) (sets_m d) reset_cell d.

(** The result of a lookup, as stored through [hit_way] and [hit_set]. *)
Definition match_way (d : directory) (set : nat) (tag : Z) (way : nat) : bool :=
  getCacheValid d way set && (tag =? getCacheTag d way set).

(** [hit(addr, &way, &set)]: [None] is the miss, which stores [UINT_MAX] twice. *)
Definition hit (d : directory) (addr : Z) : option (nat * nat) :=
  let set := getAddrSet d addr in
  let tag := getAddrTag d addr in
  (fun way => (way, set)) <$> find_first (ways_m d) (match_way d set tag).
Definition hit_out (o : option (nat * nat)) : Z * Z :=
  match o with
  | Some (way, set) => (Z.of_nat way, Z.of_nat set)
  | None => (UINT_MAX, UINT_MAX)
  end.

(** [inval(way, set)] *)
Definition inval (way set : nat) (d : directory) : bool * directory :=
  (getCacheValid d way set, setCacheValid way set false d).

(** [inval(addr)]: the first way whose tag matches, whether it is valid or not. *)
Definition inval_addr (addr : Z) (d : directory) : bool * directory :=
  let set := getAddrSet d addr in
  let tag := getAddrTag d addr in
  match find_first (ways_m d) (fun way => getCacheTag d way set =? tag) with
  | Some way => (true, setCacheValid way set false d)
  | None => (false, d)
  end.

(** [printTrace()]: the valid cells, way by way, as (set, way, tag). *)
Definition printTrace (d : directory) : list (nat * nat * Z) :=
  way ← seq 0 (ways_m d);
  set ← seq 0 (sets_m d);
  if getCacheValid d way set then [(set, way, getCacheTag d way set)] else [].

(** What [repl] stores through its output pointers. *)
Record victim := { victim_evicted : bool; victim_tag : Z; victim_way : nat; victim_set : nat }.

(** ** The interface of a replacement policy *)
Class ReplacementPolicy (D : Type) := {
  dir_of : D -> directory;
  with_dir : directory -> D -> D;             (* the base class's fields, assigned *)
  repl : Z -> D -> option (victim * D);       (* None: the [sc_assert] fails *)
  replUpdate : nat -> nat -> D -> D;
}.

Section Generic.
Context {D : Type} `{ReplacementPolicy D}.

(** [access(addr, &way, &set, update_repl_flags)] *)
Definition access (addr : Z) (update_repl_flags : bool) (d : D) : option (nat * nat) * D :=
  match hit (dir_of d) addr with
  | Some (way, set) =>
      (Some (way, set), if update_repl_flags then replUpdate way set d else d)
  | None => (None, d)
  end.

(** The base class's [inval]s on an object of the derived class. *)
Definition do_inval (way set : nat) (d : D) : bool * D :=
  let '(b, e) := inval way set (dir_of d) in (b, with_dir e d).
Definition do_inval_addr (addr : Z) (d : D) : bool * D :=
  let '(b, e) := inval_addr addr (dir_of d) in (b, with_dir e d).

(** [alloc(addr, &way, &set, &victim_tag)] *)
Definition alloc (addr : Z) (d : D) : option (victim * D) := repl addr d.
End Generic.

(** ** Well-formedness *)
Record dir_wf (d : directory) : Prop := {
  dir_tags : length (tag_m d) = (ways_m d * sets_m d)%nat;
  dir_vals : length (val_m d) = (ways_m d * sets_m d)%nat;
  dir_ways : (0 < ways_m d)%nat;
  dir_sets : (0 < sets_m d)%nat;
  dir_bytes : 0 < bytes_m d;
  dir_size : Z.of_nat (sets_m d) * bytes_m d < 2 ^ 64;
}.

(** What a policy promises to the directory's clients. *)
Class ReplacementPolicyLaws (D : Type) `{ReplacementPolicy D} (inv : D -> Prop) := {
  inv_wf d : inv d -> dir_wf (dir_of d);
  with_dir_dir b d : dir_of (with_dir b d) = b;
  with_dir_inv b d : inv d -> dir_wf b -> ways_m b = ways_m (dir_of d) ->
    sets_m b = sets_m (dir_of d) -> inv (with_dir b d);
  replUpdate_dir way set d : dir_of (replUpdate way set d) = dir_of d;
  replUpdate_inv way set d :
    inv d -> (way < ways_m (dir_of d))%nat -> (set < sets_m (dir_of d))%nat ->
    inv (replUpdate way set d);
  (* the assertion only fails in a full set of a directory with one way *)
  repl_stuck addr d : inv d -> repl addr d = None ->
    ways_m (dir_of d) = 1%nat /\
    forall w, (w < ways_m (dir_of d))%nat -> getCacheValid (dir_of d) w (getAddrSet (dir_of d) addr) = true;
  repl_victim addr d v d' : inv d -> repl addr d = Some (v, d') ->
    (victim_way v < ways_m (dir_of d))%nat /\ victim_set v = getAddrSet (dir_of d) addr /\
    dir_of d' = setCacheTag (victim_way v) (victim_set v) (getAddrTag (dir_of d) addr)
                  (setCacheValid (victim_way v) (victim_set v) true (dir_of d)) /\
    victim_evicted v = getCacheValid (dir_of d) (victim_way v) (victim_set v) /\
    (victim_evicted v = true ->
       victim_tag v = getCacheTag (dir_of d) (victim_way v) (victim_set v) /\
       forall w, (w < ways_m (dir_of d))%nat -> getCacheValid (dir_of d) w (victim_set v) = true) /\
    (victim_evicted v = false ->
       victim_tag v = 0 /\
       forall w, (w < victim_way v)%nat -> getCacheValid (dir_of d) w (victim_set v) = true) /\
    inv d';
}.

(** ** Indices *)
Lemma idx_lt d way set :
  (way < ways_m d)%nat -> (set < sets_m d)%nat -> (dir_index d way set < ways_m d * sets_m d)%nat.
Proof. unfold dir_index. nia. Qed.

Lemma idx_inj d w1 s1 w2 s2 :
  (s1 < sets_m d)%nat -> (s2 < sets_m d)%nat ->
  dir_index d w1 s1 = dir_index d w2 s2 -> w1 = w2 /\ s1 = s2.
Proof. unfold dir_index. intros. assert (w1 = w2) by nia. subst. split; lia. Qed.

Lemma getAddrSet_lt d addr : dir_wf d -> (getAddrSet d addr < sets_m d)%nat.
Proof.
  intros Hd. unfold getAddrSet. pose proof (dir_sets d Hd).
  pose proof (Z.mod_pos_bound (addr / bytes_m d) (Z.of_nat (sets_m d)) ltac:(lia)). lia.
Qed.

Section Cells.
Context (d : directory) (Hd : dir_wf d).

Lemma tag_setCacheTag w s t w' s' :
  (w < ways_m d)%nat -> (s < sets_m d)%nat -> (s' < sets_m d)%nat ->
  getCacheTag (setCacheTag w s t d) w' s' =
  if decide (w = w' /\ s = s') then t else getCacheTag d w' s'.
Proof using Hd.
  intros. unfold getCacheTag, setCacheTag, dir_index; simpl.
  fold (dir_index d w' s') (dir_index d w s).
  case_decide as Hc.
  - destruct Hc as [<- <-]. apply list_lookup_total_insert_eq.
    rewrite (dir_tags d Hd). by apply idx_lt.
  - apply list_lookup_total_insert_ne. intros Heq. by apply idx_inj in Heq.
Qed.

Lemma val_setCacheValid w s b w' s' :
  (w < ways_m d)%nat -> (s < sets_m d)%nat -> (s' < sets_m d)%nat ->
  getCacheValid (setCacheValid w s b d) w' s' =
  if decide (w = w' /\ s = s') then b else getCacheValid d w' s'.
Proof using Hd.
  intros. unfold getCacheValid, setCacheValid, dir_index; simpl.
  fold (dir_index d w' s') (dir_index d w s).
  case_decide as Hc.
  - destruct Hc as [<- <-]. apply list_lookup_total_insert_eq.
    rewrite (dir_vals d Hd). by apply idx_lt.
  - apply list_lookup_total_insert_ne. intros Heq. by apply idx_inj in Heq.
Qed.

Lemma setCacheTag_wf w s t : dir_wf (setCacheTag w s t d).
Proof using Hd.
  destruct Hd. split; simpl; rewrite ?length_insert; done.
Qed.

Lemma setCacheValid_wf w s b : dir_wf (setCacheValid w s b d).
Proof using Hd.
  destruct Hd. split; simpl; rewrite ?length_insert; done.
Qed.
End Cells.

Create HintDb dir.
#[export] Hint Resolve getAddrSet_lt setCacheTag_wf setCacheValid_wf dir_ways dir_sets : dir.

(** ** Addresses

    The tag, the set and the offset in the line determine the address: the
    directory's decomposition is the division by the line size and the number of
    sets, and [getAddr] puts a line's first address back together. *)
Lemma getAddrTag_div d addr :
  dir_wf d -> getAddrTag d addr = (addr / bytes_m d) / Z.of_nat (sets_m d).
Proof.
  intros Hd. destruct Hd. unfold getAddrTag.
  assert (0 <= Z.of_nat (sets_m d) * bytes_m d) by (apply Z.mul_nonneg_nonneg; lia).
  rewrite wrap_small by (split; lia).
  rewrite Z.mul_comm, Z.div_div by lia. done.
Qed.

(** The tag and the set of an address, put together again by [getAddr], are the
    address of its line; so no two lines share a tag and a set. *)
Lemma getAddr_decompose d addr :
  dir_wf d -> is_word 64 addr ->
  getAddr d (getAddrTag d addr) (getAddrSet d addr) = addr - addr mod bytes_m d.
Proof.
  intros Hd [Ha1 Ha2]. rewrite getAddrTag_div by done.
  pose proof (dir_sets d Hd) as Hs. pose proof (dir_bytes d Hd) as Hb.
  unfold getAddr, getNline_of_tag, getAddrSet.
  set (n := addr / bytes_m d). set (s := Z.of_nat (sets_m d)).
  assert (0 <= n) by (apply Z.div_pos; lia).
  pose proof (Z.div_mod n s ltac:(unfold s; lia)) as Hn.
  pose proof (Z.mod_pos_bound n s ltac:(unfold s; lia)).
  pose proof (Z.div_mod addr (bytes_m d) ltac:(lia)) as Hdm.
  pose proof (Z.mod_pos_bound addr (bytes_m d) ltac:(lia)). fold n in Hdm.
  assert (0 <= n / s) by (apply Z.div_pos; unfold s; lia).
  assert (n <= addr) by nia.
  rewrite Z2Nat.id by lia. rewrite (wrap_small 64 (n / s * s)) by (split; nia).
  replace (n / s * s + n mod s) with n by lia.
  rewrite (wrap_small 64 n), wrap_small by (split; nia). lia.
Qed.

(** Two addresses of one line have the same tag and set, and two addresses with
    the same tag and set are in one line. *)
Lemma same_line d a b :
  dir_wf d -> 0 <= a -> 0 <= b ->
  getNline d a = getNline d b <-> getAddrTag d a = getAddrTag d b /\ getAddrSet d a = getAddrSet d b.
Proof.
  intros Hd Ha Hb. rewrite !getAddrTag_div by done. unfold getNline, getAddrSet.
  pose proof (dir_sets d Hd). pose proof (dir_bytes d Hd).
  split; [by intros ->|]. intros [Ht Hs].
  pose proof (Z.mod_pos_bound (a / bytes_m d) (Z.of_nat (sets_m d)) ltac:(lia)).
  pose proof (Z.mod_pos_bound (b / bytes_m d) (Z.of_nat (sets_m d)) ltac:(lia)).
  rewrite (Z.div_mod (a / bytes_m d) (Z.of_nat (sets_m d))) by lia.
  rewrite (Z.div_mod (b / bytes_m d) (Z.of_nat (sets_m d))) by lia.
  rewrite Ht. f_equal. lia.
Qed.

Lemma nline_split d a :
  dir_wf d -> getNline d a = getAddrTag d a * Z.of_nat (sets_m d) + Z.of_nat (getAddrSet d a).
Proof.
  intros Hd. rewrite getAddrTag_div by done. unfold getNline, getAddrSet.
  pose proof (dir_sets d Hd).
  pose proof (Z.mod_pos_bound (a / bytes_m d) (Z.of_nat (sets_m d)) ltac:(lia)).
  rewrite Z2Nat.id by lia.
  rewrite (Z.div_mod (a / bytes_m d) (Z.of_nat (sets_m d))) at 1 by lia. lia.
Qed.

(** ** Loops over the cells *)
Lemma for_cells_spec {A} (P : nat -> nat -> A -> Prop) (f : nat -> nat -> A -> A) (I : A -> Prop)
    ways sets a :
  I a ->
  (forall w s a, (w < ways)%nat -> (s < sets)%nat -> I a -> I (f w s a) /\ P w s (f w s a)) ->
  (forall w s w' s' a, (w < ways)%nat -> (s < sets)%nat -> (w' < ways)%nat -> (s' < sets)%nat ->
     I a -> P w s a -> P w s (f w' s' a)) ->
  let r := for_cells ways sets f a in
  I r /\ forall w s, (w < ways)%nat -> (s < sets)%nat -> P w s r.
Proof.
  intros HI Hset Hkeep.
  set (row w a := fold_left (fun a s => f w s a) (seq 0 sets) a).
  assert (forall w n a, (w < ways)%nat -> (n <= sets)%nat -> I a ->
    let r := fold_left (fun a s => f w s a) (seq 0 n) a in
    I r /\ (forall s, (s < n)%nat -> P w s r) /\
    (forall w' s', (w' < ways)%nat -> (s' < sets)%nat -> P w' s' a -> P w' s' r)) as Hrow.
  { intros w n. induction n as [|n IH]; intros b Hw Hn Hb; cbv zeta.
    - split_and!; [done|lia|done].
    - rewrite seq_S, fold_left_app. simpl.
      destruct (IH b Hw ltac:(lia) Hb) as (IH1 & IH2 & IH3).
      destruct (Hset w n _ Hw ltac:(lia) IH1) as [H1 H2]. split_and!; [done| |].
      + intros s Hs. destruct (decide (s = n)) as [->|]; [done|].
        apply Hkeep; try lia; [done|]. apply IH2; lia.
      + intros w' s' Hw' Hs' HP. apply Hkeep; try lia; auto. }
  assert (forall m, (m <= ways)%nat ->
    let r := fold_left (fun a w => row w a) (seq 0 m) a in
    I r /\ forall w s, (w < m)%nat -> (s < sets)%nat -> P w s r) as Hall.
  { induction m as [|m IH]; intros Hm; cbv zeta; [split; [done|lia]|].
    rewrite seq_S, fold_left_app. simpl.
    destruct (IH ltac:(lia)) as (IH1 & IH2).
    destruct (Hrow m sets _ ltac:(lia) ltac:(lia) IH1) as (H1 & H2 & H3). split; [done|].
    intros w s Hw Hs. destruct (decide (w = m)) as [->|]; [by apply H2|].
    apply H3; [lia|lia|]. apply IH2; lia. }
  apply (Hall ways). lia.
Qed.

(** [reset] leaves a well-formed directory with no valid line and null tags. *)
Lemma reset_spec d :
  dir_wf d ->
  dir_wf (reset d) /\ ways_m (reset d) = ways_m d /\ sets_m (reset d) = sets_m d /\
  bytes_m (reset d) = bytes_m d /\
  forall w s, (w < ways_m d)%nat -> (s < sets_m d)%nat ->
    getCacheValid (reset d) w s = false /\ getCacheTag (reset d) w s = 0.
Proof.
  intros Hd.
  set (I := fun e => dir_wf e /\ ways_m e = ways_m d /\ sets_m e = sets_m d /\ bytes_m e = bytes_m d).
  set (P := fun w s e => getCacheValid e w s = false /\ getCacheTag e w s = 0).
  assert (forall w s e w' s', I e -> (w < ways_m d)%nat -> (s < sets_m d)%nat -> (s' < sets_m d)%nat ->
    getCacheValid (reset_cell w s e) w' s' =
      (if decide (w = w' /\ s = s') then false else getCacheValid e w' s') /\
    getCacheTag (reset_cell w s e) w' s' =
      (if decide (w = w' /\ s = s') then 0 else getCacheTag e w' s')) as Hcell.
  { intros w s e w' s' (He & Hew & Hes & _) Hw Hs Hs'. unfold reset_cell.
    rewrite tag_setCacheTag by (simpl; rewrite ?Hew, ?Hes; auto with dir).
    change (getCacheValid (setCacheTag w s 0 (setCacheValid w s false e)) w' s')
      with (getCacheValid (setCacheValid w s false e) w' s').
    rewrite val_setCacheValid by (simpl; rewrite ?Hew, ?Hes; auto with dir). done. }
  destruct (for_cells_spec P reset_cell I (ways_m d) (sets_m d) d) as [HI HP].
  - done.
  - intros w s e Hw Hs He. split.
    + destruct He as (He & ?). unfold I, reset_cell. simpl. auto with dir.
    + destruct (Hcell w s e w s He Hw Hs Hs) as [H1 H2]. unfold P.
      rewrite H1, H2, !decide_True; done.
  - intros w s w' s' e Hw Hs Hw' Hs' He [H1 H2].
    destruct (Hcell w' s' e w s He Hw' Hs' Hs) as [H3 H4]. unfold P.
    rewrite H3, H4, H1, H2. by case_decide.
  - destruct HI as (?&?&?&?). split_and!; done.
Qed.

(** ** Lookup *)
Lemma hit_Some d addr w s :
  hit d addr = Some (w, s) <->
  s = getAddrSet d addr /\ (w < ways_m d)%nat /\ getCacheValid d w s = true /\
  getCacheTag d w s = getAddrTag d addr /\
  forall w', (w' < w)%nat -> match_way d s (getAddrTag d addr) w' = false.
Proof.
  unfold hit. rewrite fmap_Some. setoid_rewrite find_first_Some. split.
  - intros (w' & (Hw & Hm & Hmin) & [= -> ->]). unfold match_way in Hm.
    apply andb_prop in Hm as [Hv Ht]. apply Z.eqb_eq in Ht. auto 10.
  - intros (-> & Hw & Hv & Ht & Hmin). exists w. split_and!; [done| |done|done].
    unfold match_way. by rewrite Hv, Ht, Z.eqb_refl.
Qed.

(** The line of [addr] is present: some valid way of its set holds its tag. *)
Definition present (d : directory) (addr : Z) : Prop :=
  exists w, (w < ways_m d)%nat /\ getCacheValid d w (getAddrSet d addr) = true /\
            getCacheTag d w (getAddrSet d addr) = getAddrTag d addr.

Lemma match_way_true d s t w :
  match_way d s t w = true <-> getCacheValid d w s = true /\ getCacheTag d w s = t.
Proof.
  unfold match_way. rewrite andb_true_iff, Z.eqb_eq. naive_solver.
Qed.

Lemma hit_present d addr : is_Some (hit d addr) <-> present d addr.
Proof.
  unfold hit, present. rewrite fmap_is_Some. split.
  - intros [w Hw]. apply find_first_Some in Hw as (Hw & Hm & _).
    apply match_way_true in Hm. eauto.
  - intros (w & Hw & Hm). apply match_way_true in Hm.
    destruct (find_first _ _) eqn:E; [by eexists|].
    rewrite find_first_None in E. rewrite E in Hm; done.
Qed.

Lemma hit_None d addr : hit d addr = None <-> ~ present d addr.
Proof. rewrite <-hit_present, eq_None_not_Some. done. Qed.

(** ** Clean directories

    [inval(addr)] stops at the first way whose tag matches, valid or not, so it
    is right only if no way before a valid one repeats its tag. The directory
    keeps that property as long as lines are allocated on a miss only. *)
Definition dir_clean (d : directory) : Prop :=
  forall s w v, (s < sets_m d)%nat -> (w < v)%nat -> (v < ways_m d)%nat ->
  getCacheValid d v s = true -> getCacheTag d w s <> getCacheTag d v s.

(** Two valid ways of a set never hold the same tag. *)
Lemma clean_unique d s w v :
  dir_clean d -> (s < sets_m d)%nat -> (w < ways_m d)%nat -> (v < ways_m d)%nat ->
  getCacheValid d w s = true -> getCacheValid d v s = true ->
  getCacheTag d w s = getCacheTag d v s -> w = v.
Proof.
  intros Hc Hs Hw Hv Hvw Hvv Ht.
  destruct (Nat.lt_trichotomy w v) as [Hlt|[->|Hlt]]; [|done|];
    exfalso; by eapply (Hc s _ _ Hs Hlt).
Qed.

(** Installing tag [t], valid, in way [w] of set [s]. *)
Definition install (w s : nat) (t : Z) (d : directory) : directory :=
  setCacheTag w s t (setCacheValid w s true d).

Section Install.
Context (d : directory) (Hd : dir_wf d) (w s : nat) (t : Z).
Hypothesis Hw : (w < ways_m d)%nat.
Hypothesis Hs : (s < sets_m d)%nat.

Lemma install_tag w' s' :
  (s' < sets_m d)%nat ->
  getCacheTag (install w s t d) w' s' = if decide (w = w' /\ s = s') then t else getCacheTag d w' s'.
Proof using Hd Hw Hs.
  intros Hs'. unfold install. rewrite tag_setCacheTag; auto with dir.
Qed.

Lemma install_val w' s' :
  (s' < sets_m d)%nat ->
  getCacheValid (install w s t d) w' s' =
  if decide (w = w' /\ s = s') then true else getCacheValid d w' s'.
Proof using Hd Hw Hs.
  intros Hs'. change (getCacheValid (install w s t d) w' s')
    with (getCacheValid (setCacheValid w s true d) w' s').
  by apply val_setCacheValid.
Qed.

(** Which lines are present afterwards. *)
Lemma install_present addr b :
  s = getAddrSet d addr -> t = getAddrTag d addr ->
  present (install w s t d) b <->
  (getAddrTag d b = t /\ getAddrSet d b = s) \/
  (exists v, (v < ways_m d)%nat /\ (v <> w \/ getAddrSet d b <> s) /\
     getCacheValid d v (getAddrSet d b) = true /\
     getCacheTag d v (getAddrSet d b) = getAddrTag d b).
Proof using Hd Hw Hs.
  intros Es Et. pose proof (getAddrSet_lt d b Hd) as Hb. unfold present.
  change (ways_m (install w s t d)) with (ways_m d).
  change (getAddrSet (install w s t d) b) with (getAddrSet d b).
  change (getAddrTag (install w s t d) b) with (getAddrTag d b).
  split.
  - intros (v & Hv & Hval & Htag). rewrite install_val in Hval by done.
    rewrite install_tag in Htag by done. case_decide as Hc.
    + left. naive_solver.
    + right. exists v. destruct (decide (v = w)); naive_solver.
  - intros [[Ht Hs'] | (v & Hv & Hne & Hval & Htag)].
    + exists w. split; [done|]. rewrite install_val, install_tag by done.
      rewrite Hs'. by rewrite !decide_True by done.
    + exists v. split; [done|]. rewrite install_val, install_tag by done.
      rewrite !decide_False by naive_solver. done.
Qed.

(** Allocation on a miss keeps the directory clean, provided the ways before the
    chosen one are valid. *)
Lemma install_clean :
  dir_clean d ->
  (forall v, (v < w)%nat -> getCacheValid d v s = true) ->
  (forall v, (v < ways_m d)%nat -> getCacheValid d v s = true -> getCacheTag d v s <> t) ->
  dir_clean (install w s t d).
Proof using Hd Hw Hs.
  intros Hc Hbefore Hmiss s' u v Hs' Huv Hv Hval.
  change (sets_m (install w s t d)) with (sets_m d) in Hs'.
  change (ways_m (install w s t d)) with (ways_m d) in Hv.
  rewrite install_val in Hval by done. rewrite !install_tag by done.
  destruct (decide (w = u /\ s = s')) as [[E1 E2]|Hu],
           (decide (w = v /\ s = s')) as [[E3 E4]|Hv'].
  - lia.
  - subst u s'. intros Heq. by apply (Hmiss v).
  - subst v s'. apply Hmiss; [lia|]. by apply Hbefore.
  - by apply Hc.
Qed.
End Install.

Section Inval.
Context (d : directory) (Hd : dir_wf d).

Lemma inval_clean w s : (w < ways_m d)%nat -> (s < sets_m d)%nat ->
  dir_clean d -> dir_clean (setCacheValid w s false d).
Proof using Hd.
  intros Hw Hs Hc s' u v Hs' Huv Hv Hval.
  rewrite val_setCacheValid in Hval by done. case_decide; [done|].
  by apply Hc.
Qed.

(** [inval(addr)] on a clean directory removes the line of [addr] and no other. *)
Lemma inval_addr_present addr b :
  dir_clean d ->
  present (inval_addr addr d).2 b <->
  present d b /\ ~ (getAddrTag d b = getAddrTag d addr /\ getAddrSet d b = getAddrSet d addr).
Proof using Hd.
  intros Hc. unfold inval_addr.
  set (s := getAddrSet d addr). set (t := getAddrTag d addr).
  pose proof (getAddrSet_lt d addr Hd) as Hs. fold s in Hs.
  pose proof (getAddrSet_lt d b Hd) as Hb.
  destruct (find_first (ways_m d) (fun way => getCacheTag d way s =? t)) as [w|] eqn:E; simpl.
  - apply find_first_Some in E as (Hw & Ht & Hmin). apply Z.eqb_eq in Ht.
    unfold present. simpl.
    change (getAddrSet (setCacheValid w s false d) b) with (getAddrSet d b).
    change (getAddrTag (setCacheValid w s false d) b) with (getAddrTag d b).
    split.
    + intros (v & Hv & Hval & Htag). rewrite val_setCacheValid in Hval by done.
      change (getCacheTag (setCacheValid w s false d) v (getAddrSet d b))
        with (getCacheTag d v (getAddrSet d b)) in Htag.
      case_decide as Hne; [done|]. split; [by exists v|]. intros [Hbt Hbs].
      rewrite Hbs in *. rewrite Hbt in Htag.
      destruct (Nat.lt_trichotomy w v) as [Hlt|[->|Hlt]].
      * apply (Hc s w v); done || congruence.
      * naive_solver.
      * specialize (Hmin v Hlt). apply Z.eqb_neq in Hmin. congruence.
    + intros [(v & Hv & Hval & Htag) Hne]. exists v. split; [done|].
      rewrite val_setCacheValid by done.
      change (getCacheTag (setCacheValid w s false d) v (getAddrSet d b))
        with (getCacheTag d v (getAddrSet d b)).
      case_decide as Heq; [|done]. destruct Heq as [-> Hsb].
      exfalso. apply Hne. rewrite <-Hsb in *. by rewrite <-Htag, Ht.
  - rewrite find_first_None in E. split; [|by intros []].
    intros Hp. split; [done|]. intros [Hbt Hbs]. destruct Hp as (v & Hv & Hval & Htag).
    rewrite Hbs, Hbt in Htag. specialize (E v Hv). apply Z.eqb_neq in E. congruence.
Qed.

Lemma inval_addr_cases addr :
  (inval_addr addr d).2 = d \/
  exists w, (w < ways_m d)%nat /\ (inval_addr addr d).2 = setCacheValid w (getAddrSet d addr) false d.
Proof.
  unfold inval_addr. destruct (find_first _ _) as [w|] eqn:E; simpl; [|by left].
  apply find_first_Some in E as (Hw & _). right. eauto.
Qed.
End Inval.
#[export] Hint Resolve inval_clean : dir.

(** ** What every policy that keeps its promises gives the clients *)
Section Clients.
Context {D : Type} `{ReplacementPolicy D} (inv : D -> Prop) {L : ReplacementPolicyLaws D inv}.

Lemma repl_install addr d v d' :
  inv d -> repl addr d = Some (v, d') ->
  (victim_way v < ways_m (dir_of d))%nat /\ victim_set v = getAddrSet (dir_of d) addr /\
  dir_of d' = install (victim_way v) (victim_set v) (getAddrTag (dir_of d) addr) (dir_of d).
Proof using L.
  intros Hi Hr. pose proof (repl_victim addr d v d' Hi Hr) as (?&?&?&_). done.
Qed.

(** The set of lines after an allocation: the new line is there, the victim's
    line is gone, and no other line changes. *)
Lemma alloc_lines addr d v d' :
  inv d -> dir_clean (dir_of d) -> repl addr d = Some (v, d') ->
  forall b, present (dir_of d') b <->
    (getAddrTag (dir_of d) b = getAddrTag (dir_of d) addr /\
     getAddrSet (dir_of d) b = getAddrSet (dir_of d) addr) \/
    (present (dir_of d) b /\
     ~ (victim_evicted v = true /\ getAddrSet (dir_of d) b = victim_set v /\
        getAddrTag (dir_of d) b = victim_tag v)).
Proof using L.
  intros Hi Hc Hr b. pose proof (inv_wf d Hi) as Hwf.
  pose proof (repl_victim addr d v d' Hi Hr) as (Hw & Hs & Hdir & Hev & Htrue & _ & _).
  pose proof (getAddrSet_lt (dir_of d) addr Hwf) as Hsa.
  pose proof (getAddrSet_lt (dir_of d) b Hwf) as Hsb.
  fold (install (victim_way v) (victim_set v) (getAddrTag (dir_of d) addr) (dir_of d)) in Hdir.
  assert (victim_set v < sets_m (dir_of d))%nat as Hvs by (by rewrite Hs).
  rewrite Hdir, (install_present _ Hwf _ _ _ Hw Hvs addr b) by done.
  rewrite Hs. apply or_iff_compat_l. split.
  - intros (u & Hu & Hne & Hval & Htag). split; [by exists u|].
    intros (Hevt & Hsbv & Htbv). destruct (Htrue Hevt) as [Hvt _].
    destruct Hne as [Hne|Hne]; [|done]. apply Hne.
    apply (clean_unique (dir_of d) (getAddrSet (dir_of d) b)); try done.
    + rewrite Hsbv. by rewrite <-Hs, <-Hev.
    + rewrite Htag, Htbv, Hvt. by rewrite Hs, Hsbv.
  - intros [(u & Hu & Hval & Htag) Hne]. exists u. split_and!; try done.
    destruct (decide (u = victim_way v)) as [->|]; [|by left].
    destruct (decide (getAddrSet (dir_of d) b = getAddrSet (dir_of d) addr)) as [Heq|]; [|by right].
    exfalso. apply Hne. rewrite Heq in Hval, Htag.
    assert (victim_evicted v = true) as He by (by rewrite Hev, Hs).
    destruct (Htrue He) as [-> _]. by rewrite Hs, Htag.
Qed.

(** After an allocation on a miss, the access hits in the way just allocated. *)
Lemma alloc_then_hit addr d v d' :
  inv d -> ~ present (dir_of d) addr -> repl addr d = Some (v, d') ->
  hit (dir_of d') addr = Some (victim_way v, victim_set v).
Proof using L.
  intros Hi Hmiss Hr. pose proof (inv_wf d Hi) as Hwf.
  destruct (repl_install addr d v d' Hi Hr) as (Hw & Hs & Hdir).
  pose proof (getAddrSet_lt (dir_of d) addr Hwf) as Hsa. rewrite <-Hs in Hsa.
  rewrite Hdir. apply hit_Some.
  split_and!; [done|done| | |]; rewrite ?(install_val _ Hwf), ?(install_tag _ Hwf) by done.
  - by rewrite decide_True.
  - by rewrite decide_True.
  - intros w' Hlt. apply not_true_is_false. rewrite match_way_true.
    rewrite (install_val _ Hwf), (install_tag _ Hwf) by done.
    rewrite !decide_False by lia. intros [Hval Htag]. apply Hmiss.
    exists w'. rewrite <-Hs. split_and!; [lia|done|done].
Qed.

Lemma alloc_clean addr d v d' :
  inv d -> dir_clean (dir_of d) -> ~ present (dir_of d) addr -> repl addr d = Some (v, d') ->
  dir_clean (dir_of d').
Proof using L.
  intros Hi Hc Hmiss Hr. pose proof (inv_wf d Hi) as Hwf.
  pose proof (repl_victim addr d v d' Hi Hr) as (Hw & Hs & -> & Hev & Htrue & Hfalse & _).
  pose proof (getAddrSet_lt (dir_of d) addr Hwf) as Hsa. rewrite <-Hs in Hsa.
  apply (install_clean _ Hwf); try done.
  - intros u Hu. destruct (victim_evicted v).
    + apply Htrue; [done|lia].
    + by apply Hfalse.
  - intros u Hu Hval Htag. apply Hmiss. exists u. by rewrite <-Hs.
Qed.
End Clients.

(** ** Witness *)
Lemma getAddr_decompose_witness :
  let d := {| tag_m := []; val_m := []; ways_m := 0; sets_m := 4; bytes_m := 64 |} in
  getAddr d (getAddrTag d 0x1234) (getAddrSet d 0x1234) = 0x1200.
Proof.
  pose proof (getAddr_decompose
    {| tag_m := [0; 0; 0; 0]; val_m := [false; false; false; false]; ways_m := 1; sets_m := 4; bytes_m := 64 |}
    0x1234) as H. intros d. transitivity (0x1234 - 0x1234 mod 64); [|done].
  apply H; [split; simpl; done || lia|]. by vm_compute.
Defined.
