(* ===== verification/CacheSpec.v ===== *)
(** * What a cache directory promises

    The abstract cache is a finite set of line numbers. [spec_step] says what an
    access, an allocation and an invalidation may do to it; the theorems show
    that a directory whose replacement policy keeps the promises of
    [ReplacementPolicyLaws] implements it, through the abstraction function
    [lines_of] (the lines [printTrace] prints). They are proved against the
    interface, for every policy; [CacheDirPlru.v] discharges it. *)
From S2P Require Import Prelude CacheDir.

(** ** The abstract cache *)
Inductive line_op :=
  | LAccess (n : Z)
  | LAlloc (n : Z)
  | LInval (n : Z).
Inductive line_res :=
  | RHit (b : bool)
  | RFilled
  | REvicted (v : Z)
  | RInval (b : bool).

(** The lines of [X] that map to set [s]. *)
Definition in_set (sets s : Z) (X : gset Z) : gset Z := filter (fun n => n mod sets = s) X.

Inductive spec_step (ways : nat) (sets : Z) : gset Z -> line_op -> line_res -> gset Z -> Prop :=
  | spec_access X n : spec_step ways sets X (LAccess n) (RHit (bool_decide (n ∈ X))) X
  | spec_fill X n :
      n ∉ X -> (size (in_set sets (n mod sets) X) < ways)%nat ->
      spec_step ways sets X (LAlloc n) RFilled ({[n]} ∪ X)
  | spec_evict X n v :
      n ∉ X -> v ∈ X -> v mod sets = n mod sets ->
      size (in_set sets (n mod sets) X) = ways ->
      spec_step ways sets X (LAlloc n) (REvicted v) ({[n]} ∪ (X ∖ {[v]}))
  | spec_inval X n b :
      (n ∈ X -> b = true) -> spec_step ways sets X (LInval n) (RInval b) (X ∖ {[n]}).

(** ** The abstraction function *)
Definition lines_of (d : directory) : gset Z :=
  list_to_set ((fun '(set, _, tag) => getNline_of_tag d tag set) <$> printTrace d).

(** The tags the directory holds come from 64-bit addresses. *)
Definition tags_ok (d : directory) : Prop :=
  forall w s, (w < ways_m d)%nat -> (s < sets_m d)%nat -> getCacheValid d w s = true ->
  0 <= getCacheTag d w s /\ getCacheTag d w s * Z.of_nat (sets_m d) + Z.of_nat s < 2 ^ 64.

Lemma getNline_of_tag_small d t s :
  0 <= t -> t * Z.of_nat (sets_m d) + Z.of_nat s < 2 ^ 64 ->
  getNline_of_tag d t s = t * Z.of_nat (sets_m d) + Z.of_nat s.
Proof.
  intros H1 H2. unfold getNline_of_tag.
  assert (0 <= t * Z.of_nat (sets_m d)) by (apply Z.mul_nonneg_nonneg; lia).
  rewrite !wrap_small; [done|split; lia..|]. rewrite wrap_small; split; lia.
Qed.

Lemma elem_of_printTrace d s w t :
  (s, w, t) ∈ printTrace d <->
  (w < ways_m d)%nat /\ (s < sets_m d)%nat /\ getCacheValid d w s = true /\ t = getCacheTag d w s.
Proof.
  unfold printTrace. rewrite list_elem_of_bind. split.
  - intros (w' & Hin & Hw). apply list_elem_of_bind in Hin as (s' & Hin & Hs).
    apply elem_of_seq in Hw, Hs. case_match; [|by apply elem_of_nil in Hin].
    apply list_elem_of_singleton in Hin. simplify_eq. split_and!; lia || done.
  - intros (Hw & Hs & Hv & ->). exists w. split; [|apply elem_of_seq; lia].
    apply list_elem_of_bind. exists s. split; [|apply elem_of_seq; lia].
    rewrite Hv. by apply list_elem_of_singleton.
Qed.

Lemma elem_of_lines_cell d n :
  tags_ok d ->
  n ∈ lines_of d <-> exists w s, (w < ways_m d)%nat /\ (s < sets_m d)%nat /\
    getCacheValid d w s = true /\ n = getCacheTag d w s * Z.of_nat (sets_m d) + Z.of_nat s.
Proof.
  intros Ht. unfold lines_of. rewrite elem_of_list_to_set, list_elem_of_fmap. split.
  - intros ([[s w] t] & -> & Hin). apply elem_of_printTrace in Hin as (Hw & Hs & Hv & ->).
    exists w, s. split_and!; try done. destruct (Ht w s Hw Hs Hv). by apply getNline_of_tag_small.
  - intros (w & s & Hw & Hs & Hv & ->). exists (s, w, getCacheTag d w s).
    split; [|by apply elem_of_printTrace]. symmetry.
    destruct (Ht w s Hw Hs Hv). by apply getNline_of_tag_small.
Qed.

(** The first address of line [n]. *)
Lemma line_address d n :
  dir_wf d -> 0 <= n ->
  getNline d (n * bytes_m d) = n /\ getAddrTag d (n * bytes_m d) = n / Z.of_nat (sets_m d) /\
  Z.of_nat (getAddrSet d (n * bytes_m d)) = n mod Z.of_nat (sets_m d).
Proof.
  intros Hd Hn. pose proof (dir_bytes d Hd). pose proof (dir_sets d Hd).
  rewrite getAddrTag_div by done. unfold getNline, getAddrSet. rewrite Z.div_mul by lia.
  split_and!; [done|done|]. rewrite Z2Nat.id; [done|]. by apply Z.mod_pos_bound; lia.
Qed.

Lemma elem_of_lines d n :
  dir_wf d -> tags_ok d -> n ∈ lines_of d <-> 0 <= n /\ present d (n * bytes_m d).
Proof.
  intros Hd Ht. rewrite elem_of_lines_cell by done. pose proof (dir_sets d Hd) as Hs0. split.
  - intros (w & s & Hw & Hs & Hv & ->). destruct (Ht w s Hw Hs Hv) as [Ht0 _].
    assert (0 <= getCacheTag d w s * Z.of_nat (sets_m d)) by (apply Z.mul_nonneg_nonneg; lia).
    split; [lia|]. set (n := getCacheTag d w s * Z.of_nat (sets_m d) + Z.of_nat s).
    destruct (line_address d n Hd ltac:(lia)) as (_ & Htag & Hset).
    assert (getAddrSet d (n * bytes_m d) = s) as Es.
    { apply Nat2Z.inj. rewrite Hset. unfold n. rewrite Z.add_comm, Z.mod_add by lia.
      apply Z.mod_small. lia. }
    exists w. rewrite Es, Htag. split_and!; [done|done|].
    unfold n. rewrite Z.div_add_l, Z.div_small by lia. lia.
  - intros (Hn & w & Hw & Hv & Htag). destruct (line_address d n Hd Hn) as (_ & Ht' & Hs').
    exists w, (getAddrSet d (n * bytes_m d)). split_and!; [done|by apply getAddrSet_lt|done|].
    rewrite Htag, Ht', Hs'. rewrite (Z.div_mod n (Z.of_nat (sets_m d))) at 1 by lia. lia.
Qed.

(** The line number of a valid cell, and the addresses it stands for. *)
Lemma cell_line d w s :
  dir_wf d -> tags_ok d -> (s < sets_m d)%nat -> (w < ways_m d)%nat -> getCacheValid d w s = true ->
  let n := getNline_of_tag d (getCacheTag d w s) s in
  n ∈ lines_of d /\
  (forall m, 0 <= m -> getAddrSet d (m * bytes_m d) = s /\
                       getAddrTag d (m * bytes_m d) = getCacheTag d w s <-> m = n) /\
  n mod Z.of_nat (sets_m d) = Z.of_nat s.
Proof.
  intros Hd Ht Hs Hw Hv n. destruct (Ht w s Hw Hs Hv) as [Ht0 Ht1].
  assert (n = getCacheTag d w s * Z.of_nat (sets_m d) + Z.of_nat s) as Hn
    by (by apply getNline_of_tag_small).
  assert (n mod Z.of_nat (sets_m d) = Z.of_nat s) as Hmod.
  { rewrite Hn, Z.add_comm, Z.mod_add by lia. apply Z.mod_small. lia. }
  split_and!; [apply elem_of_lines_cell; [done|]; by exists w, s| |done].
  intros m Hm. destruct (line_address d m Hd Hm) as (_ & Em & Es). rewrite Em.
  assert (getAddrSet d (m * bytes_m d) = s <-> m mod Z.of_nat (sets_m d) = Z.of_nat s) as ->
    by (rewrite <-Es; lia).
  split.
  - intros [E1 E2]. pose proof (Z.div_mod m (Z.of_nat (sets_m d)) ltac:(lia)) as Hdm.
    rewrite E1, E2 in Hdm. lia.
  - intros ->. split; [done|]. rewrite Hn, Z.div_add_l, Z.div_small by lia. lia.
Qed.

(** Presence depends on the line of an address only. *)
Lemma present_line d a :
  dir_wf d -> tags_ok d -> 0 <= a -> present d a <-> getNline d a ∈ lines_of d.
Proof.
  intros Hd Ht Ha. rewrite elem_of_lines by done. pose proof (dir_bytes d Hd).
  assert (0 <= getNline d a) as Hn by (apply Z.div_pos; lia).
  assert (0 <= getNline d a * bytes_m d) as Hm by (apply Z.mul_nonneg_nonneg; lia).
  destruct (line_address d _ Hd Hn) as [Hl _].
  apply (same_line d _ _ Hd Hm Ha) in Hl as [Et Es].
  unfold present. rewrite Et, Es. naive_solver.
Qed.

(** ** The lines of one set *)
Definition set_lines (d : directory) (s : nat) : list Z :=
  w ← seq 0 (ways_m d);
  if getCacheValid d w s
  then [getCacheTag d w s * Z.of_nat (sets_m d) + Z.of_nat s] else [].

Lemma elem_of_set_lines d s n :
  n ∈ set_lines d s <-> exists w, (w < ways_m d)%nat /\ getCacheValid d w s = true /\
    n = getCacheTag d w s * Z.of_nat (sets_m d) + Z.of_nat s.
Proof.
  unfold set_lines. rewrite list_elem_of_bind. split.
  - intros (w & Hin & Hw). apply elem_of_seq in Hw. case_match; [|by apply elem_of_nil in Hin].
    apply list_elem_of_singleton in Hin. exists w. split_and!; lia || done.
  - intros (w & Hw & Hv & ->). exists w. rewrite Hv. split; [by apply list_elem_of_singleton|].
    apply elem_of_seq. lia.
Qed.

Lemma set_lines_NoDup d s :
  dir_clean d -> (s < sets_m d)%nat -> NoDup (set_lines d s).
Proof.
  intros Hc Hs. unfold set_lines.
  assert (forall n, (n <= ways_m d)%nat -> NoDup (seq 0 n ≫= (fun w =>
     if getCacheValid d w s then [getCacheTag d w s * Z.of_nat (sets_m d) + Z.of_nat s] else []))
     ) as H; [|by apply H].
  induction n as [|n IH]; intros Hn; [constructor|].
  rewrite seq_S, bind_app, list.NoDup_app. split_and!; [apply IH; lia| |].
  - intros x Hx. simpl. rewrite app_nil_r. apply list_elem_of_bind in Hx as (w & Hx & Hw).
    apply elem_of_seq in Hw.
    destruct (getCacheValid d w s) eqn:Ew; [|by apply elem_of_nil in Hx].
    apply list_elem_of_singleton in Hx as ->.
    destruct (getCacheValid d n s) eqn:En; [|apply not_elem_of_nil].
    rewrite list_elem_of_singleton. intros Heq.
    apply (Hc s w n); [done|lia|lia|done|nia].
  - simpl. rewrite app_nil_r. case_match; [apply NoDup_singleton|constructor].
Qed.

Lemma in_set_lines d s :
  dir_wf d -> tags_ok d -> (s < sets_m d)%nat ->
  in_set (Z.of_nat (sets_m d)) (Z.of_nat s) (lines_of d) = list_to_set (set_lines d s).
Proof.
  intros Hd Ht Hs. apply set_eq. intros n. unfold in_set.
  rewrite elem_of_filter, elem_of_list_to_set, elem_of_set_lines, elem_of_lines_cell by done. split.
  - intros (Hm & w & s' & Hw & Hs' & Hv & ->).
    rewrite Z.add_comm, Z.mod_add, Z.mod_small in Hm by lia. apply Nat2Z.inj in Hm as ->. eauto.
  - intros (w & Hw & Hv & ->). split; [|exists w, s; done].
    rewrite Z.add_comm, Z.mod_add, Z.mod_small by lia. done.
Qed.

(** The number of lines a set holds is the number of its valid ways. *)
Lemma set_lines_length d s :
  (length (set_lines d s) <= ways_m d)%nat /\
  (length (set_lines d s) = ways_m d <->
   forall w, (w < ways_m d)%nat -> getCacheValid d w s = true).
Proof.
  unfold set_lines. generalize (ways_m d) as n. induction n as [|n [IH1 IH2]]; [split; [done|split; [lia|done]]|].
  rewrite seq_S, bind_app, length_app. simpl. rewrite app_nil_r.
  destruct (getCacheValid d n s) eqn:E; simpl.
  - split; [lia|]. split.
    + intros Hl w Hw. destruct (decide (w = n)) as [->|]; [done|]. apply IH2; lia.
    + intros H. assert (length (seq 0 n ≫= (fun w => if getCacheValid d w s
        then [getCacheTag d w s * Z.of_nat (sets_m d) + Z.of_nat s] else [])) = n); [|lia].
      apply IH2. intros. apply H. lia.
  - split; [lia|]. split; [lia|]. intros H. rewrite H in E by lia. done.
Qed.

Lemma in_set_size d n :
  dir_wf d -> tags_ok d -> dir_clean d -> 0 <= n ->
  size (in_set (Z.of_nat (sets_m d)) (n mod Z.of_nat (sets_m d)) (lines_of d)) =
  length (set_lines d (getAddrSet d (n * bytes_m d))).
Proof.
  intros Hd Ht Hc Hn. destruct (line_address d n Hd Hn) as (_ & _ & Hs). rewrite <-Hs.
  pose proof (getAddrSet_lt d (n * bytes_m d) Hd).
  rewrite in_set_lines by done. by apply size_list_to_set, set_lines_NoDup.
Qed.

(** ** Calls of a client *)
Inductive dir_call :=
  | CallAccess (addr : Z) (update_repl_flags : bool)
  | CallAlloc (addr : Z)
  | CallInval (addr : Z).

Section Refinement.
Context {D : Type} `{ReplacementPolicy D} (inv : D -> Prop) {L : ReplacementPolicyLaws D inv}.

(** What a call does: its result in terms of lines, and the new object. *)
Definition run_call (c : dir_call) (d : D) : option (line_res * D) :=
  match c with
  | CallAccess addr upd =>
      let '(o, d') := access addr upd d in Some (RHit (bool_decide (is_Some o)), d')
  | CallAlloc addr =>
      '(v, d') ← alloc addr d;
      Some (if victim_evicted v
            then REvicted (getNline_of_tag (dir_of d) (victim_tag v) (victim_set v))
            else RFilled, d')
  | CallInval addr => let '(b, d') := do_inval_addr addr d in Some (RInval b, d')
  end.

Definition abs_call (d : directory) (c : dir_call) : line_op :=
  match c with
  | CallAccess addr _ => LAccess (getNline d addr)
  | CallAlloc addr => LAlloc (getNline d addr)
  | CallInval addr => LInval (getNline d addr)
  end.

Definition call_addr (c : dir_call) : Z :=
  match c with CallAccess addr _ | CallAlloc addr | CallInval addr => addr end.

(** A client allocates a line on a miss only. *)
Definition call_ok (d : D) (c : dir_call) : Prop :=
  is_word 64 (call_addr c) /\
  match c with CallAlloc addr => hit (dir_of d) addr = None | _ => True end.

Record client_inv (d : D) : Prop := {
  client_policy : inv d;
  client_clean : dir_clean (dir_of d);
  client_tags : tags_ok (dir_of d);
}.

Definition same_geometry (a b : directory) : Prop :=
  ways_m a = ways_m b /\ sets_m a = sets_m b /\ bytes_m a = bytes_m b.

Lemma install_tags_ok d w addr :
  dir_wf d -> is_word 64 addr -> (w < ways_m d)%nat -> tags_ok d ->
  tags_ok (install w (getAddrSet d addr) (getAddrTag d addr) d).
Proof.
  intros Hd [Ha1 Ha2] Hw Ht u s Hu Hs.
  change (ways_m (install w _ _ d)) with (ways_m d) in Hu.
  change (sets_m (install w _ _ d)) with (sets_m d) in *.
  pose proof (getAddrSet_lt d addr Hd).
  rewrite install_val, install_tag by done. case_decide as Hc; [|by apply Ht].
  destruct Hc as [-> <-]. intros _. rewrite <-nline_split by done.
  pose proof (dir_bytes d Hd). pose proof (dir_sets d Hd).
  rewrite getAddrTag_div by done. unfold getNline. split.
  - apply Z.div_pos; [apply Z.div_pos; lia|lia].
  - apply Z.le_lt_trans with addr; [|lia]. apply Z.div_le_upper_bound; nia.
Qed.

Lemma access_refines addr upd d :
  client_inv d -> is_word 64 addr ->
  exists r d', run_call (CallAccess addr upd) d = Some (r, d') /\ client_inv d' /\
    dir_of d' = dir_of d /\ r = RHit (bool_decide (getNline (dir_of d) addr ∈ lines_of (dir_of d))).
Proof using L.
  intros [Hi Hc Ht] [Ha _]. simpl. unfold access. pose proof (inv_wf d Hi) as Hd.
  assert (bool_decide (getNline (dir_of d) addr ∈ lines_of (dir_of d)) =
          bool_decide (is_Some (hit (dir_of d) addr))) as ->.
  { apply bool_decide_ext. by rewrite hit_present, present_line. }
  destruct (hit (dir_of d) addr) as [[w s]|] eqn:E.
  - apply hit_Some in E as (-> & Hw & _). eexists _, _. split; [done|].
    destruct upd; [|by split_and!].
    split_and!; [|apply replUpdate_dir|done].
    split; rewrite ?replUpdate_dir; try done.
    apply replUpdate_inv; [done|done|by apply getAddrSet_lt].
  - eexists _, _. by split_and!.
Qed.

Lemma inval_refines addr d :
  client_inv d -> is_word 64 addr ->
  exists b d', run_call (CallInval addr) d = Some (RInval b, d') /\ client_inv d' /\
    same_geometry (dir_of d') (dir_of d) /\
    lines_of (dir_of d') = lines_of (dir_of d) ∖ {[getNline (dir_of d) addr]} /\
    (getNline (dir_of d) addr ∈ lines_of (dir_of d) -> b = true).
Proof using L.
  intros [Hi Hc Ht] [Ha _]. pose proof (inv_wf d Hi) as Hd.
  simpl. unfold do_inval_addr. destruct (inval_addr addr (dir_of d)) as [b e] eqn:E.
  eexists b, _. split; [done|]. rewrite with_dir_dir.
  assert (e = dir_of d \/ exists w, (w < ways_m (dir_of d))%nat /\
    e = setCacheValid w (getAddrSet (dir_of d) addr) false (dir_of d)) as He.
  { pose proof (inval_addr_cases (dir_of d) addr) as Hcs. by rewrite E in Hcs. }
  pose proof (getAddrSet_lt (dir_of d) addr Hd) as Hs.
  assert (dir_wf e /\ dir_clean e /\ same_geometry e (dir_of d) /\ tags_ok e) as (Hwe & Hce & Hge & Hte).
  { destruct He as [->|(w & Hw & ->)]; [done|].
    split_and!; [by apply setCacheValid_wf|by apply inval_clean|done|].
    intros u s Hu Hs' Hv. rewrite val_setCacheValid in Hv by done.
    case_decide; [done|]. by apply Ht. }
  pose proof Hge as (Hgw & Hgs & Hgb).
  split_and!; [|done| |].
  - split; rewrite ?with_dir_dir; try done. by apply with_dir_inv.
  - apply set_eq. intros n. rewrite elem_of_difference, elem_of_singleton, !elem_of_lines by done.
    rewrite Hgb.
    pose proof (inval_addr_present (dir_of d) Hd addr (n * bytes_m (dir_of d)) Hc) as Hp.
    rewrite E in Hp. simpl in Hp. rewrite Hp.
    destruct (decide (0 <= n)) as [Hn|]; [|naive_solver].
    destruct (line_address (dir_of d) n Hd Hn) as [Hl _].
    pose proof (dir_bytes _ Hd).
    rewrite <-(same_line (dir_of d) (n * bytes_m (dir_of d)) addr Hd)
      by (done || (apply Z.mul_nonneg_nonneg; lia)).
    rewrite Hl. tauto.
  - rewrite <-present_line by done. intros (w & Hw & Hv & Htag).
    unfold inval_addr in E.
    destruct (find_first _ _) eqn:Ef; [by simplify_eq|].
    rewrite find_first_None in Ef. specialize (Ef w Hw). apply Z.eqb_neq in Ef. done.
Qed.

(** The lines after an allocation on a miss, by line number. *)
Lemma alloc_line_set addr d v d' :
  client_inv d -> is_word 64 addr -> ~ present (dir_of d) addr -> repl addr d = Some (v, d') ->
  lines_of (dir_of d') = {[getNline (dir_of d) addr]} ∪
    (if victim_evicted v
     then lines_of (dir_of d) ∖ {[getNline_of_tag (dir_of d) (victim_tag v) (victim_set v)]}
     else lines_of (dir_of d)) /\
  client_inv d' /\ same_geometry (dir_of d') (dir_of d).
Proof using L.
  intros [Hi Hc Ht] Ha Hmiss Hr. pose proof (inv_wf d Hi) as Hd.
  destruct (repl_install inv addr d v d' Hi Hr) as (Hw & Hs & Hdir).
  pose proof (repl_victim addr d v d' Hi Hr) as (_ & _ & _ & Hev & Htrue & _ & Hi').
  pose proof (alloc_lines inv addr d v d' Hi Hc Hr) as Hlines.
  assert (same_geometry (dir_of d') (dir_of d)) as Hg by (by rewrite Hdir).
  assert (tags_ok (dir_of d')) as Ht' by (rewrite Hdir, Hs; by apply install_tags_ok).
  pose proof (inv_wf d' Hi') as Hd'. destruct Ha as [Ha0 Ha1].
  split_and!; [|split; [done|by apply (alloc_clean inv addr d v)|done]|done].
  set (e := dir_of d) in *. pose proof (dir_bytes e Hd). pose proof (dir_sets e Hd).
  assert (0 <= getNline e addr) as Hn by (apply Z.div_pos; lia).
  apply set_eq. intros m. rewrite elem_of_lines by done. rewrite (proj2 (proj2 Hg)), Hlines.
  rewrite elem_of_union, elem_of_singleton.
  destruct (decide (0 <= m)) as [Hm|Hm].
  2:{ destruct (victim_evicted v); rewrite ?elem_of_difference, elem_of_lines by done; naive_solver lia. }
  rewrite <-(same_line e (m * bytes_m e) addr Hd) by (done || (apply Z.mul_nonneg_nonneg; lia)).
  destruct (line_address e m Hd Hm) as (-> & Em & Es).
  destruct (victim_evicted v); [|rewrite elem_of_lines by done; naive_solver].
  destruct (Htrue eq_refl) as [Hvt Hall].
  destruct (cell_line e (victim_way v) (victim_set v)) as (Hv1 & Hv2 & _); [done|done| |done|by apply Hall|].
  { rewrite Hs. by apply getAddrSet_lt. }
  rewrite elem_of_difference, elem_of_singleton, elem_of_lines by done.
  rewrite Hvt, (Hv2 m Hm). naive_solver.
Qed.

(** An allocation that stops at the assertion: one way, and the set is full. *)
Definition stuck (d : directory) (addr : Z) : Prop :=
  ways_m d = 1%nat /\
  size (in_set (Z.of_nat (sets_m d)) (getNline d addr mod Z.of_nat (sets_m d)) (lines_of d)) = 1%nat.

Lemma repl_stuck_full addr d :
  client_inv d -> is_word 64 addr -> repl addr d = None -> stuck (dir_of d) addr.
Proof using L.
  intros [Hi Hc Ht] [Ha _] Hr. pose proof (inv_wf d Hi) as Hd.
  destruct (repl_stuck addr d Hi Hr) as [H1 Hall]. split; [done|].
  set (e := dir_of d) in *. pose proof (dir_bytes e Hd).
  assert (0 <= getNline e addr) as Hn by (apply Z.div_pos; lia).
  rewrite (in_set_size e _ Hd Ht Hc Hn), <- H1. apply set_lines_length.
  assert (getAddrSet e (getNline e addr * bytes_m e) = getAddrSet e addr) as ->.
  { apply (same_line e); [done|apply Z.mul_nonneg_nonneg; lia|done|by apply line_address]. }
  exact Hall.
Qed.

Lemma alloc_refines addr d v d' :
  client_inv d -> is_word 64 addr -> hit (dir_of d) addr = None -> repl addr d = Some (v, d') ->
  exists r, run_call (CallAlloc addr) d = Some (r, d') /\ client_inv d' /\
    same_geometry (dir_of d') (dir_of d) /\
    spec_step (ways_m (dir_of d)) (Z.of_nat (sets_m (dir_of d)))
      (lines_of (dir_of d)) (LAlloc (getNline (dir_of d) addr)) r (lines_of (dir_of d')).
Proof using L.
  intros Hci Ha Hmiss Hr. pose proof Hci as [Hi Hc Ht]. pose proof (inv_wf d Hi) as Hd.
  apply hit_None in Hmiss. simpl. unfold alloc. rewrite Hr. simpl.
  eexists _. split; [done|].
  destruct (alloc_line_set addr d v d' Hci Ha Hmiss Hr) as (Hset & Hci' & Hg).
  split_and!; [done|done|].
  pose proof (repl_victim addr d v d' Hi Hr) as (Hw & Hs & _ & Hev & Htrue & _ & _).
  destruct Ha as [Ha0 Ha1]. set (e := dir_of d) in *.
  pose proof (dir_bytes e Hd). pose proof (dir_sets e Hd).
  assert (0 <= getNline e addr) as Hn by (apply Z.div_pos; lia).
  assert (getNline e addr ∉ lines_of e) as Hnin by (by rewrite <-present_line).
  pose proof (in_set_size e _ Hd Ht Hc Hn) as Hsize.
  assert (getAddrSet e (getNline e addr * bytes_m e) = victim_set v) as Hsn.
  { rewrite Hs. apply (same_line e); [done|apply Z.mul_nonneg_nonneg; lia|done|].
    by apply line_address. }
  rewrite Hsn in Hsize. pose proof (set_lines_length e (victim_set v)) as [Hle Hfull].
  rewrite Hset. assert (victim_set v < sets_m e)%nat as Hvs by (by rewrite Hs; apply getAddrSet_lt).
  destruct (victim_evicted v) eqn:Eev.
  - destruct (Htrue eq_refl) as [Hvt Hall].
    destruct (cell_line e (victim_way v) (victim_set v)) as (Hv1 & _ & Hv3); try done.
    rewrite Hvt. apply spec_evict; [done|done| |].
    + rewrite Hv3. destruct (line_address e _ Hd Hn) as (_ & _ & <-). by rewrite Hsn.
    + rewrite Hsize. by apply Hfull.
  - apply spec_fill; [done|]. rewrite Hsize.
    enough (length (set_lines e (victim_set v)) <> ways_m e) by lia.
    rewrite Hfull. intros Hall. rewrite (Hall _ Hw) in Hev. done.
Qed.

(** Every legal call on a directory that keeps the invariant returns, keeps it,
    and is a step of the abstract cache; or it is an allocation that is stuck. *)
Lemma call_refines c d :
  client_inv d -> call_ok d c ->
  (exists r d', run_call c d = Some (r, d') /\ client_inv d' /\
    same_geometry (dir_of d') (dir_of d) /\
    spec_step (ways_m (dir_of d)) (Z.of_nat (sets_m (dir_of d)))
      (lines_of (dir_of d)) (abs_call (dir_of d) c) r (lines_of (dir_of d'))) \/
  (exists addr, c = CallAlloc addr /\ run_call c d = None /\ stuck (dir_of d) addr).
Proof using L.
  intros Hci [Ha Hok]. destruct c as [addr upd|addr|addr]; simpl in Ha; [left|destruct (repl addr d) as [[v d']|] eqn:Hr; [left|right]|left].
  - destruct (access_refines addr upd d Hci Ha) as (r & d' & H1 & H2 & H3 & ->).
    eexists _, d'. split_and!; [done|done|by rewrite H3|]. rewrite H3. apply spec_access.
  - exists (if victim_evicted v then REvicted (getNline_of_tag (dir_of d) (victim_tag v) (victim_set v))
       else RFilled), d'.
    destruct (alloc_refines addr d v d' Hci Ha Hok Hr) as (r & H1 & H2). simpl in *.
    unfold alloc in *. rewrite Hr in *. simpl in *. simplify_eq. done.
  - exists addr. split; [done|]. split; [|by apply repl_stuck_full]. simpl. unfold alloc. by rewrite Hr.
  - destruct (inval_refines addr d Hci Ha) as (b & d' & H1 & H2 & H3 & H4 & H5).
    eexists _, d'. split_and!; [done..|]. rewrite H4. by apply spec_inval.
Qed.

(** ** Sequences of calls *)
Fixpoint run_calls (cs : list dir_call) (d : D) : option (list line_res * D) :=
  match cs with
  | [] => Some ([], d)
  | c :: cs => '(r, d') ← run_call c d; '(rs, d'') ← run_calls cs d'; Some (r :: rs, d'')
  end.

Fixpoint calls_ok (cs : list dir_call) (d : D) : Prop :=
  match cs with
  | [] => True
  | c :: cs => call_ok d c /\
      match run_call c d with Some (_, d') => calls_ok cs d' | None => True end
  end.

(** The abstract cache's runs. *)
Inductive spec_run (ways : nat) (sets : Z) :
    gset Z -> list line_op -> list line_res -> gset Z -> Prop :=
  | spec_run_nil X : spec_run ways sets X [] [] X
  | spec_run_cons X o r Y os rs Z :
      spec_step ways sets X o r Y -> spec_run ways sets Y os rs Z ->
      spec_run ways sets X (o :: os) (r :: rs) Z.

Lemma abs_call_geometry a b c : same_geometry a b -> abs_call a c = abs_call b c.
Proof. intros (_ & _ & Hb). destruct c; simpl; unfold getNline; by rewrite Hb. Qed.

(** The run of [cs] from [d] ended as a run of the abstract cache. *)
Definition refined (cs : list dir_call) (d : D) (rs : list line_res) (d' : D) : Prop :=
  client_inv d' /\ same_geometry (dir_of d') (dir_of d) /\
  spec_run (ways_m (dir_of d)) (Z.of_nat (sets_m (dir_of d)))
    (lines_of (dir_of d)) (abs_call (dir_of d) <$> cs) rs (lines_of (dir_of d')).

Lemma refined_cons c cs d r d1 rs d2 :
  same_geometry (dir_of d1) (dir_of d) ->
  spec_step (ways_m (dir_of d)) (Z.of_nat (sets_m (dir_of d)))
    (lines_of (dir_of d)) (abs_call (dir_of d) c) r (lines_of (dir_of d1)) ->
  refined cs d1 rs d2 -> refined (c :: cs) d (r :: rs) d2.
Proof using Type.
  intros (E1 & E2 & E3) Hs (H1 & (E4 & E5 & E6) & H2).
  split; [done|]. split; [split_and!; congruence|].
  rewrite fmap_cons. eapply spec_run_cons; [done|]. rewrite <-E1, <-E2.
  erewrite (list_fmap_ext (abs_call (dir_of d)) (abs_call (dir_of d1))); [done|].
  intros i x _. by apply abs_call_geometry.
Qed.

Lemma run_refines cs d :
  client_inv d -> calls_ok cs d ->
  match run_calls cs d with
  | Some (rs, d') => refined cs d rs d'
  | None =>
      exists cs1 addr cs2 rs1 d1, cs = cs1 ++ CallAlloc addr :: cs2 /\
        run_calls cs1 d = Some (rs1, d1) /\ refined cs1 d rs1 d1 /\ stuck (dir_of d1) addr
  end.
Proof using L.
  revert d. induction cs as [|c cs IH]; intros d Hci Hok; simpl.
  - split_and!; [done..|]. constructor.
  - destruct Hok as [Hc Hcs].
    destruct (call_refines c d Hci Hc) as [(r & d1 & H1 & H2 & H3 & H4)|(addr & -> & H1 & H2)].
    + rewrite H1 in *. simpl. specialize (IH d1 H2 Hcs).
      destruct (run_calls cs d1) as [[rs d2]|] eqn:Hr; simpl; [by eapply refined_cons|].
      destruct IH as (cs1 & addr & cs2 & rs1 & d2 & -> & Hr1 & Href & Hst).
      exists (c :: cs1), addr, cs2, (r :: rs1), d2. split; [done|].
      split; [simpl; rewrite H1; simpl; by rewrite Hr1|]. split; [by eapply refined_cons|done].
    + rewrite H1. exists [], addr, cs, [], d. split_and!; try done. split_and!; [done..|constructor].
Qed.
End Refinement.

(** A set never holds more lines than it has ways. *)
Lemma set_capacity d s :
  dir_wf d -> tags_ok d -> dir_clean d -> (s < sets_m d)%nat ->
  (size (in_set (Z.of_nat (sets_m d)) (Z.of_nat s) (lines_of d)) <= ways_m d)%nat.
Proof.
  intros Hd Ht Hc Hs. rewrite in_set_lines by done.
  rewrite size_list_to_set by (by apply set_lines_NoDup). apply set_lines_length.
Qed.
