(* ===== verification/CacheDirPlru.v ===== *)
(** * The PLRU cache directory ([generic_cache_directory_plru.h])

    [plru_directory] extends the directory by one recently-used bit per cell and
    implements [ReplacementPolicy]. The invariant [plru_inv] (with two ways or more,
    every set has a way whose bit is unset) is what keeps [repl] from its [sc_assert]:
    it is only reached with one way, by an allocation in a full set. *)
From S2P Require Import Prelude CacheDir CacheSpec.

(** [class GenericCacheDirectoryPlru : public GenericCacheDirectoryBase] *)
Record plru_directory := {
  base : directory;
  plru_m : list bool;
}.

Definition set_base (b : directory) (d : plru_directory) : plru_directory :=
  {| base := b; plru_m := plru_m d |}.

(** [getCachePlru] returns a reference: a read and a write. *)
Definition getCachePlru (d : plru_directory) (way set : nat) : bool :=
  plru_m d !!! dir_index (base d) way set.
Definition setCachePlru (way set : nat) (v : bool) (d : plru_directory) : plru_directory :=
  {| base := base d; plru_m := <[dir_index (base d) way set := v]> (plru_m d) |}.

Definition mk_plru_directory (nways nsets : nat) (nbytes : Z) (tags : list Z)
    (vals plru : list bool) : option plru_directory :=
  b ← mk_directory nways nsets nbytes tags vals;
  Some {| base := b; plru_m := plru |}.

(** [reset()] *)
Definition plru_reset (d : plru_directory) : plru_directory :=
  for_cells (ways_m (base d)) (sets_m (base d)) (fun way set d => setCachePlru way set false d)
    (set_base (reset (base d)) d).

(** [replUpdate(way, set)]: the conjunction of the bits of the set, then, when
    all of them are set, the loop that clears every bit but the last accessed. *)
Definition all_recent (set : nat) (d : plru_directory) : bool :=
  fold_left (fun r way => r && getCachePlru d way set) (seq 0 (ways_m (base d))) true.
Definition clear_others (way set : nat) (d : plru_directory) : plru_directory :=
  fold_left (fun d w => if (w =? way)%nat then d else setCachePlru w set false d)
    (seq 0 (ways_m (base d))) d.
Definition plru_replUpdate (way set : nat) (d : plru_directory) : plru_directory :=
  let d1 := setCachePlru way set true d in
  if all_recent set d1 then clear_others way set d1 else d1.

(** [repl(addr, &tag, &way, &set)]: the first empty way, else the first way whose
    bit is unset, else the assertion. *)
Definition plru_repl (addr : Z) (d : plru_directory) : option (victim * plru_directory) :=
  let set := getAddrSet (base d) addr in
  let tag := getAddrTag (base d) addr in
  match find_first (ways_m (base d)) (fun way => negb (getCacheValid (base d) way set)) with
  | Some way =>
      let d1 := set_base (setCacheTag way set tag (setCacheValid way set true (base d))) d in
      Some ({| victim_evicted := false; victim_tag := 0; victim_way := way; victim_set := set |},
            plru_replUpdate way set d1)
  | None =>
      match find_first (ways_m (base d)) (fun way => negb (getCachePlru d way set)) with
      | Some way =>
          let v := {| victim_evicted := true; victim_tag := getCacheTag (base d) way set;
                      victim_way := way; victim_set := set |} in
          Some (v, plru_replUpdate way set (set_base (setCacheTag way set tag (base d)) d))
      | None => None
      end
  end.

#[export] Instance plru_policy : ReplacementPolicy plru_directory :=
  { dir_of := base; with_dir := set_base; repl := plru_repl; replUpdate := plru_replUpdate }.

(** ** The invariant *)
Record plru_wf (d : plru_directory) : Prop := {
  plru_dir : dir_wf (base d);
  plru_len : length (plru_m d) = (ways_m (base d) * sets_m (base d))%nat;
}.

Record plru_inv (d : plru_directory) : Prop := {
  plru_inv_wf : plru_wf d;
  plru_unset s : (2 <= ways_m (base d))%nat -> (s < sets_m (base d))%nat ->
    exists w, (w < ways_m (base d))%nat /\ getCachePlru d w s = false;
}.

(** ** The recently-used bits *)
Lemma setCachePlru_base w s b d : base (setCachePlru w s b d) = base d.
Proof. done. Qed.

Lemma setCachePlru_wf w s b d : plru_wf d -> plru_wf (setCachePlru w s b d).
Proof. intros [H1 H2]. split; simpl; [done|]. by rewrite length_insert. Qed.
#[export] Hint Resolve setCachePlru_wf plru_dir plru_inv_wf : dir.

Lemma get_setCachePlru d w s b w' s' :
  plru_wf d -> (w < ways_m (base d))%nat -> (s < sets_m (base d))%nat -> (s' < sets_m (base d))%nat ->
  getCachePlru (setCachePlru w s b d) w' s' =
  if decide (w = w' /\ s = s') then b else getCachePlru d w' s'.
Proof.
  intros [Hd Hlen] Hw Hs Hs'. unfold getCachePlru. simpl. case_decide as Hc.
  - destruct Hc as [<- <-]. apply list_lookup_total_insert_eq. rewrite Hlen. by apply idx_lt.
  - apply list_lookup_total_insert_ne. intros Heq. by apply idx_inj in Heq.
Qed.

Lemma all_recent_spec set d :
  all_recent set d = true <->
  forall w, (w < ways_m (base d))%nat -> getCachePlru d w set = true.
Proof.
  unfold all_recent. generalize (ways_m (base d)) as n.
  induction n as [|n IH]; [split; [lia|done]|].
  rewrite seq_S, fold_left_app. simpl. rewrite andb_true_iff, IH. split.
  - intros [H1 H2] w Hw. destruct (decide (w = n)) as [->|]; [done|]. apply H1. lia.
  - intros H. split; [intros; apply H; lia | apply H; lia].
Qed.

Lemma clear_others_spec way set d :
  plru_wf d -> (set < sets_m (base d))%nat ->
  base (clear_others way set d) = base d /\ plru_wf (clear_others way set d) /\
  forall w s, (w < ways_m (base d))%nat -> (s < sets_m (base d))%nat ->
    getCachePlru (clear_others way set d) w s =
    if decide (s = set /\ w <> way) then false else getCachePlru d w s.
Proof.
  intros Hd Hset. unfold clear_others.
  set (f := fun d w => if (w =? way)%nat then d else setCachePlru w set false d).
  assert (forall n, (n <= ways_m (base d))%nat ->
    let e := fold_left f (seq 0 n) d in
    base e = base d /\ plru_wf e /\
    forall w s, (w < ways_m (base d))%nat -> (s < sets_m (base d))%nat ->
      getCachePlru e w s =
      if decide (s = set /\ w <> way /\ (w < n)%nat) then false else getCachePlru d w s) as Hn.
  { induction n as [|n IH]; intros Hn; cbv zeta.
    - split_and!; [done|done|]. intros. rewrite decide_False; [done|lia].
    - rewrite seq_S, fold_left_app. simpl. revert IH. set (e := fold_left f (seq 0 n) d). intros IH.
      destruct (IH ltac:(lia)) as (H1 & H2 & H3). unfold f. destruct (Nat.eqb_spec n way) as [->|Hne].
      + split_and!; [done|done|]. intros. rewrite H3 by done.
        repeat case_decide; done || lia.
      + split_and!; [by rewrite setCachePlru_base|by apply setCachePlru_wf|].
        intros w s Hw Hs. rewrite get_setCachePlru by (rewrite ?H1; done || lia).
        rewrite H3 by done. repeat case_decide; done || lia. }
  destruct (Hn (ways_m (base d)) ltac:(lia)) as (H1 & H2 & H3). split_and!; [done|done|].
  intros w s Hw Hs. rewrite H3 by done. repeat case_decide; done || lia.
Qed.

(** The effect of [replUpdate] on every bit of a well-formed directory. *)
Lemma replUpdate_spec way set d :
  plru_wf d -> (way < ways_m (base d))%nat -> (set < sets_m (base d))%nat ->
  base (plru_replUpdate way set d) = base d /\ plru_wf (plru_replUpdate way set d) /\
  (forall w s, (w < ways_m (base d))%nat -> (s < sets_m (base d))%nat -> s <> set ->
     getCachePlru (plru_replUpdate way set d) w s = getCachePlru d w s) /\
  getCachePlru (plru_replUpdate way set d) way set = true /\
  ((2 <= ways_m (base d))%nat ->
   exists w, (w < ways_m (base d))%nat /\ getCachePlru (plru_replUpdate way set d) w set = false).
Proof.
  intros Hd Hw Hs. unfold plru_replUpdate.
  pose proof (setCachePlru_wf way set true d Hd) as Hd1.
  set (d1 := setCachePlru way set true d) in *.
  assert (base d1 = base d) as Hb by done.
  assert (forall w s, (s < sets_m (base d))%nat ->
    getCachePlru d1 w s = if decide (way = w /\ set = s) then true else getCachePlru d w s) as Hg.
  { intros. by apply get_setCachePlru. }
  destruct (all_recent set d1) eqn:E.
  - destruct (clear_others_spec way set d1 Hd1) as (H1 & H2 & H3); [done|].
    split_and!; [done|done| | |].
    + intros w s Hw' Hs' Hne. rewrite H3 by done. rewrite decide_False by naive_solver.
      rewrite Hg by done. by rewrite decide_False by naive_solver.
    + rewrite H3 by done. rewrite decide_False by naive_solver.
      rewrite Hg by done. by rewrite decide_True.
    + intros H2w. exists (if decide (way = 0%nat) then 1%nat else 0%nat).
      split; [case_decide; lia|]. rewrite H3; [|simpl; case_decide; lia|done].
      rewrite decide_True; [done|]. split; [done|]. case_decide; lia.
  - split_and!; [done|done| | |].
    + intros w s Hw' Hs' Hne. rewrite Hg by done. by rewrite decide_False by naive_solver.
    + rewrite Hg by done. by rewrite decide_True.
    + intros _. apply not_true_iff_false in E. rewrite all_recent_spec in E.
      destruct (find_first (ways_m (base d)) (fun w => negb (getCachePlru d1 w set)))
        as [w|] eqn:Ef.
      * apply find_first_Some in Ef as (Hw' & Hn & _). exists w. split; [done|].
        by apply negb_true_iff.
      * rewrite find_first_None in Ef. destruct E. intros w Hw'.
        by apply negb_false_iff, Ef.
Qed.

Lemma replUpdate_inv_plru way set d :
  plru_inv d -> (way < ways_m (base d))%nat -> (set < sets_m (base d))%nat ->
  plru_inv (plru_replUpdate way set d).
Proof.
  intros [Hwf Hunset] Hw Hs.
  destruct (replUpdate_spec way set d Hwf Hw Hs) as (H1 & H2 & H3 & H4 & H5).
  split; rewrite ?H1; try done. intros s Hways Hs'.
  destruct (decide (s = set)) as [->|Hne]; [by apply H5|].
  destruct (Hunset s Hways Hs') as (w & Hw' & Hf). exists w. split; [done|]. by rewrite H3.
Qed.

(** Changing the tags and the valid bits leaves the policy's part alone. *)
Lemma set_base_inv b d :
  plru_inv d -> dir_wf b -> ways_m b = ways_m (base d) -> sets_m b = sets_m (base d) ->
  plru_inv (set_base b d).
Proof.
  intros [[Hd Hlen] Hunset] Hb Hwe Hse. split; [split|..]; simpl; rewrite ?Hwe, ?Hse; try done.
  intros s Hways Hs. destruct (Hunset s Hways Hs) as (w & Hw & Hf). exists w. split; [done|].
  unfold getCachePlru, dir_index in *. simpl. by rewrite Hse.
Qed.

(** [reset] establishes the invariant from any contents of the arrays. *)
Lemma plru_reset_spec d :
  plru_wf d -> plru_inv (plru_reset d) /\ base (plru_reset d) = reset (base d).
Proof.
  intros [Hd Hlen]. destruct (reset_spec (base d) Hd) as (R1 & R2 & R3 & R4 & R5).
  set (I := fun e => plru_wf e /\ base e = reset (base d)).
  set (P := fun w s e => getCachePlru e w s = false).
  destruct (for_cells_spec P (fun way set d => setCachePlru way set false d) I
     (ways_m (base d)) (sets_m (base d)) (set_base (reset (base d)) d)) as [[HI1 HI2] HP].
  - split; [|done]. split; simpl; [done|]. by rewrite R2, R3.
  - intros w s e Hw Hs [He1 He2]. split; [split; [by apply setCachePlru_wf|done]|].
    unfold P. rewrite get_setCachePlru by (rewrite ?He2, ?R2, ?R3; done). by rewrite decide_True.
  - intros w s w' s' e Hw Hs Hw' Hs' [He1 He2] Hp. unfold P.
    rewrite get_setCachePlru by (rewrite ?He2, ?R2, ?R3; done). by case_decide.
  - fold (plru_reset d) in HI1, HI2, HP. split; [|done].
    split; rewrite ?HI2, ?R2, ?R3; try done.
    intros s Hways Hs. exists 0%nat. split; [lia|]. apply HP; lia.
Qed.

(** ** The policy keeps its promises *)
Lemma plru_repl_update addr d v d' :
  plru_repl addr d = Some (v, d') ->
  exists b, d' = plru_replUpdate (victim_way v) (victim_set v) (set_base b d) /\
    (victim_way v < ways_m (base d))%nat /\ victim_set v = getAddrSet (base d) addr /\
    b = setCacheTag (victim_way v) (victim_set v) (getAddrTag (base d) addr)
          (if victim_evicted v then base d
           else setCacheValid (victim_way v) (victim_set v) true (base d)) /\
    victim_evicted v = getCacheValid (base d) (victim_way v) (victim_set v) /\
    (victim_evicted v = true ->
       getCachePlru d (victim_way v) (victim_set v) = false /\
       victim_tag v = getCacheTag (base d) (victim_way v) (victim_set v) /\
       forall w, (w < ways_m (base d))%nat -> getCacheValid (base d) w (victim_set v) = true) /\
    (victim_evicted v = false -> victim_tag v = 0 /\
       forall w, (w < victim_way v)%nat -> getCacheValid (base d) w (victim_set v) = true).
Proof.
  unfold plru_repl. set (s := getAddrSet (base d) addr). intros Hr.
  destruct (find_first _ (fun w => negb (getCacheValid _ _ _))) as [w|] eqn:E1.
  - apply find_first_Some in E1 as (Hw & Hn & Hmin). apply negb_true_iff in Hn.
    simplify_eq. eexists. split; [done|]. simpl. split_and!; try done.
    intros _. split; [done|]. intros u Hu. by apply negb_false_iff, Hmin.
  - rewrite find_first_None in E1.
    assert (forall u, (u < ways_m (base d))%nat -> getCacheValid (base d) u s = true) as Hall.
    { intros u Hu. by apply negb_false_iff, E1. }
    destruct (find_first _ (fun w => negb (getCachePlru _ _ _))) as [w|] eqn:E2; [|done].
    apply find_first_Some in E2 as (Hw & Hn & _). apply negb_true_iff in Hn.
    simplify_eq. eexists. split; [done|]. simpl. split_and!; try done. by rewrite Hall.
Qed.

Lemma plru_repl_stuck addr d :
  plru_inv d -> plru_repl addr d = None ->
  ways_m (base d) = 1%nat /\
  forall w, (w < ways_m (base d))%nat -> getCacheValid (base d) w (getAddrSet (base d) addr) = true.
Proof.
  intros Hi Hr. unfold plru_repl in Hr. pose proof (plru_dir d (plru_inv_wf d Hi)) as Hd.
  destruct (find_first _ (fun w => negb (getCacheValid _ _ _))) as [w|] eqn:E1; [done|].
  destruct (find_first _ (fun w => negb (getCachePlru _ _ _))) as [u|] eqn:E2; [done|].
  rewrite find_first_None in E1, E2. split; [|by intros w Hw; apply negb_false_iff, E1].
  pose proof (dir_ways _ Hd). destruct (decide (2 <= ways_m (base d))%nat) as [Hways|]; [|lia].
  destruct (plru_unset d Hi _ Hways (getAddrSet_lt (base d) addr Hd)) as (w & Hw & Hf).
  specialize (E2 w Hw). by rewrite Hf in E2.
Qed.

Lemma setCacheValid_same w s d :
  (w < ways_m d)%nat -> (s < sets_m d)%nat -> dir_wf d -> getCacheValid d w s = true ->
  setCacheValid w s true d = d.
Proof.
  intros Hw Hs Hd Hv. pose proof (idx_lt d w s Hw Hs) as Hi.
  rewrite <-(dir_vals d Hd) in Hi. destruct d. unfold setCacheValid, set_val_m. simpl in *. f_equal.
  apply list_insert_id. rewrite <-Hv. unfold getCacheValid. simpl.
  apply list_lookup_lookup_total. by apply lookup_lt_is_Some_2.
Qed.

Lemma replUpdate_base way set d : base (plru_replUpdate way set d) = base d.
Proof.
  unfold plru_replUpdate. case_match; [|done].
  change (base d) with (base (setCachePlru way set true d)).
  generalize (setCachePlru way set true d) as e. intros e.
  unfold clear_others. generalize (ways_m (base e)) as n.
  induction n as [|n IH]; [done|]. rewrite seq_S, fold_left_app. simpl.
  by case_match.
Qed.

#[export] Instance plru_policy_laws : ReplacementPolicyLaws plru_directory plru_inv.
Proof.
  split.
  - intros d Hi. auto with dir.
  - done.
  - intros b d. apply set_base_inv.
  - apply replUpdate_base.
  - apply replUpdate_inv_plru.
  - apply plru_repl_stuck.
  - intros addr d v d' Hi Hr.
    destruct (plru_repl_update addr d v d' Hr) as (b & -> & Hw & Hs & Hb & He & Ht & Hf).
    pose proof (plru_dir d (plru_inv_wf d Hi)) as Hd. change (dir_of d) with (base d).
    pose proof (getAddrSet_lt (base d) addr Hd) as Hsl. rewrite <-Hs in Hsl.
    assert (b = setCacheTag (victim_way v) (victim_set v) (getAddrTag (base d) addr)
              (setCacheValid (victim_way v) (victim_set v) true (base d))) as Hb'.
    { rewrite Hb. destruct (victim_evicted v); [|done].
      rewrite setCacheValid_same; [done|done|done|done|]. by symmetry. }
    split_and!; [done|done| |done| | |].
    + change (dir_of _) with (base (plru_replUpdate (victim_way v) (victim_set v) (set_base b d))).
      by rewrite replUpdate_base.
    + intros Hev. by destruct (Ht Hev) as (_ & ? & ?).
    + done.
    + apply replUpdate_inv_plru; [apply set_base_inv|..]; rewrite ?Hb'; simpl; auto with dir.
Qed.

(** ** From reset on *)
Lemma plru_reset_client d :
  plru_wf d ->
  client_inv plru_inv (plru_reset d) /\ lines_of (base (plru_reset d)) = ∅ /\
  same_geometry (base (plru_reset d)) (base d).
Proof.
  intros Hwf. destruct (plru_reset_spec d Hwf) as [Hi Hb].
  destruct (reset_spec (base d) (plru_dir d Hwf)) as (R1 & R2 & R3 & R4 & R5).
  assert (tags_ok (reset (base d))) as Ht.
  { intros w s Hw Hs Hv. rewrite R2 in Hw. rewrite R3 in Hs.
    destruct (R5 w s Hw Hs) as [H1 _]. by rewrite H1 in Hv. }
  split_and!.
  - split; [done|..]; change (dir_of (plru_reset d)) with (base (plru_reset d)); rewrite Hb; [|done].
    intros s w v Hs Hwv Hv Hval. rewrite R2 in Hv. rewrite R3 in Hs.
    destruct (R5 v s Hv Hs) as [H1 _]. by rewrite H1 in Hval.
  - rewrite Hb. apply set_eq. intros n. rewrite elem_of_lines_cell by done.
    split; [|set_solver]. intros (w & s & Hw & Hs & Hv & _). rewrite R2 in Hw. rewrite R3 in Hs.
    destruct (R5 w s Hw Hs) as [H1 _]. by rewrite H1 in Hv.
  - rewrite Hb. split_and!; done.
Qed.

(** ** Properties *)

(** With one way nothing is evicted: an allocation sets the only bit of its set. *)
Definition one_way_used (d : plru_directory) : Prop :=
  plru_wf d /\ ways_m (base d) = 1%nat /\
  forall s, (s < sets_m (base d))%nat -> getCacheValid (base d) 0 s = true -> getCachePlru d 0 s = true.

Lemma one_way_update s d :
  plru_wf d -> ways_m (base d) = 1%nat -> (s < sets_m (base d))%nat ->
  (forall s', (s' < sets_m (base d))%nat -> s' <> s -> getCacheValid (base d) 0 s' = true ->
     getCachePlru d 0 s' = true) ->
  one_way_used (plru_replUpdate 0 s d).
Proof.
  intros Hwf H1 Hs H. destruct (replUpdate_spec 0 s d Hwf ltac:(lia) Hs) as (E1 & E2 & E3 & E4 & _).
  split; [done|]. rewrite E1. split; [done|]. intros s' Hs' Hv.
  destruct (decide (s' = s)) as [->|]; [done|]. rewrite E3 by (done || lia). by apply H.
Qed.

Lemma one_way_call c d r d' :
  one_way_used d -> run_call c d = Some (r, d') -> one_way_used d' /\ forall v, r <> REvicted v.
Proof.
  intros (Hwf & H1 & Hb) Hr. pose proof (plru_dir d Hwf) as Hd.
  destruct c as [addr upd|addr|addr]; simpl in Hr; pose proof (getAddrSet_lt (base d) addr Hd) as Hs.
  - unfold access in Hr. destruct (hit (dir_of d) addr) as [[w s]|] eqn:Eh; simplify_eq; [|by split].
    split; [|done]. destruct upd; [|by split]. apply hit_Some in Eh as (-> & Hw & _).
    simpl in *. assert (w = 0%nat) as -> by lia. apply one_way_update; auto.
  - apply bind_Some in Hr as ([v e] & Hv & Hr). unfold alloc in Hv. simpl in Hv, Hr. injection Hr as <- <-.
    destruct (plru_repl_update addr d v e Hv) as (b & -> & Hw & Hset & Hbb & Hev & Ht & _).
    assert (victim_way v = 0%nat) as Hv0 by lia. rewrite Hv0, Hset in *.
    destruct (victim_evicted v).
    { destruct (Ht eq_refl) as (Hf & _ & Hall). rewrite Hb in Hf by (done || (apply Hall; lia)). done. }
    split; [|done]. subst b. apply one_way_update; try done.
    + split; simpl; [auto with dir|by destruct Hwf].
    + intros s' Hs' Hne Hv'. apply Hb; [done|]. simpl in Hv'.
      change (getCacheValid (setCacheValid 0 (getAddrSet (base d) addr) true (base d)) 0 s' = true) in Hv'.
      rewrite val_setCacheValid in Hv' by (done || lia). by rewrite decide_False in Hv' by naive_solver.
  - unfold do_inval_addr in Hr. destruct (inval_addr addr (dir_of d)) as [b e] eqn:Ei. simplify_eq.
    split; [|done]. change (dir_of d) with (base d) in Ei.
    pose proof (inval_addr_cases (base d) addr) as Hc. rewrite Ei in Hc. simpl in Hc.
    destruct Hc as [-> | (w & Hw & ->)]; [by destruct d|].
    split; [split; simpl; [auto with dir|by destruct Hwf]|]. split; [done|]. intros s Hs' Hv. simpl in *.
    rewrite val_setCacheValid in Hv by (done || lia). case_decide; [done|]. by apply Hb.
Qed.

Lemma one_way_calls cs : forall d rs d',
  one_way_used d -> run_calls cs d = Some (rs, d') -> forall v, REvicted v ∉ rs.
Proof.
  induction cs as [|c cs IH]; intros d rs d' Hd Hr v; simpl in Hr; [simplify_eq; set_solver|].
  apply bind_Some in Hr as ([r e] & Hc & Hr). apply bind_Some in Hr as ([rs' e'] & Hcs & Hr).
  simplify_eq. destruct (one_way_call c d r e Hd Hc) as [He Hne].
  apply not_elem_of_cons. split; [by apply not_eq_sym, Hne|by eapply IH].
Qed.

Lemma one_way_reset d : plru_wf d -> ways_m (base d) = 1%nat -> one_way_used (plru_reset d).
Proof.
  intros Hwf H1. destruct (plru_reset_spec d Hwf) as [Hi Hb].
  destruct (reset_spec (base d) (plru_dir d Hwf)) as (R1 & R2 & R3 & R4 & R5).
  split; [apply Hi|]. rewrite Hb, R2, R3. split; [done|]. intros s Hs Hv.
  destruct (R5 0%nat s ltac:(lia) Hs) as [H2 _]. by rewrite H2 in Hv.
Qed.

(** The operations of [cs] in terms of lines. *)
Definition line_ops (d : plru_directory) (cs : list dir_call) : list line_op := abs_call (base d) <$> cs.

Lemma refined_reset d cs rs d' :
  plru_wf d -> refined plru_inv cs (plru_reset d) rs d' ->
  plru_inv d' /\ same_geometry (base d') (base d) /\
  spec_run (ways_m (base d)) (Z.of_nat (sets_m (base d))) ∅ (line_ops d cs) rs (lines_of (base d')).
Proof.
  intros Hwf (Hci & Hg' & Hs). destruct (plru_reset_client d Hwf) as (_ & Hl & Hg).
  split; [apply Hci|]. simpl in *. rewrite Hl in Hs. destruct Hg as (E1 & E2 & Hb).
  destruct Hg' as (E3 & E4 & Hb'). split; [split_and!; congruence|]. rewrite <- E1, <- E2.
  unfold line_ops. erewrite (list_fmap_ext (abs_call (base d)) (abs_call (base (plru_reset d)))); [done|].
  intros i c _. destruct c; simpl; unfold getNline; by rewrite Hb.
Qed.

(** C12: From reset, whatever the arrays held before and for any number of ways, every
    sequence of accesses, invalidations and allocations on a miss is a run of the
    abstract cache from the empty set: a hit is reported exactly for the lines held, a
    fill adds one line to a set that has room, an eviction happens only in a full set and
    removes the one line reported, an invalidation removes one line. With two ways or
    more it runs to its end. With one way nothing is ever evicted: either it runs to its
    end, or it stops at the PLRU assertion, at the first allocation in a set that holds a
    line, after a run of the abstract cache. *)
Theorem plru_refines_spec d cs :
  plru_wf d -> calls_ok cs (plru_reset d) ->
  let spec cs rs d' :=
    spec_run (ways_m (base d)) (Z.of_nat (sets_m (base d))) ∅ (line_ops d cs) rs (lines_of (base d')) in
  match run_calls cs (plru_reset d) with
  | Some (rs, d') =>
      plru_inv d' /\ spec cs rs d' /\ (ways_m (base d) = 1%nat -> forall v, REvicted v ∉ rs)
  | None =>
      ways_m (base d) = 1%nat /\
      exists cs1 addr cs2 rs1 d1, cs = cs1 ++ CallAlloc addr :: cs2 /\
        run_calls cs1 (plru_reset d) = Some (rs1, d1) /\ spec cs1 rs1 d1 /\
        (forall v, REvicted v ∉ rs1) /\
        let sets := Z.of_nat (sets_m (base d)) in
        size (in_set sets (getNline (base d) addr mod sets) (lines_of (base d1))) = 1%nat
  end.
Proof.
  intros Hwf Hok spec. destruct (plru_reset_client d Hwf) as (Hci & _ & _).
  pose proof (run_refines plru_inv cs _ Hci Hok) as H.
  destruct (run_calls cs (plru_reset d)) as [[rs d']|] eqn:Hr.
  - destruct (refined_reset d cs rs d' Hwf H) as (H1 & _ & H2). split_and!; [done|done|].
    intros H1w. by apply (one_way_calls cs (plru_reset d) rs d'); [apply one_way_reset|].
  - destruct H as (cs1 & addr & cs2 & rs1 & d1 & -> & Hr1 & Href & Hst).
    destruct (refined_reset d cs1 rs1 d1 Hwf Href) as (_ & (E1 & E2 & E3) & H2).
    destruct Hst as [H1w Hfull]. simpl in H1w, Hfull. unfold getNline in *.
    rewrite E1 in H1w. rewrite E2, E3 in Hfull. split; [done|].
    exists cs1, addr, cs2, rs1, d1. split_and!; try done.
    by apply (one_way_calls cs1 (plru_reset d) rs1 d1); [apply one_way_reset|].
Qed.

(** In every state reached from reset, no set holds a line twice and none holds
    more lines than it has ways; so at most one way of a set can hit. *)
Theorem plru_reachable_unique d cs rs d' addr w1 w2 :
  plru_wf d -> calls_ok cs (plru_reset d) ->
  run_calls cs (plru_reset d) = Some (rs, d') ->
  (w1 < ways_m (base d'))%nat -> (w2 < ways_m (base d'))%nat ->
  match_way (base d') (getAddrSet (base d') addr) (getAddrTag (base d') addr) w1 = true ->
  match_way (base d') (getAddrSet (base d') addr) (getAddrTag (base d') addr) w2 = true ->
  w1 = w2 /\ forall s, (s < sets_m (base d'))%nat ->
    (size (in_set (Z.of_nat (sets_m (base d'))) (Z.of_nat s) (lines_of (base d')))
       <= ways_m (base d'))%nat.
Proof.
  intros Hwf Hok Hrun Hw1 Hw2 [Hv1 Ht1]%match_way_true [Hv2 Ht2]%match_way_true.
  destruct (plru_reset_client d Hwf) as (Hci & _ & _).
  pose proof (run_refines plru_inv cs _ Hci Hok) as H1. rewrite Hrun in H1.
  destruct H1 as ([Hi Hc Ht] & _). simpl in *. pose proof (plru_dir d' (plru_inv_wf d' Hi)) as Hd.
  split.
  - eapply (clean_unique (base d')); eauto using getAddrSet_lt. congruence.
  - intros s Hs. by apply set_capacity.
Qed.

(** The way accessed last is not the next victim of its set: when every way of
    the set is valid, an allocation right after an access evicts another way. *)
Theorem mru_not_victim d addr addr' w s v d' :
  plru_inv d -> hit (base d) addr = Some (w, s) -> getAddrSet (base d) addr' = s ->
  alloc addr' (access addr true d).2 = Some (v, d') -> victim_evicted v = true ->
  victim_way v <> w.
Proof.
  intros Hi Hhit Hset Halloc Hev. unfold access in Halloc. simpl in Halloc. rewrite Hhit in Halloc.
  apply hit_Some in Hhit as (Hs & Hw & _).
  pose proof (getAddrSet_lt (base d) addr (plru_dir d (plru_inv_wf d Hi))) as Hsl.
  destruct (replUpdate_spec w s d (plru_inv_wf d Hi) Hw ltac:(congruence)) as (H1 & _ & _ & H4 & _).
  destruct (plru_repl_update addr' _ v d' Halloc) as (b & _ & _ & H5 & _ & _ & H6 & _).
  destruct (H6 Hev) as [H7 _]. simpl in H5, H7.
  rewrite replUpdate_base, Hset in H5. intros <-. congruence.
Qed.

(** With a single way the policy breaks: after reset and one allocation, the next
    allocation in the same set stops at the [sc_assert]. *)
Theorem one_way_asserts d v d' addr addr' :
  plru_wf d -> ways_m (base d) = 1%nat ->
  getCacheValid (base d) 0 (getAddrSet (base d) addr) = false ->
  alloc addr d = Some (v, d') -> getAddrSet (base d) addr' = getAddrSet (base d) addr ->
  alloc addr' d' = None.
Proof.
  intros Hwf H1 Hval Ha Hset. simpl in *.
  destruct (plru_repl_update addr d v d' Ha) as (b & -> & Hw & Hs & Hb & Hev & _).
  assert (victim_way v = 0%nat) as Hv0 by lia. rewrite Hv0, Hs in *. rewrite Hval in Hev.
  rewrite Hev in Hb. subst b. set (s := getAddrSet (base d) addr) in *.
  pose proof (plru_dir d Hwf) as Hd. pose proof (getAddrSet_lt (base d) addr Hd) as Hsl. fold s in Hsl.
  set (e := set_base (setCacheTag 0 s (getAddrTag (base d) addr) (setCacheValid 0 s true (base d))) d).
  assert (plru_wf e) as He.
  { split; simpl; [auto with dir|]. by destruct Hwf. }
  destruct (replUpdate_spec 0 s e He) as (E1 & _ & _ & E4 & _); [simpl; lia|done|].
  unfold plru_repl. rewrite E1. assert (getAddrSet (base e) addr' = s) as ->.
  { exact Hset. }
  assert (ways_m (base e) = 1%nat) as -> by done.
  assert (find_first 1 (fun way => negb (getCacheValid (base e) way s)) = None) as ->.
  { apply find_first_None. intros w Hw'. assert (w = 0%nat) as -> by lia. apply negb_false_iff.
    change (getCacheValid (setCacheValid 0 s true (base d)) 0 s = true).
    rewrite val_setCacheValid by (done || lia). by rewrite decide_True. }
  assert (find_first 1 (fun way => negb (getCachePlru (plru_replUpdate 0 s e) way s)) = None) as ->;
    [|done].
  apply find_first_None. intros w Hw'. assert (w = 0%nat) as -> by lia. by rewrite E4.
Qed.

(** ** Witnesses: two ways, two sets, 16-byte lines, arbitrary initial contents *)
Definition ex_dir : plru_directory :=
  {| base := {| tag_m := [7; 7; 9; 9]; val_m := [true; false; true; true];
                ways_m := 2; sets_m := 2; bytes_m := 16 |};
     plru_m := [true; true; true; true] |}.
Definition ex_calls : list dir_call :=
  [CallAlloc 0; CallAccess 8 true; CallAlloc 32; CallAlloc 64; CallAccess 0 true; CallInval 32].

Lemma ex_dir_wf : plru_wf ex_dir.
Proof. split; [split|]; simpl; done || lia. Qed.

Lemma plru_refines_spec_witness :
  exists rs d', run_calls ex_calls (plru_reset ex_dir) = Some (rs, d') /\
    spec_run 2 2 ∅ (line_ops ex_dir ex_calls) rs (lines_of (base d')).
Proof.
  pose proof (plru_refines_spec ex_dir ex_calls ex_dir_wf) as H.
  destruct (run_calls ex_calls (plru_reset ex_dir)) as [[rs d']|].
  - exists rs, d'. split; [reflexivity|]. apply H. vm_compute. repeat split; discriminate.
  - exfalso. destruct H as [H _]; [vm_compute; repeat split; discriminate|discriminate].
Defined.

Lemma plru_reachable_unique_witness :
  exists rs d', run_calls [CallAlloc 0; CallAlloc 32] (plru_reset ex_dir) = Some (rs, d') /\
  forall w1 w2, (w1 < 2)%nat -> (w2 < 2)%nat ->
  match_way (base d') 0 1 w1 = true -> match_way (base d') 0 1 w2 = true -> w1 = w2.
Proof.
  eexists _, _. split; [by vm_compute|]. intros w1 w2 H1 H2 M1 M2.
  eapply (plru_reachable_unique ex_dir [CallAlloc 0; CallAlloc 32] _ _ 32 w1 w2 ex_dir_wf);
    [vm_compute; repeat split; discriminate|by vm_compute|exact H1|exact H2|exact M1|exact M2].
Defined.

Definition ex_full : plru_directory :=
  {| base := {| tag_m := [0; 0; 1; 0]; val_m := [true; false; true; false];
                ways_m := 2; sets_m := 2; bytes_m := 16 |};
     plru_m := [false; false; true; false] |}.

Lemma ex_full_inv : plru_inv ex_full.
Proof.
  split; [split; [split|]|..]; simpl; try done; try lia.
  intros s _ Hs. exists 0%nat. split; [lia|]. destruct s as [|[|]]; done || lia.
Qed.

Lemma mru_not_victim_witness :
  exists v d', alloc 64 (access 0 true ex_full).2 = Some (v, d') /\ victim_way v <> 0%nat.
Proof.
  eexists _, _. split; [by vm_compute|].
  eapply (mru_not_victim ex_full 0 64 0 0); [exact ex_full_inv|by vm_compute..].
Defined.

Definition ex_one_way : plru_directory :=
  {| base := {| tag_m := [0]; val_m := [false]; ways_m := 1; sets_m := 1; bytes_m := 16 |};
     plru_m := [false] |}.

Lemma one_way_asserts_witness :
  exists v d', alloc 0 ex_one_way = Some (v, d') /\ alloc 16 d' = None.
Proof.
  eexists _, _. split; [by vm_compute|].
  eapply (one_way_asserts ex_one_way _ _ 0 16); [|by vm_compute..].
  split; [split|]; simpl; done || lia.
Defined.
