(* ===== verification/CacheData.v ===== *)
(** * The cache data array ([generic_cache_data.h])

    A vector of 64-bit words indexed by way, set and word. [cd_write] builds its
    byte mask with [0xff << (i * 8)] on [int]s, which the model computes at that
    width: the shift is undefined from [i = 4] on, and byte 3's mask is negative
    and sign-extends over bytes 4 to 7 ([cd_mask_byte3]). *)
From S2P Require Import Prelude CacheDir.

(** [class GenericCacheData] *)
Record cache_data := {
  data_m : list Z;
  cd_ways_m : nat;
  cd_sets_m : nat;
  cd_words_m : nat;
}.

(** The constructor: zeros; [None] is a failed [sc_assert]. *)
Definition mk_cache_data (nways nsets nwords : nat) : option cache_data :=
  if (0 <? nsets)%nat && (0 <? nways)%nat && (0 <? nwords)%nat then
    Some {| data_m := replicate (nways * nsets * nwords) 0;
            cd_ways_m := nways; cd_sets_m := nsets; cd_words_m := nwords |}
  else None.

Definition cd_getAddrSet (c : cache_data) (addr : Z) : Z :=
  (addr / (Z.of_nat (cd_words_m c) * 8)) mod Z.of_nat (cd_sets_m c).
Definition cd_getAddrWord (c : cache_data) (addr : Z) : Z :=
  (addr / 8) mod Z.of_nat (cd_words_m c).

(** [getCacheData(way, set, word)]: the index, then the reference's two uses;
    [None] is an access outside the vector. *)
Definition cd_index (c : cache_data) (way set word : nat) : nat :=
  (way * (cd_sets_m c * cd_words_m c) + set * cd_words_m c + word)%nat.
Definition getCacheData (c : cache_data) (way set word : nat) : option Z :=
  data_m c !! cd_index c way set word.

(** [a << n] on [int]: undefined for [n >= 32], the low 32 bits as a signed
    integer otherwise. *)
Definition int_shl (a n : Z) : option Z :=
  if n <? 32 then Some (to_signed 32 (Z.shiftl a n)) else None.

(** The mask loop of [write]. *)
Definition cd_mask_step (be : Z) (acc : option Z) (i : Z) : option Z :=
  mask ← acc;
  if Z.testbit be i then s ← int_shl 255 (i * 8); Some (Z.lor mask (u64 s)) else Some mask.
Definition cd_mask (be : Z) : option Z :=
  fold_left (cd_mask_step be) [0; 1; 2; 3; 4; 5; 6; 7] (Some 0).

(** [write(wdata, be, way, set, word)] *)
Definition cd_write (wdata be : Z) (way set word : nat) (c : cache_data) : option cache_data :=
  mask ← cd_mask be;
  prev ← getCacheData c way set word;
  Some {| data_m := <[cd_index c way set word := merge prev wdata mask]> (data_m c);
          cd_ways_m := cd_ways_m c; cd_sets_m := cd_sets_m c; cd_words_m := cd_words_m c |}.

(** [read(way, set, word)] *)
Definition cd_read (c : cache_data) (way set word : nat) : option Z := getCacheData c way set word.

(** ** Well-formedness and indices *)
Record cd_wf (c : cache_data) : Prop := {
  cd_len : length (data_m c) = (cd_ways_m c * cd_sets_m c * cd_words_m c)%nat;
  cd_all : Forall (is_word 64) (data_m c);
}.

Definition cd_in (c : cache_data) (way set word : nat) : Prop :=
  (way < cd_ways_m c)%nat /\ (set < cd_sets_m c)%nat /\ (word < cd_words_m c)%nat.

Lemma cd_index_lt c w s x :
  cd_in c w s x -> (cd_index c w s x < cd_ways_m c * cd_sets_m c * cd_words_m c)%nat.
Proof.
  intros (Hw & Hs & Hx). unfold cd_index.
  assert (s * cd_words_m c + x < cd_sets_m c * cd_words_m c)%nat by nia. nia.
Qed.

Lemma cd_index_inj c w s x w' s' x' :
  cd_in c w s x -> cd_in c w' s' x' -> cd_index c w s x = cd_index c w' s' x' ->
  w = w' /\ s = s' /\ x = x'.
Proof.
  intros (Hw & Hs & Hx) (Hw' & Hs' & Hx'). unfold cd_index. intros Heq.
  assert (s * cd_words_m c + x < cd_sets_m c * cd_words_m c)%nat by nia.
  assert (s' * cd_words_m c + x' < cd_sets_m c * cd_words_m c)%nat by nia.
  assert (w = w') as -> by nia. assert (s = s') as -> by nia. lia.
Qed.

Lemma cd_mask_low be :
  0 <= be < 8 ->
  exists m, cd_mask be = Some m /\ forall i, 0 <= i < 64 -> Z.testbit m i = Z.testbit be (i / 8).
Proof.
  intros Hbe.
  pose proof (forallb_interval (fun b => match cd_mask b with
     | Some m => forallb (fun i => Bool.eqb (Z.testbit m i) (Z.testbit b (i / 8))) (seqZ 0 (64 - 0))
     | None => false end) 0 8 ltac:(by vm_compute) be Hbe) as H. cbv beta in H.
  destruct (cd_mask be) as [m|]; [|done]. exists m. split; [done|]. intros i Hi.
  by apply eqb_prop, (forallb_interval _ _ _ H).
Qed.

Lemma mk_cache_data_wf nways nsets nwords c :
  mk_cache_data nways nsets nwords = Some c -> cd_wf c.
Proof.
  unfold mk_cache_data. case_match; [|done]. intros [= <-]. split; simpl.
  - by rewrite length_replicate.
  - apply Forall_replicate. split; [lia|]. by vm_compute.
Qed.

(** The effect of a write whose mask is defined. *)
Lemma cd_write_lookup wdata be w s x c m :
  cd_wf c -> cd_in c w s x -> cd_mask be = Some m ->
  exists c' prev, cd_write wdata be w s x c = Some c' /\ getCacheData c w s x = Some prev /\
    getCacheData c' w s x = Some (merge prev wdata m) /\
    (forall w' s' x', cd_in c w' s' x' -> (w', s', x') <> (w, s, x) ->
       getCacheData c' w' s' x' = getCacheData c w' s' x') /\
    length (data_m c') = length (data_m c).
Proof.
  intros [Hlen _] Hin Hm. pose proof (cd_index_lt c w s x Hin) as Hi.
  destruct (lookup_lt_is_Some_2 (data_m c) (cd_index c w s x)) as [prev Hp]; [lia|].
  unfold cd_write, getCacheData. rewrite Hm. simpl. rewrite Hp. simpl.
  eexists _, prev. split_and!; [done|done| | |]; simpl.
  - apply list_lookup_insert_eq. lia.
  - intros w' s' x' Hin' Hne. apply list_lookup_insert_ne. intros Heq. apply Hne.
    apply cd_index_inj in Heq as (->&->&->); done.
  - by rewrite length_insert.
Qed.

(** ** Properties *)

(** A write enabled on bytes 0 to 2 only replaces exactly the enabled bytes of
    its word, and no other word of the array changes. *)
Theorem cd_write_spec wdata be w s x c :
  cd_wf c -> cd_in c w s x -> 0 <= be < 8 ->
  exists c' prev new, cd_write wdata be w s x c = Some c' /\
    cd_read c w s x = Some prev /\ cd_read c' w s x = Some new /\
    (forall i, 0 <= i < 8 ->
       byte_of new i = if Z.testbit be i then byte_of wdata i else byte_of prev i) /\
    (forall w' s' x', cd_in c w' s' x' -> (w', s', x') <> (w, s, x) ->
       cd_read c' w' s' x' = cd_read c w' s' x').
Proof.
  intros Hwf Hin Hbe. destruct (cd_mask_low be Hbe) as (m & Hm & Hbits).
  destruct (cd_write_lookup wdata be w s x c m Hwf Hin Hm) as (c' & prev & H1 & H2 & H3 & H4 & _).
  exists c', prev, (merge prev wdata m). split_and!; [done..| |done].
  intros i Hi. apply byte_of_merge_uniform; [lia|].
  intros j Hj. rewrite Hbits by lia. f_equal.
  symmetry. apply Z.div_unique with (j - 8 * i); lia.
Qed.

(** Bytes 3 and up are not handled: enabling byte 3 alone overwrites bytes 4 to 7
    too, and enabling any byte from 4 on has no defined mask. *)
Theorem cd_mask_byte3 :
  cd_mask 8 = Some (2 ^ 64 - 2 ^ 24) /\
  forall be, is_word 8 be -> 16 <= be -> cd_mask be = None.
Proof.
  split; [by vm_compute|]. intros be [Hb1 Hb2] Hb.
  apply (bool_decide_eq_true_1 _).
  by apply (forallb_interval (fun b => bool_decide (cd_mask b = None)) 16 256 ltac:(by vm_compute)).
Qed.

(** The array's geometry is the directory's when a line holds [nwords] 64-bit
    words, and the set and word of every address index inside the array. *)
Theorem cd_geometry c d addr way :
  cd_ways_m c = ways_m d -> cd_sets_m c = sets_m d -> bytes_m d = Z.of_nat (cd_words_m c) * 8 ->
  (0 < cd_sets_m c)%nat -> (0 < cd_words_m c)%nat -> (way < cd_ways_m c)%nat -> 0 <= addr ->
  cd_getAddrSet c addr = Z.of_nat (getAddrSet d addr) /\
  cd_in c way (Z.to_nat (cd_getAddrSet c addr)) (Z.to_nat (cd_getAddrWord c addr)) /\
  addr = getNline d addr * bytes_m d + cd_getAddrWord c addr * 8 + addr mod 8.
Proof.
  intros Hw Hs Hb Hs0 Hx0 Hway Ha. unfold cd_getAddrSet, cd_getAddrWord, getAddrSet, getNline.
  rewrite <-Hs, Hb.
  pose proof (Z.mod_pos_bound (addr / (Z.of_nat (cd_words_m c) * 8)) (Z.of_nat (cd_sets_m c)) ltac:(lia)).
  pose proof (Z.mod_pos_bound (addr / 8) (Z.of_nat (cd_words_m c)) ltac:(lia)).
  split_and!; [by rewrite Z2Nat.id by lia|split_and!; lia|].
  rewrite Z.mul_comm at 1. rewrite (Z.mul_comm _ 8), <-Z.div_div by lia.
  pose proof (Z.div_mod (addr / 8) (Z.of_nat (cd_words_m c)) ltac:(lia)).
  pose proof (Z.div_mod addr 8 ltac:(lia)). nia.
Qed.

(** ** Witnesses *)
Definition ex_data : cache_data :=
  {| data_m := [1; 2; 3; 4; 5; 6; 7; 8]; cd_ways_m := 2; cd_sets_m := 2; cd_words_m := 2 |}.

Lemma ex_data_wf : cd_wf ex_data.
Proof. split; [done|]. repeat constructor; by vm_compute. Qed.

Lemma cd_write_spec_witness :
  exists c' new, cd_write 0xaabbccdd 5 1 0 1 ex_data = Some c' /\
    cd_read c' 1 0 1 = Some new /\ new = 0xbb00dd.
Proof.
  destruct (cd_write_spec 0xaabbccdd 5 1 0 1 ex_data ex_data_wf) as (c' & prev & new & H1 & H2 & H3 & _).
  - split_and!; simpl; lia.
  - lia.
  - exists c', new. split; [exact H1|]. split; [exact H3|].
    vm_compute in H1. injection H1 as <-. vm_compute in H3. by injection H3.
Defined.

Lemma cd_geometry_witness :
  cd_in ex_data 1 (Z.to_nat (cd_getAddrSet ex_data 0x38)) (Z.to_nat (cd_getAddrWord ex_data 0x38)).
Proof.
  eapply (cd_geometry ex_data
    {| tag_m := []; val_m := []; ways_m := 2; sets_m := 2; bytes_m := 16 |}); simpl; done || lia.
Defined.
