(* ===== verification/Amo.v ===== *)
(** * Atomic operations ([hpdcache_test_amo.h], [hpdcache_test_mem_resp_model_base.h])

    Two [compute_amo]s: the scoreboard's, selected by a core request's operation
    code, and the memory's, selected by the atomic code of a memory request. The
    cache translates one into the other ([hpdcache_uncached.sv]); the theorems
    show that the translated memory operation computes what the core operation
    means, and that both compute the operations of the ISA at 32 and 64 bits. *)
From S2P Require Import Prelude Defs Transaction.

(** [umax] and [smax]: the comparisons both functions start with. *)
Definition amo_umax (ld_data st_data : Z) : bool := st_data <? ld_data.
Definition amo_smax (ld_data st_data bytes : Z) : bool :=
  if bytes =? 4 then to_signed 32 st_data <? to_signed 32 ld_data
  else to_signed 64 st_data <? to_signed 64 ld_data.

(** [hpdcache_test_amo::compute_amo]; [None] is the failed [sc_assert]. *)
Definition core_compute_amo (atop ld_data st_data bytes : Z) : option Z :=
  let umax := amo_umax ld_data st_data in
  let smax := amo_smax ld_data st_data bytes in
  match req_op_of_value atop with
  | Some HPDCACHE_REQ_AMO_SWAP => Some st_data
  | Some HPDCACHE_REQ_AMO_ADD => Some (u64 (ld_data + st_data))
  | Some HPDCACHE_REQ_AMO_AND => Some (Z.land ld_data st_data)
  | Some HPDCACHE_REQ_AMO_OR => Some (Z.lor ld_data st_data)
  | Some HPDCACHE_REQ_AMO_XOR => Some (Z.lxor ld_data st_data)
  | Some HPDCACHE_REQ_AMO_MAX => Some (if smax then ld_data else st_data)
  | Some HPDCACHE_REQ_AMO_MAXU => Some (if umax then ld_data else st_data)
  | Some HPDCACHE_REQ_AMO_MIN => Some (if smax then st_data else ld_data)
  | Some HPDCACHE_REQ_AMO_MINU => Some (if umax then st_data else ld_data)
  | _ => None
  end.

(** [hpdcache_test_mem_resp_model_base::compute_amo]; [None] as above, which the
    load- and store-exclusive codes reach too. *)
Definition mem_compute_amo (atop ld_data st_data bytes : Z) : option Z :=
  let umax := amo_umax ld_data st_data in
  let smax := amo_smax ld_data st_data bytes in
  if atop =? HPDCACHE_MEM_ATOMIC_ADD then Some (u64 (ld_data + st_data))
  else if atop =? HPDCACHE_MEM_ATOMIC_CLR then Some (Z.land ld_data (u64 (Z.lnot st_data)))
  else if atop =? HPDCACHE_MEM_ATOMIC_SET then Some (Z.lor ld_data st_data)
  else if atop =? HPDCACHE_MEM_ATOMIC_EOR then Some (Z.lxor ld_data st_data)
  else if atop =? HPDCACHE_MEM_ATOMIC_SMAX then Some (if smax then ld_data else st_data)
  else if atop =? HPDCACHE_MEM_ATOMIC_UMAX then Some (if umax then ld_data else st_data)
  else if atop =? HPDCACHE_MEM_ATOMIC_SMIN then Some (if smax then st_data else ld_data)
  else if atop =? HPDCACHE_MEM_ATOMIC_UMIN then Some (if umax then st_data else ld_data)
  else if atop =? HPDCACHE_MEM_ATOMIC_SWAP then Some st_data
  else None.

(** The cache's translation of a core operation into the memory's command and
    atomic code ([mem_req_write_comb]), and of its data. *)
Definition mem_atomic_of_op (op : hpdcache_req_op_e) : option Z :=
  match op with
  | HPDCACHE_REQ_AMO_SC => Some HPDCACHE_MEM_ATOMIC_STEX
  | HPDCACHE_REQ_AMO_SWAP => Some HPDCACHE_MEM_ATOMIC_SWAP
  | HPDCACHE_REQ_AMO_ADD => Some HPDCACHE_MEM_ATOMIC_ADD
  | HPDCACHE_REQ_AMO_AND => Some HPDCACHE_MEM_ATOMIC_CLR
  | HPDCACHE_REQ_AMO_OR => Some HPDCACHE_MEM_ATOMIC_SET
  | HPDCACHE_REQ_AMO_XOR => Some HPDCACHE_MEM_ATOMIC_EOR
  | HPDCACHE_REQ_AMO_MAX => Some HPDCACHE_MEM_ATOMIC_SMAX
  | HPDCACHE_REQ_AMO_MAXU => Some HPDCACHE_MEM_ATOMIC_UMAX
  | HPDCACHE_REQ_AMO_MIN => Some HPDCACHE_MEM_ATOMIC_SMIN
  | HPDCACHE_REQ_AMO_MINU => Some HPDCACHE_MEM_ATOMIC_UMIN
  | _ => None
  end.
Definition mem_write_data_of_op (w : Z) (op : hpdcache_req_op_e) (data : Z) : Z :=
  match op with HPDCACHE_REQ_AMO_AND => wrap w (Z.lnot data) | _ => data end.

(** ** The operations of the ISA

    [amo_spec op w ld st]: the new value of a [w]-bit memory cell. *)
Definition signed_max (w a b : Z) : Z := wrap w (Z.max (to_signed w a) (to_signed w b)).
Definition signed_min (w a b : Z) : Z := wrap w (Z.min (to_signed w a) (to_signed w b)).
Definition amo_spec (op : hpdcache_req_op_e) (w ld st : Z) : option Z :=
  match op with
  | HPDCACHE_REQ_AMO_SWAP => Some st
  | HPDCACHE_REQ_AMO_ADD => Some (wrap w (ld + st))
  | HPDCACHE_REQ_AMO_AND => Some (Z.land ld st)
  | HPDCACHE_REQ_AMO_OR => Some (Z.lor ld st)
  | HPDCACHE_REQ_AMO_XOR => Some (Z.lxor ld st)
  | HPDCACHE_REQ_AMO_MAX => Some (signed_max w ld st)
  | HPDCACHE_REQ_AMO_MAXU => Some (Z.max ld st)
  | HPDCACHE_REQ_AMO_MIN => Some (signed_min w ld st)
  | HPDCACHE_REQ_AMO_MINU => Some (Z.min ld st)
  | _ => None
  end.

(** ** Lemmas *)
Lemma wrap_to_signed w x : 0 < w -> is_word w x -> wrap w (to_signed w x) = x.
Proof.
  intros Hw Hx. unfold to_signed. rewrite (wrap_small w x) by done.
  destruct (x <? _); [by apply wrap_small|]. unfold wrap.
  replace (x - 2 ^ w) with (x + (-1) * 2 ^ w) by lia.
  rewrite Z.mod_add; [by apply wrap_small|]. pose proof (Z.pow_pos_nonneg 2 w). lia.
Qed.

Lemma signed_max_smax w ld st :
  0 < w -> is_word w ld -> is_word w st ->
  signed_max w ld st = if to_signed w st <? to_signed w ld then ld else st.
Proof.
  intros Hw H1 H2. unfold signed_max. destruct (Z.ltb_spec (to_signed w st) (to_signed w ld)).
  - rewrite Z.max_l by lia. by apply wrap_to_signed.
  - rewrite Z.max_r by lia. by apply wrap_to_signed.
Qed.

Lemma signed_min_smax w ld st :
  0 < w -> is_word w ld -> is_word w st ->
  signed_min w ld st = if to_signed w st <? to_signed w ld then st else ld.
Proof.
  intros Hw H1 H2. unfold signed_min. destruct (Z.ltb_spec (to_signed w st) (to_signed w ld)).
  - rewrite Z.min_r by lia. by apply wrap_to_signed.
  - rewrite Z.min_l by lia. by apply wrap_to_signed.
Qed.

Lemma amo_smax_width w ld st :
  w = 32 \/ w = 64 -> amo_smax ld st (w / 8) = (to_signed w st <? to_signed w ld).
Proof. by intros [-> | ->]. Qed.

Lemma wrap_wrap_le v w x : 0 <= v <= w -> wrap v (wrap w x) = wrap v x.
Proof. intros. bitwise. Qed.

(** The core's function computes the ISA's operation on [w]-bit operands. *)
Lemma core_compute_amo_spec op w ld st :
  w = 32 \/ w = 64 -> is_word w ld -> is_word w st ->
  wrap w <$> core_compute_amo (req_op_value op) ld st (w / 8) = amo_spec op w ld st.
Proof.
  intros Hw H1 H2. unfold core_compute_amo. rewrite req_op_of_value_value, amo_smax_width by done.
  assert (0 < w <= 64) by (destruct Hw; lia).
  destruct op; simpl; try done; f_equal;
    rewrite ?signed_max_smax, ?signed_min_smax, ?wrap_wrap_le by (done || lia); try done.
  1-4: apply wrap_small; auto with words lia.
  all: unfold amo_umax; repeat case_match; rewrite wrap_small by done; lia.
Qed.

Lemma mem_compute_amo_spec op w ld st atop :
  w = 32 \/ w = 64 -> is_word w ld -> is_word w st -> op <> HPDCACHE_REQ_AMO_SC ->
  mem_atomic_of_op op = Some atop ->
  wrap w <$> mem_compute_amo atop ld (mem_write_data_of_op w op st) (w / 8) = amo_spec op w ld st.
Proof.
  intros Hw H1 H2 Hsc Hop. assert (0 < w <= 64) by (destruct Hw; lia).
  unfold mem_compute_amo. rewrite amo_smax_width by done.
  destruct op; simpl in Hop; try done; injection Hop as <-; simpl; f_equal;
    rewrite ?signed_max_smax, ?signed_min_smax, ?wrap_wrap_le by (done || lia); try done.
  - by apply wrap_small.
  - rewrite wrap_small by (auto with words lia).
    bitwise; rewrite ?(testbit_word w ld), ?(testbit_word w st) by (done || lia); btauto.
  - apply wrap_small; auto with words lia.
  - apply wrap_small; auto with words lia.
  - case_match; by rewrite wrap_small.
  - unfold amo_umax. case_match; rewrite wrap_small by done; lia.
  - case_match; by rewrite wrap_small.
  - unfold amo_umax. case_match; rewrite wrap_small by done; lia.
Qed.

(** ** Properties *)

(** C28: An atomic operation of the core and the memory operation the cache translates
    it to both compute the operation of the ISA, on 32-bit and on 64-bit operands
    (the AND travels as a bit clear with complemented data). *)
Theorem amo_translation_sound op w ld st atop :
  w = 32 \/ w = 64 -> is_word w ld -> is_word w st ->
  mem_atomic_of_op op = Some atop -> op <> HPDCACHE_REQ_AMO_SC ->
  exists r, amo_spec op w ld st = Some r /\ is_word w r /\
    wrap w <$> core_compute_amo (req_op_value op) ld st (w / 8) = Some r /\
    wrap w <$> mem_compute_amo atop ld (mem_write_data_of_op w op st) (w / 8) = Some r.
Proof.
  intros Hw H1 H2 Hop Hsc.
  pose proof (core_compute_amo_spec op w ld st Hw H1 H2) as Hc.
  pose proof (mem_compute_amo_spec op w ld st atop Hw H1 H2 Hsc Hop) as Hm.
  destruct (amo_spec op w ld st) as [r|] eqn:E; [|by destruct op].
  exists r. split_and!; [done| |done|done].
  apply fmap_Some in Hc as (x & _ & ->). apply wrap_word. lia.
Qed.

(** The scoreboard's [compute_amo] is defined exactly on the operations [is_amo]
    recognises, and its result is a 64-bit word; so its assertion cannot fail on a
    transaction the scoreboard treats as an AMO. *)
Theorem core_compute_amo_total t ld st bytes :
  is_word 64 ld -> is_word 64 st ->
  (is_amo t = true <-> exists r, core_compute_amo (req_op t) ld st bytes = Some r /\ is_word 64 r).
Proof.
  intros H1 H2. unfold core_compute_amo.
  destruct (req_op_of_value (req_op t)) as [op|] eqn:E.
  - apply req_op_of_value_Some in E. unfold is_amo. rewrite E. destruct op; simpl;
      (split; [intros _; eexists; split; [done|]|naive_solver];
       repeat case_match; auto with words lia) || naive_solver.
  - assert (forall op, (req_op t =? req_op_value op) = false) as Hne.
    { intros op. apply Z.eqb_neq. intros Hv. apply req_op_of_value_Some in Hv. congruence. }
    unfold is_amo. rewrite !Hne. naive_solver.
Qed.

(** ** Witnesses *)
Lemma amo_translation_sound_witness :
  exists r, amo_spec HPDCACHE_REQ_AMO_MIN 32 0xffffffff 5 = Some r /\ is_word 32 r /\
    wrap 32 <$> core_compute_amo (req_op_value HPDCACHE_REQ_AMO_MIN) 0xffffffff 5 (32 / 8) = Some r /\
    wrap 32 <$> mem_compute_amo HPDCACHE_MEM_ATOMIC_SMIN 0xffffffff
                 (mem_write_data_of_op 32 HPDCACHE_REQ_AMO_MIN 5) (32 / 8) = Some r.
Proof.
  apply (amo_translation_sound HPDCACHE_REQ_AMO_MIN 32 0xffffffff 5 HPDCACHE_MEM_ATOMIC_SMIN);
    try done; by left.
Defined.

Lemma core_compute_amo_total_witness :
  is_amo transaction_req_init = true <->
  exists r, core_compute_amo (req_op transaction_req_init) 1 2 8 = Some r /\ is_word 64 r.
Proof. by apply (core_compute_amo_total transaction_req_init 1 2 8). Defined.
