(* ===== verification/MemResp.v ===== *)
(** * The memory response model ([hpdcache_test_mem_resp_model_base.h],
    [hpdcache_test_mem_resp_model.h])

    The slave the cache's memory interface talks to: error segments, exclusive
    reservations, burst reads, byte-enabled writes and atomic operations over the
    sparse memory of [MemModel.v]. [readOperation] and [writeOperation] are
    functions of the model's state that return the flits they queue, in order;
    the waits for a random number of cycles have no effect on the data. [None] is
    an undefined access (an array index or a bit-vector slice out of range) or a
    failed assertion. *)
From S2P Require Import Prelude Defs Transaction MemModel Amo.

(** [struct segment_t], [struct excl_reservation_buf_t] *)
Record segment_t := { seg_base_addr : Z; seg_end_addr : Z; seg_error : bool }.
Record excl_reservation_buf_t := { excl_valid : bool; excl_base_addr : Z; excl_end_addr : Z }.

(** The members of the class the operations use, with the state of [rand()]. *)
Record mem_resp_model := {
  errorsegs : list segment_t;
  memory_m : mem_model;
  excl_buf_m : list excl_reservation_buf_t;
  mr_rng : rng;
}.

Definition set_memory (m : mem_model) (g : rng) (s : mem_resp_model) : mem_resp_model :=
  {| errorsegs := errorsegs s; memory_m := m; excl_buf_m := excl_buf_m s; mr_rng := g |}.
Definition set_excl (id : nat) (e : excl_reservation_buf_t) (s : mem_resp_model) : mem_resp_model :=
  {| errorsegs := errorsegs s; memory_m := memory_m s;
     excl_buf_m := <[id := e]> (excl_buf_m s); mr_rng := mr_rng s |}.

(** [add_error_segment] *)
Definition add_error_segment (seg : segment_t) (s : mem_resp_model) : mem_resp_model :=
  {| errorsegs := errorsegs s ++ [seg]; memory_m := memory_m s;
     excl_buf_m := excl_buf_m s; mr_rng := mr_rng s |}.

(** The constructor; [excl_buf_m] is not initialised, so its contents are arguments. *)
Definition mk_mem_resp_model (excl : list excl_reservation_buf_t) (g : rng) : mem_resp_model :=
  {| errorsegs := []; memory_m := mk_mem_model MEM_MODEL_INIT_RANDOM 0;
     excl_buf_m := excl; mr_rng := g |}.

(** [within_region] *)
Definition within_region (base0 end0 base1 end1 : Z) : bool :=
  if end0 <=? base1 then false else if end1 <=? base0 then false else true.

(** [within_error_region]: the first segment that overlaps decides. *)
Fixpoint within_error_segs (segs : list segment_t) (base end_ : Z) : bool :=
  match segs with
  | [] => false
  | s :: segs =>
      if within_region (seg_base_addr s) (seg_end_addr s) base end_ then seg_error s
      else within_error_segs segs base end_
  end.
Definition within_error_region (s : mem_resp_model) (base end_ : Z) : bool :=
  within_error_segs (errorsegs s) base end_.

Section Model.
Context {cfg : HpdConfig}.

Definition MEM_NOC_DATA_WORDS : Z := HPDCACHE_MEM_DATA_WIDTH / 64.

(** What the processes sample from the request ports: [to_uint()] keeps the low
    32 bits of the address. *)
Definition sample_req (pins : mem_req) : mem_req :=
  {| mreq_addr := u32 (mreq_addr pins); mreq_len := mreq_len pins; mreq_size := mreq_size pins;
     mreq_id := mreq_id pins; mreq_command := mreq_command pins;
     mreq_atomic := mreq_atomic pins; mreq_cacheable := mreq_cacheable pins |}.

(** [size_t words = (1 << size) / 8; if (words == 0) words = 1;] *)
Definition op_words (bytes : Z) : Z := let words := bytes / 8 in if words =? 0 then 1 else words.

(** [data.range((r + 1) * 64 - 1, r * 64)] *)
Definition noc_slice (r data : Z) : Z := range ((r + 1) * 64 - 1) (r * 64) data.
Definition set_noc_slice (r data x : Z) : Z := set_range ((r + 1) * 64 - 1) (r * 64) data x.

(** The inner loop of a beat: the words [w] to [words - 1]. *)
Fixpoint read_words (n : nat) (w : Z) (addr data : Z) (m : mem_model) (g : rng)
    : Z * mem_model * rng :=
  match n with
  | O => (data, m, g)
  | S n =>
      let word_addr := u64 (Z.shiftr addr 3 + w) in
      let '(ld_data, m, g) := readMemory word_addr m g in
      let r := word_addr mod MEM_NOC_DATA_WORDS in
      read_words n (w + 1) addr (set_noc_slice r data ld_data) m g
  end.

(** The loop over the beats [i] to [len]; the response object keeps its data from
    one beat to the next. *)
Fixpoint read_beats (n : nat) (i : Z) (req : mem_req) (addr data : Z) (m : mem_model) (g : rng)
    : list mem_read_resp * mem_model * rng :=
  match n with
  | O => ([], m, g)
  | S n =>
      let words := op_words (Z.shiftl 1 (mreq_size req)) in
      let '(data, m, g) := read_words (Z.to_nat words) 0 addr data m g in
      let resp := {| rresp_error := 0; rresp_id := mreq_id req; rresp_data := data;
                     rresp_last := i =? mreq_len req |} in
      let '(resps, m, g) :=
        read_beats n (i + 1) req (u64 (Z.shiftl (Z.shiftr addr 3 + words) 3)) data m g in
      (resp :: resps, m, g)
  end.

(** The responses to a read in an error segment. *)
Definition read_error_resp (req : mem_req) (i : Z) : mem_read_resp :=
  {| rresp_error := 1; rresp_id := mreq_id req; rresp_data := 0; rresp_last := i =? mreq_len req |}.

(** [readOperation()]: the request sent to the scoreboard, then the responses
    queued in [read_resp_fifo]. *)
Definition readOperation (pins : mem_req) (s : mem_resp_model)
    : option (mem_req * list mem_read_resp * mem_resp_model) :=
  let req := sample_req pins in
  let addr := mreq_addr req in
  let end_addr := u64 (addr + Z.shiftl 1 (mreq_size req)) in
  let beats := Z.to_nat (mreq_len req + 1) in
  if within_error_region s addr end_addr then
    Some (req, read_error_resp req <$> seqZ 0 (mreq_len req + 1), s)
  else
    s ← (if mem_is_ldex req then
           let id := Z.to_nat (mreq_id req) in
           _ ← excl_buf_m s !! id;
           Some (set_excl id {| excl_valid := true; excl_base_addr := addr;
                                excl_end_addr := u64 (addr + Z.shiftl 1 (mreq_size req)) |} s)
         else Some s);
    let '(resps, m, g) := read_beats beats 0 req addr 0 (memory_m s) (mr_rng s) in
    Some (req, resps, set_memory m g s).

(** [writeOperation]: the exclusive check of a store-exclusive. *)
Definition check_excl (req : mem_req) (addr end_addr : Z) (s : mem_resp_model)
    : option (bool * mem_resp_model) :=
  if mem_is_stex req then
    let id := Z.to_nat (mreq_id req) in
    e ← excl_buf_m s !! id;
    if excl_valid e then
      Some (within_region addr end_addr (excl_base_addr e) (excl_end_addr e),
            set_excl id {| excl_valid := false; excl_base_addr := excl_base_addr e;
                           excl_end_addr := excl_end_addr e |} s)
    else Some (false, s)
  else Some (false, s).

(** The bit-vector slice of NoC word [i], which must exist. *)
Definition noc_word (i data : Z) : option Z :=
  if i <? MEM_NOC_DATA_WORDS then Some (noc_slice i data) else None.
Definition noc_be_slice (i be : Z) : Z := u8 (range ((i + 1) * 8 - 1) (i * 8) be).
Definition noc_be (i be : Z) : option Z :=
  if i <? MEM_NOC_DATA_WORDS then Some (noc_be_slice i be) else None.

(** [is_amo] of [writeOperation]: unlike [hpdcache_test_transaction_mem_req::is_amo]
    it does not exclude the load-exclusive code. *)
Definition write_is_amo (req : mem_req) : bool :=
  (mreq_command req =? HPDCACHE_MEM_ATOMIC)
  && negb (mreq_atomic req =? HPDCACHE_MEM_ATOMIC_STEX).

(** The AMO computation: the old data and the result, both at the operand's place
    in the 64-bit word. *)
Definition amo_operation (req : mem_req) (bytes ld_data st_data : Z) : option (Z * Z) :=
  let offset := (mreq_addr req mod 8) * 8 in
  let '(ld_data, st_data) :=
    if bytes =? 4 then (u32 (Z.shiftr ld_data offset), u32 (Z.shiftr st_data offset))
    else (ld_data, st_data) in
  amo_result ← mem_compute_amo (mreq_atomic req) ld_data st_data bytes;
  Some (if offset =? 0 then (ld_data, amo_result)
        else (u64 (Z.shiftl ld_data offset), u64 (Z.shiftl amo_result offset))).

(** The loop over the words to write, from [w] on. *)
Fixpoint write_words (n : nat) (w : Z) (word_addr word : Z) (amo : option Z) (data be : Z)
    (m : mem_model) (g : rng) : option (mem_model * rng) :=
  match n with
  | O => Some (m, g)
  | S n =>
      let i := word + w in
      b ← noc_be i be;
      d ← noc_word i data;
      let '(m, g) :=
        if b =? 0 then (m, g)
        else writeMemory (u64 (word_addr + w)) (from_option id d amo) (beToMask b) m g in
      write_words n (w + 1) word_addr word amo data be m g
  end.

(** [writeOperation(req)]: the responses queued on the read channel, the response
    on the write channel, and the new state. *)
Definition writeOperation (wr : mem_write_req) (s : mem_resp_model)
    : option (list mem_read_resp * mem_write_resp * mem_resp_model) :=
  let req := wreq wr in
  let bytes := u32 (Z.shiftl 1 (mreq_size req)) in
  let addr := mreq_addr req in
  let end_addr := u64 (addr + bytes) in
  let word_addr := Z.shiftr addr 3 in
  let is_amo := write_is_amo req in
  if within_error_region s addr end_addr then
    Some (if is_amo then [{| rresp_error := 0; rresp_id := mreq_id req; rresp_data := 0;
                             rresp_last := true |}] else [],
          {| wresp_is_atomic := false; wresp_error := 1; wresp_id := mreq_id req |}, s)
  else
    '(excl_ok, s) ← check_excl req addr end_addr s;
    let word := word_addr mod MEM_NOC_DATA_WORDS in
    '(ld, amo, s) ← (if is_amo then
       let '(ld_data, m, g) := readMemory word_addr (memory_m s) (mr_rng s) in
       st_data ← noc_word word (wreq_data wr);
       '(ld, res) ← amo_operation req bytes ld_data st_data;
       Some (ld, Some res, set_memory m g s)
     else Some (0, None, s));
    let ack := {| wresp_is_atomic := mem_is_stex req && excl_ok; wresp_error := 0;
                  wresp_id := mreq_id req |} in
    if negb (mem_is_stex req) || excl_ok then
      '(m, g) ← write_words (Z.to_nat (op_words bytes)) 0 word_addr word amo
                  (wreq_data wr) (wreq_be wr) (memory_m s) (mr_rng s);
      let resps :=
        if is_amo then
          [{| rresp_error := 0; rresp_id := mreq_id req;
              rresp_data := set_noc_slice word 0 ld;
              rresp_last := true |}]
        else [] in
      Some (resps, ack, set_memory m g s)
    else Some ([], ack, s).

(** [write_process]: one iteration, the request sent to the scoreboard, and
    whether the message about multi-flit bursts is printed. *)
Definition write_process (meta : mem_req) (data be : Z) (last : bool) (s : mem_resp_model)
    : option (mem_write_req * bool * (list mem_read_resp * mem_write_resp * mem_resp_model)) :=
  let req := {| wreq := sample_req meta; wreq_data := data; wreq_be := be; wreq_last := last |} in
  r ← writeOperation req s;
  Some (req, negb (mreq_len meta =? 0), r).

(** ** Lemmas *)
Lemma noc_slice_same r data x : 0 <= r -> is_word 64 x -> noc_slice r (set_noc_slice r data x) = x.
Proof.
  intros Hr Hx. unfold noc_slice, set_noc_slice. rewrite range_set_range_same by lia.
  apply wrap_small. by replace ((r + 1) * 64 - 1 - r * 64 + 1) with 64 by lia.
Qed.

Lemma noc_slice_other r r' data x :
  0 <= r -> 0 <= r' -> r <> r' -> noc_slice r' (set_noc_slice r data x) = noc_slice r' data.
Proof. intros. unfold noc_slice, set_noc_slice. apply range_set_range_other; lia. Qed.

Lemma noc_slice_word r data : 0 <= r -> is_word 64 (noc_slice r data).
Proof.
  intros. unfold noc_slice. pose proof (range_word ((r + 1) * 64 - 1) (r * 64) data ltac:(lia)) as H1.
  by replace ((r + 1) * 64 - 1 - r * 64 + 1) with 64 in H1 by lia.
Qed.

Lemma mod_distinct n a i j : 0 < n -> 0 <= i < n -> 0 <= j < n -> (a + i) mod n = (a + j) mod n -> i = j.
Proof.
  intros Hn Hi Hj Heq.
  pose proof (Z.div_mod (a + i) n ltac:(lia)) as H1.
  pose proof (Z.div_mod (a + j) n ltac:(lia)) as H2.
  assert (i - j = n * ((a + i) / n - (a + j) / n)) as H3 by lia.
  assert ((a + i) / n - (a + j) / n = 0) by nia. nia.
Qed.

Context {Hcfg : ConfigWf cfg}.

Lemma MEM_NOC_DATA_WORDS_pos : 0 < MEM_NOC_DATA_WORDS.
Proof using Hcfg.
  unfold MEM_NOC_DATA_WORDS. destruct cfg_mem as (k & Hk & ->).
  rewrite Z.mul_comm, Z.div_mul by lia. apply Z.pow_pos_nonneg; lia.
Qed.

(** The memory after a sequence of reads: what was initialised is unchanged. *)
Definition mem_grows (m m' : mem_model) : Prop :=
  mem_array_m m ⊆ mem_array_m m' /\ init_mode_m m' = init_mode_m m /\ init_val_m m' = init_val_m m.

#[global] Instance mem_grows_preorder : PreOrder mem_grows.
Proof.
  split; [by intros m; split_and!|].
  intros m1 m2 m3 (H1 & H2 & H3) (H4 & H5 & H6). split_and!; [by etrans|congruence..].
Qed.

Lemma readMemory_grows a m g v m' g' :
  readMemory a m g = (v, m', g') -> mem_grows m m' /\ mem_array_m m' !! a = Some v.
Proof.
  unfold readMemory. destruct (mem_array_m m !! a) as [x|] eqn:E.
  - intros [= <- <- <-]. done.
  - destruct (init_value m g) as [x g1]. intros [= <- <- <-]. simpl. split.
    + split_and!; simpl; [|done|done]. by apply insert_subseteq.
    + apply lookup_insert_eq.
Qed.

Lemma read_words_spec n w addr data m g data' m' g' :
  mem_wf m -> rng_wf g -> 0 <= addr -> 0 <= w -> Z.shiftr addr 3 + w + Z.of_nat n <= 2 ^ 64 ->
  Z.of_nat n <= MEM_NOC_DATA_WORDS ->
  read_words n w addr data m g = (data', m', g') ->
  mem_grows m m' /\ mem_wf m' /\ rng_wf g' /\
  (forall j, 0 <= j < Z.of_nat n -> exists v,
     mem_array_m m' !! (Z.shiftr addr 3 + w + j) = Some v /\
     noc_slice ((Z.shiftr addr 3 + w + j) mod MEM_NOC_DATA_WORDS) data' = v) /\
  (forall r, 0 <= r ->
     (forall j, 0 <= j < Z.of_nat n -> r <> (Z.shiftr addr 3 + w + j) mod MEM_NOC_DATA_WORDS) ->
     noc_slice r data' = noc_slice r data).
Proof using Hcfg.
  pose proof MEM_NOC_DATA_WORDS_pos as HN. assert (forall x, 0 <= x mod MEM_NOC_DATA_WORDS) as Hmod
    by (intros x; pose proof (Z.mod_pos_bound x _ HN); lia).
  revert w data m g. induction n as [|n IH]; intros w data m g Hm Hg Ha Hw Hb Hn; cbn [read_words].
  { intros [= <- <- <-]. split_and!; try done. intros j Hj. lia. }
  pose proof (proj2 (Z.shiftr_nonneg addr 3) Ha) as Hs.
  rewrite wrap_small by (split; lia). set (wa := Z.shiftr addr 3 + w) in *.
  destruct (readMemory wa m g) as [[ld m1] g1] eqn:Er. intros Hrest.
  destruct (readMemory_grows _ _ _ _ _ _ Er) as [Hgr Hld].
  destruct (readMemory_wf _ _ _ _ _ _ Er Hm Hg) as [Hm1 Hldw].
  pose proof (readMemory_rng _ _ _ _ _ _ Er Hg) as Hg1.
  destruct (IH (w + 1) _ _ _ Hm1 Hg1 Ha ltac:(lia) ltac:(lia) ltac:(lia) Hrest)
    as (H1 & H2 & H3 & H4 & H5).
  replace (Z.shiftr addr 3 + (w + 1)) with (wa + 1) in * by lia.
  split_and!; [by etrans|done|done| |].
  - intros j Hj. destruct (decide (j = 0)) as [->|].
    + exists ld. rewrite Z.add_0_r. split; [by eapply lookup_weaken; [|apply H1]|].
      rewrite H5; [by apply noc_slice_same| done |].
      intros j Hj'. rewrite <-(Z.add_0_r wa) at 1. rewrite <-Z.add_assoc. intros Heq.
      apply mod_distinct in Heq; lia.
    + replace (wa + j) with (wa + 1 + (j - 1)) by lia. apply H4. lia.
  - intros r Hr Hother. rewrite H5; [|done|].
    + apply noc_slice_other; [done|done|]. intros <-. apply (Hother 0); [lia|]. by rewrite Z.add_0_r.
    + intros j Hj. replace (wa + 1 + j) with (wa + (j + 1)) by lia. apply Hother. lia.
Qed.

Lemma op_words_pos bytes : 0 <= bytes -> 0 < op_words bytes.
Proof.
  intros. unfold op_words. pose proof (Z.div_pos bytes 8 ltac:(lia) ltac:(lia)).
  destruct (Z.eqb_spec (bytes / 8) 0); lia.
Qed.

(** The word address a beat starts from. *)
Lemma next_beat_addr a words :
  0 <= a -> 0 <= words -> a + words < 2 ^ 61 -> Z.shiftr (u64 (Z.shiftl (a + words) 3)) 3 = a + words.
Proof.
  intros. rewrite Z.shiftl_mul_pow2 by lia. change (2 ^ 3) with 8.
  rewrite wrap_small by (split; lia). rewrite Z.shiftr_div_pow2 by lia. apply Z.div_mul. lia.
Qed.

(** What the beat starting at word [wa] reports of memory [m]. *)
Definition beat_reads (m : mem_model) (wa words : Z) (r : mem_read_resp) : Prop :=
  forall w, 0 <= w < words -> exists v,
    mem_array_m m !! (wa + w) = Some v /\ noc_slice ((wa + w) mod MEM_NOC_DATA_WORDS) (rresp_data r) = v.

Lemma beat_reads_grows m m' wa words r : mem_grows m m' -> beat_reads m wa words r -> beat_reads m' wa words r.
Proof.
  intros (Hg & _) H w Hw. destruct (H w Hw) as (v & Hv & Hs). exists v.
  split; [by eapply lookup_weaken|done].
Qed.

Lemma read_beats_spec n i req addr data m g resps m' g' :
  let words := op_words (Z.shiftl 1 (mreq_size req)) in
  mem_wf m -> rng_wf g -> 0 <= addr -> 0 <= mreq_size req -> words <= MEM_NOC_DATA_WORDS ->
  Z.shiftr addr 3 + Z.of_nat n * words < 2 ^ 61 ->
  read_beats n i req addr data m g = (resps, m', g') ->
  mem_grows m m' /\ mem_wf m' /\ rng_wf g' /\ length resps = n /\
  forall k r, resps !! k = Some r ->
    rresp_error r = 0 /\ rresp_id r = mreq_id req /\
    rresp_last r = (i + Z.of_nat k =? mreq_len req) /\
    beat_reads m' (Z.shiftr addr 3 + Z.of_nat k * words) words r.
Proof using Hcfg.
  intros words. revert i addr data m g resps.
  assert (0 < words) as Hwords by (apply op_words_pos; apply Z.shiftl_nonneg; lia).
  induction n as [|n IH]; intros i addr data m g resps Hm Hg Ha Hsz HN Hb; cbn [read_beats].
  { intros [= <- <- <-]. split_and!; done. }
  fold words. pose proof (proj2 (Z.shiftr_nonneg addr 3) Ha) as Hs.
  destruct (read_words (Z.to_nat words) 0 addr data m g) as [[data1 m1] g1] eqn:Ew.
  assert (Z.shiftr addr 3 + words + Z.of_nat n * words < 2 ^ 61) as Hb1 by nia.
  assert (0 <= Z.of_nat n * words) by nia.
  destruct (read_words_spec (Z.to_nat words) 0 addr data m g data1 m1 g1 Hm Hg Ha ltac:(lia) ltac:(lia) ltac:(lia) Ew)
    as (W1 & W2 & W3 & W4 & _). rewrite Z2Nat.id in W4 by lia.
  pose proof (next_beat_addr (Z.shiftr addr 3) words Hs ltac:(lia) ltac:(lia)) as Hnext.
  set (addr1 := u64 (Z.shiftl (Z.shiftr addr 3 + words) 3)) in *.
  assert (0 <= addr1) as Ha1 by (apply (wrap_word 64); lia).
  destruct (read_beats n (i + 1) req addr1 data1 m1 g1) as [[resps1 m2] g2] eqn:Eb.
  intros [= <- <- <-].
  destruct (IH (i + 1) addr1 data1 m1 g1 resps1 W2 W3 Ha1 Hsz HN ltac:(rewrite Hnext; lia) Eb) as (B1 & B2 & B3 & B4 & B5).
  rewrite Hnext in B5. split_and!; [by etrans|done|done|by simpl; f_equal|].
  intros [|k] r; simpl.
  - intros [= <-]. simpl. split_and!; [done|done|by rewrite Z.add_0_r|].
    apply (beat_reads_grows m1); [done|]. intros w Hw.
    replace (Z.shiftr addr 3 + Z.of_nat 0 * words + w) with (Z.shiftr addr 3 + 0 + w) by lia.
    by apply W4.
  - intros Hk. destruct (B5 k r Hk) as (C1 & C2 & C3 & C4). split_and!; [done|done| |].
    + rewrite C3. f_equal. lia.
    + by replace (Z.shiftr addr 3 + Z.of_nat (S k) * words)
        with (Z.shiftr addr 3 + words + Z.of_nat k * words) by lia.
Qed.

(** ** The regions *)
Lemma within_region_spec b0 e0 b1 e1 :
  b0 < e0 -> b1 < e1 ->
  within_region b0 e0 b1 e1 = true <-> exists x, b0 <= x < e0 /\ b1 <= x < e1.
Proof.
  intros H0 H1. unfold within_region.
  destruct (Z.leb_spec e0 b1), (Z.leb_spec e1 b0); split; try done; try (intros (x & ?); lia).
  intros _. exists (Z.max b0 b1). lia.
Qed.

(** A model whose parts are in range. *)
Record model_wf (s : mem_resp_model) : Prop := {
  mr_mem : mem_wf (memory_m s);
  mr_rand : rng_wf (mr_rng s);
  mr_excl : Z.of_nat (length (excl_buf_m s)) = 2 ^ HPDCACHE_MEM_ID_WIDTH;
}.

(** The requests the cache's interface can carry. *)
Record mem_req_wf (r : mem_req) : Prop := {
  mreq_wf_addr : is_word HPDCACHE_MEM_ADDR_WIDTH (mreq_addr r);
  mreq_wf_len : is_word 8 (mreq_len r);
  mreq_wf_size : is_word 3 (mreq_size r);
  mreq_wf_id : is_word HPDCACHE_MEM_ID_WIDTH (mreq_id r);
  mreq_wf_fits : op_words (Z.shiftl 1 (mreq_size r)) <= MEM_NOC_DATA_WORDS;
}.

Lemma excl_lookup s r :
  model_wf s -> is_word HPDCACHE_MEM_ID_WIDTH (mreq_id r) ->
  exists e, excl_buf_m s !! Z.to_nat (mreq_id r) = Some e.
Proof.
  intros [_ _ He] [H1 H2]. apply lookup_lt_is_Some_2. lia.
Qed.

Lemma op_words_bound size : 0 <= size < 8 -> op_words (Z.shiftl 1 size) <= 16.
Proof.
  intros H. apply (Z.leb_le _ 16).
  by apply (forallb_interval (fun x => op_words (Z.shiftl 1 x) <=? 16) 0 8 ltac:(by vm_compute)).
Qed.

(** ** Writes *)
Lemma testbit_noc_be_slice i be k :
  0 <= i -> 0 <= k < 8 -> Z.testbit (noc_be_slice i be) k = Z.testbit be (8 * i + k).
Proof. intros. unfold noc_be_slice. bits_simpl. f_equal. lia. Qed.

Lemma byte_of_noc_slice i data k :
  0 <= i -> 0 <= k < 8 -> byte_of (noc_slice i data) k = byte_of data (8 * i + k).
Proof.
  intros. apply Z.bits_inj'. intros j Hj. unfold noc_slice. rewrite !testbit_byte_of by lia.
  bits_simpl; try done. f_equal. lia.
Qed.

(** The word [j] of a write to words that were accessed before. *)
Definition written (amo : option Z) (data be i v : Z) : Z :=
  merge v (from_option id (noc_slice i data) amo) (beToMask (noc_be_slice i be)).

Lemma write_words_spec n w wa word amo data be m g :
  0 <= wa -> 0 <= w -> wa + w + Z.of_nat n <= 2 ^ 64 ->
  word + w + Z.of_nat n <= MEM_NOC_DATA_WORDS ->
  (forall j, 0 <= j < Z.of_nat n -> is_Some (mem_array_m m !! (wa + w + j))) ->
  exists m', write_words n w wa word amo data be m g = Some (m', g) /\
    (forall j v, 0 <= j < Z.of_nat n -> mem_array_m m !! (wa + w + j) = Some v ->
       mem_array_m m' !! (wa + w + j) = Some (written amo data be (word + w + j) v)) /\
    (forall a, ~ (wa + w <= a < wa + w + Z.of_nat n) -> mem_array_m m' !! a = mem_array_m m !! a) /\
    init_mode_m m' = init_mode_m m /\ init_val_m m' = init_val_m m.
Proof.
  revert w m. induction n as [|n IH]; intros w m Hwa Hw Hb Hn Hin; cbn [write_words].
  { exists m. split_and!; try done. intros j v Hj. lia. }
  unfold noc_be, noc_word. destruct (Z.ltb_spec (word + w) MEM_NOC_DATA_WORDS); [|lia]. cbn [mbind option_bind].
  destruct (Hin 0 ltac:(lia)) as [v0 Hv0]. rewrite Z.add_0_r in Hv0.
  rewrite (wrap_small 64 (wa + w)) by (split; lia).
  set (d := from_option id (noc_slice (word + w) data) amo).
  set (b := noc_be_slice (word + w) be).
  assert (exists m1, (if b =? 0 then (m, g) else writeMemory (wa + w) d (beToMask b) m g) = (m1, g) /\
     mem_array_m m1 = <[wa + w := merge v0 d (beToMask b)]> (mem_array_m m) /\
     init_mode_m m1 = init_mode_m m /\ init_val_m m1 = init_val_m m) as (m1 & -> & E1 & E2 & E3).
  { destruct (Z.eqb_spec b 0) as [->|].
    - exists m. split_and!; [done| |done|done]. change (beToMask 0) with 0.
      by rewrite merge_zero_mask, insert_id.
    - eexists. rewrite (writeMemory_hit _ _ _ _ _ _ Hv0). done. }
  destruct (IH (w + 1) m1) as (m2 & H1 & H2 & H3 & H4 & H5); try lia.
  { intros j Hj. rewrite E1, lookup_insert_ne by lia.
    replace (wa + (w + 1) + j) with (wa + w + (j + 1)) by lia. apply Hin. lia. }
  exists m2. split_and!; [done| | |congruence|congruence].
  - intros j v Hj Hv. destruct (decide (j = 0)) as [->|].
    + rewrite H3 by lia. rewrite Z.add_0_r in *. rewrite E1, lookup_insert_eq.
      rewrite Hv0 in Hv. simplify_eq. by rewrite Z.add_0_r.
    + replace (wa + w + j) with (wa + (w + 1) + (j - 1)) in * by lia.
      replace (word + w + j) with (word + (w + 1) + (j - 1)) by lia.
      apply H2; [lia|]. by rewrite E1, lookup_insert_ne by lia.
  - intros a Ha. rewrite H3 by lia. rewrite E1, lookup_insert_ne by lia. done.
Qed.

(** An aligned write stays inside one NoC word. *)
Lemma aligned_fits wa words :
  0 < words -> (words | MEM_NOC_DATA_WORDS) -> (words | wa) ->
  wa mod MEM_NOC_DATA_WORDS + words <= MEM_NOC_DATA_WORDS.
Proof using Hcfg.
  pose proof MEM_NOC_DATA_WORDS_pos as HN. intros Hw [k Hk] [q Hq].
  pose proof (Z.mod_pos_bound wa _ HN). pose proof (Z.div_mod wa MEM_NOC_DATA_WORDS ltac:(lia)) as Hd.
  rewrite Hk in *. set (r := wa mod (k * words)) in *. set (p := wa / (k * words)) in *.
  assert (r = (q - p * k) * words) as Hr
    by (transitivity (q * words - k * words * p); [lia|ring]).
  assert ((q - p * k) < k) by nia. rewrite Hr. nia.
Qed.

Lemma op_words_pow size : 0 <= size -> exists k, 0 <= k /\ op_words (Z.shiftl 1 size) = 2 ^ k /\
  k = Z.max 0 (size - 3).
Proof.
  intros Hs. exists (Z.max 0 (size - 3)). split_and!; [lia| |done].
  unfold op_words. rewrite Z.shiftl_mul_pow2, Z.mul_1_l by lia. change 8 with (2 ^ 3).
  destruct (Z.le_gt_cases 3 size) as [H|H].
  - rewrite <-Z.pow_sub_r by lia. rewrite Z.max_r by lia.
    pose proof (Z.pow_pos_nonneg 2 (size - 3)). destruct (Z.eqb_spec (2 ^ (size - 3)) 0); lia.
  - rewrite Z.div_small; [by rewrite Z.max_l by lia|].
    split; [apply Z.pow_nonneg; lia|]. by apply Z.pow_lt_mono_r; lia.
Qed.

(** The bus rule a request respects: the address is a multiple of its size. *)
Definition mem_aligned (r : mem_req) : Prop := mreq_addr r mod Z.shiftl 1 (mreq_size r) = 0.

Lemma aligned_write_fits r :
  mem_req_wf r -> mem_aligned r ->
  Z.shiftr (mreq_addr r) 3 mod MEM_NOC_DATA_WORDS + op_words (Z.shiftl 1 (mreq_size r))
    <= MEM_NOC_DATA_WORDS.
Proof using Hcfg.
  intros Hr Ha. destruct Hr as [_ _ [Hs0 Hs1] _ Hf].
  destruct (op_words_pow (mreq_size r) Hs0) as (k & Hk & Hw & Ek). unfold mem_aligned in Ha.
  apply aligned_fits; rewrite Hw in *.
  - apply Z.pow_pos_nonneg; lia.
  - unfold MEM_NOC_DATA_WORDS in *. destruct cfg_mem as (n & Hn & Hm). rewrite Hm in *.
    rewrite Z.mul_comm, Z.div_mul in * by lia.
    apply Z.pow_le_mono_r_iff in Hf; [|lia|lia].
    exists (2 ^ (n - k)). rewrite <-Z.pow_add_r by lia. f_equal. lia.
  - rewrite Z.shiftl_mul_pow2, Z.mul_1_l in Ha by lia. rewrite Z.shiftr_div_pow2 by lia.
    apply Z.mod_divide in Ha; [|apply Z.pow_nonzero; lia]. destruct Ha as [q Hq]. rewrite Hq.
    destruct (Z.le_gt_cases 3 (mreq_size r)) as [H|H].
    + exists q. rewrite Ek, Z.max_r by lia.
      replace (mreq_size r) with (mreq_size r - 3 + 3) at 1 by lia.
      rewrite Z.pow_add_r, Z.mul_assoc by lia. apply Z.div_mul. by vm_compute.
    + rewrite Ek, Z.max_l by lia. exists (q * 2 ^ mreq_size r / 2 ^ 3). by rewrite Z.mul_1_r.
Qed.

(** ** Totality and well-formedness of writes *)
Lemma mem_compute_amo_word atop ld st bytes r :
  is_word 64 ld -> is_word 64 st -> mem_compute_amo atop ld st bytes = Some r -> is_word 64 r.
Proof.
  intros H1 H2. unfold mem_compute_amo.
  repeat (destruct (atop =? _); [intros [= <-]; repeat case_match; auto with words lia|]). done.
Qed.

(** The atomic codes [compute_amo] knows. *)
Definition amo_code (atop : Z) : Prop := 0 <= atop <= 8.

Lemma mem_compute_amo_total atop ld st bytes : amo_code atop -> is_Some (mem_compute_amo atop ld st bytes).
Proof.
  intros [H1 H2]. unfold mem_compute_amo. repeat (case_match; [by eexists|]).
  unfold HPDCACHE_MEM_ATOMIC_ADD, HPDCACHE_MEM_ATOMIC_CLR, HPDCACHE_MEM_ATOMIC_SET,
    HPDCACHE_MEM_ATOMIC_EOR, HPDCACHE_MEM_ATOMIC_SMAX, HPDCACHE_MEM_ATOMIC_UMAX,
    HPDCACHE_MEM_ATOMIC_SMIN, HPDCACHE_MEM_ATOMIC_UMIN, HPDCACHE_MEM_ATOMIC_SWAP in *.
  rewrite !Z.eqb_neq in *. lia.
Qed.

Lemma amo_operation_total req bytes ld st :
  amo_code (mreq_atomic req) -> is_word 64 ld -> is_word 64 st ->
  exists l r, amo_operation req bytes ld st = Some (l, r) /\ is_word 64 l /\ is_word 64 r.
Proof.
  intros Hc Hl Hs. unfold amo_operation.
  set (ops := if bytes =? 4 then _ else (ld, st)).
  assert (is_word 64 ops.1 /\ is_word 64 ops.2) as [H1 H2].
  { unfold ops. case_match; simpl; [|done].
    split; [pose proof (wrap_word 32 (Z.shiftr ld (mreq_addr req mod 8 * 8)))
           |pose proof (wrap_word 32 (Z.shiftr st (mreq_addr req mod 8 * 8)))];
      unfold is_word in *; lia. }
  destruct ops as [l r]. simpl in *.
  destruct (mem_compute_amo_total (mreq_atomic req) l r bytes Hc) as [x Hx]. rewrite Hx. simpl.
  pose proof (mem_compute_amo_word _ _ _ _ _ H1 H2 Hx).
  case_match; eexists _, _; (split; [done|]); auto with words lia.
Qed.

Lemma write_words_total n w wa word amo data be m g :
  0 <= word + w -> word + w + Z.of_nat n <= MEM_NOC_DATA_WORDS -> mem_wf m -> rng_wf g ->
  (forall x, amo = Some x -> is_word 64 x) ->
  exists m' g', write_words n w wa word amo data be m g = Some (m', g') /\ mem_wf m' /\ rng_wf g'.
Proof.
  intros H0 Hn Hm Hg Hamo. revert w m g H0 Hn Hm Hg.
  induction n as [|n IH]; intros w m g H0 Hn Hm Hg; cbn [write_words]; [by eexists _, _|].
  unfold noc_be, noc_word. destruct (Z.ltb_spec (word + w) MEM_NOC_DATA_WORDS); [|lia]. cbn [mbind option_bind].
  destruct (noc_be_slice (word + w) be =? 0); [apply IH; lia || done|].
  destruct (writeMemory _ _ _ m g) as [m1 g1] eqn:E.
  apply IH; [lia|lia| |by eapply writeMemory_rng].
  eapply writeMemory_wf; [done| |done|done].
  destruct amo as [x|]; simpl; [by apply Hamo|]. apply noc_slice_word. lia.
Qed.

(** The write requests of the cache: stores, store-exclusives and AMOs. *)
Definition write_req_ok (r : mem_req) : Prop :=
  mem_req_wf r /\ mem_aligned r /\ (write_is_amo r = true -> amo_code (mreq_atomic r)).

Lemma check_excl_total req addr end_addr s :
  model_wf s -> is_word HPDCACHE_MEM_ID_WIDTH (mreq_id req) ->
  exists ok s', check_excl req addr end_addr s = Some (ok, s') /\ model_wf s' /\
    memory_m s' = memory_m s /\ mr_rng s' = mr_rng s /\ errorsegs s' = errorsegs s.
Proof.
  intros Hs Hid. unfold check_excl. case_match; [|by eexists _, _].
  destruct (excl_lookup s req Hs Hid) as [e ->]. simpl.
  destruct (excl_valid e); eexists _, _; split_and!; try done.
  destruct Hs. split; simpl; try done. by rewrite length_insert.
Qed.

Lemma amo_not_stex r : write_is_amo r = true -> mem_is_stex r = false.
Proof.
  unfold write_is_amo, mem_is_stex. intros [_ H]%andb_prop. apply negb_true_iff in H.
  by rewrite H, andb_false_r.
Qed.

Lemma bytes_word r : mem_req_wf r -> u32 (Z.shiftl 1 (mreq_size r)) = Z.shiftl 1 (mreq_size r).
Proof.
  intros [_ _ [H1 H2] _ _]. apply wrap_small. rewrite Z.shiftl_mul_pow2, Z.mul_1_l by lia.
  split; [apply Z.pow_nonneg; lia|]. apply Z.pow_lt_mono_r; lia.
Qed.

(** Every aligned write request the cache may send is answered: one response on the
    write channel with the request's identifier, one on the read channel exactly
    for an AMO, with the same identifier and the last flag; the error bit is that of
    the error segments, and the model stays well formed. *)
Theorem write_answered wr s :
  model_wf s -> write_req_ok (wreq wr) ->
  exists resps ack s', writeOperation wr s = Some (resps, ack, s') /\ model_wf s' /\
    wresp_id ack = mreq_id (wreq wr) /\
    length resps = (if write_is_amo (wreq wr) then 1 else 0)%nat /\
    Forall (fun r => rresp_id r = mreq_id (wreq wr) /\ rresp_last r = true) resps /\
    (wresp_error ack =? 1) = within_error_region s (mreq_addr (wreq wr))
       (u64 (mreq_addr (wreq wr) + Z.shiftl 1 (mreq_size (wreq wr)))).
Proof using Hcfg.
  intros Hs (Hr & Hal & Hamo). unfold writeOperation. rewrite bytes_word by done.
  set (req := wreq wr) in *. set (bytes := Z.shiftl 1 (mreq_size req)).
  destruct (within_error_region _ _ _) eqn:Eerr.
  { eexists _, _, _. split; [done|]. case_match; split_and!; try done. by constructor. }
  destruct (check_excl_total req (mreq_addr req) (u64 (mreq_addr req + bytes)) s Hs)
    as (ok & s1 & -> & Hs1 & Em & Eg & Ee); [apply Hr|]. cbn [mbind option_bind].
  pose proof (aligned_write_fits req Hr Hal) as Hfit. fold bytes in Hfit.
  set (wa := Z.shiftr (mreq_addr req) 3) in *. set (word := wa mod MEM_NOC_DATA_WORDS) in *.
  pose proof (Z.mod_pos_bound wa _ MEM_NOC_DATA_WORDS_pos) as Hword. fold word in Hword.
  assert (0 < op_words bytes) as Hpos.
  { apply op_words_pos, Z.shiftl_nonneg. lia. }
  destruct (write_is_amo req) eqn:Ea.
  - destruct (readMemory wa (memory_m s1) (mr_rng s1)) as [[ld m2] g2] eqn:Er.
    destruct (readMemory_wf _ _ _ _ _ _ Er (mr_mem _ Hs1) (mr_rand _ Hs1)) as [Hm2 Hld].
    pose proof (readMemory_rng _ _ _ _ _ _ Er (mr_rand _ Hs1)) as Hg2.
    unfold noc_word at 1. destruct (Z.ltb_spec word MEM_NOC_DATA_WORDS); [|lia]. cbn [mbind option_bind].
    destruct (amo_operation_total req bytes ld (noc_slice word (wreq_data wr)))
      as (l & r & -> & Hl & Hres); [by apply Hamo|done|apply noc_slice_word; lia|].
    cbn [mbind option_bind]. rewrite (amo_not_stex _ Ea). cbn [negb orb].
    destruct (write_words_total (Z.to_nat (op_words bytes)) 0 wa word (Some r) (wreq_data wr)
       (wreq_be wr) m2 g2) as (m3 & g3 & H1 & H2 & H3); [lia|lia|done|done|by intros x [= <-]|].
    simpl. rewrite H1. simpl. eexists _, _, _. split; [done|].
    split_and!; try done; [|by constructor]. split; simpl; try done. apply Hs1.
  - cbn [mbind option_bind]. destruct (negb (mem_is_stex req) || ok) eqn:Ew.
    + destruct (write_words_total (Z.to_nat (op_words bytes)) 0 wa word None (wreq_data wr)
       (wreq_be wr) (memory_m s1) (mr_rng s1)) as (m3 & g3 & H1 & H2 & H3);
        [lia|lia|apply Hs1|apply Hs1|done|].
      rewrite H1. simpl. eexists _, _, _. split; [done|].
      split_and!; try done. split; simpl; try done. apply Hs1.
    + eexists _, _, _. split; [done|]. by split_and!.
Qed.

Lemma sample_req_id r : mreq_id (sample_req r) = mreq_id r.
Proof. done. Qed.

(** A read outside the error segments is answered by [len + 1] flits with the
    request's identifier, no error and the last flag on the last one only; slice by
    slice, the flits hold what the memory then holds at the words of the burst, and
    no word that was initialised before has changed. *)
Theorem read_returns_memory pins s :
  model_wf s -> mem_req_wf pins ->
  let req := sample_req pins in
  let words := op_words (Z.shiftl 1 (mreq_size req)) in
  within_error_region s (mreq_addr req) (u64 (mreq_addr req + Z.shiftl 1 (mreq_size req))) = false ->
  exists resps s', readOperation pins s = Some (req, resps, s') /\ model_wf s' /\
    mem_grows (memory_m s) (memory_m s') /\
    Z.of_nat (length resps) = mreq_len req + 1 /\
    forall k r, resps !! k = Some r ->
      rresp_error r = 0 /\ rresp_id r = mreq_id req /\
      rresp_last r = (Z.of_nat k =? mreq_len req) /\
      beat_reads (memory_m s') (Z.shiftr (mreq_addr req) 3 + Z.of_nat k * words) words r.
Proof using Hcfg.
  intros Hs Hr req words Herr. unfold readOperation. fold req. rewrite Herr.
  destruct (excl_lookup s req Hs) as [e He]; [apply Hr|].
  set (set1 := set_excl (Z.to_nat (mreq_id req)) {| excl_valid := true; excl_base_addr := mreq_addr req;
    excl_end_addr := u64 (mreq_addr req + Z.shiftl 1 (mreq_size req)) |} s).
  assert (exists s1, (if mem_is_ldex req then _ ← excl_buf_m s !! Z.to_nat (mreq_id req); Some set1
     else Some s) = Some s1 /\ model_wf s1 /\ memory_m s1 = memory_m s /\ mr_rng s1 = mr_rng s)
    as (s1 & -> & Hs1 & E1 & E2).
  { destruct (mem_is_ldex req); [|by eexists]. rewrite He. eexists. split; [done|].
    split_and!; [|done|done]. destruct Hs. split; simpl; try done. by rewrite length_insert. }
  cbn [mbind option_bind].
  destruct (read_beats _ 0 req _ 0 (memory_m s1) (mr_rng s1)) as [[resps m'] g'] eqn:Eb.
  pose proof (mreq_wf_len _ Hr) as Hlen. pose proof (mreq_wf_size _ Hr) as Hsz.
  change (mreq_len req) with (mreq_len pins) in *. change (mreq_size req) with (mreq_size pins) in *.
  pose proof (op_words_bound (mreq_size pins) ltac:(unfold is_word in *; lia)) as Hwb. fold words in Hwb.
  assert (is_word 32 (mreq_addr req)) as [Ha0 Ha1] by (apply wrap_word; lia).
  assert (0 <= Z.shiftr (mreq_addr req) 3 <= mreq_addr req) as Hsh.
  { rewrite Z.shiftr_div_pow2 by lia. split; [apply Z.div_pos; lia|apply Z.div_le_upper_bound; lia]. }
  destruct Hlen as [Hl0 Hl1], Hsz as [Hz0 Hz1].
  assert (0 < words) by (apply op_words_pos, Z.shiftl_nonneg; lia).
  assert (Z.shiftr (mreq_addr req) 3 + Z.of_nat (Z.to_nat (mreq_len pins + 1)) * words < 2 ^ 61) as Hwb2.
  { rewrite Z2Nat.id by lia. assert ((mreq_len pins + 1) * words <= 256 * 16); [nia|lia]. }
  destruct (read_beats_spec _ 0 req (mreq_addr req) 0 _ _ _ _ _ (mr_mem _ Hs1) (mr_rand _ Hs1)
     Ha0 Hz0 (mreq_wf_fits _ Hr) Hwb2 (* the burst does not wrap *) Eb)
    as (B1 & B2 & B3 & B4 & B5).
  eexists _, _. split; [done|]. rewrite E1 in B1. split_and!; [|done| |].
  - split; simpl; [done|done|apply Hs1].
  - rewrite B4, Z2Nat.id by lia. done.
  - exact B5.
Qed.

(** A read in an error segment is answered by [len + 1] flits, all with the error
    bit and the request's identifier, the last flag on the last one only; neither
    the memory nor the reservations change, even for a load-exclusive. *)
Theorem read_error_segment pins s :
  mem_req_wf pins ->
  within_error_region s (u32 (mreq_addr pins)) (u64 (u32 (mreq_addr pins) + Z.shiftl 1 (mreq_size pins)))
    = true ->
  exists resps, readOperation pins s = Some (sample_req pins, resps, s) /\
    Z.of_nat (length resps) = mreq_len pins + 1 /\
    forall k r, resps !! k = Some r ->
      rresp_error r = 1 /\ rresp_id r = mreq_id pins /\ rresp_last r = (Z.of_nat k =? mreq_len pins).
Proof.
  intros Hr Herr. unfold readOperation. simpl. rewrite Herr. eexists. split; [done|].
  pose proof (mreq_wf_len _ Hr) as [Hl _].
  rewrite length_fmap, length_seqZ, Z2Nat.id by lia. split; [done|].
  intros k r Hk. rewrite list_lookup_fmap in Hk.
  destruct (seqZ 0 (mreq_len pins + 1) !! k) as [i|] eqn:E; [|done]. simplify_eq/=.
  apply lookup_seqZ in E as [-> _]. done.
Qed.

Lemma region_false_write wr s :
  within_error_region s (mreq_addr (wreq wr))
    (u64 (mreq_addr (wreq wr) + Z.shiftl 1 (mreq_size (wreq wr)))) = false ->
  mem_req_wf (wreq wr) ->
  within_error_region s (mreq_addr (wreq wr))
    (u64 (mreq_addr (wreq wr) + u32 (Z.shiftl 1 (mreq_size (wreq wr))))) = false.
Proof. intros H Hr. by rewrite bytes_word. Qed.

(** A write that is not atomic, or whose exclusive check passed, to words that were
    accessed before: the memory afterwards. *)
Lemma write_words_request wr m g amo :
  mem_req_wf (wreq wr) -> mem_aligned (wreq wr) -> 0 <= mreq_addr (wreq wr) < 2 ^ 63 ->
  let words := op_words (Z.shiftl 1 (mreq_size (wreq wr))) in
  let wa := Z.shiftr (mreq_addr (wreq wr)) 3 in
  let word := wa mod MEM_NOC_DATA_WORDS in
  (forall w, 0 <= w < words -> is_Some (mem_array_m m !! (wa + w))) ->
  exists m', write_words (Z.to_nat words) 0 wa word amo (wreq_data wr) (wreq_be wr) m g = Some (m', g) /\
    (forall w v, 0 <= w < words -> mem_array_m m !! (wa + w) = Some v ->
       mem_array_m m' !! (wa + w) = Some (written amo (wreq_data wr) (wreq_be wr) (word + w) v)) /\
    (forall a, ~ (wa <= a < wa + words) -> mem_array_m m' !! a = mem_array_m m !! a).
Proof using Hcfg.
  intros Hr Hal Ha words wa word Hin.
  pose proof (aligned_write_fits _ Hr Hal) as Hfit. fold words wa word in Hfit.
  pose proof (mreq_wf_size _ Hr) as [Hz0 Hz1].
  assert (0 < words) by (apply op_words_pos, Z.shiftl_nonneg; lia).
  pose proof (op_words_bound _ (conj Hz0 Hz1)) as Hwb. fold words in Hwb.
  assert (0 <= wa <= mreq_addr (wreq wr)) as Hwa.
  { unfold wa. rewrite Z.shiftr_div_pow2 by lia.
    split; [apply Z.div_pos; lia|apply Z.div_le_upper_bound; lia]. }
  destruct (write_words_spec (Z.to_nat words) 0 wa word amo (wreq_data wr) (wreq_be wr) m g)
    as (m' & H1 & H2 & H3 & _); rewrite ?Z2Nat.id by lia; try lia.
  { intros j Hj. rewrite Z.add_0_r. by apply Hin. }
  rewrite ?Z2Nat.id, Z.add_0_r in * by lia. rewrite Z.add_0_r in H2. exists m'. split_and!; [done|done|].
  done.
Qed.

(** Byte by byte. *)
Lemma byte_of_written data be i v k :
  0 <= i -> 0 <= k < 8 ->
  byte_of (written None data be i v) k =
  if Z.testbit be (8 * i + k) then byte_of data (8 * i + k) else byte_of v k.
Proof.
  intros Hi Hk. unfold written. simpl. rewrite byte_of_merge_be by done.
  by rewrite testbit_noc_be_slice, byte_of_noc_slice by lia.
Qed.

(** The words an access of the request touches are initialised. *)
Definition resident (m : mem_model) (r : mem_req) : Prop :=
  forall w, 0 <= w < op_words (Z.shiftl 1 (mreq_size r)) ->
  is_Some (mem_array_m m !! (Z.shiftr (mreq_addr r) 3 + w)).

(** The request's bytes in memory [m'] are those of [m] updated with the enabled
    bytes of the data bus; the other words are those of [m]. *)
Definition bytes_written (wr : mem_write_req) (m m' : mem_model) : Prop :=
  let words := op_words (Z.shiftl 1 (mreq_size (wreq wr))) in
  let wa := Z.shiftr (mreq_addr (wreq wr)) 3 in
  let word := wa mod MEM_NOC_DATA_WORDS in
  (forall w v, 0 <= w < words -> mem_array_m m !! (wa + w) = Some v ->
     exists v', mem_array_m m' !! (wa + w) = Some v' /\
       forall k, 0 <= k < 8 ->
         byte_of v' k = if Z.testbit (wreq_be wr) (8 * (word + w) + k)
                        then byte_of (wreq_data wr) (8 * (word + w) + k) else byte_of v k) /\
  (forall a, ~ (wa <= a < wa + words) -> mem_array_m m' !! a = mem_array_m m !! a).

Lemma write_bytes_written wr m g :
  mem_req_wf (wreq wr) -> mem_aligned (wreq wr) -> 0 <= mreq_addr (wreq wr) < 2 ^ 63 ->
  resident m (wreq wr) ->
  exists m', write_words (Z.to_nat (op_words (Z.shiftl 1 (mreq_size (wreq wr))))) 0
      (Z.shiftr (mreq_addr (wreq wr)) 3)
      (Z.shiftr (mreq_addr (wreq wr)) 3 mod MEM_NOC_DATA_WORDS) None
      (wreq_data wr) (wreq_be wr) m g = Some (m', g) /\ bytes_written wr m m'.
Proof using Hcfg.
  intros Hr Hal Ha Hin. destruct (write_words_request wr m g None Hr Hal Ha Hin) as (m1 & H1 & H2 & H3).
  exists m1. split; [done|]. split; [|done]. intros w v Hw Hv.
  eexists. split; [by apply H2|]. intros k Hk. apply byte_of_written; [|done].
  pose proof (Z.mod_pos_bound (Z.shiftr (mreq_addr (wreq wr)) 3) _ MEM_NOC_DATA_WORDS_pos). lia.
Qed.

(** C29: A store outside the error segments writes exactly the enabled bytes of its
    words, at the place the data bus carries them, changes nothing else (memory,
    reservations), and is acknowledged without the atomic flag. *)
Theorem write_stores_bytes wr s :
  model_wf s -> mem_req_wf (wreq wr) -> mem_aligned (wreq wr) ->
  0 <= mreq_addr (wreq wr) < 2 ^ 63 -> mreq_command (wreq wr) = HPDCACHE_MEM_WRITE ->
  within_error_region s (mreq_addr (wreq wr))
    (u64 (mreq_addr (wreq wr) + Z.shiftl 1 (mreq_size (wreq wr)))) = false ->
  resident (memory_m s) (wreq wr) ->
  exists s', writeOperation wr s =
      Some ([], {| wresp_is_atomic := false; wresp_error := 0; wresp_id := mreq_id (wreq wr) |}, s') /\
    excl_buf_m s' = excl_buf_m s /\ errorsegs s' = errorsegs s /\
    bytes_written wr (memory_m s) (memory_m s').
Proof using Hcfg.
  intros Hs Hr Hal Ha Hc Herr Hin. apply region_false_write in Herr; [|done].
  destruct (write_bytes_written wr (memory_m s) (mr_rng s) Hr Hal Ha Hin) as (m' & Hw & Hb).
  unfold writeOperation, check_excl, write_is_amo, mem_is_stex. rewrite Herr, Hc. simpl.
  rewrite bytes_word, Hw by done. simpl. eexists. split; [done|]. by split_and!.
Qed.

(** ** Exclusive accesses *)
Definition is_ldex_req (r : mem_req) : Prop :=
  mreq_command r = HPDCACHE_MEM_ATOMIC /\ mreq_atomic r = HPDCACHE_MEM_ATOMIC_LDEX.
Definition is_stex_req (r : mem_req) : Prop :=
  mreq_command r = HPDCACHE_MEM_ATOMIC /\ mreq_atomic r = HPDCACHE_MEM_ATOMIC_STEX.

Lemma stex_flags r : is_stex_req r -> mem_is_stex r = true /\ write_is_amo r = false.
Proof. intros [H1 H2]. unfold mem_is_stex, write_is_amo. by rewrite H1, H2. Qed.

(** C30: A store-exclusive writes its bytes and reports success if and only if its
    identifier holds a reservation that overlaps the bytes it writes; in either case
    the reservation is consumed and the other identifiers' reservations stay. *)
Theorem stex_spec wr s e :
  model_wf s -> mem_req_wf (wreq wr) -> mem_aligned (wreq wr) ->
  0 <= mreq_addr (wreq wr) < 2 ^ 63 -> is_stex_req (wreq wr) ->
  within_error_region s (mreq_addr (wreq wr))
    (u64 (mreq_addr (wreq wr) + Z.shiftl 1 (mreq_size (wreq wr)))) = false ->
  resident (memory_m s) (wreq wr) ->
  excl_buf_m s !! Z.to_nat (mreq_id (wreq wr)) = Some e ->
  let ok := excl_valid e && within_region (mreq_addr (wreq wr))
              (u64 (mreq_addr (wreq wr) + Z.shiftl 1 (mreq_size (wreq wr))))
              (excl_base_addr e) (excl_end_addr e) in
  exists s' e', writeOperation wr s =
      Some ([], {| wresp_is_atomic := ok; wresp_error := 0; wresp_id := mreq_id (wreq wr) |}, s') /\
    excl_buf_m s' = <[Z.to_nat (mreq_id (wreq wr)) := e']> (excl_buf_m s) /\ excl_valid e' = false /\
    (if ok then bytes_written wr (memory_m s) (memory_m s') else memory_m s' = memory_m s).
Proof using Hcfg.
  intros Hs Hr Hal Ha Hst Herr Hin He ok. apply region_false_write in Herr; [|done].
  destruct (stex_flags _ Hst) as [F1 F2].
  destruct (write_bytes_written wr (memory_m s) (mr_rng s) Hr Hal Ha Hin) as (m' & Hw & Hb).
  unfold writeOperation, check_excl. rewrite Herr, F1, F2. rewrite bytes_word in * by done.
  rewrite He. simpl. subst ok. destruct (excl_valid e) eqn:Ev; simpl.
  - destruct (within_region _ _ _ _); simpl.
    + rewrite Hw. simpl. eexists _, _. split; [done|]. by split_and!.
    + eexists _, _. split; [done|]. by split_and!.
  - eexists _, e. split; [done|]. split_and!; [|done|done]. by rewrite list_insert_id.
Qed.

(** A load-exclusive outside the error segments leaves its identifier a valid
    reservation over exactly the bytes it reads, and touches no other reservation. *)
Theorem ldex_reserves pins s :
  model_wf s -> mem_req_wf pins -> is_ldex_req pins ->
  let base := u32 (mreq_addr pins) in
  within_error_region s base (u64 (base + Z.shiftl 1 (mreq_size pins))) = false ->
  exists resps s', readOperation pins s = Some (sample_req pins, resps, s') /\
    excl_buf_m s' = <[Z.to_nat (mreq_id pins) :=
       {| excl_valid := true; excl_base_addr := base;
          excl_end_addr := base + Z.shiftl 1 (mreq_size pins) |}]> (excl_buf_m s).
Proof.
  intros Hs Hr [H1 H2] base Herr. unfold readOperation. simpl. fold base. rewrite Herr.
  assert (mem_is_ldex (sample_req pins) = true) as ->.
  { unfold mem_is_ldex. simpl. by rewrite H1, H2. }
  destruct (excl_lookup s pins Hs) as [e He]; [apply Hr|]. rewrite He. simpl.
  pose proof (mreq_wf_size _ Hr) as [Hz0 Hz1].
  assert (is_word 32 base) as [Hb0 Hb1] by (apply wrap_word; lia).
  rewrite (wrap_small 64 (base + Z.shiftl 1 (mreq_size pins))).
  - destruct (read_beats _ _ _ _ _ _ _) as [[resps m'] g']. eexists _, _. split; [done|]. done.
  - assert (0 < Z.shiftl 1 (mreq_size pins) < 2 ^ 8).
    { rewrite Z.shiftl_mul_pow2, Z.mul_1_l by lia. split; [apply Z.pow_pos_nonneg; lia|].
      apply Z.pow_lt_mono_r; lia. }
    split; lia.
Qed.

(** Two regions overlap in the sense of [within_region] exactly when they share an
    address; and the first error segment that shares an address with an access, in
    the order the segments were added, decides whether the access fails. *)
Theorem error_region_spec s base end_ :
  base < end_ -> Forall (fun g => seg_base_addr g < seg_end_addr g) (errorsegs s) ->
  let meets g := exists x, seg_base_addr g <= x < seg_end_addr g /\ base <= x < end_ in
  within_error_region s base end_ = true <->
  exists i g, errorsegs s !! i = Some g /\ seg_error g = true /\ meets g /\
    forall j h, (j < i)%nat -> errorsegs s !! j = Some h -> ~ meets h.
Proof.
  intros Hb Hsegs meets. unfold within_error_region. induction Hsegs as [|g segs Hg Hsegs IH]; simpl.
  { split; [done|]. intros (i & g & H & _). by rewrite lookup_nil in H. }
  pose proof (within_region_spec _ _ _ _ Hg Hb) as Hm. fold (meets g) in Hm.
  destruct (within_region _ _ _ _) eqn:E.
  - split.
    + intros He. exists 0%nat, g. split_and!; [done|done|by apply Hm|]. intros j h Hj. lia.
    + intros ([|i] & h & Hi & He & Hh & Hfirst); [by simplify_eq/=|].
      exfalso. apply (Hfirst 0%nat g); [lia|done|by apply Hm].
  - rewrite IH. split.
    + intros (i & h & Hi & He & Hh & Hfirst). exists (S i), h. split_and!; [done..|].
      intros [|j] h' Hj Hh'; [simplify_eq/=; rewrite <-Hm; done|]. by apply (Hfirst j); [lia|].
    + intros ([|i] & h & Hi & He & Hh & Hfirst).
      * simplify_eq/=. apply Hm in Hh. done.
      * exists i, h. split_and!; [done..|]. intros j h' Hj Hh'. apply (Hfirst (S j)); [lia|done].
Qed.

(** ** Atomic operations *)

(** A masked update whose byte enable covers [n] bytes from byte [o] on replaces
    that field. *)
Lemma merge_field v x n o :
  0 <= n -> 0 <= o -> o + n <= 8 ->
  merge v x (beToMask (Z.shiftl (Z.ones n) o)) =
  set_range (8 * o + 8 * n - 1) (8 * o) v (range (8 * o + 8 * n - 1) (8 * o) x).
Proof.
  intros Hn Ho Hon. apply Z.bits_inj'. intros i Hi.
  rewrite testbit_merge, testbit_set_range by lia.
  assert (Z.testbit (beToMask (Z.shiftl (Z.ones n) o)) i = (8 * o <=? i) && (i <=? 8 * o + 8 * n - 1)) as ->.
  { destruct (Z.ltb_spec i 64).
    - rewrite testbit_beToMask by lia. pose proof (Z.div_mod i 8 ltac:(lia)).
      pose proof (Z.mod_pos_bound i 8 ltac:(lia)). bits_simpl; done.
    - rewrite (testbit_word 64) by (apply beToMask_word || lia). split_cmps; done. }
  split_cmps; simpl; try done. rewrite testbit_range by lia. split_cmps. simpl. f_equal. lia.
Qed.

(** The operand field of a 64-bit word. *)
Definition field (w off x : Z) : Z := range (off + w - 1) off x.

Lemma field_wrap w off x : 0 <= off -> 0 <= w -> field w off x = wrap w (Z.shiftr x off).
Proof. intros. unfold field. bitwise. Qed.

Lemma field_shiftl w off x : 0 <= off -> 0 <= w -> off + w <= 64 ->
  field w off (u64 (Z.shiftl x off)) = wrap w x.
Proof. intros. unfold field. bitwise. f_equal. lia. Qed.

(** The two operand shapes: a 64-bit word, or one half of it. *)
Definition operand (w off : Z) : Prop := (w = 64 /\ off = 0) \/ (w = 32 /\ (off = 0 \/ off = 32)).

Lemma amo_operation_spec op atop req w v d st :
  mem_atomic_of_op op = Some atop -> op <> HPDCACHE_REQ_AMO_SC -> mreq_atomic req = atop ->
  let off := mreq_addr req mod 8 * 8 in
  operand w off -> is_word 64 v -> is_word 64 d -> is_word w st ->
  field w off d = mem_write_data_of_op w op st ->
  exists l r, amo_operation req (w / 8) v d = Some (l, r) /\ is_word 64 l /\
    field w off l = field w off v /\ Some (field w off r) = amo_spec op w (field w off v) st.
Proof.
  intros Hop Hsc Hat off Hsh Hv Hd Hst Hf.
  assert (w = 32 \/ w = 64) as Hw by (unfold operand in Hsh; lia).
  assert (is_word w (field w off v)) as Hfv.
  { rewrite field_wrap by (unfold operand in Hsh; lia). apply wrap_word. lia. }
  pose proof (mem_compute_amo_spec op w _ st atop Hw Hfv Hst Hsc Hop) as Hspec.
  rewrite <-Hf in Hspec. unfold amo_operation. fold off. rewrite Hat.
  destruct (mem_compute_amo atop (field w off v) (field w off d) (w / 8)) as [x|] eqn:Ex.
  2:{ destruct op; done. }
  simpl in Hspec. rewrite <-Hspec.
  destruct Hsh as [[-> Hoff]|[-> Hoff]]; rewrite ?Hoff in *.
  - change (64 / 8 =? 4) with false. cbv iota beta.
    assert (forall y, is_word 64 y -> field 64 0 y = y) as Hid.
    { intros y Hy. rewrite field_wrap, Z.shiftr_0_r by lia. by apply wrap_small. }
    rewrite !Hid in Ex by done. rewrite Ex. simpl. eexists _, _. split; [done|].
    split_and!; [done|done|]. by rewrite field_wrap, Z.shiftr_0_r by lia.
  - change (32 / 8 =? 4) with true. cbv iota beta.
    rewrite <-!(field_wrap 32 off) by lia. rewrite Ex. simpl.
    assert (is_word 64 (field 32 off v)) as Hfv64 by (unfold is_word in *; lia).
    destruct (Z.eqb_spec off 0) as [E|E]; eexists _, _; (split; [done|]).
    + rewrite E in *. rewrite !(field_wrap 32 0), !Z.shiftr_0_r by lia.
      split_and!; [pose proof (wrap_word 32 v); unfold is_word in *; lia|by rewrite wrap_wrap|done].
    + split_and!; [apply wrap_word; lia| |].
      * rewrite field_shiftl by lia. by apply wrap_small.
      * by rewrite field_shiftl by lia.
Qed.

(** C18: An atomic memory operation, as the cache translates it from the core's: the
    operand field of the memory word becomes what the ISA's operation gives from its
    old value and the core's operand, the rest of the word and every other word
    stay, and the read channel returns the old field. *)
Theorem amo_write_spec op atop wr s w v st :
  model_wf s -> mem_req_wf (wreq wr) -> mem_aligned (wreq wr) ->
  0 <= mreq_addr (wreq wr) < 2 ^ 63 ->
  mreq_command (wreq wr) = HPDCACHE_MEM_ATOMIC -> mreq_atomic (wreq wr) = atop ->
  mem_atomic_of_op op = Some atop -> op <> HPDCACHE_REQ_AMO_SC ->
  Z.shiftl 1 (mreq_size (wreq wr)) = w / 8 ->
  within_error_region s (mreq_addr (wreq wr))
    (u64 (mreq_addr (wreq wr) + Z.shiftl 1 (mreq_size (wreq wr)))) = false ->
  let wa := Z.shiftr (mreq_addr (wreq wr)) 3 in
  let word := wa mod MEM_NOC_DATA_WORDS in
  let off := mreq_addr (wreq wr) mod 8 * 8 in
  operand w off -> is_word w st ->
  mem_array_m (memory_m s) !! wa = Some v ->
  field w off (noc_slice word (wreq_data wr)) = mem_write_data_of_op w op st ->
  noc_be_slice word (wreq_be wr) = Z.shiftl (Z.ones (w / 8)) (mreq_addr (wreq wr) mod 8) ->
  exists rr ack s' r, writeOperation wr s = Some ([rr], ack, s') /\
    amo_spec op w (field w off v) st = Some r /\
    wresp_error ack = 0 /\ rresp_error rr = 0 /\
    field w off (noc_slice word (rresp_data rr)) = field w off v /\
    mem_array_m (memory_m s') !! wa = Some (set_range (off + w - 1) off v r) /\
    forall a, a <> wa -> mem_array_m (memory_m s') !! a = mem_array_m (memory_m s) !! a.
Proof using Hcfg.
  intros Hs Hr Hal Ha Hc Hat Hop Hsc Hsz Herr wa word off Hsh Hst Hv Hd Hbe.
  assert (write_is_amo (wreq wr) = true) as Hia.
  { unfold write_is_amo. rewrite Hc, Hat. destruct op; try done; simpl in Hop; injection Hop as <-; done. }
  pose proof MEM_NOC_DATA_WORDS_pos as HN. pose proof (Z.mod_pos_bound wa _ HN) as Hword. fold word in Hword.
  assert (is_word 64 v) as Hvw by (by apply (proj1 (mr_mem s Hs)) in Hv).
  destruct (amo_operation_spec op atop (wreq wr) w v (noc_slice word (wreq_data wr)) st)
    as (l & r & Ho & Hl & Hfl & Hfr); try done; [apply noc_slice_word; lia|].
  assert (op_words (w / 8) = 1) as Hone.
  { destruct Hsh as [[-> _]|[-> _]]; done. }
  destruct (write_words_request wr (memory_m s) (mr_rng s) (Some r) Hr Hal Ha) as (m' & W1 & W2 & W3).
  { rewrite Hsz, Hone. intros x Hx. assert (x = 0) as -> by lia. rewrite Z.add_0_r. by eexists. }
  rewrite Hsz, Hone in *. fold wa word in W1, W2, W3.
  unfold writeOperation, check_excl. rewrite (bytes_word _ Hr), Hsz.
  rewrite Herr, Hia, (amo_not_stex _ Hia). cbn [mbind option_bind]. fold wa word.
  unfold readMemory. rewrite Hv. cbv iota beta.
  unfold noc_word at 1. destruct (Z.ltb_spec word MEM_NOC_DATA_WORDS); [|lia]. cbn [mbind option_bind].
  rewrite Ho. cbn [mbind option_bind negb orb]. rewrite Hone.
  cbn [memory_m mr_rng set_memory]. rewrite W1. cbn [mbind option_bind].
  eexists _, _, _, _. split; [done|]. split; [by symmetry|]. simpl. split_and!; [done|done| | |].
  - by rewrite noc_slice_same by (done || lia).
  - pose proof (W2 0 v ltac:(lia)) as W2'. rewrite Z.add_0_r in W2'. rewrite (W2' Hv). f_equal.
    unfold written. simpl. rewrite Z.add_0_r, Hbe.
    assert (8 * (w / 8) = w) as Hw8 by (destruct Hsh as [[-> _]|[-> _]]; done).
    rewrite merge_field by (pose proof (Z.mod_pos_bound (mreq_addr (wreq wr)) 8); unfold operand in Hsh; lia).
    rewrite Hw8. unfold field. by replace (8 * (mreq_addr (wreq wr) mod 8)) with off by (unfold off; lia).
  - intros a Hne. apply W3. lia.
Qed.
End Model.

(** ** Witnesses: the default configuration, two resident words, an error segment *)
Definition ex_rng : rng := {| rng_draw := fun n => Z.of_nat n mod 1000; rng_pos := 0 |}.
Definition ex_mem : mem_model :=
  {| mem_array_m := <[512 := 0x1122334455667788]> (<[513 := 7]> ∅);
     init_mode_m := MEM_MODEL_INIT_RANDOM; init_val_m := 0 |}.
Definition ex_model : mem_resp_model :=
  {| errorsegs := [{| seg_base_addr := 0x8000; seg_end_addr := 0x9000; seg_error := true |}];
     memory_m := ex_mem;
     excl_buf_m := replicate 15 {| excl_valid := false; excl_base_addr := 0; excl_end_addr := 0 |}
       ++ [{| excl_valid := true; excl_base_addr := 0x1000; excl_end_addr := 0x1008 |}];
     mr_rng := ex_rng |}.
Definition ex_req (addr size id cmd atop : Z) : mem_req :=
  {| mreq_addr := addr; mreq_len := 0; mreq_size := size; mreq_id := id; mreq_command := cmd;
     mreq_atomic := atop; mreq_cacheable := false |}.
Definition ex_write (addr size id cmd atop data be : Z) : mem_write_req :=
  {| wreq := ex_req addr size id cmd atop; wreq_data := data; wreq_be := be; wreq_last := true |}.

Lemma ex_model_wf : @model_wf default_config ex_model.
Proof.
  split; [split; [|by vm_compute]| |done].
  - apply map_Forall_insert_2; [by vm_compute|]. apply map_Forall_insert_2; [by vm_compute|].
    apply map_Forall_empty.
  - intros n. unfold ex_rng; simpl. split; [apply Z.mod_pos_bound; lia|].
    apply Z.lt_trans with 1000; [apply Z.mod_pos_bound; lia|done].
Qed.

Ltac solve_req := split; vm_compute; intuition discriminate.

Lemma write_answered_witness :
  exists resps ack s', @writeOperation default_config
    (ex_write 0x2008 3 2 HPDCACHE_MEM_ATOMIC HPDCACHE_MEM_ATOMIC_SWAP 0 0) ex_model
      = Some (resps, ack, s') /\ wresp_id ack = 2 /\ length resps = 1%nat.
Proof.
  destruct (@write_answered default_config _
    (ex_write 0x2008 3 2 HPDCACHE_MEM_ATOMIC HPDCACHE_MEM_ATOMIC_SWAP 0 0) ex_model ex_model_wf)
    as (resps & ack & s' & H1 & _ & H2 & H3 & _).
  - split; [solve_req|]. split; [done|]. intros _. vm_compute. intuition discriminate.
  - exists resps, ack, s'. split; [exact H1|]. split; [exact H2|exact H3].
Defined.

Lemma read_returns_memory_witness :
  exists resps s', @readOperation default_config (ex_req 0x1000 4 1 HPDCACHE_MEM_READ 0) ex_model
    = Some (sample_req (ex_req 0x1000 4 1 HPDCACHE_MEM_READ 0), resps, s') /\ length resps = 1%nat.
Proof.
  destruct (@read_returns_memory default_config _ (ex_req 0x1000 4 1 HPDCACHE_MEM_READ 0) ex_model
    ex_model_wf) as (resps & s' & H1 & _ & _ & H2 & _); [solve_req|done|].
  exists resps, s'. split; [exact H1|]. simpl in H2. lia.
Defined.

Lemma read_error_segment_witness :
  exists resps, @readOperation default_config (ex_req 0x8800 3 1 HPDCACHE_MEM_READ 0) ex_model
    = Some (sample_req (ex_req 0x8800 3 1 HPDCACHE_MEM_READ 0), resps, ex_model).
Proof.
  destruct (@read_error_segment default_config (ex_req 0x8800 3 1 HPDCACHE_MEM_READ 0) ex_model)
    as (resps & H1 & _); [solve_req|by vm_compute|]. exists resps. exact H1.
Defined.

Lemma ex_resident addr size id cmd atop :
  addr = 0x1000 -> 0 <= size <= 3 -> resident ex_mem (ex_req addr size id cmd atop).
Proof.
  intros -> Hs w Hw. simpl in Hw. assert (op_words (Z.shiftl 1 size) = 1) as Hone.
  { destruct (op_words_pow size ltac:(lia)) as (k & _ & -> & ->). by rewrite Z.max_l by lia. }
  rewrite Hone in Hw. assert (w = 0) as -> by lia. by eexists.
Qed.

Lemma write_stores_bytes_witness :
  exists s', @writeOperation default_config
    (ex_write 0x1000 3 1 HPDCACHE_MEM_WRITE 0 0xaabb 0x3) ex_model
    = Some ([], {| wresp_is_atomic := false; wresp_error := 0; wresp_id := 1 |}, s') /\
    mem_array_m (memory_m s') !! 512 = Some 0x112233445566aabb.
Proof.
  destruct (@write_stores_bytes default_config _
    (ex_write 0x1000 3 1 HPDCACHE_MEM_WRITE 0 0xaabb 0x3) ex_model ex_model_wf)
    as (s' & H1 & _); [solve_req|done|by simpl|done|done|by apply ex_resident|].
  exists s'. split; [exact H1|]. vm_compute in H1. injection H1 as <-. by vm_compute.
Defined.

Lemma stex_spec_witness :
  exists s', @writeOperation default_config
    (ex_write 0x1000 3 15 HPDCACHE_MEM_ATOMIC HPDCACHE_MEM_ATOMIC_STEX 5 0xff) ex_model
    = Some ([], {| wresp_is_atomic := true; wresp_error := 0; wresp_id := 15 |}, s').
Proof.
  destruct (@stex_spec default_config _
    (ex_write 0x1000 3 15 HPDCACHE_MEM_ATOMIC HPDCACHE_MEM_ATOMIC_STEX 5 0xff) ex_model
    {| excl_valid := true; excl_base_addr := 0x1000; excl_end_addr := 0x1008 |} ex_model_wf)
    as (s' & e' & H1 & _); [solve_req|done|by simpl|done|done|by apply ex_resident|done|].
  exists s'. exact H1.
Defined.

Lemma ldex_reserves_witness :
  exists resps s', @readOperation default_config
    (ex_req 0x1008 3 4 HPDCACHE_MEM_ATOMIC HPDCACHE_MEM_ATOMIC_LDEX) ex_model
    = Some (sample_req (ex_req 0x1008 3 4 HPDCACHE_MEM_ATOMIC HPDCACHE_MEM_ATOMIC_LDEX), resps, s').
Proof.
  destruct (@ldex_reserves default_config
    (ex_req 0x1008 3 4 HPDCACHE_MEM_ATOMIC HPDCACHE_MEM_ATOMIC_LDEX) ex_model ex_model_wf)
    as (resps & s' & H1 & _); [solve_req|done|done|]. exists resps, s'. exact H1.
Defined.

Lemma error_region_spec_witness :
  within_error_region ex_model 0x8ff8 0x9008 = true.
Proof.
  apply (error_region_spec ex_model 0x8ff8 0x9008); [lia|by repeat constructor|].
  exists 0%nat, {| seg_base_addr := 0x8000; seg_end_addr := 0x9000; seg_error := true |}.
  split; [done|]. split; [done|]. split; [exists 0x8ff8; simpl; lia|]. intros j h Hj. lia.
Defined.

Lemma amo_write_spec_witness :
  exists rr ack s', @writeOperation default_config
    (ex_write 0x1004 2 3 HPDCACHE_MEM_ATOMIC HPDCACHE_MEM_ATOMIC_CLR
       (Z.shiftl (wrap 32 (Z.lnot 0xffff0000)) 32) 0xf0) ex_model = Some ([rr], ack, s') /\
    field 32 32 (noc_slice 0 (rresp_data rr)) = 0x11223344 /\
    mem_array_m (memory_m s') !! 512 = Some 0x1122000055667788.
Proof.
  destruct (@amo_write_spec default_config _ HPDCACHE_REQ_AMO_AND HPDCACHE_MEM_ATOMIC_CLR
    (ex_write 0x1004 2 3 HPDCACHE_MEM_ATOMIC HPDCACHE_MEM_ATOMIC_CLR
       (Z.shiftl (wrap 32 (Z.lnot 0xffff0000)) 32) 0xf0) ex_model 32 0x1122334455667788 0xffff0000
    ex_model_wf) as (rr & ack & s' & r & H1 & H2 & _ & _ & H3 & H4 & _);
    [solve_req|done|by simpl|done|done|done|done|done|done|right; split; [done|by right]|done..|].
  exists rr, ack, s'. split; [exact H1|]. split; [exact H3|].
  vm_compute in H2. injection H2 as <-. vm_compute in H4. exact H4.
Defined.
