(* ===== verification/MemProcs.v ===== *)
(** * The processes of the memory response model ([hpdcache_test_mem_resp_model.h])

    The six clocked threads around [readOperation] and [writeOperation], the FIFOs
    between them and the ready/valid handshakes, as a machine with one step per
    clock edge. A thread is the point where it waits; a step runs it from there to
    its next [wait()]. The two threads that take the flits of a write have one
    shape, as have the two that send responses: they are instances of a sink and a
    source. The FIFOs to the scoreboard are always drained, so writing to them does
    not block; what goes there is an output of the step. *)
From S2P Require Import Prelude Defs Transaction MemModel Amo MemResp.

(** [sc_fifo] of the default size, and the two of size 2. *)
Definition WRITE_FIFO_SIZE : nat := 16.
Definition RESP_FIFO_SIZE : nat := 2.
Definition room {A} (size : nat) (fifo : list A) : nat := (size - length fifo)%nat.
Definition has_room {A} (size : nat) (fifo : list A) : bool := (length fifo <? size)%nat.

(** ** A flit sink: [write_address_process], [write_data_process]

    Waiting for [valid]; counting down the delay; with [ready] set, waiting for room
    in the FIFO; with [ready] set, in the last [wait()]. *)
Section Sink.
Context {A : Type}.

Inductive sink_pc := Snk_Idle | Snk_Delay (n : nat) | Snk_Push (r : A) | Snk_Ack.

Definition sink_ready (pc : sink_pc) : bool :=
  match pc with Snk_Push _ | Snk_Ack => true | _ => false end.

(** The flit is sampled when [ready] is set; [nb_write] fails on a full FIFO. *)
Definition sink_set_ready (has_room : bool) (pins : A) : sink_pc * list A :=
  if has_room then (Snk_Ack, [pins]) else (Snk_Push pins, []).
Definition sink_wait (has_room : bool) (pins : A) (n : nat) : sink_pc * list A :=
  match n with O => sink_set_ready has_room pins | S n => (Snk_Delay n, []) end.

(** One edge: the new point of wait and the flit pushed. *)
Definition sink_step (has_room valid : bool) (pins : A) (delay : nat) (pc : sink_pc)
    : sink_pc * list A :=
  match pc with
  | Snk_Idle | Snk_Ack => if valid then sink_wait has_room pins delay else (Snk_Idle, [])
  | Snk_Delay n => sink_wait has_room pins n
  | Snk_Push r => if has_room then (Snk_Ack, [r]) else (Snk_Push r, [])
  end.
End Sink.
Arguments sink_pc : clear implicits.

(** ** A response source: [read_response_process], [write_response_process] *)
Section Source.
Context {A : Type}.

Inductive source_pc := Src_Idle | Src_Delay (n : nat) (r : A) | Src_Valid (r : A).

Definition source_valid (pc : source_pc) : option A :=
  match pc with Src_Valid r => Some r | _ => None end.

(** The delay, then the scoreboard and [valid]. *)
Definition source_wait (n : nat) (r : A) : source_pc * list A :=
  match n with O => (Src_Valid r, [r]) | S n => (Src_Delay n r, []) end.
(** The new point of wait, the number of flits read, what goes to the scoreboard. *)
Definition source_top (fifo : list A) (delay : nat) : source_pc * nat * list A :=
  match fifo with
  | [] => (Src_Idle, O, [])
  | r :: _ => let '(pc, sb) := source_wait delay r in (pc, 1%nat, sb)
  end.
Definition source_step (fifo : list A) (delay : nat) (ready : bool) (pc : source_pc)
    : source_pc * nat * list A :=
  match pc with
  | Src_Idle => source_top fifo delay
  | Src_Delay n r => let '(pc, sb) := source_wait n r in (pc, O, sb)
  | Src_Valid r => if ready then source_top fifo delay else (Src_Valid r, O, [])
  end.
End Source.
Arguments source_pc : clear implicits.

(** [class mem_write_req_data_flit_t] *)
Record mem_write_req_data_flit_t := { df_data : Z; df_be : Z; df_last : bool }.

Section Procs.
Context {cfg : HpdConfig}.

(** ** [read_process] and [readOperation]

    Waiting for [valid]; in the delay; with [ready] set; with a beat the response FIFO
    has no room for: beat [i], [n] beats to come, the address of the next one. *)
Inductive read_pc :=
  | Rd_Idle
  | Rd_Delay (n : nat) (req : mem_req)
  | Rd_Ack (req : mem_req)
  | Rd_Err (n : nat) (i : Z) (req : mem_req)
  | Rd_Push (n : nat) (i : Z) (req : mem_req) (addr : Z) (resp : mem_read_resp).

Definition read_ready (pc : read_pc) : bool := match pc with Rd_Ack _ => true | _ => false end.

(** The top of the loop: the request goes to the scoreboard. *)
Definition read_wait (n : nat) (req : mem_req) : read_pc :=
  match n with O => Rd_Ack req | S n => Rd_Delay n req end.
Definition read_top (valid : bool) (pins : mem_req) (delay : nat) : read_pc * list mem_req :=
  if valid then let req := sample_req pins in (read_wait delay req, [req]) else (Rd_Idle, []).

(** The loop over the beats of an error response, from beat [i]; [k] is the room in
    the FIFO. *)
Fixpoint read_err_loop (n k : nat) (i : Z) (req : mem_req) : option read_pc * list mem_read_resp :=
  match n, k with
  | O, _ => (None, [])
  | S n, O => (Some (Rd_Err n i req), [])
  | S n, S k => let '(pc, l) := read_err_loop n k (i + 1) req in (pc, read_error_resp req i :: l)
  end.

(** The loop over the beats of the memory, from beat [i]. *)
Fixpoint read_loop (n k : nat) (i : Z) (req : mem_req) (addr data : Z) (m : mem_model) (g : rng)
    : option read_pc * list mem_read_resp * mem_model * rng :=
  match n with
  | O => (None, [], m, g)
  | S n =>
      let words := op_words (Z.shiftl 1 (mreq_size req)) in
      let '(data, m, g) := read_words (Z.to_nat words) 0 addr data m g in
      let resp := {| rresp_error := 0; rresp_id := mreq_id req; rresp_data := data;
                     rresp_last := i =? mreq_len req |} in
      let next := u64 (Z.shiftl (Z.shiftr addr 3 + words) 3) in
      match k with
      | O => (Some (Rd_Push n i req next resp), [], m, g)
      | S k =>
          let '(pc, l, m, g) := read_loop n k (i + 1) req next data m g in
          (pc, resp :: l, m, g)
      end
  end.

(** [readOperation] after the acknowledgement. *)
Definition read_start (k : nat) (req : mem_req) (s : mem_resp_model)
    : option (option read_pc * list mem_read_resp * mem_resp_model) :=
  let addr := mreq_addr req in
  let end_addr := u64 (addr + Z.shiftl 1 (mreq_size req)) in
  let beats := Z.to_nat (mreq_len req + 1) in
  if within_error_region s addr end_addr then
    let '(pc, l) := read_err_loop beats k 0 req in Some (pc, l, s)
  else
    s ← (if mem_is_ldex req then
           let id := Z.to_nat (mreq_id req) in
           _ ← excl_buf_m s !! id;
           Some (set_excl id {| excl_valid := true; excl_base_addr := addr;
                                excl_end_addr := u64 (addr + Z.shiftl 1 (mreq_size req)) |} s)
         else Some s);
    let '(pc, l, m, g) := read_loop beats k 0 req addr 0 (memory_m s) (mr_rng s) in
    Some (pc, l, set_memory m g s).

(** One falling edge: the point of wait, the responses queued, the requests sent to
    the scoreboard, the model. An operation that ends goes back to the top at once. *)
Definition read_finish (valid : bool) (pins : mem_req) (delay : nat) (pc : option read_pc)
    : read_pc * list mem_req :=
  match pc with Some pc => (pc, []) | None => read_top valid pins delay end.
Definition read_step (k : nat) (valid : bool) (pins : mem_req) (delay : nat) (pc : read_pc)
    (s : mem_resp_model) : option (read_pc * list mem_read_resp * list mem_req * mem_resp_model) :=
  match pc with
  | Rd_Idle => let '(pc, sb) := read_top valid pins delay in Some (pc, [], sb, s)
  | Rd_Delay n req => Some (read_wait n req, [], [], s)
  | Rd_Ack req =>
      '(pc, l, s) ← read_start k req s;
      let '(pc, sb) := read_finish valid pins delay pc in Some (pc, l, sb, s)
  | Rd_Err n i req =>
      let '(pc, l) := read_err_loop (S n) k i req in
      let '(pc, sb) := read_finish valid pins delay pc in Some (pc, l, sb, s)
  | Rd_Push n i req addr resp =>
      match k with
      | O => Some (pc, [], [], s)
      | S k =>
          let '(pc, l, m, g) :=
            read_loop n k (i + 1) req addr (rresp_data resp) (memory_m s) (mr_rng s) in
          let '(pc, sb) := read_finish valid pins delay pc in
          Some (pc, resp :: l, sb, set_memory m g s)
      end
  end.

(** ** [write_process]

    Waiting for an address flit; for the data flit of [meta]; in the [wait()] before
    the operation; with responses the read FIFO has no room for; with an
    acknowledgement the write FIFO has no room for. *)
Inductive write_pc :=
  | Wp_Meta
  | Wp_Data (meta : mem_req)
  | Wp_Exec (meta : mem_req) (data : mem_write_req_data_flit_t)
  | Wp_PushR (rs : list mem_read_resp) (ack : mem_write_resp)
  | Wp_PushB (ack : mem_write_resp).

(** What a step of the process does to the FIFOs: flits read, responses queued, the
    request sent to the scoreboard. *)
Record write_effect := {
  we_aw : nat; we_w : nat; we_r : list mem_read_resp; we_b : list mem_write_resp;
  we_sb : list mem_write_req;
}.

Definition write_data (meta : mem_req) (w : list mem_write_req_data_flit_t) : write_pc * nat :=
  match w with [] => (Wp_Data meta, O) | d :: _ => (Wp_Exec meta d, 1%nat) end.
(** The top of the loop, after [rs] and [bs] were queued. *)
Definition write_top (aw : list mem_req) (w : list mem_write_req_data_flit_t)
    (rs : list mem_read_resp) (bs : list mem_write_resp) (sb : list mem_write_req)
    : write_pc * write_effect :=
  match aw with
  | [] => (Wp_Meta, {| we_aw := 0; we_w := 0; we_r := rs; we_b := bs; we_sb := sb |})
  | meta :: _ =>
      let '(pc, n) := write_data meta w in
      (pc, {| we_aw := 1; we_w := n; we_r := rs; we_b := bs; we_sb := sb |})
  end.
(** The end of [writeOperation]: the responses of an atomic operation, then the
    acknowledgement; [kr] and [kb] are the room in the FIFOs. *)
Definition write_ack (kb : nat) aw w rs ack sb : write_pc * write_effect :=
  match kb with
  | O => (Wp_PushB ack, {| we_aw := 0; we_w := 0; we_r := rs; we_b := []; we_sb := sb |})
  | S _ => write_top aw w rs [ack] sb
  end.
Definition write_resps (kr kb : nat) aw w rs ack sb : write_pc * write_effect :=
  match drop kr rs with
  | [] => write_ack kb aw w rs ack sb
  | rest => (Wp_PushR rest ack, {| we_aw := 0; we_w := 0; we_r := take kr rs; we_b := []; we_sb := sb |})
  end.

Definition write_step (kr kb : nat) (aw : list mem_req) (w : list mem_write_req_data_flit_t)
    (pc : write_pc) (s : mem_resp_model) : option (write_pc * write_effect * mem_resp_model) :=
  match pc with
  | Wp_Meta => Some (write_top aw w [] [] [], s)
  | Wp_Data meta =>
      let '(pc, n) := write_data meta w in
      Some (pc, {| we_aw := 0; we_w := n; we_r := []; we_b := []; we_sb := [] |}, s)
  | Wp_Exec meta d =>
      '(req, _, (rs, ack, s)) ← write_process meta (df_data d) (df_be d) (df_last d) s;
      Some (write_resps kr kb aw w rs ack [req], s)
  | Wp_PushR rs ack => Some (write_resps kr kb aw w rs ack [], s)
  | Wp_PushB ack => Some (write_ack kb aw w [] ack [], s)
  end.

(** ** The module *)
Record procs := {
  mp_read : read_pc;
  mp_aw : sink_pc mem_req;
  mp_w : sink_pc mem_write_req_data_flit_t;
  mp_write : write_pc;
  mp_rresp : source_pc mem_read_resp;
  mp_bresp : source_pc mem_write_resp;
  read_resp_fifo : list mem_read_resp;
  write_req_fifo : list mem_req;
  write_req_data_fifo : list mem_write_req_data_flit_t;
  write_resp_fifo : list mem_write_resp;
  mp_model : mem_resp_model;
}.

(** The pins the cache drives and the delays drawn, at a falling and a rising edge. *)
Record neg_in := {
  ni_rvalid : bool; ni_raddr : mem_req; ni_rdelay : nat;
  ni_awvalid : bool; ni_aw : mem_req; ni_awdelay : nat;
  ni_wvalid : bool; ni_w : mem_write_req_data_flit_t; ni_wdelay : nat;
}.
Record pos_in := { pi_rready : bool; pi_rdelay : nat; pi_bready : bool; pi_bdelay : nat }.

(** What the threads do at an edge that others can see: flits and responses queued,
    and what is sent to the scoreboard. *)
Record outputs := {
  out_aw : list mem_req; out_w : list mem_write_req_data_flit_t;
  out_rd : list mem_read_resp;              (* queued by [readOperation] *)
  out_wr : list mem_read_resp;              (* queued by [writeOperation] *)
  out_b : list mem_write_resp;
  sb_mem_read_req_o : list mem_req;
  sb_mem_read_resp_o : list mem_read_resp;
  sb_mem_write_req_o : list mem_write_req;
  sb_mem_write_resp_o : list mem_write_resp;
}.

(** A falling edge: the threads that take requests. *)
Definition neg_edge (i : neg_in) (p : procs) : option (procs * outputs) :=
  '(rd, rs, sb, m) ← read_step (room RESP_FIFO_SIZE (read_resp_fifo p)) (ni_rvalid i) (ni_raddr i)
                       (ni_rdelay i) (mp_read p) (mp_model p);
  let '(aw, la) := sink_step (has_room WRITE_FIFO_SIZE (write_req_fifo p)) (ni_awvalid i) (sample_req (ni_aw i))
                     (ni_awdelay i) (mp_aw p) in
  let '(w, lw) := sink_step (has_room WRITE_FIFO_SIZE (write_req_data_fifo p)) (ni_wvalid i) (ni_w i) (ni_wdelay i)
                    (mp_w p) in
  Some ({| mp_read := rd; mp_aw := aw; mp_w := w; mp_write := mp_write p;
           mp_rresp := mp_rresp p; mp_bresp := mp_bresp p;
           read_resp_fifo := read_resp_fifo p ++ rs;
           write_req_fifo := write_req_fifo p ++ la;
           write_req_data_fifo := write_req_data_fifo p ++ lw;
           write_resp_fifo := write_resp_fifo p; mp_model := m |},
        {| out_aw := la; out_w := lw; out_rd := rs; out_wr := []; out_b := [];
           sb_mem_read_req_o := sb; sb_mem_read_resp_o := []; sb_mem_write_req_o := [];
           sb_mem_write_resp_o := [] |}).

(** A rising edge: the write process and the threads that send responses. A FIFO is
    updated after the edge: what is written at this edge is not read at it, nor is
    the room of what is read at it used. *)
Definition pos_edge (i : pos_in) (p : procs) : option (procs * outputs) :=
  '(wp, e, m) ← write_step (room RESP_FIFO_SIZE (read_resp_fifo p))
                  (room RESP_FIFO_SIZE (write_resp_fifo p))
                  (write_req_fifo p) (write_req_data_fifo p) (mp_write p) (mp_model p);
  let '(rr, nr, sr) := source_step (read_resp_fifo p) (pi_rdelay i) (pi_rready i) (mp_rresp p) in
  let '(br, nb, sb) := source_step (write_resp_fifo p) (pi_bdelay i) (pi_bready i) (mp_bresp p) in
  Some ({| mp_read := mp_read p; mp_aw := mp_aw p; mp_w := mp_w p; mp_write := wp;
           mp_rresp := rr; mp_bresp := br;
           read_resp_fifo := drop nr (read_resp_fifo p) ++ we_r e;
           write_req_fifo := drop (we_aw e) (write_req_fifo p);
           write_req_data_fifo := drop (we_w e) (write_req_data_fifo p);
           write_resp_fifo := drop nb (write_resp_fifo p) ++ we_b e; mp_model := m |},
        {| out_aw := []; out_w := []; out_rd := []; out_wr := we_r e; out_b := we_b e;
           sb_mem_read_req_o := []; sb_mem_read_resp_o := sr; sb_mem_write_req_o := we_sb e;
           sb_mem_write_resp_o := sb |}).

Inductive edge := Neg (i : neg_in) | Pos (i : pos_in).
Definition mem_edge (e : edge) (p : procs) : option (procs * outputs) :=
  match e with Neg i => neg_edge i p | Pos i => pos_edge i p end.

Fixpoint mem_run (es : list edge) (p : procs) : option (procs * list outputs) :=
  match es with
  | [] => Some (p, [])
  | e :: es => '(p, o) ← mem_edge e p; '(p, os) ← mem_run es p; Some (p, o :: os)
  end.

Definition procs_init (m : mem_resp_model) : procs := {|
  mp_read := Rd_Idle; mp_aw := Snk_Idle; mp_w := Snk_Idle; mp_write := Wp_Meta;
  mp_rresp := Src_Idle; mp_bresp := Src_Idle;
  read_resp_fifo := []; write_req_fifo := []; write_req_data_fifo := []; write_resp_fifo := [];
  mp_model := m;
|}.
End Procs.
