(* ===== verification/MemProcsProps.v ===== *)
(** * Properties of the memory response processes

    Conservation and order on each channel, over every sequence of clock edges: what
    a channel takes, what the processes still hold and what they executed or sent
    agree at every point of a run. *)
From S2P Require Import Prelude Defs Transaction MemModel Amo MemResp MemProcs.

(** ** The sink and the source *)
Section Channels.
Context {A : Type}.

(** What a source holds between its FIFO and the pins. *)
Definition source_held (pc : source_pc A) : list A :=
  match pc with Src_Delay _ r => [r] | _ => [] end.
Definition on_pins (pc : source_pc A) : list A := option_list (source_valid pc).
(** What the cache takes at a rising edge. *)
Definition source_taken (ready : bool) (pc : source_pc A) : list A :=
  if ready then on_pins pc else [].

Lemma source_step_spec (fifo : list A) delay ready pc pc' n sb :
  source_step fifo delay ready pc = (pc', n, sb) ->
  source_held pc ++ fifo = sb ++ source_held pc' ++ drop n fifo
  /\ on_pins pc ++ sb = source_taken ready pc ++ on_pins pc'.
Proof.
  unfold source_step, source_top, source_wait, source_taken, on_pins.
  destruct pc as [|[|d] r|r], ready, fifo as [|x fifo], delay; intros [= <- <- <-]; simpl;
    rewrite ?drop_0; done.
Qed.

(** A sink seen by the cache: an edge is the room in the FIFO, the pins and the delay;
    the flits pushed, and the flits the cache considers taken at the next rising edge. *)
Record sink_in := { si_room : bool; si_valid : bool; si_pins : A; si_delay : nat }.
Fixpoint sink_run (ins : list sink_in) (pc : sink_pc A) : list A * list A * sink_pc A :=
  match ins with
  | [] => ([], [], pc)
  | i :: ins =>
      let '(pc, push) := sink_step (si_room i) (si_valid i) (si_pins i) (si_delay i) pc in
      let taken := if si_valid i && sink_ready pc then [si_pins i] else [] in
      let '(pushes, takens, pc) := sink_run ins pc in
      (push ++ pushes, taken ++ takens, pc)
  end.

(** The rule of the interface: once raised, [valid] stays until the flit is taken. *)
Fixpoint holds_valid (ins : list sink_in) (pc : sink_pc A) : Prop :=
  match ins with
  | [] => True
  | i :: ins =>
      let pc := (sink_step (si_room i) (si_valid i) (si_pins i) (si_delay i) pc).1 in
      (si_valid i = true -> sink_ready pc = false -> from_option (fun j => si_valid j = true) True (head ins))
      /\ holds_valid ins pc
  end.

Definition sink_waiting (pc : sink_pc A) : bool := match pc with Snk_Delay _ => true | _ => false end.

Lemma sink_run_exact ins pc :
  (forall r, pc <> Snk_Push r) -> Forall (fun i => si_room i = true) ins -> holds_valid ins pc ->
  (sink_waiting pc = true -> from_option (fun i => si_valid i = true) True (head ins)) ->
  let '(pushes, takens, _) := sink_run ins pc in pushes = takens.
Proof.
  revert pc. induction ins as [|[k v pins d] ins IH]; intros pc Hpc Hroom Hv Hw; [done|].
  apply list.Forall_cons in Hroom as [Hk Hroom]. simpl in Hk. subst k. simpl in *.
  destruct Hv as [Hnext Hv].
  destruct (sink_step true v pins d pc) as [pc' push] eqn:Hs. simpl in *.
  assert (push = (if v && sink_ready pc' then [pins] else []) /\ (forall r, pc' <> Snk_Push r)
          /\ (sink_waiting pc' = true -> v = true /\ sink_ready pc' = false)) as (-> & Hpc' & Hw').
  { destruct pc as [|n|r|], v; try (by destruct (Hpc r)); simpl in Hs;
      try (specialize (Hw eq_refl); discriminate);
      unfold sink_wait, sink_set_ready in Hs; repeat case_match; by simplify_eq/=. }
  pose proof (IH pc' Hpc' Hroom Hv) as IH'. destruct (sink_run ins pc') as [[pushes takens] pc''].
  rewrite IH'; [done|]. intros Hw''. destruct (Hw' Hw''); auto.
Qed.

End Channels.
Arguments sink_in : clear implicits.

Section Order.
Context {cfg : HpdConfig}.

(** ** The operations *)
Definition beats (req : mem_req) (i : Z) (n : nat) : list (Z * bool) :=
  (fun j => (mreq_id req, j =? mreq_len req)) <$> seqZ i (Z.of_nat n).
Definition all_beats (req : mem_req) : list (Z * bool) := beats req 0 (Z.to_nat (mreq_len req + 1)).
Definition flag (r : mem_read_resp) : Z * bool := (rresp_id r, rresp_last r).

Lemma beats_S req i n : beats req i (S n) = (mreq_id req, i =? mreq_len req) :: beats req (i + 1) n.
Proof. unfold beats. rewrite seqZ_cons by lia. simpl. do 3 f_equal; lia. Qed.

(** The beats a point of wait of the read process still owes. *)
Definition owed (pc : read_pc) : list (Z * bool) :=
  match pc with
  | Rd_Idle => []
  | Rd_Delay _ req | Rd_Ack req => all_beats req
  | Rd_Err n i req => beats req i (S n)
  | Rd_Push n i req _ resp => beats req i (S n)
  end.
(** A stuck response is the one of its beat. *)
Definition read_pc_ok (pc : read_pc) : Prop :=
  match pc with Rd_Push _ i req _ resp => flag resp = (mreq_id req, i =? mreq_len req) | _ => True end.

Lemma read_err_loop_spec n k i req pc l :
  read_err_loop n k i req = (pc, l) ->
  beats req i n = (flag <$> l) ++ from_option owed [] pc /\ from_option read_pc_ok True pc
  /\ (length l <= k)%nat.
Proof.
  revert k i pc l. induction n as [|n IH]; intros k i pc l; simpl.
  { intros [= <- <-]. split_and!; [done..|simpl; lia]. }
  destruct k as [|k].
  { intros [= <- <-]. split_and!; [done..|simpl; lia]. }
  destruct (read_err_loop n k (i + 1) req) as [pc' l'] eqn:E. intros [= <- <-].
  destruct (IH _ _ _ _ E) as (H1 & H2 & H3). split_and!; [|done|simpl; lia].
  rewrite beats_S, H1. done.
Qed.

Lemma read_loop_spec n k i req addr data m g pc l m' g' :
  read_loop n k i req addr data m g = (pc, l, m', g') ->
  beats req i n = (flag <$> l) ++ from_option owed [] pc /\ from_option read_pc_ok True pc
  /\ (length l <= k)%nat.
Proof.
  revert k i addr data m g pc l m' g'. induction n as [|n IH]; intros k i addr data m g pc l m' g';
    cbn [read_loop].
  { intros [= <- <- <- <-]. split_and!; [done..|simpl; lia]. }
  destruct (read_words _ _ _ _ _ _) as [[data' m1] g1]. destruct k as [|k].
  { intros [= <- <- <- <-]. split_and!; [done..|simpl; lia]. }
  destruct (read_loop n k _ _ _ _ _ _) as [[[pc' l'] m2] g2] eqn:E. intros [= <- <- <- <-].
  destruct (IH _ _ _ _ _ _ _ _ _ _ E) as (H1 & H2 & H3). split_and!; [|done|simpl; lia].
  rewrite beats_S, H1. done.
Qed.

Lemma read_top_spec valid pins delay pc sb :
  read_top valid pins delay = (pc, sb) -> sb ≫= all_beats = owed pc /\ read_pc_ok pc.
Proof.
  unfold read_top, read_wait. destruct valid, delay; intros [= <- <-]; simpl; rewrite ?app_nil_r; done.
Qed.

Lemma read_finish_spec valid pins delay pc pc' sb :
  read_finish valid pins delay pc = (pc', sb) -> from_option read_pc_ok True pc ->
  from_option owed [] pc ++ (sb ≫= all_beats) = owed pc' /\ read_pc_ok pc'.
Proof.
  destruct pc as [pc|]; simpl; [intros [= <- <-] Hok; by rewrite app_nil_r|].
  intros H _. by apply read_top_spec in H.
Qed.

(** One step of the read process: the beats owed are sent or still owed, and it
    queues no more than the FIFO takes. *)
Lemma read_step_spec k valid pins delay pc s pc' l sb s' :
  read_step k valid pins delay pc s = Some (pc', l, sb, s') -> read_pc_ok pc ->
  owed pc ++ (sb ≫= all_beats) = (flag <$> l) ++ owed pc' /\ read_pc_ok pc' /\ (length l <= k)%nat.
Proof.
  intros H Hok. destruct pc as [|n req|req|n i req|n i req addr resp]; cbn [read_step] in H.
  - destruct (read_top valid pins delay) as [pc sb0] eqn:E. simplify_eq.
    apply read_top_spec in E as [H1 H2]. simpl. split_and!; [done..|lia].
  - simplify_eq. unfold read_wait. destruct n; simpl; rewrite app_nil_r; split_and!; try done; lia.
  - destruct (read_start k req s) as [[[pc l0] s0]|] eqn:E; [|done]. simpl in H.
    destruct (read_finish valid pins delay pc) as [pc1 sb1] eqn:F. simplify_eq.
    assert (all_beats req = (flag <$> l) ++ from_option owed [] pc
            /\ from_option read_pc_ok True pc /\ (length l <= k)%nat) as (H1 & H2 & H3).
    { unfold read_start in E. case_match; [|destruct (if mem_is_ldex req then _ else _) as [s1|]; [|done]].
      - destruct (read_err_loop _ _ _ _) as [pc2 l2] eqn:G. simplify_eq. by apply read_err_loop_spec in G.
      - simpl in E. destruct (read_loop _ _ _ _ _ _ _ _) as [[[pc2 l2] m2] g2] eqn:G. simplify_eq.
        by apply read_loop_spec in G. }
    destruct (read_finish_spec _ _ _ _ _ _ F H2) as [H4 H5]. split_and!; [|done|done].
    simpl. by rewrite H1, <-app_assoc, H4.
  - destruct (read_err_loop (S n) k i req) as [pc l0] eqn:E.
    destruct (read_finish valid pins delay pc) as [pc1 sb1] eqn:F. simplify_eq.
    apply read_err_loop_spec in E as (H1 & H2 & H3).
    destruct (read_finish_spec _ _ _ _ _ _ F H2) as [H4 H5]. split_and!; [|done|done].
    unfold owed at 1. by rewrite H1, <-app_assoc, H4.
  - destruct k as [|k].
    { simplify_eq. rewrite app_nil_r. simpl. split_and!; [done..|lia]. }
    destruct (read_loop _ _ _ _ _ _ _ _) as [[[pc l0] m0] g0] eqn:E.
    destruct (read_finish valid pins delay pc) as [pc1 sb1] eqn:F. simplify_eq.
    apply read_loop_spec in E as (H1 & H2 & H3).
    destruct (read_finish_spec _ _ _ _ _ _ F H2) as [H4 H5]. split_and!; [|done|simpl; lia].
    unfold owed at 1. rewrite beats_S, H1. simpl in Hok. simpl. rewrite <-Hok. f_equal.
    by rewrite <-app_assoc, H4.
Qed.

(** ** The write process *)
Definition amo_flag (req : mem_write_req) : list (Z * bool) :=
  if write_is_amo (wreq req) then [(mreq_id (wreq req), true)] else [].
Definition data_flit (req : mem_write_req) : mem_write_req_data_flit_t :=
  {| df_data := wreq_data req; df_be := wreq_be req; df_last := wreq_last req |}.

(** An operation answers with one acknowledgement, and one read response exactly when
    it is atomic. *)
Lemma writeOperation_answers wr s rs ack s' :
  writeOperation wr s = Some (rs, ack, s') ->
  flag <$> rs = amo_flag wr /\ wresp_id ack = mreq_id (wreq wr).
Proof.
  unfold writeOperation, amo_flag. case_match.
  { intros [= <- <- <-]. by case_match. }
  intros H1. destruct (check_excl _ _ _ _) as [[ok s1]|]; [|done]. simpl in H1.
  destruct (write_is_amo (wreq wr)) eqn:Ha.
  - assert (mem_is_stex (wreq wr) = false) as Hst.
    { unfold write_is_amo, mem_is_stex in *. destruct (mreq_command _ =? _), (mreq_atomic _ =? _); done. }
    rewrite Hst in H1. simpl in H1.
    destruct (readMemory _ _ _) as [[ld m] g]. destruct (noc_word _ _) as [st|]; [|done]. simpl in H1.
    destruct (amo_operation _ _ _ _) as [[ld' res]|]; [|done]. simpl in H1.
    destruct (write_words _ _ _ _ _ _ _ _ _) as [[m' g']|]; [|done]. by simplify_eq/=.
  - simpl in H1. destruct (negb _ || _); simpl in H1.
    + destruct (write_words _ _ _ _ _ _ _ _ _) as [[m g]|]; [|done]. by simplify_eq/=.
    + by simplify_eq/=.
Qed.

(** The flits the process took and has not executed, and the answers it still owes. *)
Definition wp_meta (pc : write_pc) : list mem_req :=
  match pc with Wp_Data m | Wp_Exec m _ => [m] | _ => [] end.
Definition wp_data (pc : write_pc) : list mem_write_req_data_flit_t :=
  match pc with Wp_Exec _ d => [d] | _ => [] end.
Definition wp_resps (pc : write_pc) : list mem_read_resp :=
  match pc with Wp_PushR rs _ => rs | _ => [] end.
Definition wp_ack (pc : write_pc) : list mem_write_resp :=
  match pc with Wp_PushR _ b | Wp_PushB b => [b] | _ => [] end.

Definition sampled (m : mem_req) : Prop := sample_req m = m.
Lemma sample_sampled m : sampled (sample_req m).
Proof. unfold sampled, sample_req. simpl. by rewrite wrap_wrap. Qed.

Lemma write_top_spec aw w rs bs sb pc e :
  write_top aw w rs bs sb = (pc, e) ->
  wp_meta pc ++ drop (we_aw e) aw = aw /\ wp_data pc ++ drop (we_w e) w = w
  /\ we_r e = rs /\ we_b e = bs /\ we_sb e = sb /\ wp_resps pc = [] /\ wp_ack pc = [].
Proof.
  unfold write_top, write_data. destruct aw as [|m aw]; [|destruct w as [|d w]];
    intros [= <- <-]; simpl; by rewrite ?drop_0.
Qed.

Lemma write_ack_spec kb aw w rs ack sb pc e :
  write_ack kb aw w rs ack sb = (pc, e) ->
  wp_meta pc ++ drop (we_aw e) aw = aw /\ wp_data pc ++ drop (we_w e) w = w
  /\ we_r e = rs /\ we_sb e = sb /\ wp_resps pc = [] /\ we_b e ++ wp_ack pc = [ack]
  /\ (length (we_b e) <= kb)%nat.
Proof.
  unfold write_ack. destruct kb as [|kb].
  - intros [= <- <-]. simpl. by rewrite !drop_0.
  - intros H. apply write_top_spec in H as (H1 & H2 & H3 & -> & H5 & H6 & ->). simpl.
    split_and!; try done. lia.
Qed.

Lemma write_resps_spec kr kb aw w rs ack sb pc e :
  write_resps kr kb aw w rs ack sb = (pc, e) ->
  wp_meta pc ++ drop (we_aw e) aw = aw /\ wp_data pc ++ drop (we_w e) w = w
  /\ we_r e ++ wp_resps pc = rs /\ we_sb e = sb /\ we_b e ++ wp_ack pc = [ack]
  /\ (length (we_r e) <= kr)%nat /\ (length (we_b e) <= kb)%nat.
Proof.
  unfold write_resps. destruct (drop kr rs) as [|r rest] eqn:E.
  - intros H. apply write_ack_spec in H as (H1 & H2 & -> & H4 & -> & H6 & H7).
    rewrite app_nil_r. split_and!; try done.
    apply (f_equal length) in E. rewrite length_drop in E. simpl in E. lia.
  - intros [= <- <-]. simpl. rewrite !drop_0, <-E, take_drop, length_take. split_and!; try done; lia.
Qed.

Lemma write_step_spec kr kb aw w pc s pc' e s' :
  write_step kr kb aw w pc s = Some (pc', e, s') ->
  Forall sampled (wp_meta pc) ->
  wp_meta pc ++ aw = (wreq <$> we_sb e) ++ wp_meta pc' ++ drop (we_aw e) aw
  /\ wp_data pc ++ w = (data_flit <$> we_sb e) ++ wp_data pc' ++ drop (we_w e) w
  /\ (flag <$> wp_resps pc) ++ (we_sb e ≫= amo_flag) = (flag <$> we_r e) ++ (flag <$> wp_resps pc')
  /\ (wresp_id <$> wp_ack pc) ++ (mreq_id ∘ wreq <$> we_sb e)
     = (wresp_id <$> we_b e) ++ (wresp_id <$> wp_ack pc')
  /\ (length (we_r e) <= kr)%nat /\ (length (we_b e) <= kb)%nat.
Proof.
  intros H Hs. destruct pc as [|m|m d|rs ack|ack]; cbn [write_step] in H.
  - injection H as H <-. apply write_top_spec in H as (H1 & H2 & -> & -> & -> & -> & ->). simpl.
    rewrite H1, H2. split_and!; try done; lia.
  - unfold write_data in H. destruct w as [|d w]; simplify_eq/=; rewrite ?drop_0; split_and!; try done; lia.
  - destruct (write_process m _ _ _ s) as [[[req b] [[rs ack] s1]]|] eqn:E; [|done]. simpl in H.
    injection H as H <-. unfold write_process in E.
    destruct (writeOperation _ s) as [[[rs1 ack1] s2]|] eqn:W; [|done]. simplify_eq/=.
    apply writeOperation_answers in W as [HR HA]. simpl in HR, HA.
    apply write_resps_spec in H as (H1 & H2 & H3 & -> & H5 & H6 & H7). simpl.
    rewrite H1, H2, app_nil_r. apply list.Forall_cons in Hs as [Hm _].
    assert (data_flit {| wreq := sample_req m; wreq_data := df_data d; wreq_be := df_be d;
                         wreq_last := df_last d |} = d) as -> by (by destruct d).
    rewrite Hm, <-!fmap_app, H3, H5. split_and!; try done; simpl.
    by rewrite HA.
  - injection H as H <-. apply write_resps_spec in H as (H1 & H2 & H3 & -> & H5 & H6 & H7). simpl.
    rewrite H1, H2, !app_nil_r, <-!fmap_app, H3, H5. done.
  - injection H as H <-. apply write_ack_spec in H as (H1 & H2 & -> & -> & -> & H6 & H7). simpl.
    rewrite H1, H2, <-?fmap_app, H6, ?app_nil_r. split_and!; try done. lia.
Qed.

(** ** The invariant of a run

    [os] is what the edges so far put out, [rt] and [bt] what the cache took on the
    response channels. *)
Notation gather f os := (os ≫= f).
Definition queued_r (o : outputs) : list mem_read_resp := out_rd o ++ out_wr o.

Record mem_inv (os : list outputs) (rt : list mem_read_resp) (bt : list mem_write_resp) (p : procs)
    : Prop := {
  mi_aw : gather out_aw os
          = (wreq <$> gather sb_mem_write_req_o os) ++ wp_meta (mp_write p) ++ write_req_fifo p;
  mi_w : gather out_w os
         = (data_flit <$> gather sb_mem_write_req_o os) ++ wp_data (mp_write p) ++ write_req_data_fifo p;
  mi_sampled : Forall sampled (gather out_aw os);
  mi_push_aw : forall r, mp_aw p = Snk_Push r -> sampled r;
  mi_read : gather sb_mem_read_req_o os ≫= all_beats
            = (flag <$> gather out_rd os) ++ owed (mp_read p);
  mi_read_pc : read_pc_ok (mp_read p);
  mi_amo : gather sb_mem_write_req_o os ≫= amo_flag
           = (flag <$> gather out_wr os) ++ (flag <$> wp_resps (mp_write p));
  mi_ack : mreq_id ∘ wreq <$> gather sb_mem_write_req_o os
           = (wresp_id <$> gather out_b os) ++ (wresp_id <$> wp_ack (mp_write p));
  mi_r : gather queued_r os
         = rt ++ on_pins (mp_rresp p) ++ source_held (mp_rresp p) ++ read_resp_fifo p;
  mi_b : gather out_b os
         = bt ++ on_pins (mp_bresp p) ++ source_held (mp_bresp p) ++ write_resp_fifo p;
  mi_rsb : gather sb_mem_read_resp_o os = rt ++ on_pins (mp_rresp p);
  mi_bsb : gather sb_mem_write_resp_o os = bt ++ on_pins (mp_bresp p);
  mi_size : (length (write_req_fifo p) <= WRITE_FIFO_SIZE /\ length (write_req_data_fifo p) <= WRITE_FIFO_SIZE
             /\ length (read_resp_fifo p) <= RESP_FIFO_SIZE /\ length (write_resp_fifo p) <= RESP_FIFO_SIZE)%nat;
}.

(** What the cache takes at an edge. *)
Definition r_taken (e : edge) (p : procs) : list mem_read_resp :=
  match e with Pos i => source_taken (pi_rready i) (mp_rresp p) | Neg _ => [] end.
Definition b_taken (e : edge) (p : procs) : list mem_write_resp :=
  match e with Pos i => source_taken (pi_bready i) (mp_bresp p) | Neg _ => [] end.

Lemma sink_step_size {A} size (fifo : list A) valid pins delay pc pc' l :
  sink_step (has_room size fifo) valid pins delay pc = (pc', l) ->
  (length fifo <= size)%nat -> (length (fifo ++ l) <= size)%nat.
Proof.
  unfold sink_step, sink_wait, sink_set_ready, has_room. intros H Hs. rewrite length_app.
  destruct (Nat.ltb_spec (length fifo) size); repeat case_match; simplify_eq/=; lia.
Qed.

Lemma sink_step_sampled k v pins d pc pc' l :
  sink_step k v (sample_req pins) d pc = (pc', l) -> (forall r, pc = Snk_Push r -> sampled r) ->
  Forall sampled l /\ (forall r, pc' = Snk_Push r -> sampled r).
Proof.
  intros H Hp. pose proof (sample_sampled pins).
  destruct pc as [|[|n]|r|], v, k, d; simpl in H; simplify_eq; split; try done;
    try (by intros r' [= <-]); try (by repeat constructor); by repeat constructor; apply Hp.
Qed.

Lemma mem_inv_neg os rt bt p i p' o :
  mem_inv os rt bt p -> neg_edge i p = Some (p', o) -> mem_inv (os ++ [o]) rt bt p'.
Proof.
  intros [Haw Hw Hs Hps Hrd Hrpc Hamo Hack Hr Hb Hrsb Hbsb (S1 & S2 & S3 & S4)] H. unfold neg_edge in H.
  destruct (read_step _ _ _ _ _ _) as [[[[rd rs] sb] m]|] eqn:R; [|done]. simpl in H.
  destruct (sink_step _ _ (sample_req _) _ _) as [aw la] eqn:A. destruct (sink_step _ _ (ni_w i) _ _) as [w lw] eqn:W.
  simplify_eq. destruct (read_step_spec _ _ _ _ _ _ _ _ _ _ R Hrpc) as (R1 & R2 & R3).
  destruct (sink_step_sampled _ _ _ _ _ _ _ A Hps) as [A1 A2].
  constructor; simpl; rewrite ?bind_app; simpl; rewrite ?app_nil_r; try done.
  - by rewrite Haw, <-!app_assoc.
  - by rewrite Hw, <-!app_assoc.
  - apply Forall_app. done.
  - rewrite fmap_app, <-app_assoc, <-R1, app_assoc, <-Hrd. done.
  - unfold queued_r at 2. simpl. by rewrite Hr, app_nil_r, <-!app_assoc.
  - split_and!; [by eapply sink_step_size..| |done]. unfold room in R3. rewrite length_app. lia.
Qed.

Lemma mem_inv_pos os rt bt p i p' o :
  mem_inv os rt bt p -> pos_edge i p = Some (p', o) ->
  mem_inv (os ++ [o]) (rt ++ r_taken (Pos i) p) (bt ++ b_taken (Pos i) p) p'.
Proof.
  intros [Haw Hw Hs Hps Hrd Hrpc Hamo Hack Hr Hb Hrsb Hbsb (S1 & S2 & S3 & S4)] H. unfold pos_edge in H.
  destruct (write_step _ _ _ _ _ _) as [[[wp e] m]|] eqn:E; [|done]. simpl in H.
  destruct (source_step (read_resp_fifo p) _ _ _) as [[rr nr] sr] eqn:R.
  destruct (source_step (write_resp_fifo p) _ _ _) as [[br nb] sb] eqn:B. simplify_eq.
  apply source_step_spec in R as [R1 R2]. apply source_step_spec in B as [B1 B2].
  apply write_step_spec in E as (E1 & E2 & E3 & E4 & E5 & E6).
  2: { rewrite Haw in Hs. apply Forall_app in Hs as [_ Hs]. by apply Forall_app in Hs as [Hs _]. }
  unfold room in *. constructor; simpl; rewrite ?bind_app; simpl; rewrite ?app_nil_r; try done.
  - by rewrite Haw, E1, fmap_app, <-!app_assoc.
  - by rewrite Hw, E2, fmap_app, <-!app_assoc.
  - by rewrite Hamo, fmap_app, <-!app_assoc, E3.
  - by rewrite !fmap_app, Hack, <-!app_assoc, E4.
  - unfold queued_r at 2. simpl. rewrite Hr, ?app_nil_r, R1, <-!app_assoc.
    rewrite (app_assoc (on_pins (mp_rresp p))), R2, <-!app_assoc. done.
  - rewrite Hb, B1, <-!app_assoc. rewrite (app_assoc (on_pins (mp_bresp p))), B2, <-!app_assoc. done.
  - by rewrite Hrsb, <-!app_assoc, R2.
  - by rewrite Hbsb, <-!app_assoc, B2.
  - rewrite !length_app, !length_drop. split_and!; lia.
Qed.

(** What the cache takes over a run. *)
Fixpoint taken_over (es : list edge) (p : procs) : list mem_read_resp * list mem_write_resp :=
  match es with
  | [] => ([], [])
  | e :: es =>
      match mem_edge e p with
      | Some (p', _) =>
          let '(rt, bt) := taken_over es p' in (r_taken e p ++ rt, b_taken e p ++ bt)
      | None => ([], [])
      end
  end.

Lemma mem_run_inv es os rt bt p p' os' :
  mem_inv os rt bt p -> mem_run es p = Some (p', os') ->
  mem_inv (os ++ os') (rt ++ (taken_over es p).1) (bt ++ (taken_over es p).2) p'.
Proof.
  revert os rt bt p os'. induction es as [|e es IH]; intros os rt bt p os' Hi H; simpl in *.
  { simplify_eq. by rewrite !app_nil_r. }
  destruct (mem_edge e p) as [[p1 o]|] eqn:E; [|done]. simpl in H.
  destruct (mem_run es p1) as [[p2 os2]|] eqn:R; [|done]. simplify_eq/=.
  assert (mem_inv (os ++ [o]) (rt ++ r_taken e p) (bt ++ b_taken e p) p1) as Hi1.
  { destruct e; [|by eapply mem_inv_pos]. rewrite !app_nil_r. by eapply mem_inv_neg. }
  specialize (IH _ _ _ _ _ Hi1 R). destruct (taken_over es p1) as [rt' bt']. simpl in *.
  by rewrite <-!app_assoc in IH.
Qed.

Lemma procs_init_inv m : mem_inv [] [] [] (procs_init m).
Proof. constructor; simpl; try done. unfold WRITE_FIFO_SIZE, RESP_FIFO_SIZE. lia. Qed.

(** The edges of a run as the two sinks of the write channels see them. *)
Definition aw_in (i : neg_in) (p : procs) : sink_in mem_req :=
  {| si_room := has_room WRITE_FIFO_SIZE (write_req_fifo p); si_valid := ni_awvalid i;
     si_pins := sample_req (ni_aw i); si_delay := ni_awdelay i |}.
Definition w_in (i : neg_in) (p : procs) : sink_in mem_write_req_data_flit_t :=
  {| si_room := has_room WRITE_FIFO_SIZE (write_req_data_fifo p); si_valid := ni_wvalid i;
     si_pins := ni_w i; si_delay := ni_wdelay i |}.
Fixpoint ins_over {A} (f : neg_in -> procs -> sink_in A) (es : list edge) (p : procs) : list (sink_in A) :=
  match es with
  | [] => []
  | e :: es =>
      match e with Neg i => [f i p] | Pos _ => [] end ++
      match mem_edge e p with Some (p', _) => ins_over f es p' | None => [] end
  end.

(** What a sink pushed into its FIFO over a run, and what the cache sent on its channel:
    the flits it gave with [valid] and [ready] set. *)
Definition pushed {A} (r : list A * list A * sink_pc A) : list A := r.1.1.
Definition sent {A} (r : list A * list A * sink_pc A) : list A := r.1.2.
Definition aw_channel (es : list edge) (p : procs) := sink_run (ins_over aw_in es p) (mp_aw p).
Definition w_channel (es : list edge) (p : procs) := sink_run (ins_over w_in es p) (mp_w p).

Lemma pushed_cons {A} (i : sink_in A) ins pc :
  pushed (sink_run (i :: ins) pc) =
    (sink_step (si_room i) (si_valid i) (si_pins i) (si_delay i) pc).2 ++
    pushed (sink_run ins (sink_step (si_room i) (si_valid i) (si_pins i) (si_delay i) pc).1).
Proof.
  cbn [sink_run]. destruct (sink_step _ _ _ _ _) as [pc' l]. simpl.
  by destruct (sink_run ins pc') as [[] ?].
Qed.

Lemma run_pushes es : forall p p' os,
  mem_run es p = Some (p', os) ->
  pushed (aw_channel es p) = gather out_aw os /\ pushed (w_channel es p) = gather out_w os.
Proof.
  induction es as [|e es IH]; intros p p' os H; simpl in H; [by simplify_eq|].
  destruct (mem_edge e p) as [[p1 o]|] eqn:E; [|done]. simpl in H.
  destruct (mem_run es p1) as [[p2 os2]|] eqn:R; [|done]. simplify_eq/=.
  destruct (IH _ _ _ R) as [<- <-]. unfold aw_channel, w_channel. cbn [ins_over]. rewrite E.
  destruct e as [i|i]; simpl in E.
  - unfold neg_edge in E. destruct (read_step _ _ _ _ _ _) as [[[[rd rs] sb] m]|]; [|done]. simpl in E.
    destruct (sink_step _ _ (sample_req _) _ _) as [aw la] eqn:A.
    destruct (sink_step _ _ (ni_w i) _ _) as [w lw] eqn:W. simplify_eq.
    cbn [app]. rewrite !pushed_cons. simpl. by rewrite A, W.
  - unfold pos_edge in E. destruct (write_step _ _ _ _ _ _) as [[[wp ef] m]|]; [|done]. simpl in E.
    destruct (source_step (read_resp_fifo p) _ _ _) as [[rr nr] sr].
    destruct (source_step (write_resp_fifo p) _ _ _) as [[br nb] sb]. by simplify_eq.
Qed.

(** A channel on which no flit is lost: its FIFO has room at each falling edge, and the
    cache keeps [valid] until its flit is taken. *)
Definition lossless {A} (ins : list (sink_in A)) : Prop :=
  Forall (fun i => si_room i = true) ins /\ holds_valid ins Snk_Idle.

Lemma lossless_sent {A} (ins : list (sink_in A)) :
  lossless ins -> pushed (sink_run ins Snk_Idle) = sent (sink_run ins Snk_Idle).
Proof.
  intros [Hr Hv]. pose proof (sink_run_exact ins Snk_Idle) as H. unfold pushed, sent.
  destruct (sink_run ins Snk_Idle) as [[] ?]. by apply H.
Qed.

(** C14: Over any run of the processes, the flits pushed into the two FIFOs of the write channels are executed in order: the address flits pushed are the addresses of the writes executed, then the one the write process holds and those in its FIFO, the data flits likewise, so that the n-th write executed pairs the n-th address with the n-th data; each is acknowledged once, under its identifier, in the order of execution; and the FIFOs stay within their 16 entries. The flits pushed are those the cache sent on the channel, in order, none lost or repeated, when the FIFO has room at each falling edge and the cache keeps valid until its flit is taken; a FIFO found full loses flits. *)
Theorem mem_writes_in_order m es p os :
  mem_run es (procs_init m) = Some (p, os) ->
  let executed := gather sb_mem_write_req_o os in
  let aw := aw_channel es (procs_init m) in
  let w := w_channel es (procs_init m) in
  pushed aw = (wreq <$> executed) ++ wp_meta (mp_write p) ++ write_req_fifo p
  /\ pushed w = (data_flit <$> executed) ++ wp_data (mp_write p) ++ write_req_data_fifo p
  /\ (lossless (ins_over aw_in es (procs_init m)) -> pushed aw = sent aw)
  /\ (lossless (ins_over w_in es (procs_init m)) -> pushed w = sent w)
  /\ mreq_id ∘ wreq <$> executed
     = wresp_id <$> (taken_over es (procs_init m)).2 ++ on_pins (mp_bresp p)
         ++ source_held (mp_bresp p) ++ write_resp_fifo p ++ wp_ack (mp_write p)
  /\ (length (write_req_fifo p) <= WRITE_FIFO_SIZE /\ length (write_req_data_fifo p) <= WRITE_FIFO_SIZE)%nat.
Proof.
  intros H. destruct (run_pushes _ _ _ _ H) as [Ha Hd].
  destruct (mem_run_inv _ _ _ _ _ _ _ (procs_init_inv m) H)
    as [Haw Hw _ _ _ _ _ Hack _ Hb _ _ (S1 & S2 & _)].
  simpl in *. split_and!; rewrite ?Ha, ?Hd; try done.
  - intros Hl. rewrite <- Ha. by apply lossless_sent.
  - intros Hl. rewrite <- Hd. by apply lossless_sent.
  - rewrite Hack, Hb, <-fmap_app, <-!app_assoc. done.
Qed.

(** C20: Over any run, each read is answered by its beats, in order, with [last] on the last one only, and each atomic operation by one read response; what was queued is what the cache took, what is on the pins and what the processes still hold, in this order, and the scoreboard saw the same responses as the pins. *)
Theorem mem_reads_in_order m es p os :
  mem_run es (procs_init m) = Some (p, os) ->
  let taken := (taken_over es (procs_init m)).1 in
  gather sb_mem_read_req_o os ≫= all_beats = (flag <$> gather out_rd os) ++ owed (mp_read p)
  /\ gather sb_mem_write_req_o os ≫= amo_flag
     = (flag <$> gather out_wr os) ++ (flag <$> wp_resps (mp_write p))
  /\ gather queued_r os
     = taken ++ on_pins (mp_rresp p) ++ source_held (mp_rresp p) ++ read_resp_fifo p
  /\ gather sb_mem_read_resp_o os = taken ++ on_pins (mp_rresp p)
  /\ (length (read_resp_fifo p) <= RESP_FIFO_SIZE)%nat.
Proof.
  intros H. by destruct (mem_run_inv _ _ _ _ _ _ _ (procs_init_inv m) H)
    as [_ _ _ _ Hrd _ Hamo _ Hr _ Hrsb _ (_ & _ & S3 & _)].
Qed.

(** ** The read thread and [readOperation] *)

(** The steps of the read process from a point of wait, with the room [ks] it finds at
    each edge, until it is back at the top; no write comes in between. *)
Fixpoint read_feed (pins : mem_req) (ks : list nat) (pc : read_pc) (s : mem_resp_model)
    : option (read_pc * list mem_read_resp * mem_resp_model) :=
  match pc, ks with
  | Rd_Idle, _ | _, [] => Some (pc, [], s)
  | _, k :: ks =>
      '(pc, l, _, s) ← read_step k false pins 0 pc s;
      '(pc, l', s) ← read_feed pins ks pc s;
      Some (pc, l ++ l', s)
  end.

(** The loop, stopped after [k] beats, against the uninterrupted one. *)
Lemma read_loop_split n k i req addr data m g resps m' g' :
  read_beats n i req addr data m g = (resps, m', g') ->
  (n <= k /\ read_loop n k i req addr data m g = (None, resps, m', g'))%nat
  \/ (k < n)%nat /\ exists next r m1 g1 rest,
       read_loop n k i req addr data m g
       = (Some (Rd_Push (n - k - 1) (i + Z.of_nat k) req next r), take k resps, m1, g1)
       /\ resps = take k resps ++ r :: rest
       /\ read_beats (n - k - 1) (i + Z.of_nat k + 1) req next (rresp_data r) m1 g1 = (rest, m', g').
Proof.
  revert k i addr data m g resps. induction n as [|n IH]; intros k i addr data m g resps;
    cbn [read_loop read_beats].
  { intros [= <- <- <-]. left. split; [lia|done]. }
  destruct (read_words _ _ _ _ _ _) as [[data1 m1] g1] eqn:E1.
  destruct (read_beats n _ _ _ _ _ _) as [[resps1 m2] g2] eqn:E2. intros [= <- <- <-].
  destruct k as [|k].
  - right. split; [lia|]. do 5 eexists. split_and!; [|done|].
    + rewrite Nat.sub_0_r. simpl. rewrite Nat.sub_0_r, Z.add_0_r. reflexivity.
    + simpl. by rewrite !Nat.sub_0_r, Z.add_0_r.
  - destruct (IH k _ _ _ _ _ _ E2) as [[Hle ->]|(Hlt & next & r & m3 & g3 & rest & -> & Heq & Hrest)].
    + left. split; [lia|done].
    + right. split; [lia|]. do 5 eexists. split_and!.
      * replace (i + Z.of_nat (S k)) with (i + 1 + Z.of_nat k) by lia. reflexivity.
      * simpl. by rewrite <-Heq.
      * by replace (i + Z.of_nat (S k)) with (i + 1 + Z.of_nat k) by lia.
Qed.

Lemma read_err_loop_split n k i req :
  let all := read_error_resp req <$> seqZ i (Z.of_nat n) in
  (n <= k /\ read_err_loop n k i req = (None, all))%nat
  \/ (k < n)%nat /\ read_err_loop n k i req
       = (Some (Rd_Err (n - k - 1) (i + Z.of_nat k) req), take k all)
     /\ all = take k all ++ (read_error_resp req <$> seqZ (i + Z.of_nat k) (Z.of_nat (n - k))).
Proof.
  revert k i. induction n as [|n IH]; intros k i all; subst all; [left; split; [lia|done]|].
  rewrite seqZ_cons by lia. replace (Z.pred (Z.of_nat (S n))) with (Z.of_nat n) by lia.
  destruct k as [|k]; cbn [read_err_loop].
  - right. split; [lia|]. replace (S n - 0 - 1)%nat with n by lia. rewrite Nat.sub_0_r, Z.add_0_r.
    split; [done|]. rewrite (seqZ_cons i (Z.of_nat (S n))) by lia.
    by replace (Z.pred (Z.of_nat (S n))) with (Z.of_nat n) by lia.
  - destruct (IH k (Z.succ i)) as [[Hle E]|(Hlt & E & Heq)]; fold (Z.succ i); rewrite E.
    + left. split; [lia|done].
    + right. split; [lia|]. replace (i + Z.of_nat (S k)) with (Z.succ i + Z.of_nat k) by lia.
      split; [done|]. exact (f_equal (cons _) Heq).
Qed.

Lemma read_feed_idle pins ks s : read_feed pins ks Rd_Idle s = Some (Rd_Idle, [], s).
Proof. by destruct ks. Qed.

(** How many of the edges find room. *)
Definition rooms (ks : list nat) : nat := length (List.filter (fun k => (0 <? k)%nat) ks).

Lemma rooms_after k ks n :
  (k < n)%nat -> (n <= rooms (k :: ks))%nat -> (n - k <= rooms ks)%nat.
Proof.
  destruct k as [|k]; [change (rooms (O :: ks)) with (rooms ks)|
    change (rooms (S k :: ks)) with (S (rooms ks))]; lia.
Qed.

(** The outcome of a piece of the operation that owes [n] beats, the responses [resps],
    and leaves [s']: what is queued is always a beginning of [resps], it is all of them
    when the thread is back at the top, and it gets there by [n] edges with room. *)
Definition feeds (n : nat) (resps : list mem_read_resp) (s' : mem_resp_model) (ks : list nat)
    (out : option (read_pc * list mem_read_resp * mem_resp_model)) : Prop :=
  exists pc l s1, out = Some (pc, l, s1) /\ l `prefix_of` resps
    /\ (pc = Rd_Idle -> l = resps /\ s1 = s') /\ ((n <= rooms ks)%nat -> pc = Rd_Idle).

Lemma feeds_app n n' k ks pre rest s' out :
  feeds n' rest s' ks out -> (n <= rooms (k :: ks) -> n' <= rooms ks)%nat ->
  feeds n (pre ++ rest) s' (k :: ks) ('(pc, l, s) ← out; Some (pc, pre ++ l, s)).
Proof.
  intros (pc & l & s1 & -> & Hl & Hd & Hn) Hle. exists pc, (pre ++ l), s1. simpl.
  split_and!; [done|by apply prefix_app| |by auto]. intros E. by destruct (Hd E) as [-> ->].
Qed.

Lemma feeds_done n resps s' ks : feeds n resps s' ks (Some (Rd_Idle, resps, s')).
Proof. by exists Rd_Idle, resps, s'. Qed.

(** From a stuck beat: an edge without room changes nothing, one with room queues the
    beat and as many others as it has room for. *)
Lemma read_feed_push pins ks : forall n i req addr r s rest m' g',
  read_beats n (i + 1) req addr (rresp_data r) (memory_m s) (mr_rng s) = (rest, m', g') ->
  feeds (S n) (r :: rest) (set_memory m' g' s) ks (read_feed pins ks (Rd_Push n i req addr r) s).
Proof.
  induction ks as [|k ks IH]; intros n i req addr r s rest m' g' Hb.
  { eexists _, [], s. split_and!; [done|apply prefix_nil|done|intros Hr; unfold rooms in Hr; simpl in Hr; exfalso; lia]. }
  cbn [read_feed read_step]. destruct k as [|k].
  { apply (feeds_app _ (S n) 0 ks []); [by apply IH|done]. }
  destruct (read_loop_split n k (i + 1) req addr (rresp_data r) (memory_m s) (mr_rng s) _ _ _ Hb)
    as [[Hle ->]|(Hlt & next & r' & m1 & g1 & rest' & -> & Heq & Hrest)]; simpl.
  - rewrite read_feed_idle. simpl. rewrite app_nil_r. apply feeds_done.
  - assert (r :: rest = (r :: take k rest) ++ r' :: rest') as -> by (simpl; by rewrite <- Heq).
    apply (feeds_app _ (S (n - k - 1)) (S k) ks (r :: take k rest)).
    + apply (IH _ _ _ _ _ (set_memory m1 g1 s) rest'). exact Hrest.
    + intros Hr. apply (rooms_after (S k) ks (S n)) in Hr; lia.
Qed.

Lemma read_feed_err pins ks : forall n i req s,
  feeds (S n) (read_error_resp req <$> seqZ i (Z.of_nat (S n))) s ks (read_feed pins ks (Rd_Err n i req) s).
Proof.
  induction ks as [|k ks IH]; intros n i req s.
  { eexists _, [], s. split_and!; [done|apply prefix_nil|done|intros Hr; unfold rooms in Hr; simpl in Hr; exfalso; lia]. }
  cbn [read_feed read_step].
  destruct (read_err_loop_split (S n) k i req) as [[Hle ->]|(Hlt & -> & Heq)]; simpl.
  - rewrite read_feed_idle. simpl. rewrite app_nil_r. apply feeds_done.
  - rewrite Heq at 1. apply (feeds_app _ (S n - k) k ks).
    + pose proof (IH (S n - k - 1)%nat (i + Z.of_nat k) req s) as H.
      replace (S (S n - k - 1)) with (S n - k)%nat in H by lia. exact H.
    + by apply rooms_after.
Qed.

(** C31: However slowly the response FIFO is emptied, the read thread is [readOperation]. Whatever room it finds at each clock edge, none included, and when no write comes in between: what it has queued is always a beginning of the responses of the uninterrupted operation, in order; when it is back at the top of its loop it has queued all of them, none lost or repeated, and left the same model; and it is back there after as many edges with room as there are beats. *)
Theorem read_thread_refines pins pins' ks s req resps s' :
  readOperation pins s = Some (req, resps, s') -> 0 <= mreq_len req ->
  exists pc queued s1, read_feed pins' ks (Rd_Ack req) s = Some (pc, queued, s1)
    /\ queued `prefix_of` resps
    /\ (pc = Rd_Idle -> queued = resps /\ s1 = s')
    /\ ((Z.to_nat (mreq_len req) + 1 <= rooms ks)%nat -> pc = Rd_Idle).
Proof.
  intros H Hlen. change (feeds (Z.to_nat (mreq_len req) + 1) resps s' ks (read_feed pins' ks (Rd_Ack req) s)).
  destruct ks as [|k ks].
  { eexists _, [], s. split_and!; [done|apply prefix_nil|done|intros Hr; unfold rooms in Hr; simpl in Hr; exfalso; lia]. }
  cbn [read_feed read_step]. unfold read_start. unfold readOperation in H.
  case_match eqn:Herr.
  - simplify_eq. rewrite Herr. change (mreq_len (sample_req pins)) with (mreq_len pins) in *.
    replace (Z.to_nat (mreq_len pins + 1)) with (Z.to_nat (mreq_len pins) + 1)%nat by lia.
    replace (mreq_len pins + 1) with (Z.of_nat (Z.to_nat (mreq_len pins) + 1)) by lia.
    destruct (read_err_loop_split (Z.to_nat (mreq_len pins) + 1) k 0 (sample_req pins))
      as [[Hle ->]|(Hlt & -> & Heq)]; simpl.
    + rewrite read_feed_idle. simpl. rewrite app_nil_r. apply feeds_done.
    + rewrite Heq at 1. eapply feeds_app; [|by apply rooms_after].
      pose proof (read_feed_err pins' ks (Z.to_nat (mreq_len pins) + 1 - k - 1)
        (0 + Z.of_nat k) (sample_req pins) s') as H.
      replace (S (Z.to_nat (mreq_len pins) + 1 - k - 1))
        with (Z.to_nat (mreq_len pins) + 1 - k)%nat in H by lia. exact H.
  - destruct (if mem_is_ldex _ then _ else _) as [s0|] eqn:Hl; [|done]. simpl in H.
    destruct (read_beats _ _ _ _ _ _ _) as [[resps1 m1] g1] eqn:Hb. simplify_eq.
    rewrite Herr, Hl. change (mreq_len (sample_req pins)) with (mreq_len pins) in *. simpl.
    replace (Z.to_nat (mreq_len pins + 1)) with (Z.to_nat (mreq_len pins) + 1)%nat in * by lia.
    destruct (read_loop_split _ k _ _ _ _ _ _ _ _ _ Hb)
      as [[Hle ->]|(Hlt & next & r' & m2 & g2 & rest' & -> & Heq & Hrest)]; simpl.
    + rewrite read_feed_idle. simpl. rewrite app_nil_r. apply feeds_done.
    + assert (resps = take k resps ++ r' :: rest') as E by done. rewrite E at 1.
      eapply feeds_app; [exact (read_feed_push pins' ks _ _ _ _ _ (set_memory m2 g2 s0) rest' m1 g1 Hrest)|].
      intros Hr. pose proof (rooms_after k ks _ Hlt Hr). lia.
Qed.
End Order.


(** ** Witnesses: a read of two beats and a store, answered within a few cycles *)
#[local] Existing Instance default_config.
Definition ex_burst : mem_req :=
  {| mreq_addr := 0x1000; mreq_len := 1; mreq_size := 3; mreq_id := 2;
     mreq_command := HPDCACHE_MEM_READ; mreq_atomic := 0; mreq_cacheable := true |}.
Definition ex_store : mem_req := ex_req 0x1010 3 5 HPDCACHE_MEM_WRITE 0.
Definition ex_flit : mem_write_req_data_flit_t :=
  {| df_data := Z.shiftl 0x55 128; df_be := Z.shiftl 255 16; df_last := true |}.
Definition ex_neg (rv wv : bool) : edge :=
  Neg {| ni_rvalid := rv; ni_raddr := ex_burst; ni_rdelay := 0;
         ni_awvalid := wv; ni_aw := ex_store; ni_awdelay := 1;
         ni_wvalid := wv; ni_w := ex_flit; ni_wdelay := 0 |}.
Definition ex_pos : edge := Pos {| pi_rready := true; pi_rdelay := 1; pi_bready := true; pi_bdelay := 0 |}.
Definition ex_edges : list edge :=
  [ex_neg true true; ex_pos; ex_neg false true; ex_pos]
  ++ concat (replicate 6 [ex_neg false false; ex_pos]).

Definition ex_run : option (procs * list outputs) := mem_run ex_edges (procs_init ex_model).

Lemma mem_writes_in_order_witness :
  exists p os, ex_run = Some (p, os)
    /\ (mreq_id ∘ wreq <$> (os ≫= sb_mem_write_req_o)) = [5]
    /\ sent (aw_channel ex_edges (procs_init ex_model))
       = (wreq <$> (os ≫= sb_mem_write_req_o)) ++ wp_meta (mp_write p) ++ write_req_fifo p
    /\ sent (aw_channel ex_edges (procs_init ex_model)) = [sample_req ex_store].
Proof.
  destruct ex_run as [[p os]|] eqn:E; [|vm_compute in E; discriminate].
  exists p, os. split; [reflexivity|].
  destruct (mem_writes_in_order ex_model ex_edges p os E) as (Ha & _ & Hs & _ & H & _).
  split; [rewrite H; vm_compute in E; injection E as <- <-; vm_compute; reflexivity|].
  split; [|vm_compute; reflexivity]. rewrite <- Ha. symmetry. apply Hs.
  split; [vm_compute; repeat constructor|vm_compute; intuition discriminate].
Defined.

Lemma mem_reads_in_order_witness :
  exists p os, ex_run = Some (p, os)
    /\ (flag <$> (os ≫= out_rd)) ++ owed (mp_read p) = [(2, false); (2, true)].
Proof.
  destruct ex_run as [[p os]|] eqn:E; [|vm_compute in E; discriminate].
  exists p, os. split; [reflexivity|].
  destruct (mem_reads_in_order ex_model ex_edges p os E) as (H & _).
  rewrite <-H. vm_compute in E. injection E as <- <-. vm_compute. reflexivity.
Defined.

Lemma read_thread_refines_witness :
  exists resps s', readOperation ex_burst ex_model = Some (sample_req ex_burst, resps, s')
    /\ read_feed ex_burst [0; 1; 0; 0; 1]%nat (Rd_Ack (sample_req ex_burst)) ex_model
       = Some (Rd_Idle, resps, s').
Proof.
  destruct (readOperation ex_burst ex_model) as [[[req resps] s']|] eqn:E; [|vm_compute in E; discriminate].
  assert (req = sample_req ex_burst) as -> by (vm_compute in E; injection E as <- _ _; reflexivity).
  exists resps, s'. split; [reflexivity|].
  destruct (read_thread_refines ex_burst ex_burst [0; 1; 0; 0; 1]%nat ex_model _ _ _ E)
    as (pc & queued & s1 & H & _ & Hd & Hn); [vm_compute; discriminate|].
  rewrite H. rewrite (Hn ltac:(vm_compute; repeat constructor)).
  destruct (Hd (Hn ltac:(vm_compute; repeat constructor))) as [-> ->]. reflexivity.
Defined.

