(* ===== verification/Sequence.v ===== *)
(** * Sequences: transaction identifiers, memory segments, transaction objects
    ([hpdcache_test_sequence.h], [sequence.h], [transaction_pool.h])

    The part of a sequence that the other components share: the list of
    identifiers in use, which [allocate_id] searches from a random start; the
    memory segments requests are drawn from; and the pool of transaction objects,
    whose objects are references into a store, since the driver and the sequence
    hold the same object. *)
From S2P Require Import Prelude Defs Transaction MemModel.

Section Ids.
Context {cfg : HpdConfig}.

Definition HPDCACHE_REQ_MAX_TRANS_ID : Z := Z.shiftl 1 HPDCACHE_REQ_TRANS_ID_WIDTH.

(** [is_available_id()] *)
Definition is_available_id (ids : list Z) : bool := Z.of_nat (length ids) <? HPDCACHE_REQ_MAX_TRANS_ID.

(** The [for (;;)] of [allocate_id]; [None] means the fuel ran out. *)
Fixpoint allocate_loop (fuel : nat) (id : Z) (ids : list Z) : option (Z * list Z) :=
  match fuel with
  | O => None
  | S fuel =>
      if decide (id ∈ ids) then allocate_loop fuel ((id + 1) mod HPDCACHE_REQ_MAX_TRANS_ID) ids
      else Some (id, ids ++ [id])
  end.

(** [allocate_id()]; [None] is the failed assertion (or, as
    [allocate_id_terminates] excludes, a loop longer than the number of identifiers). *)
Definition allocate_id (ids : list Z) (g : rng) : option (Z * list Z * rng) :=
  if is_available_id ids then
    let '(r, g) := rand g in
    '(id, ids) ← allocate_loop (Z.to_nat HPDCACHE_REQ_MAX_TRANS_ID) (r mod HPDCACHE_REQ_MAX_TRANS_ID) ids;
    Some (id, ids, g)
  else None.
End Ids.

(** [std::find] and [erase]: the first occurrence is removed. *)
Fixpoint erase_id (id : Z) (ids : list Z) : option (list Z) :=
  match ids with
  | [] => None
  | x :: ids => if x =? id then Some ids else cons x <$> erase_id id ids
  end.

(** [deallocate_id(id)]: the list, and whether SEQ_ERROR is printed. *)
Definition deallocate_id (id : Z) (ids : list Z) : list Z * bool :=
  match erase_id id ids with
  | Some ids' => (ids', false)
  | None => (ids, true)
  end.

(** ** Memory segments *)
Inductive wr_policy_e := WR_POLICY_AUTO | WR_POLICY_WB | WR_POLICY_WT | WR_POLICY_RANDOM.

Record memory_segment := {
  ms_base : Z;
  ms_length : Z;
  ms_uncached : bool;
  ms_amo_supported : bool;
  ms_wr_policy_hint : wr_policy_e;
}.
Definition memory_segment_init : memory_segment :=
  {| ms_base := 0; ms_length := 0; ms_uncached := false; ms_amo_supported := false;
     ms_wr_policy_hint := WR_POLICY_AUTO |}.

Section Segments.
Context {cfg : HpdConfig}.

(** [set_base] and the others build a [sc_bv<HPDCACHE_PA_WIDTH>] from the argument. *)
Definition set_base (base : Z) (s : memory_segment) : memory_segment :=
  {| ms_base := wrap HPDCACHE_PA_WIDTH base; ms_length := ms_length s; ms_uncached := ms_uncached s;
     ms_amo_supported := ms_amo_supported s; ms_wr_policy_hint := ms_wr_policy_hint s |}.
Definition set_length (length : Z) (s : memory_segment) : memory_segment :=
  {| ms_base := ms_base s; ms_length := wrap HPDCACHE_PA_WIDTH length; ms_uncached := ms_uncached s;
     ms_amo_supported := ms_amo_supported s; ms_wr_policy_hint := ms_wr_policy_hint s |}.
Definition set_uncached (u : bool) (s : memory_segment) : memory_segment :=
  {| ms_base := ms_base s; ms_length := ms_length s; ms_uncached := u;
     ms_amo_supported := ms_amo_supported s; ms_wr_policy_hint := ms_wr_policy_hint s |}.
Definition set_amo_supported (a : bool) (s : memory_segment) : memory_segment :=
  {| ms_base := ms_base s; ms_length := ms_length s; ms_uncached := ms_uncached s;
     ms_amo_supported := a; ms_wr_policy_hint := ms_wr_policy_hint s |}.
Definition set_wr_policy_hint (p : wr_policy_e) (s : memory_segment) : memory_segment :=
  {| ms_base := ms_base s; ms_length := ms_length s; ms_uncached := ms_uncached s;
     ms_amo_supported := ms_amo_supported s; ms_wr_policy_hint := p |}.
Definition get_end (s : memory_segment) : Z := u64 (ms_base s + u64 (ms_length s - 1)).
End Segments.

(** ** The pool of transaction objects

    An object is a key of [pool_heap]; [pool] is the list of free references. *)
Record Transaction_pool := {
  pool : list nat;
  trans_bundle_sz : nat;
  nb_trans : Z;
  nb_allocated : Z;
  nb_release : Z;
  pool_heap : gmap nat transaction_req;
  pool_next : nat;      (* the next reference [make_shared] returns *)
}.
Definition mk_pool (bundle : nat) : Transaction_pool :=
  {| pool := []; trans_bundle_sz := bundle; nb_trans := 0; nb_allocated := 0; nb_release := 0;
     pool_heap := ∅; pool_next := 0 |}.

Definition set_id (id : Z) (t : transaction_req) : transaction_req :=
  {| req_id := id; req_addr := req_addr t; req_wdata := req_wdata t; req_op := req_op t;
     req_be := req_be t; req_size := req_size t; req_sid := req_sid t; req_tid := req_tid t;
     req_need_rsp := req_need_rsp t; req_phys_indexed := req_phys_indexed t;
     req_uncacheable := req_uncacheable t; req_io := req_io t;
     req_wr_policy_hint := req_wr_policy_hint t; req_abort := req_abort t; req_fault := req_fault t |}.

(** One [make_shared<T>()] and [push_back] of the allocation loop. *)
Definition pool_new (p : Transaction_pool) : Transaction_pool :=
  {| pool := pool p ++ [pool_next p]; trans_bundle_sz := trans_bundle_sz p; nb_trans := nb_trans p;
     nb_allocated := u64 (nb_allocated p + 1); nb_release := nb_release p;
     pool_heap := <[pool_next p := transaction_req_init]> (pool_heap p); pool_next := S (pool_next p) |}.

(** [Transaction_pool::acquire_transaction<T>()]; [None] is [front()] of an empty
    list, which needs an empty bundle. *)
Definition pool_acquire (p : Transaction_pool) : option (nat * Transaction_pool) :=
  let p := match pool p with [] => Nat.iter (trans_bundle_sz p) pool_new p | _ => p end in
  match pool p with
  | [] => None
  | r :: rest =>
      Some (r, {| pool := rest; trans_bundle_sz := trans_bundle_sz p;
                  nb_trans := u64 (nb_trans p + 1); nb_allocated := nb_allocated p;
                  nb_release := nb_release p;
                  pool_heap := alter (set_id (nb_trans p)) r (pool_heap p); pool_next := pool_next p |})
  end.

(** [release_transaction(t)] *)
Definition pool_release (r : nat) (p : Transaction_pool) : Transaction_pool :=
  {| pool := pool p ++ [r]; trans_bundle_sz := trans_bundle_sz p; nb_trans := nb_trans p;
     nb_allocated := nb_allocated p; nb_release := u64 (nb_release p + 1);
     pool_heap := pool_heap p; pool_next := pool_next p |}.

Definition set_heap (h : gmap nat transaction_req) (p : Transaction_pool) : Transaction_pool :=
  {| pool := pool p; trans_bundle_sz := trans_bundle_sz p; nb_trans := nb_trans p;
     nb_allocated := nb_allocated p; nb_release := nb_release p; pool_heap := h; pool_next := pool_next p |}.

(** [Sequence::acquire_transaction<T>()] overwrites the object with [T()];
    [Sequence::acquire_transaction<T>(init)] copies [init] and restores the identifier. *)
Definition acquire_transaction (p : Transaction_pool) : option (nat * Transaction_pool) :=
  '(r, p) ← pool_acquire p;
  Some (r, set_heap (<[r := transaction_req_init]> (pool_heap p)) p).
Definition acquire_transaction_init (init : transaction_req) (p : Transaction_pool)
    : option (nat * Transaction_pool) :=
  '(r, p) ← pool_acquire p;
  t ← pool_heap p !! r;
  Some (r, set_heap (<[r := set_id (req_id t) init]> (pool_heap p)) p).

(** ** Identifiers *)
Section IdLemmas.
Context {cfg : HpdConfig} {Hcfg : ConfigWf cfg}.

Lemma MAX_TRANS_ID_pos : 0 < HPDCACHE_REQ_MAX_TRANS_ID.
Proof using Hcfg.
  unfold HPDCACHE_REQ_MAX_TRANS_ID. rewrite Z.shiftl_mul_pow2, Z.mul_1_l.
  - apply Z.pow_pos_nonneg; [lia|]. pose proof cfg_ids. lia.
  - pose proof cfg_ids. lia.
Qed.

(** The identifiers in use: distinct, and in range. *)
Record ids_wf (ids : list Z) : Prop := {
  ids_nodup : NoDup ids;
  ids_range : Forall (fun x => 0 <= x < HPDCACHE_REQ_MAX_TRANS_ID) ids;
}.

Lemma mod_succ a k n : 0 < n -> ((a + 1) mod n + k) mod n = (a + (1 + k)) mod n.
Proof. intros. rewrite Z.add_mod_idemp_l by lia. f_equal. lia. Qed.

(** The search stops at the first free identifier after the start. *)
Lemma allocate_loop_spec fuel id ids :
  0 <= id < HPDCACHE_REQ_MAX_TRANS_ID ->
  (exists k, 0 <= k < Z.of_nat fuel /\ (id + k) mod HPDCACHE_REQ_MAX_TRANS_ID ∉ ids) ->
  exists x, allocate_loop fuel id ids = Some (x, ids ++ [x]) /\ x ∉ ids /\
            0 <= x < HPDCACHE_REQ_MAX_TRANS_ID.
Proof using Hcfg.
  pose proof MAX_TRANS_ID_pos as HN. revert id.
  induction fuel as [|fuel IH]; intros id Hid (k & Hk & Hfree); [lia|]. simpl.
  destruct (decide (id ∈ ids)) as [Hin|Hout]; [|by exists id].
  destruct (decide (k = 0)) as [->|].
  { rewrite Z.add_0_r, Z.mod_small in Hfree by lia. done. }
  apply IH; [by apply Z.mod_pos_bound|]. exists (k - 1). split; [lia|].
  rewrite mod_succ by lia. by replace (id + (1 + (k - 1))) with (id + k) by lia.
Qed.

(** Pigeonhole: when the identifiers in use are fewer than the identifiers, the
    search from any start meets a free one. *)
Lemma free_id_exists id ids :
  is_available_id ids = true ->
  exists k, 0 <= k < HPDCACHE_REQ_MAX_TRANS_ID /\ (id + k) mod HPDCACHE_REQ_MAX_TRANS_ID ∉ ids.
Proof using Hcfg.
  pose proof MAX_TRANS_ID_pos as HN. unfold is_available_id. intros Hav%Z.ltb_lt.
  set (N := HPDCACHE_REQ_MAX_TRANS_ID) in *.
  destruct (decide (Exists (fun k => (id + k) mod N ∉ ids) (seqZ 0 N))) as [He|Hne].
  - apply list.Exists_exists in He as (k & Hin & Hk). apply elem_of_seqZ in Hin. exists k. split; [lia|done].
  - exfalso. set (cand := (fun k => (id + k) mod N) <$> seqZ 0 N).
    assert (NoDup cand) as Hnd.
    { apply NoDup_fmap_2_strong; [|apply NoDup_seqZ]. intros x y Hx Hy Heq.
      apply elem_of_seqZ in Hx, Hy.
      pose proof (Z.div_mod (id + x) N ltac:(lia)). pose proof (Z.div_mod (id + y) N ltac:(lia)).
      assert (x - y = N * ((id + x) / N - (id + y) / N)) as Hd by lia.
      assert ((id + x) / N - (id + y) / N = 0) by nia. nia. }
    assert (cand ⊆ ids) as Hsub.
    { intros x Hx. apply list_elem_of_fmap in Hx as (k & -> & Hk).
      apply dec_stable. intros Hn. apply Hne. apply list.Exists_exists. by exists k. }
    apply NoDup_submseteq, submseteq_length in Hsub; [|done].
    unfold cand in Hsub. rewrite length_fmap, length_seqZ in Hsub. lia.
Qed.

Lemma erase_id_last id ids : id ∉ ids -> erase_id id (ids ++ [id]) = Some ids.
Proof.
  induction ids as [|x ids IH]; intros Hn; simpl; [by rewrite Z.eqb_refl|].
  apply not_elem_of_cons in Hn as [Hne Hn]. destruct (Z.eqb_spec x id); [by subst|].
  by rewrite IH.
Qed.

Lemma erase_id_spec id ids :
  match erase_id id ids with
  | Some ids' => id ∈ ids /\ ids ≡ₚ id :: ids'
  | None => id ∉ ids
  end.
Proof.
  induction ids as [|x ids IH]; simpl; [apply not_elem_of_nil|].
  destruct (Z.eqb_spec x id) as [->|Hne].
  - split; [by apply list_elem_of_here|done].
  - destruct (erase_id id ids) as [ids'|]; simpl.
    + destruct IH as [Hin Hp]. split; [by apply list_elem_of_further|]. rewrite Hp. constructor.
    + rewrite not_elem_of_cons. split; [by intros ->|done].
Qed.

Lemma deallocate_wf id ids : ids_wf ids -> ids_wf (deallocate_id id ids).1.
Proof.
  intros [Hn Hr]. unfold deallocate_id. pose proof (erase_id_spec id ids) as He.
  destruct (erase_id id ids) as [ids'|]; [|done]. destruct He as [_ Hp]. simpl.
  rewrite Hp in Hn, Hr. apply list.NoDup_cons in Hn as [_ Hn]. apply list.Forall_cons in Hr as [_ Hr]. done.
Qed.

Lemma deallocate_elem id x ids : ids_wf ids -> x ∈ (deallocate_id id ids).1 <-> x ∈ ids /\ x <> id.
Proof.
  intros [Hn _]. unfold deallocate_id. pose proof (erase_id_spec id ids) as He.
  destruct (erase_id id ids) as [ids'|]; simpl.
  - destruct He as [_ Hp]. rewrite Hp in Hn. apply list.NoDup_cons in Hn as [Hn _].
    rewrite Hp, elem_of_cons. naive_solver.
  - split; [|naive_solver]. intros Hx. split; [done|]. by intros ->.
Qed.

Lemma allocate_id_ok ids g :
  ids_wf ids -> is_available_id ids = true ->
  exists id g', allocate_id ids g = Some (id, ids ++ [id], g') /\ id ∉ ids
    /\ ids_wf (ids ++ [id]) /\ rng_draw g' = rng_draw g.
Proof using Hcfg.
  intros [Hn Hr] Hav. pose proof MAX_TRANS_ID_pos as HN.
  unfold allocate_id. rewrite Hav. simpl.
  set (r := rng_draw g (rng_pos g) mod HPDCACHE_REQ_MAX_TRANS_ID).
  destruct (free_id_exists r ids Hav) as (k & Hk & Hfree).
  destruct (allocate_loop_spec (Z.to_nat HPDCACHE_REQ_MAX_TRANS_ID) r ids) as (x & -> & Hx & Hxr).
  - by apply Z.mod_pos_bound.
  - exists k. split; [lia|done].
  - simpl. eexists _, _. split; [done|]. split; [done|]. split; [|done].
    split; [|by apply Forall_app; repeat constructor; done || lia].
    apply list.NoDup_app. split_and!; [done| |apply NoDup_singleton].
    intros y Hy ->%list_elem_of_singleton. done.
Qed.

(** While fewer identifiers than exist are in use, [allocate_id] returns after at
    most one turn over the identifiers, with one that is in range and was free,
    whatever [rand()] answers; releasing it gives the former list back. *)
Theorem allocate_id_terminates ids g :
  ids_wf ids -> rng_wf g -> is_available_id ids = true ->
  exists id ids' g', allocate_id ids g = Some (id, ids', g') /\ id ∉ ids /\ ids_wf ids' /\
    ids' = ids ++ [id] /\ deallocate_id id ids' = (ids, false).
Proof using Hcfg.
  intros Hids _ Hav. destruct (allocate_id_ok ids g Hids Hav) as (id & g' & Ha & Hid & Hwf & _).
  exists id, (ids ++ [id]), g'. split_and!; try done.
  unfold deallocate_id. by rewrite erase_id_last.
Qed.

(** Releasing an identifier removes it and no other from the list of those in
    use; releasing one that is not in use leaves the list and reports the error. *)
Theorem deallocate_id_spec id ids :
  ids_wf ids ->
  ids_wf (deallocate_id id ids).1 /\
  ((deallocate_id id ids).2 = true <-> id ∉ ids) /\
  forall x, x ∈ (deallocate_id id ids).1 <-> x ∈ ids /\ x <> id.
Proof.
  intros Hw. split; [by apply deallocate_wf|]. split; [|intros x; by apply deallocate_elem].
  unfold deallocate_id. pose proof (erase_id_spec id ids) as He.
  destruct (erase_id id ids); simpl; naive_solver.
Qed.
End IdLemmas.

(** ** The pool *)

(** The steps of the pool's clients: [out] is the set of objects they hold. *)
Inductive pool_step : Transaction_pool * gset nat -> Transaction_pool * gset nat -> Prop :=
  | pool_step_acquire p out r p' :
      acquire_transaction p = Some (r, p') -> pool_step (p, out) (p', {[r]} ∪ out)
  | pool_step_acquire_init p out init r p' :
      acquire_transaction_init init p = Some (r, p') -> pool_step (p, out) (p', {[r]} ∪ out)
  | pool_step_release p out r :
      r ∈ out -> pool_step (p, out) (pool_release r p, out ∖ {[r]}).

Record pool_inv (p : Transaction_pool) (out : gset nat) : Prop := {
  pool_bundle : (0 < trans_bundle_sz p)%nat;
  pool_nodup : NoDup (pool p);
  pool_free r : r ∈ pool p -> r ∉ out;
  pool_known r : r ∈ pool p \/ r ∈ out <-> (r < pool_next p)%nat;
  pool_objs r : is_Some (pool_heap p !! r) <-> (r < pool_next p)%nat;
}.

Lemma pool_new_inv p out : pool_inv p out -> pool_inv (pool_new p) out.
Proof.
  intros [H1 H2 H3 H4 H5]. split; simpl; [done| | | |].
  - apply list.NoDup_app. split_and!; [done| |apply NoDup_singleton].
    intros x Hx ->%list_elem_of_singleton. assert (pool_next p < pool_next p)%nat; [|lia].
    apply H4. by left.
  - intros r Hr. apply elem_of_app in Hr as [Hr|Hr]; [by apply H3|].
    apply list_elem_of_singleton in Hr as ->.
    intros Ho. assert (pool_next p < pool_next p)%nat; [|lia]. apply H4. by right.
  - intros r. rewrite elem_of_app, list_elem_of_singleton.
    destruct (decide (r = pool_next p)) as [->|]; [split; [lia|naive_solver]|].
    specialize (H4 r). split; [intros; assert (r < pool_next p)%nat by tauto; lia|].
    intros. assert (r < pool_next p)%nat by lia. tauto.
  - intros r. destruct (decide (r = pool_next p)) as [->|].
    + rewrite lookup_insert_eq. split; [lia|by eexists].
    + rewrite lookup_insert_ne by done. rewrite H5. lia.
Qed.

Lemma pool_new_iter_inv n p out : pool_inv p out -> pool_inv (Nat.iter n pool_new p) out.
Proof. intros H. induction n as [|n IH]; [done|]. simpl. by apply pool_new_inv. Qed.

Lemma pool_new_iter_pool n p :
  length (pool (Nat.iter n pool_new p)) = (n + length (pool p))%nat.
Proof. induction n as [|n IH]; [done|]. simpl. rewrite length_app, IH. simpl. lia. Qed.

Lemma pool_acquire_inv p out :
  pool_inv p out ->
  exists r p', pool_acquire p = Some (r, p') /\ r ∉ out /\ pool_inv p' ({[r]} ∪ out).
Proof.
  intros Hi. unfold pool_acquire.
  set (q := match pool p with [] => Nat.iter (trans_bundle_sz p) pool_new p | _ => p end).
  assert (pool_inv q out) as [H1 H2 H3 H4 H5].
  { subst q. destruct (pool p); [by apply pool_new_iter_inv|done]. }
  assert (pool q <> []) as Hne.
  { subst q. destruct (pool p) eqn:E; [|by rewrite E]. intros He.
    apply (f_equal length) in He. rewrite pool_new_iter_pool in He. pose proof (pool_bundle _ _ Hi).
    simpl in He. lia. }
  destruct (pool q) as [|r rest] eqn:E; [done|]. apply list.NoDup_cons in H2 as [Hr H2].
  eexists r, _. split; [done|]. split; [by apply H3, list_elem_of_here|].
  split; simpl; [done|done| | |].
  - intros x Hx. rewrite elem_of_union, elem_of_singleton. intros [->|Ho]; [done|].
    by apply (H3 x); [apply list_elem_of_further|].
  - intros x. rewrite <-H4, elem_of_cons, elem_of_union, elem_of_singleton. tauto.
  - intros x. rewrite lookup_alter_is_Some. apply H5.
Qed.

Lemma set_heap_inv p out r t :
  pool_inv p out -> r ∈ out -> pool_inv (set_heap (<[r := t]> (pool_heap p)) p) out.
Proof.
  intros [H1 H2 H3 H4 H5] Hr. split; simpl; try done.
  intros x. destruct (decide (x = r)) as [->|].
  - rewrite lookup_insert_eq. split; [|by eexists]. intros _. apply H4. by right.
  - by rewrite lookup_insert_ne.
Qed.

(** The pool [acquire_transaction] takes the object from. *)
Definition refilled (p : Transaction_pool) : Transaction_pool :=
  match pool p with [] => Nat.iter (trans_bundle_sz p) pool_new p | _ => p end.

Lemma refilled_nb_trans p : nb_trans (refilled p) = nb_trans p.
Proof.
  unfold refilled. destruct (pool p); [|done].
  generalize (trans_bundle_sz p) as n. induction n as [|n IH]; [done|]. exact IH.
Qed.

Lemma pool_acquire_object p out r p' :
  pool_inv p out -> pool_acquire p = Some (r, p') ->
  r ∉ out /\ pool_inv p' ({[r]} ∪ out) /\
  (exists t, pool_heap p' !! r = Some t /\ req_id t = nb_trans p) /\ nb_trans p' = u64 (nb_trans p + 1).
Proof.
  intros Hi Ha. destruct (pool_acquire_inv p out Hi) as (r' & q & Ha' & Hr & Hq).
  rewrite Ha in Ha'. injection Ha' as <- <-. split; [done|]. split; [done|].
  assert (is_Some (pool_heap p' !! r)) as Hobj.
  { apply (pool_objs _ _ Hq), (pool_known _ _ Hq). right. set_solver. }
  revert Ha Hobj. unfold pool_acquire. fold (refilled p). pose proof (refilled_nb_trans p) as Hnt.
  destruct (pool (refilled p)) as [|x rest]; [done|]. intros [= -> <-]. simpl. rewrite Hnt.
  rewrite lookup_alter_is_Some. intros [t Ht]. split; [|done].
  rewrite lookup_alter_eq, Ht. simpl. eexists. by split.
Qed.

Lemma pool_step_inv a b : pool_step a b -> pool_inv a.1 a.2 -> pool_inv b.1 b.2.
Proof.
  intros Hs Hi. destruct Hs as [p out r p' Ha|p out init r p' Ha|p out r Hr]; simpl in *.
  - unfold acquire_transaction in Ha. apply bind_Some in Ha as ([x q] & Ha & [= <- <-]).
    destruct (pool_acquire_object _ _ _ _ Hi Ha) as (_ & Hq & _).
    apply set_heap_inv; [done|set_solver].
  - unfold acquire_transaction_init in Ha. apply bind_Some in Ha as ([x q] & Ha & Hb).
    destruct (pool_acquire_object _ _ _ _ Hi Ha) as (_ & Hq & (t & Ht & _) & _).
    rewrite Ht in Hb. injection Hb as <- <-. apply set_heap_inv; [done|set_solver].
  - destruct Hi as [H1 H2 H3 H4 H5]. split; simpl; [done| | | |done].
    + apply list.NoDup_app. split_and!; [done| |apply NoDup_singleton].
      intros x Hx ->%list_elem_of_singleton. by apply (H3 r).
    + intros x Hx. apply elem_of_app in Hx as [Hx|Hx]; [apply H3 in Hx; set_solver|].
      apply list_elem_of_singleton in Hx as ->. set_solver.
    + intros x. rewrite <-H4, elem_of_app, list_elem_of_singleton, elem_of_difference, elem_of_singleton.
      destruct (decide (x = r)) as [->|]; naive_solver.
Qed.

Lemma pool_reachable_inv bundle p out :
  (0 < bundle)%nat -> rtc pool_step (mk_pool bundle, ∅) (p, out) -> pool_inv p out.
Proof.
  intros Hb Hr.
  assert (forall a b, rtc pool_step a b -> pool_inv a.1 a.2 -> pool_inv b.1 b.2) as Hstar.
  { intros a b H. induction H as [|a b c Hab _ IH]; [done|]. intros Ha. by apply IH, (pool_step_inv a). }
  apply (Hstar _ _ Hr). simpl. split; simpl; [done|constructor| | |].
  - intros r Hr'. by apply not_elem_of_nil in Hr'.
  - intros r. rewrite elem_of_empty. split; [|lia]. intros [Hx|Hx]; [by apply not_elem_of_nil in Hx|done].
  - intros r. rewrite lookup_empty. split; [by intros []|lia].
Qed.

(** Whatever the clients did before, acquiring an object always succeeds, never
    hands out an object somebody holds, and gives it a serial number: the count of
    acquisitions, kept when the object is initialised from a model transaction, but
    overwritten with 0 when it is initialised with [T()]. *)
Theorem pool_acquire_fresh bundle p out init :
  (0 < bundle)%nat -> rtc pool_step (mk_pool bundle, ∅) (p, out) ->
  (exists r p', acquire_transaction_init init p = Some (r, p') /\ r ∉ out /\
     pool_heap p' !! r = Some (set_id (nb_trans p) init) /\ nb_trans p' = u64 (nb_trans p + 1)) /\
  (exists r p', acquire_transaction p = Some (r, p') /\ r ∉ out /\
     pool_heap p' !! r = Some transaction_req_init /\ req_id transaction_req_init = 0).
Proof.
  intros Hb Hr. pose proof (pool_reachable_inv bundle p out Hb Hr) as Hi.
  destruct (pool_acquire_inv p out Hi) as (r & q & Ha & _).
  destruct (pool_acquire_object _ _ _ _ Hi Ha) as (Hout & _ & (t & Ht & Hid) & Hn).
  split; exists r; eexists.
  - unfold acquire_transaction_init. rewrite Ha. simpl. rewrite Ht. simpl. split; [done|].
    split; [done|]. simpl. by rewrite lookup_insert_eq, Hid.
  - unfold acquire_transaction. rewrite Ha. simpl. split; [done|]. split; [done|]. simpl.
    by rewrite lookup_insert_eq.
Qed.

(** ** Witnesses *)
Definition ex_seq_rng : rng := {| rng_draw := fun n => 62 + Z.of_nat n mod 8; rng_pos := 0 |}.

Lemma allocate_id_terminates_witness :
  exists id ids' g', @allocate_id default_config [62; 63; 0] ex_seq_rng = Some (id, ids', g') /\ id = 1.
Proof.
  destruct (@allocate_id_terminates default_config _ [62; 63; 0] ex_seq_rng)
    as (id & ids' & g' & H1 & _).
  - split; [|repeat constructor; vm_compute; discriminate || done].
    apply (bool_decide_eq_true_1 _). by vm_compute.
  - intros n. unfold ex_seq_rng; simpl. pose proof (Z.mod_pos_bound (Z.of_nat n) 8 ltac:(lia)).
    split; [lia|]. apply Z.lt_trans with 100; [lia|done].
  - by vm_compute.
  - exists id, ids', g'. split; [exact H1|]. vm_compute in H1. by injection H1.
Defined.

Lemma deallocate_id_spec_witness : @ids_wf default_config (deallocate_id 3 [5; 3]).1.
Proof.
  apply (@deallocate_id_spec default_config 3 [5; 3]).
  split; [|repeat constructor; vm_compute; discriminate || done].
  apply (bool_decide_eq_true_1 _). by vm_compute.
Defined.

Lemma pool_acquire_fresh_witness :
  exists r p', acquire_transaction (mk_pool 10) = Some (r, p') /\ r ∉ (∅ : gset nat).
Proof.
  destruct (pool_acquire_fresh 10 (mk_pool 10) ∅ transaction_req_init) as [_ (r & p' & H1 & H2 & _)];
    [lia|apply rtc_refl|]. exists r, p'. split; [exact H1|exact H2].
Defined.
