(* ===== verification/Scoreboard.v ===== *)
(** * The scoreboard ([hpdcache_test_scoreboard.h])

    One Definition per process: each handles one element of its FIFO, on the
    state of the scoreboard, in a state monad whose outcomes are a result, the
    [std::exit(1)] of the error limit, or [Undef] (an access outside an array, a
    shift outside its range, a null dereference or a failed assertion). Messages
    of [print_error] are kept in a log, the order they are printed in.

    The processes only block on their FIFO, so a run of the scoreboard is a
    sequence of these handlers in some interleaving. *)
From S2P Require Import Prelude Defs Transaction RamModel Amo MemResp Sequence.

(** ** State *)

(** [struct inflight_entry_t]; [e_rdata] holds the bytes of the array [rdata]. *)
Record inflight_entry_t := {
  e_time : Z; e_tid : Z; e_addr : Z; e_need_rsp : bool; e_hit : bool;
  e_is_read : bool; e_is_write : bool; e_is_amo : bool; e_is_amo_sc : bool; e_is_amo_lr : bool;
  e_is_atomic : bool; e_is_error : bool; e_op : Z; e_is_uncacheable : bool; e_bytes : Z;
  e_wdata : list Z; e_be : list Z; e_rdata : list Z; e_rv : list Z;
}.

(** [struct inflight_mem_entry_t]; the pointer is the key of the entry it points to. *)
Record inflight_mem_entry_t := {
  m_addr : Z; m_bytes : Z; m_is_uncacheable : bool; m_is_error : bool; m_core_req_ptr : option Z;
}.

(** [struct lrsc_reservation_buf_t] *)
Record lrsc_reservation_buf_t := {
  lrsc_valid : bool; lrsc_base_addr : Z; lrsc_end_addr : Z; lrsc_is_atomic : bool;
}.

Record sb_counters := {
  nb_cycles : Z; nb_cycles_effective : Z; nb_core_req : Z; nb_core_req_need_rsp : Z;
  nb_core_resp : Z; nb_mem_read_req : Z; nb_mem_read_resp : Z; nb_mem_write_req : Z;
  nb_mem_write_resp : Z;
}.

(** The event counters and, for one cycle, the event inputs. *)
Record perf_events (A : Type) := {
  evt_cache_write_miss : A; evt_cache_read_miss : A; evt_cache_dir_unc_err : A;
  evt_cache_dir_cor_err : A; evt_cache_dat_unc_err : A; evt_cache_dat_cor_err : A;
  evt_scrub_complete : A; evt_uncached_req : A; evt_cmo_req : A; evt_write_req : A;
  evt_read_req : A; evt_prefetch_req : A; evt_req_on_hold : A; evt_rtab_rollback : A;
  evt_stall_refill : A; evt_stall : A;
}.
Arguments evt_cache_write_miss {A}. Arguments evt_cache_read_miss {A}.
Arguments evt_cache_dir_unc_err {A}. Arguments evt_cache_dir_cor_err {A}.
Arguments evt_cache_dat_unc_err {A}. Arguments evt_cache_dat_cor_err {A}.
Arguments evt_scrub_complete {A}. Arguments evt_uncached_req {A}. Arguments evt_cmo_req {A}.
Arguments evt_write_req {A}. Arguments evt_read_req {A}. Arguments evt_prefetch_req {A}.
Arguments evt_req_on_hold {A}. Arguments evt_rtab_rollback {A}. Arguments evt_stall_refill {A}.
Arguments evt_stall {A}.

(** The messages of [print_error]. *)
Inductive sb_error :=
  | E_core_id_inflight (id : Z)
  | E_amo_fifo_full
  | E_core_resp_unmatched (id : Z)
  | E_error_flag
  | E_sc_success
  | E_sc_failure
  | E_data_wrong (addr actual expected : Z)
  | E_mem_read_id_inflight (id : Z)
  | E_single_atomic
  | E_unexpected_ldex
  | E_mem_read_resp_unmatched (id : Z)
  | E_mem_write_id_inflight (id : Z)
  | E_unexpected_amo
  | E_amo_no_core_request
  | E_unexpected_stex
  | E_stex_no_reservation
  | E_sc_no_core_request
  | E_mem_write_resp_unmatched (id : Z)
  | E_final_responses
  | E_final_write_misses
  | E_final_read_misses
  | E_final_unresponded_ids.

Record scoreboard := {
  sb_count : sb_counters;
  sb_events : perf_events Z;
  nb_error : Z;
  sb_error_limit_m : Z;
  sb_log : list sb_error;
  sb_seq_ids : list Z;                      (* [seq->ids] *)
  sb_errorsegs : option (list segment_t);   (* [mem_resp_model->errorsegs], None when null *)
  inflight_m : gmap Z inflight_entry_t;
  inflight_mem_read_m : gmap Z inflight_mem_entry_t;
  inflight_mem_write_m : gmap Z inflight_mem_entry_t;
  lrsc_buf_m : lrsc_reservation_buf_t;
  ram_m : ram_model;
  inflight_amo_req_m : list inflight_entry_t;
  sc_is_atomic : bool;
}.

Definition set_count (c : sb_counters) (s : scoreboard) : scoreboard :=
  Build_scoreboard c (sb_events s) (nb_error s) (sb_error_limit_m s) (sb_log s) (sb_seq_ids s)
    (sb_errorsegs s) (inflight_m s) (inflight_mem_read_m s) (inflight_mem_write_m s) (lrsc_buf_m s)
    (ram_m s) (inflight_amo_req_m s) (sc_is_atomic s).
Definition set_events (e : perf_events Z) (s : scoreboard) : scoreboard :=
  Build_scoreboard (sb_count s) e (nb_error s) (sb_error_limit_m s) (sb_log s) (sb_seq_ids s)
    (sb_errorsegs s) (inflight_m s) (inflight_mem_read_m s) (inflight_mem_write_m s) (lrsc_buf_m s)
    (ram_m s) (inflight_amo_req_m s) (sc_is_atomic s).
Definition add_error (m : sb_error) (s : scoreboard) : scoreboard :=
  Build_scoreboard (sb_count s) (sb_events s) (u64 (nb_error s + 1)) (sb_error_limit_m s)
    (sb_log s ++ [m]) (sb_seq_ids s) (sb_errorsegs s) (inflight_m s) (inflight_mem_read_m s)
    (inflight_mem_write_m s) (lrsc_buf_m s) (ram_m s) (inflight_amo_req_m s) (sc_is_atomic s).
Definition set_ids (ids : list Z) (s : scoreboard) : scoreboard :=
  Build_scoreboard (sb_count s) (sb_events s) (nb_error s) (sb_error_limit_m s) (sb_log s) ids
    (sb_errorsegs s) (inflight_m s) (inflight_mem_read_m s) (inflight_mem_write_m s) (lrsc_buf_m s)
    (ram_m s) (inflight_amo_req_m s) (sc_is_atomic s).
Definition set_inflight (m : gmap Z inflight_entry_t) (s : scoreboard) : scoreboard :=
  Build_scoreboard (sb_count s) (sb_events s) (nb_error s) (sb_error_limit_m s) (sb_log s)
    (sb_seq_ids s) (sb_errorsegs s) m (inflight_mem_read_m s) (inflight_mem_write_m s)
    (lrsc_buf_m s) (ram_m s) (inflight_amo_req_m s) (sc_is_atomic s).
Definition set_mem_read (m : gmap Z inflight_mem_entry_t) (s : scoreboard) : scoreboard :=
  Build_scoreboard (sb_count s) (sb_events s) (nb_error s) (sb_error_limit_m s) (sb_log s)
    (sb_seq_ids s) (sb_errorsegs s) (inflight_m s) m (inflight_mem_write_m s) (lrsc_buf_m s)
    (ram_m s) (inflight_amo_req_m s) (sc_is_atomic s).
Definition set_mem_write (m : gmap Z inflight_mem_entry_t) (s : scoreboard) : scoreboard :=
  Build_scoreboard (sb_count s) (sb_events s) (nb_error s) (sb_error_limit_m s) (sb_log s)
    (sb_seq_ids s) (sb_errorsegs s) (inflight_m s) (inflight_mem_read_m s) m (lrsc_buf_m s)
    (ram_m s) (inflight_amo_req_m s) (sc_is_atomic s).
Definition set_lrsc (l : lrsc_reservation_buf_t) (s : scoreboard) : scoreboard :=
  Build_scoreboard (sb_count s) (sb_events s) (nb_error s) (sb_error_limit_m s) (sb_log s)
    (sb_seq_ids s) (sb_errorsegs s) (inflight_m s) (inflight_mem_read_m s) (inflight_mem_write_m s)
    l (ram_m s) (inflight_amo_req_m s) (sc_is_atomic s).
Definition set_ram (r : ram_model) (s : scoreboard) : scoreboard :=
  Build_scoreboard (sb_count s) (sb_events s) (nb_error s) (sb_error_limit_m s) (sb_log s)
    (sb_seq_ids s) (sb_errorsegs s) (inflight_m s) (inflight_mem_read_m s) (inflight_mem_write_m s)
    (lrsc_buf_m s) r (inflight_amo_req_m s) (sc_is_atomic s).
Definition set_amo_fifo (f : list inflight_entry_t) (s : scoreboard) : scoreboard :=
  Build_scoreboard (sb_count s) (sb_events s) (nb_error s) (sb_error_limit_m s) (sb_log s)
    (sb_seq_ids s) (sb_errorsegs s) (inflight_m s) (inflight_mem_read_m s) (inflight_mem_write_m s)
    (lrsc_buf_m s) (ram_m s) f (sc_is_atomic s).
Definition set_sc_is_atomic (b : bool) (s : scoreboard) : scoreboard :=
  Build_scoreboard (sb_count s) (sb_events s) (nb_error s) (sb_error_limit_m s) (sb_log s)
    (sb_seq_ids s) (sb_errorsegs s) (inflight_m s) (inflight_mem_read_m s) (inflight_mem_write_m s)
    (lrsc_buf_m s) (ram_m s) (inflight_amo_req_m s) b.

(** The constructor; [lrsc_buf_m] is not initialised, so its contents are an argument,
    and the pointers to the sequence and to the memory model are null. *)
Definition hpdcache_test_scoreboard (lrsc : lrsc_reservation_buf_t) : scoreboard :=
  {| sb_count := Build_sb_counters 0 0 0 0 0 0 0 0 0;
     sb_events := Build_perf_events Z 0 0 0 0 0 0 0 0 0 0 0 0 0 0 0 0;
     nb_error := 0; sb_error_limit_m := 0; sb_log := []; sb_seq_ids := []; sb_errorsegs := None;
     inflight_m := ∅; inflight_mem_read_m := ∅; inflight_mem_write_m := ∅;
     lrsc_buf_m := lrsc; ram_m := mk_ram; inflight_amo_req_m := []; sc_is_atomic := false |}.

(** What [build] gives it: the sequence (its identifiers), the memory model (its error
    segments) and the limit. *)
Definition set_sequence (ids : list Z) (s : scoreboard) : scoreboard := set_ids ids s.
Definition set_mem_resp_model (segs : list segment_t) (s : scoreboard) : scoreboard :=
  Build_scoreboard (sb_count s) (sb_events s) (nb_error s) (sb_error_limit_m s) (sb_log s)
    (sb_seq_ids s) (Some segs) (inflight_m s) (inflight_mem_read_m s) (inflight_mem_write_m s)
    (lrsc_buf_m s) (ram_m s) (inflight_amo_req_m s) (sc_is_atomic s).
Definition set_error_limit (error_limit : Z) (s : scoreboard) : scoreboard :=
  Build_scoreboard (sb_count s) (sb_events s) (nb_error s) error_limit (sb_log s)
    (sb_seq_ids s) (sb_errorsegs s) (inflight_m s) (inflight_mem_read_m s) (inflight_mem_write_m s)
    (lrsc_buf_m s) (ram_m s) (inflight_amo_req_m s) (sc_is_atomic s).

(** ** The monad of the processes *)
Inductive outcome (A : Type) :=
  | Done (a : A) (s : scoreboard)
  | Exit (s : scoreboard)
  | Undef.
Arguments Done {A}. Arguments Exit {A}. Arguments Undef {A}.

Definition SB (A : Type) : Type := scoreboard -> outcome A.
#[export] Instance SB_ret : MRet SB := fun _ a s => Done a s.
#[export] Instance SB_bind : MBind SB := fun _ _ f m s =>
  match m s with Done a s' => f a s' | Exit s' => Exit s' | Undef => Undef end.

Definition get : SB scoreboard := fun s => Done s s.
Definition modify (f : scoreboard -> scoreboard) : SB unit := fun s => Done tt (f s).
Definition undef_if_none {A} (o : option A) : SB A :=
  fun s => match o with Some a => Done a s | None => Undef end.
Definition when (b : bool) (m : SB unit) : SB unit := if b then m else mret tt.

(** [print_error(msg)] *)
Definition print_error (m : sb_error) : SB unit := fun s =>
  let s := add_error m s in
  if (0 <? sb_error_limit_m s) && (sb_error_limit_m s <=? nb_error s) then Exit s else Done tt s.

(** [seq->deallocate_id(id)] on the sequence's list. *)
Definition release_id (id : Z) : SB unit :=
  modify (fun s => set_ids (deallocate_id id (sb_seq_ids s)).1 s).

(** [for] over a list of indices. *)
Fixpoint for_each {A} (f : A -> SB unit) (l : list A) : SB unit :=
  match l with [] => mret tt | x :: l => f x;; for_each f l end.

(** ** Counters *)
Definition upd_count (f : sb_counters -> sb_counters) : SB unit :=
  modify (fun s => set_count (f (sb_count s)) s).
Definition count_core_req (c : sb_counters) : sb_counters :=
  Build_sb_counters (nb_cycles c) (nb_cycles_effective c) (u64 (nb_core_req c + 1))
    (nb_core_req_need_rsp c) (nb_core_resp c) (nb_mem_read_req c) (nb_mem_read_resp c)
    (nb_mem_write_req c) (nb_mem_write_resp c).
Definition count_need_rsp (c : sb_counters) : sb_counters :=
  Build_sb_counters (nb_cycles c) (nb_cycles_effective c) (nb_core_req c)
    (u64 (nb_core_req_need_rsp c + 1)) (nb_core_resp c) (nb_mem_read_req c) (nb_mem_read_resp c)
    (nb_mem_write_req c) (nb_mem_write_resp c).
Definition count_core_resp (c : sb_counters) : sb_counters :=
  Build_sb_counters (nb_cycles c) (nb_cycles c) (nb_core_req c) (nb_core_req_need_rsp c)
    (u64 (nb_core_resp c + 1)) (nb_mem_read_req c) (nb_mem_read_resp c) (nb_mem_write_req c)
    (nb_mem_write_resp c).
Definition count_mem_read_req (c : sb_counters) : sb_counters :=
  Build_sb_counters (nb_cycles c) (nb_cycles_effective c) (nb_core_req c) (nb_core_req_need_rsp c)
    (nb_core_resp c) (u64 (nb_mem_read_req c + 1)) (nb_mem_read_resp c) (nb_mem_write_req c)
    (nb_mem_write_resp c).
Definition count_mem_read_resp (c : sb_counters) : sb_counters :=
  Build_sb_counters (nb_cycles c) (nb_cycles_effective c) (nb_core_req c) (nb_core_req_need_rsp c)
    (nb_core_resp c) (nb_mem_read_req c) (u64 (nb_mem_read_resp c + 1)) (nb_mem_write_req c)
    (nb_mem_write_resp c).
Definition count_mem_write_req (c : sb_counters) : sb_counters :=
  Build_sb_counters (nb_cycles c) (nb_cycles_effective c) (nb_core_req c) (nb_core_req_need_rsp c)
    (nb_core_resp c) (nb_mem_read_req c) (nb_mem_read_resp c) (u64 (nb_mem_write_req c + 1))
    (nb_mem_write_resp c).
Definition count_mem_write_resp (c : sb_counters) : sb_counters :=
  Build_sb_counters (nb_cycles c) (nb_cycles_effective c) (nb_core_req c) (nb_core_req_need_rsp c)
    (nb_core_resp c) (nb_mem_read_req c) (nb_mem_read_resp c) (nb_mem_write_req c)
    (u64 (nb_mem_write_resp c + 1)).
Definition count_cycle (c : sb_counters) : sb_counters :=
  Build_sb_counters (u64 (nb_cycles c + 1)) (nb_cycles_effective c) (nb_core_req c)
    (nb_core_req_need_rsp c) (nb_core_resp c) (nb_mem_read_req c) (nb_mem_read_resp c)
    (nb_mem_write_req c) (nb_mem_write_resp c).

(** [perf_events_process] *)
Definition bump (b : bool) (n : Z) : Z := if b then u64 (n + 1) else n.
Definition perf_events_process (i : perf_events bool) : SB unit :=
  upd_count count_cycle;;
  modify (fun s => let e := sb_events s in
    set_events {|
      evt_cache_write_miss := bump (evt_cache_write_miss i) (evt_cache_write_miss e);
      evt_cache_read_miss := bump (evt_cache_read_miss i) (evt_cache_read_miss e);
      evt_cache_dir_unc_err := bump (evt_cache_dir_unc_err i) (evt_cache_dir_unc_err e);
      evt_cache_dir_cor_err := bump (evt_cache_dir_cor_err i) (evt_cache_dir_cor_err e);
      evt_cache_dat_unc_err := bump (evt_cache_dat_unc_err i) (evt_cache_dat_unc_err e);
      evt_cache_dat_cor_err := bump (evt_cache_dat_cor_err i) (evt_cache_dat_cor_err e);
      evt_scrub_complete := bump (evt_scrub_complete i) (evt_scrub_complete e);
      evt_uncached_req := bump (evt_uncached_req i) (evt_uncached_req e);
      evt_cmo_req := bump (evt_cmo_req i) (evt_cmo_req e);
      evt_write_req := bump (evt_write_req i) (evt_write_req e);
      evt_read_req := bump (evt_read_req i) (evt_read_req e);
      evt_prefetch_req := bump (evt_prefetch_req i) (evt_prefetch_req e);
      evt_req_on_hold := bump (evt_req_on_hold i) (evt_req_on_hold e);
      evt_rtab_rollback := bump (evt_rtab_rollback i) (evt_rtab_rollback e);
      evt_stall_refill := bump (evt_stall_refill i) (evt_stall_refill e);
      evt_stall := bump (evt_stall i) (evt_stall e);
    |} s).

(** [check_inflight_requests] *)
Definition check_inflight_requests (s : scoreboard) : bool :=
  bool_decide (inflight_mem_write_m s = ∅) && bool_decide (inflight_mem_read_m s = ∅)
  && bool_decide (inflight_m s = ∅).

(** [align_to] *)
Definition align_to (val align : Z) : Z := (val / align) * align.

Section Handlers.
Context {cfg : HpdConfig}.

Definition CORE_REQ_WORDS : Z := HPDCACHE_REQ_WORDS.
Definition CORE_REQ_WORD_BYTES : Z := HPDCACHE_WORD_WIDTH / 8.
Definition CORE_REQ_BYTES : Z := CORE_REQ_WORDS * CORE_REQ_WORD_BYTES.

Definition get_nline (addr : Z) : Z := Z.shiftr addr HPDCACHE_CL_OFFSET_WIDTH.
Definition get_offset (addr : Z) : Z := Z.land addr (Z.shiftl 1 HPDCACHE_CL_OFFSET_WIDTH - 1).

(** The scoreboard's RAM, [ram_model<SCOREBOARD_RAM_SIZE>]. *)
Definition sb_ram_read (r : ram_model) (n addr : Z) : option (list Z * option (list Z)) :=
  read SCOREBOARD_RAM_SIZE r true (Z.to_nat n) addr.
Definition sb_ram_write (buf be : list Z) (n addr : Z) : SB unit :=
  s ← get;
  r ← undef_if_none (write SCOREBOARD_RAM_SIZE (ram_m s) buf be (Z.to_nat n) addr);
  modify (set_ram r).

(** ** [core_req_process] *)

(** The words and byte enables of the request, one [uint64_t] and one [uint8_t]
    per word. *)
Definition core_words (data : Z) : list Z :=
  (fun i => range ((i + 1) * HPDCACHE_WORD_WIDTH - 1) (i * HPDCACHE_WORD_WIDTH) data)
    <$> seqZ 0 CORE_REQ_WORDS.
Definition core_bes (be : Z) : list Z :=
  (fun i => u8 (range ((i + 1) * CORE_REQ_WORD_BYTES - 1) (i * CORE_REQ_WORD_BYTES) be))
    <$> seqZ 0 CORE_REQ_WORDS.

(** The entry: the members the code does not assign keep what the stack slot
    held, [junk]. *)
Definition mk_entry (junk : inflight_entry_t) (time : Z) (segs : option (list segment_t))
    (req : transaction_req) : inflight_entry_t :=
  let bytes := u8 (Z.shiftl 1 (req_size req)) in
  let data := is_store req || is_amo_sc req || is_amo req in
  {| e_time := time; e_tid := req_tid req; e_addr := req_addr req; e_need_rsp := req_need_rsp req;
     e_hit := false; e_is_read := is_load req; e_is_write := is_store req; e_is_amo := is_amo req;
     e_is_amo_sc := is_amo_sc req; e_is_amo_lr := is_amo_lr req; e_is_atomic := e_is_atomic junk;
     e_is_error :=
       match segs with
       | Some segs => (negb (is_cmo req) || is_cmo_prefetch req)
                      && within_error_segs segs (req_addr req) (u64 (req_addr req + bytes))
       | None => false
       end;
     e_op := req_op req; e_is_uncacheable := req_uncacheable req; e_bytes := bytes;
     e_wdata := if data then core_words (req_wdata req) else e_wdata junk;
     e_be := if data then core_bes (req_be req) else e_be junk;
     e_rdata := e_rdata junk; e_rv := e_rv junk |}.

Definition set_rdata (rdata rv : list Z) (e : inflight_entry_t) : inflight_entry_t :=
  {| e_time := e_time e; e_tid := e_tid e; e_addr := e_addr e; e_need_rsp := e_need_rsp e;
     e_hit := e_hit e; e_is_read := e_is_read e; e_is_write := e_is_write e; e_is_amo := e_is_amo e;
     e_is_amo_sc := e_is_amo_sc e; e_is_amo_lr := e_is_amo_lr e; e_is_atomic := e_is_atomic e;
     e_is_error := e_is_error e; e_op := e_op e; e_is_uncacheable := e_is_uncacheable e;
     e_bytes := e_bytes e; e_wdata := e_wdata e; e_be := e_be e; e_rdata := rdata; e_rv := rv |}.
Definition set_atomic (atomic error : bool) (e : inflight_entry_t) : inflight_entry_t :=
  {| e_time := e_time e; e_tid := e_tid e; e_addr := e_addr e; e_need_rsp := e_need_rsp e;
     e_hit := e_hit e; e_is_read := e_is_read e; e_is_write := e_is_write e; e_is_amo := e_is_amo e;
     e_is_amo_sc := e_is_amo_sc e; e_is_amo_lr := e_is_amo_lr e; e_is_atomic := atomic;
     e_is_error := error; e_op := e_op e; e_is_uncacheable := e_is_uncacheable e;
     e_bytes := e_bytes e; e_wdata := e_wdata e; e_be := e_be e; e_rdata := e_rdata e; e_rv := e_rv e |}.

(** Writing [n] bytes to the front of an array. *)
Definition overwrite (new old : list Z) : list Z := new ++ drop (length new) old.

(** The expected data, read from the scoreboard's RAM. *)
Definition expect_data (aligned_addr : Z) (e : inflight_entry_t) : SB inflight_entry_t :=
  s ← get;
  '(buf, valid) ← undef_if_none (sb_ram_read (ram_m s) (HPDCACHE_REQ_DATA_WIDTH / 8) aligned_addr);
  mret (set_rdata (overwrite buf (e_rdata e)) (overwrite (default [] valid) (e_rv e)) e).

Definition lrsc_invalidate (l : lrsc_reservation_buf_t) : lrsc_reservation_buf_t :=
  {| lrsc_valid := false; lrsc_base_addr := lrsc_base_addr l; lrsc_end_addr := lrsc_end_addr l;
     lrsc_is_atomic := lrsc_is_atomic l |}.

(** The reservation a LR makes, or the one it invalidates when it will fail. *)
Definition lr_reserve (e : inflight_entry_t) (l : lrsc_reservation_buf_t) : lrsc_reservation_buf_t :=
  if e_is_error e then lrsc_invalidate l
  else
    {| lrsc_valid := true; lrsc_base_addr := e_addr e; lrsc_end_addr := u64 (e_addr e + 8);
       lrsc_is_atomic := false |}.

(** [addr_match] *)
Definition lrsc_addr_match (l : lrsc_reservation_buf_t) (e : inflight_entry_t) : bool :=
  let rsrv_word := Z.shiftr (get_offset (lrsc_base_addr l)) 3 in
  let entry_words := if e_bytes e <? 8 then 1 else Z.shiftr (e_bytes e) 3 in
  let entry_base := Z.shiftr (get_offset (e_addr e)) 3 in
  let entry_end := entry_base + entry_words in
  lrsc_valid l && (get_nline (lrsc_base_addr l) =? get_nline (e_addr e))
  && (entry_base <=? rsrv_word) && (rsrv_word <? entry_end).

(** The part of the process about reservations: the entry (an SC learns whether it
    may be atomic, and loses its error flag without a reservation) and the buffer. *)
Definition lrsc_update (req : transaction_req) (e : inflight_entry_t) (l : lrsc_reservation_buf_t)
    : inflight_entry_t * lrsc_reservation_buf_t :=
  let l := if is_amo_lr req then lr_reserve e l else l in
  if is_amo req || is_amo_sc req || is_store req then
    let addr_match := lrsc_addr_match l e in
    (if is_amo_sc req then set_atomic addr_match (e_is_error e && addr_match) e else e,
     if addr_match || is_amo_sc req then lrsc_invalidate l else l)
  else (e, l).

(** The depth of [sc_fifo<inflight_entry_t> inflight_amo_req_m], the library's default. *)
Definition AMO_FIFO_SIZE : nat := 16.

(** The end of the process: written data, then the table of in-flight requests. *)
Definition core_req_finish (req : transaction_req) (aligned_addr : Z) (e : inflight_entry_t) : SB unit :=
  when (is_store req && negb (e_is_error e))
    (sb_ram_write (bytes_of_words (e_wdata e)) (e_be e) (HPDCACHE_REQ_DATA_WIDTH / 8) aligned_addr);;
  if req_need_rsp req then modify (fun s => set_inflight (<[req_tid req := e]> (inflight_m s)) s)
  else release_id (req_tid req).

Definition core_req_process (junk : inflight_entry_t) (req : transaction_req) : SB unit :=
  upd_count count_core_req;;
  when (req_need_rsp req) (upd_count count_need_rsp);;
  s ← get;
  if bool_decide (is_Some (inflight_m s !! req_tid req)) then
    print_error (E_core_id_inflight (req_tid req))
  else if is_cmo req && negb (req_need_rsp req) then release_id (req_tid req)
  else
    let e := mk_entry junk (nb_cycles (sb_count s)) (sb_errorsegs s) req in
    let aligned_addr := align_to (req_addr req) (HPDCACHE_REQ_DATA_WIDTH / 8) in
    e ← (if negb (e_is_error e) && (is_load req || is_amo_lr req || is_amo req)
         then expect_data aligned_addr e else mret e);
    s ← get;
    let '(e, l) := lrsc_update req e (lrsc_buf_m s) in
    modify (set_lrsc l);;
    if is_amo req || is_amo_lr req || (is_amo_sc req && e_is_atomic e) then
      if (length (inflight_amo_req_m s) <? AMO_FIFO_SIZE)%nat then
        modify (fun s => set_amo_fifo (inflight_amo_req_m s ++ [e]) s);;
        core_req_finish req aligned_addr e
      else print_error E_amo_fifo_full
    else core_req_finish req aligned_addr e.

(** ** [core_resp_process] *)

Definition e_word (e : inflight_entry_t) : Z := (e_addr e / CORE_REQ_WORD_BYTES) mod CORE_REQ_WORDS.
Definition e_byte (e : inflight_entry_t) : Z := e_addr e mod CORE_REQ_BYTES.

(** The status of an SC: [sc_ok] decides what is expected and whether the data is
    written. *)
Definition check_sc (resp : transaction_resp) (e : inflight_entry_t) : SB unit :=
  let _word := e_word e in
  let sc_resp := range ((_word + 1) * HPDCACHE_WORD_WIDTH - 1) (_word * HPDCACHE_WORD_WIDTH) (rsp_rdata resp) in
  let sc_resp := if e_bytes e =? 4 then u32 sc_resp else sc_resp in
  s ← get;
  if e_is_atomic e && sc_is_atomic s then
    sb_ram_write (drop (Z.to_nat (8 * _word)) (bytes_of_words (e_wdata e)))
      (drop (Z.to_nat _word) (e_be e)) CORE_REQ_WORD_BYTES (align_to (e_addr e) CORE_REQ_WORD_BYTES);;
    when (negb (sc_resp =? 0)) (print_error E_sc_success)
  else when (negb (sc_resp =? 1)) (print_error E_sc_failure).

(** One iteration of the comparison loop: byte [i] of the request's words. *)
Definition check_byte (aligned_addr : Z) (rdata : list Z) (e : inflight_entry_t) (i : Z) : SB unit :=
  recv ← undef_if_none (bytes_of_words rdata !! Z.to_nat i);
  expc ← undef_if_none (e_rdata e !! Z.to_nat i);
  rv ← undef_if_none (e_rv e !! Z.to_nat (i / CORE_REQ_WORD_BYTES));
  when (Z.testbit rv (i mod CORE_REQ_WORD_BYTES) && negb (recv =? expc))
    (print_error (E_data_wrong (u64 (aligned_addr + i)) recv expc)).

(** The update of the RAM with the result of an AMO. *)
Definition update_amo (rdata : list Z) (e : inflight_entry_t) : SB unit :=
  let _word := e_word e in
  let offset := (e_addr e mod CORE_REQ_WORD_BYTES) * CORE_REQ_WORD_BYTES in
  amo_new ← undef_if_none (e_wdata e !! Z.to_nat _word);
  amo_old ← undef_if_none (rdata !! Z.to_nat _word);
  let '(amo_new, amo_old) :=
    if e_bytes e =? 4 then (u32 (Z.shiftr amo_new offset), u32 (Z.shiftr amo_old offset))
    else (amo_new, amo_old) in
  amo_res ← undef_if_none (core_compute_amo (e_op e) amo_old amo_new (e_bytes e));
  amo_be ← undef_if_none (e_be e !! Z.to_nat _word);
  sb_ram_write (bytes_of_words [u64 (Z.shiftl amo_res offset)]) [amo_be] CORE_REQ_WORD_BYTES
    (align_to (e_addr e) CORE_REQ_WORD_BYTES).

Definition check_data (resp : transaction_resp) (e : inflight_entry_t) : SB unit :=
  let rdata := core_words (rsp_rdata resp) in
  for_each (check_byte (align_to (e_addr e) CORE_REQ_BYTES) rdata e) (seqZ (e_byte e) (e_bytes e));;
  when (e_is_amo e) (update_amo rdata e).

Definition core_resp_process (resp : transaction_resp) : SB unit :=
  upd_count count_core_resp;;
  s ← get;
  match inflight_m s !! rsp_tid resp with
  | None => print_error (E_core_resp_unmatched (rsp_tid resp))
  | Some e =>
      if negb (e_is_write e) && negb (Bool.eqb (rsp_error resp) (e_is_error e)) then
        print_error E_error_flag
      else
        when (negb (e_is_error e))
          (when (e_is_amo_sc e) (check_sc resp e);;
           when (e_is_read e || e_is_amo e || e_is_amo_lr e) (check_data resp e));;
        modify (fun s => set_inflight (delete (rsp_tid resp) (inflight_m s)) s);;
        release_id (rsp_tid resp)
  end.

(** ** The memory side *)

(** The core request a memory request is attributed to: the oldest in-flight entry
    of the same line, the one with the smallest identifier among the oldest (the
    loop walks the map in the order of its keys and keeps the first). *)
Definition older (a b : Z * inflight_entry_t) : bool :=
  (e_time a.2 <? e_time b.2) || ((e_time a.2 =? e_time b.2) && (a.1 <? b.1)).
Definition find_core_req (addr : Z) (m : gmap Z inflight_entry_t) : option Z :=
  fst <$> map_fold (fun k e best =>
    if get_nline (e_addr e) =? get_nline addr then
      match best with
      | None => Some (k, e)
      | Some b => if older (k, e) b then Some (k, e) else best
      end
    else best) None m.

Definition mk_mem_entry (segs : list (segment_t)) (core : option Z) (req : mem_req) : inflight_mem_entry_t :=
  let bytes := Z.shiftl 1 (mreq_size req) in
  {| m_addr := mreq_addr req; m_bytes := u8 bytes; m_is_uncacheable := negb (mreq_cacheable req);
     m_is_error := within_error_segs segs (mreq_addr req) (u64 (mreq_addr req + bytes));
     m_core_req_ptr := core |}.

(** Taking the shared atomic request: the two checks the three callers make; the
    continuation is the rest of the iteration. *)
Definition pop_amo (empty : sb_error) (k : inflight_entry_t -> SB unit) : SB unit :=
  s ← get;
  when (1 <? length (inflight_amo_req_m s))%nat (print_error E_single_atomic);;
  match inflight_amo_req_m s with
  | [] => print_error empty
  | e :: rest => modify (set_amo_fifo rest);; k e
  end.

Definition mem_read_req_process (req : mem_req) : SB unit :=
  upd_count count_mem_read_req;;
  s ← get;
  if bool_decide (is_Some (inflight_mem_read_m s !! mreq_id req)) then
    print_error (E_mem_read_id_inflight (mreq_id req))
  else
    segs ← undef_if_none (sb_errorsegs s);
    let e := mk_mem_entry segs (find_core_req (mreq_addr req) (inflight_m s)) req in
    modify (set_mem_read (<[mreq_id req := e]> (inflight_mem_read_m s)));;
    when (mem_is_ldex req) (pop_amo E_unexpected_ldex (fun _ => mret tt)).

(** The shifts of the refill's mask: [uint64_t] shifted by an [int]. *)
Definition shl64 (a n : Z) : option Z :=
  if (0 <=? n) && (n <? 64) then Some (u64 (Z.shiftl a n)) else None.

Definition MEM_WORDS : Z := HPDCACHE_MEM_DATA_WIDTH / 64.
Definition MEM_BYTES : Z := HPDCACHE_MEM_DATA_WIDTH / 8.

(** [unset]: for each byte of the bus word, whether the RAM has never been written. *)
Definition unset_bits (r : ram_model) (aligned_addr i : Z) : Z :=
  foldr (fun k acc => Z.lor acc
    (Z.shiftl (if getBmap SCOREBOARD_RAM_SIZE r (u64 (aligned_addr + (8 * i + k))) then 0 else 1) k))
    0 (seqZ 0 8).
Definition refill_unset (r : ram_model) (aligned_addr : Z) : list Z :=
  unset_bits r aligned_addr <$> seqZ 0 MEM_WORDS.

(** The loop that fills [be], from index [i], with [bytes] bytes left. *)
Fixpoint refill_be (fuel : nat) (i bytes _byte : Z) (unset be : list Z) : option (list Z) :=
  if bytes <=? 0 then Some be else
  match fuel with
  | O => None
  | S fuel =>
      m ← shl64 1 bytes;
      mask ← shl64 (u64 (m - 1)) (_byte - i * 8);
      u ← unset !! Z.to_nat i;
      refill_be fuel (i + 1) (bytes - 8) _byte unset (<[Z.to_nat i := Z.land (u8 mask) u]> be)
  end.

Definition refill (resp : mem_read_resp) (e : inflight_mem_entry_t) : SB unit :=
  let aligned_addr := align_to (m_addr e) MEM_BYTES in
  let _word := (m_addr e / MEM_BYTES) mod MEM_WORDS in
  let _byte := m_addr e mod MEM_BYTES in
  let rdata := (fun i => noc_slice i (rresp_data resp)) <$> seqZ 0 MEM_WORDS in
  s ← get;
  let unset := refill_unset (ram_m s) aligned_addr in
  be ← undef_if_none (refill_be 32 _word (m_bytes e) _byte unset (replicate (Z.to_nat MEM_WORDS) 0));
  sb_ram_write (bytes_of_words rdata) be MEM_BYTES aligned_addr.

Definition mem_read_resp_process (resp : mem_read_resp) : SB unit :=
  upd_count count_mem_read_resp;;
  s ← get;
  match inflight_mem_read_m s !! rresp_id resp with
  | None => print_error (E_mem_read_resp_unmatched (rresp_id resp))
  | Some e =>
      when (rresp_error resp =? 0) (refill resp e);;
      when (rresp_last resp)
        (modify (fun s => set_mem_read (delete (rresp_id resp) (inflight_mem_read_m s)) s))
  end.

(** [std::map::insert] keeps the element already there. *)
Definition map_insert {A} (k : Z) (v : A) (m : gmap Z A) : gmap Z A :=
  match m !! k with Some _ => m | None => <[k := v]> m end.

Definition mem_write_req_process (wr : mem_write_req) : SB unit :=
  let req := wreq wr in
  upd_count count_mem_write_req;;
  s ← get;
  if bool_decide (is_Some (inflight_mem_write_m s !! mreq_id req)) then
    print_error (E_mem_write_id_inflight (mreq_id req))
  else
    let core_req := find_core_req (mreq_addr req) (inflight_m s) in
    segs ← undef_if_none (sb_errorsegs s);
    let e := mk_mem_entry segs core_req req in
    modify (set_mem_write (<[mreq_id req := e]> (inflight_mem_write_m s)));;
    if mem_is_amo req then
      pop_amo E_unexpected_amo (fun _ =>
        when (bool_decide (core_req = None)) (print_error E_amo_no_core_request);;
        modify (fun s => set_mem_read (map_insert (mreq_id req) e (inflight_mem_read_m s)) s))
    else if mem_is_stex req then
      pop_amo E_unexpected_stex (fun entry =>
        if negb (e_is_atomic entry) then print_error E_stex_no_reservation
        else when (bool_decide (core_req = None)) (print_error E_sc_no_core_request))
    else mret tt.

Definition mem_write_resp_process (resp : mem_write_resp) : SB unit :=
  upd_count count_mem_write_resp;;
  s ← get;
  match inflight_mem_write_m s !! wresp_id resp with
  | None => print_error (E_mem_write_resp_unmatched (wresp_id resp))
  | Some _ =>
      modify (set_sc_is_atomic (wresp_is_atomic resp));;
      modify (fun s => set_mem_write (delete (wresp_id resp) (inflight_mem_write_m s)) s)
  end.

(** The checks of the destructor. *)
Definition final_checks : SB unit :=
  s ← get;
  when (negb (nb_core_resp (sb_count s) =? nb_core_req_need_rsp (sb_count s)))
    (print_error E_final_responses);;
  when (evt_write_req (sb_events s) <? evt_cache_write_miss (sb_events s))
    (print_error E_final_write_misses);;
  when (evt_read_req (sb_events s) <? evt_cache_read_miss (sb_events s))
    (print_error E_final_read_misses);;
  when (0 <? length (sb_seq_ids s))%nat (print_error E_final_unresponded_ids).
End Handlers.
