(* ===== verification/ScoreboardProps.v ===== *)
(** * Properties of the scoreboard

    Proved on the handlers of [Scoreboard.v]: the error count and its limit, and the
    accounting of in-flight requests and identifiers over any interleaving of the
    processes. The reservation and the data are in [ScoreboardLrsc] and
    [ScoreboardData]. *)
From S2P Require Import Prelude Defs Transaction RamModel Amo MemResp Sequence Scoreboard.

(** ** Reasoning about handlers *)

(** [post m s Q]: if [m] returns from [s], it returns a state satisfying [Q]. *)
Definition post {A} (m : SB A) (s : scoreboard) (Q : A -> scoreboard -> Prop) : Prop :=
  match m s with Done a s' => Q a s' | Exit _ | Undef => True end.

Section Post.
Context {A B : Type}.

Lemma post_ret (a : A) s (Q : A -> scoreboard -> Prop) : Q a s -> post (mret a) s Q.
Proof. done. Qed.

Lemma post_bind (m : SB A) (f : A -> SB B) s Q :
  post m s (fun a s' => post (f a) s' Q) -> post (m ≫= f) s Q.
Proof. unfold post, mbind, SB_bind. destruct (m s); done. Qed.

Lemma post_weaken (m : SB A) s (P Q : A -> scoreboard -> Prop) :
  (forall a s', P a s' -> Q a s') -> post m s P -> post m s Q.
Proof. unfold post. destruct (m s); auto. Qed.
End Post.

Lemma post_get s (Q : scoreboard -> scoreboard -> Prop) : Q s s -> post get s Q.
Proof. done. Qed.
Lemma post_modify f s (Q : unit -> scoreboard -> Prop) : Q tt (f s) -> post (modify f) s Q.
Proof. done. Qed.
Lemma post_undef {A} (o : option A) s (Q : A -> scoreboard -> Prop) :
  (forall a, o = Some a -> Q a s) -> post (undef_if_none o) s Q.
Proof. unfold post, undef_if_none. destruct o; auto. Qed.
Lemma post_print m s (Q : unit -> scoreboard -> Prop) : Q tt (add_error m s) -> post (print_error m) s Q.
Proof. unfold post, print_error. by destruct (_ && _). Qed.
Lemma post_when b m s (Q : unit -> scoreboard -> Prop) :
  (b = true -> post m s Q) -> (b = false -> Q tt s) -> post (when b m) s Q.
Proof. intros H1 H2. unfold when. destruct b; [by apply H1|by apply post_ret, H2]. Qed.

(** ** The error count

    [logged l s s']: the fields the error report uses, after more messages [l]. *)
Definition err_ok (s : scoreboard) : Prop :=
  (sb_error_limit_m s <= 0 \/ nb_error s < sb_error_limit_m s) /\
  nb_error s = u64 (Z.of_nat (length (sb_log s))).

Definition extends (s s' : scoreboard) : Prop :=
  sb_error_limit_m s' = sb_error_limit_m s /\ sb_log s `prefix_of` sb_log s'.

#[export] Instance extends_preorder : PreOrder extends.
Proof. split; [by intros s|]. intros a b c [H1 H2] [H3 H4]. split; [congruence|by etrans]. Qed.

(** A computation that counts its errors: it keeps the log and the limit, and
    exits exactly when the count reaches the limit. *)
Definition counts {A} (m : SB A) : Prop := forall s, err_ok s ->
  match m s with
  | Done _ s' => err_ok s' /\ extends s s'
  | Exit s' => extends s s' /\ 0 < sb_error_limit_m s /\ sb_error_limit_m s <= nb_error s'
  | Undef => True
  end.

Create HintDb counts.

Lemma counts_ret {A} (a : A) : counts (mret a).
Proof. by intros s H. Qed.
Lemma counts_bind {A B} (m : SB A) (f : A -> SB B) :
  counts m -> (forall a, counts (f a)) -> counts (m ≫= f).
Proof.
  intros Hm Hf s Hs. unfold mbind, SB_bind. specialize (Hm s Hs).
  destruct (m s) as [a s1|s1|]; [|done|done]. destruct Hm as [Hs1 He].
  specialize (Hf a s1 Hs1). destruct (f a s1) as [b s2|s2|]; [|..|done].
  - destruct Hf as [Hs2 He2]. split; [done|by etrans].
  - destruct Hf as (He2 & H1 & H2). pose proof (proj1 He) as Hl. rewrite Hl in *.
    split_and!; [by etrans|done|done].
Qed.
Lemma counts_get : counts get.
Proof. by intros s H. Qed.
Lemma counts_modify f :
  (forall s, nb_error (f s) = nb_error s /\ sb_error_limit_m (f s) = sb_error_limit_m s /\
             sb_log (f s) = sb_log s) -> counts (modify f).
Proof.
  intros Hf s [H1 H2]. destruct (Hf s) as (E1 & E2 & E3). simpl. unfold err_ok, extends.
  by rewrite E1, E2, E3.
Qed.
Lemma counts_undef {A} (o : option A) : counts (undef_if_none o).
Proof. intros s Hs. unfold undef_if_none. by destruct o. Qed.
Lemma counts_print m : counts (print_error m).
Proof.
  intros s [H1 H2]. unfold print_error.
  assert (extends s (add_error m s)) as He by (split; [done|]; by exists [m]).
  destruct ((0 <? _) && _) eqn:E.
  - apply andb_prop in E as [E1%Z.ltb_lt E2%Z.leb_le]. done.
  - split; [|done]. unfold err_ok. split.
    + apply andb_false_iff in E as [E%Z.ltb_ge|E%Z.leb_gt]; [by left|by right].
    + simpl. rewrite H2, length_app. simpl. unfold wrap. rewrite Zplus_mod_idemp_l. f_equal. lia.
Qed.
Lemma counts_when b m : counts m -> counts (when b m).
Proof. intros H. unfold when. destruct b; [done|apply counts_ret]. Qed.
Lemma counts_for_each {A} (f : A -> SB unit) l : (forall x, counts (f x)) -> counts (for_each f l).
Proof.
  intros Hf. induction l as [|x l IH]; simpl; [apply counts_ret|]. apply counts_bind; auto.
Qed.
#[export] Hint Resolve counts_ret counts_bind counts_get counts_undef counts_print counts_when
  counts_for_each : counts.
#[export] Hint Extern 1 (counts (modify _)) => apply counts_modify; intros; split_and!; reflexivity : counts.

(** Decomposes a handler down to its primitives. *)
Ltac counts_tac :=
  repeat first
    [ progress intros
    | apply counts_bind
    | apply counts_for_each
    | apply counts_when
    | match goal with |- counts (if ?b then _ else _) => destruct b end
    | match goal with |- counts (match ?x with _ => _ end) => destruct x end
    | match goal with |- counts (let '(_, _) := ?x in _) => destruct x end ];
  auto with counts.

Section Counts.
Context {cfg : HpdConfig}.

Lemma counts_ram_write buf be n addr : counts (sb_ram_write buf be n addr).
Proof. unfold sb_ram_write. counts_tac. Qed.
Hint Resolve counts_ram_write : counts.

Lemma counts_core_req junk req : counts (core_req_process junk req).
Proof.
  unfold core_req_process, upd_count, release_id, expect_data, core_req_finish. counts_tac.
Qed.

Lemma counts_core_resp resp : counts (core_resp_process resp).
Proof.
  unfold core_resp_process, check_sc, check_data, check_byte, update_amo, release_id, upd_count.
  counts_tac.
Qed.

Lemma counts_mem_read_req req : counts (mem_read_req_process req).
Proof. unfold mem_read_req_process, pop_amo, upd_count. counts_tac. Qed.

Lemma counts_mem_read_resp resp : counts (mem_read_resp_process resp).
Proof. unfold mem_read_resp_process, refill, upd_count. counts_tac. Qed.

Lemma counts_mem_write_req req : counts (mem_write_req_process req).
Proof. unfold mem_write_req_process, pop_amo, upd_count. counts_tac. Qed.

Lemma counts_mem_write_resp resp : counts (mem_write_resp_process resp).
Proof. unfold mem_write_resp_process, upd_count. counts_tac. Qed.

Lemma counts_perf i : counts (perf_events_process i).
Proof. unfold perf_events_process, upd_count. counts_tac. Qed.

Lemma counts_final : counts final_checks.
Proof. unfold final_checks. counts_tac. Qed.
End Counts.

(** ** Runs: any interleaving of the processes *)
Inductive sb_event :=
  | EvAllocate (id : Z)                                   (* the sequence takes an identifier *)
  | EvCoreReq (junk : inflight_entry_t) (req : transaction_req)
  | EvCoreResp (resp : transaction_resp)
  | EvMemReadReq (req : mem_req)
  | EvMemReadResp (resp : mem_read_resp)
  | EvMemWriteReq (req : mem_write_req)
  | EvMemWriteResp (resp : mem_write_resp)
  | EvCycle (i : perf_events bool).

(** The log grows by [k]. *)
Definition log_extends (k : list sb_error) (s s' : scoreboard) : Prop := sb_log s' = sb_log s ++ k.

(** The message about a core request whose identifier is in flight. *)
Definition is_dup (m : sb_error) : bool := match m with E_core_id_inflight _ => true | _ => false end.
Definition no_dup (k : list sb_error) : Prop := Forall (fun m => is_dup m = false) k.

(** The part of the state the accounting is about; of the messages, only the one
    about identifiers is. *)
Definition same_accounts (s s' : scoreboard) : Prop :=
  inflight_m s' = inflight_m s /\ sb_seq_ids s' = sb_seq_ids s /\
  nb_core_req_need_rsp (sb_count s') = nb_core_req_need_rsp (sb_count s) /\
  nb_core_resp (sb_count s') = nb_core_resp (sb_count s) /\
  exists k, log_extends k s s' /\ no_dup k.

#[export] Instance same_accounts_preorder : PreOrder same_accounts.
Proof.
  split.
  - intros s. split_and!; try done. exists []. split; [symmetry; apply app_nil_r|constructor].
  - intros a b c (?&?&?&?&k1&Hk1&?) (?&?&?&?&k2&Hk2&?). split_and!; try congruence.
    exists (k1 ++ k2). split; [|by apply Forall_app_2]. unfold log_extends in *. by rewrite Hk2, Hk1, app_assoc.
Qed.

(** Computations that keep a relation between the state they start from and the
    one they return. *)
Definition keeps (R : relation scoreboard) {A} (m : SB A) : Prop := forall s, post m s (fun _ s' => R s s').

Lemma keeps_post (R : relation scoreboard) {A} (m : SB A) s (Q : scoreboard -> Prop) :
  keeps R m -> (forall s', R s s' -> Q s') -> post m s (fun _ s' => Q s').
Proof. intros Hm HQ. eapply post_weaken; [|apply Hm]. auto. Qed.

Section Keeps.
Context (R : relation scoreboard) {HR : PreOrder R}.

Lemma keeps_ret {A} (a : A) : keeps R (mret a).
Proof. intros s. apply post_ret. reflexivity. Qed.
Lemma keeps_bind {A B} (m : SB A) (f : A -> SB B) :
  keeps R m -> (forall a, keeps R (f a)) -> keeps R (m ≫= f).
Proof.
  intros Hm Hf s. apply post_bind. eapply post_weaken; [|apply Hm]. intros a s1 H1.
  eapply post_weaken; [|apply Hf]. intros b s2 H2. etrans; [exact H1|exact H2].
Qed.
Lemma keeps_get : keeps R get.
Proof. intros s. apply post_get. reflexivity. Qed.
Lemma keeps_modify f : (forall s, R s (f s)) -> keeps R (modify f).
Proof. intros H s. apply post_modify, H. Qed.
Lemma keeps_undef {A} (o : option A) : keeps R (undef_if_none o).
Proof. intros s. apply post_undef. reflexivity. Qed.
Lemma keeps_print m : (forall s, R s (add_error m s)) -> keeps R (print_error m).
Proof. intros H s. apply post_print, H. Qed.
Lemma keeps_when b m : keeps R m -> keeps R (when b m).
Proof. intros H. unfold when. destruct b; [done|apply keeps_ret]. Qed.
Lemma keeps_for_each {A} (f : A -> SB unit) l : (forall x, keeps R (f x)) -> keeps R (for_each f l).
Proof.
  intros Hf. induction l as [|x l IH]; simpl; [apply keeps_ret|]. apply keeps_bind; auto.
Qed.
Lemma keeps_if {A} (b : bool) (m1 m2 : SB A) : keeps R m1 -> keeps R m2 -> keeps R (if b then m1 else m2).
Proof. by destruct b. Qed.
End Keeps.

Notation frames := (keeps same_accounts).

Create HintDb frames.

Lemma add_error_accounts m s : is_dup m = false -> same_accounts s (add_error m s).
Proof.
  intros Hm. split_and!; try done. exists [m]. split; [done|]. by repeat constructor.
Qed.
#[export] Hint Resolve keeps_ret keeps_bind keeps_get keeps_undef keeps_when keeps_for_each
  same_accounts_preorder : frames.
#[export] Hint Extern 1 (frames (print_error _)) =>
  apply keeps_print; intros; apply add_error_accounts; reflexivity : frames.
#[export] Hint Extern 1 (frames (modify _)) =>
  apply keeps_modify; intros s0; exact (reflexivity (R := same_accounts) s0) : frames.

Ltac frames_tac :=
  repeat first
    [ progress intros
    | apply keeps_bind; [apply _|..]
    | apply keeps_for_each; [apply _|]
    | apply keeps_when; [apply _|]
    | match goal with |- frames (if ?b then _ else _) => destruct b end
    | match goal with |- frames (match ?x with _ => _ end) => destruct x end
    | match goal with |- frames (let '(_, _) := ?x in _) => destruct x end ];
  auto with frames.

Section Accounts.
Context {cfg : HpdConfig}.

Definition handle (ev : sb_event) : SB unit :=
  match ev with
  | EvAllocate id => modify (fun s => set_ids (sb_seq_ids s ++ [id]) s)
  | EvCoreReq junk req => core_req_process junk req
  | EvCoreResp resp => core_resp_process resp
  | EvMemReadReq req => mem_read_req_process req
  | EvMemReadResp resp => mem_read_resp_process resp
  | EvMemWriteReq req => mem_write_req_process req
  | EvMemWriteResp resp => mem_write_resp_process resp
  | EvCycle i => perf_events_process i
  end.

Lemma counts_handle ev : counts (handle ev).
Proof.
  destruct ev; simpl; auto using counts_core_req, counts_core_resp, counts_mem_read_req,
    counts_mem_read_resp, counts_mem_write_req, counts_mem_write_resp, counts_perf with counts.
Qed.

Lemma frames_ram_write buf be n addr : frames (sb_ram_write buf be n addr).
Proof. unfold sb_ram_write. frames_tac. Qed.
Hint Resolve frames_ram_write : frames.

Lemma frames_mem_read_req req : frames (mem_read_req_process req).
Proof. unfold mem_read_req_process, pop_amo, upd_count. frames_tac. Qed.
Lemma frames_mem_read_resp resp : frames (mem_read_resp_process resp).
Proof. unfold mem_read_resp_process, refill, upd_count. frames_tac. Qed.
Lemma frames_mem_write_req req : frames (mem_write_req_process req).
Proof. unfold mem_write_req_process, pop_amo, upd_count. frames_tac. Qed.
Lemma frames_mem_write_resp resp : frames (mem_write_resp_process resp).
Proof. unfold mem_write_resp_process, upd_count. frames_tac. Qed.
Lemma frames_perf i : frames (perf_events_process i).
Proof. unfold perf_events_process, upd_count. frames_tac. Qed.
Lemma frames_check_sc resp e : frames (check_sc resp e).
Proof. unfold check_sc. frames_tac. Qed.
Lemma frames_check_data resp e : frames (check_data resp e).
Proof. unfold check_data, check_byte, update_amo. frames_tac. Qed.
Lemma frames_expect_data a e : frames (expect_data a e).
Proof. unfold expect_data. frames_tac. Qed.

(** What the environment guarantees: an identifier is taken when it is free, and a
    request that wants a response carries an identifier in use. *)
Definition event_ok (s : scoreboard) (ev : sb_event) : Prop :=
  match ev with
  | EvAllocate id => id ∉ sb_seq_ids s
  | EvCoreReq _ req => req_need_rsp req = true -> req_tid req ∈ sb_seq_ids s
  | _ => True
  end.

(** The accounting invariant. *)
Record accounts_inv (s : scoreboard) : Prop := {
  acc_ids : NoDup (sb_seq_ids s);
  acc_inflight id : is_Some (inflight_m s !! id) -> id ∈ sb_seq_ids s;
  acc_balance : sb_log s = [] ->
    nb_core_req_need_rsp (sb_count s) =
    u64 (nb_core_resp (sb_count s) + Z.of_nat (size (inflight_m s)));
}.

(** A log that grew is empty only if it was and nothing was added. *)
Lemma log_extends_nil k s s' : log_extends k s s' -> sb_log s' = [] -> sb_log s = [] /\ k = [].
Proof. unfold log_extends. intros -> H. by apply app_nil in H. Qed.

Lemma same_accounts_inv s s' : same_accounts s s' -> accounts_inv s -> accounts_inv s'.
Proof.
  intros (E1 & E2 & E3 & E4 & k & Hk & _) [H1 H2 H3]. split; rewrite ?E1, ?E2, ?E3, ?E4; try done.
  intros Hl. destruct (log_extends_nil _ _ _ Hk Hl). by apply H3.
Qed.

Lemma u64_succ x : u64 (u64 x + 1) = u64 (x + 1).
Proof. unfold wrap. by rewrite Zplus_mod_idemp_l. Qed.

Lemma release_ids {A} id (m : gmap Z A) ids :
  NoDup ids -> (forall x, is_Some (m !! x) -> x ∈ ids) -> m !! id = None ->
  NoDup (deallocate_id id ids).1 /\ forall x, is_Some (m !! x) -> x ∈ (deallocate_id id ids).1.
Proof.
  intros H1 H2 Hid. unfold deallocate_id. pose proof (erase_id_spec id ids) as He.
  destruct (erase_id id ids) as [ids'|]; simpl; [|split; done]. destruct He as [_ Hp]. split.
  - rewrite Hp in H1. by apply list.NoDup_cons in H1 as [_ H1].
  - intros x Hx. apply H2 in Hx as Hin. rewrite Hp in Hin.
    apply elem_of_cons in Hin as [Heq|Hin]; [|done]. rewrite Heq, Hid in Hx. by destruct Hx.
Qed.

(** *** What a core request does to the accounts *)

(** The counters after a request, and the three ways it ends: refused with a
    message, tracked until its response, or done with and its identifier free. *)
Record req_effect (req : transaction_req) (k : list sb_error) (s s' : scoreboard) : Prop := {
  re_need : nb_core_req_need_rsp (sb_count s') =
            if req_need_rsp req then u64 (nb_core_req_need_rsp (sb_count s) + 1)
            else nb_core_req_need_rsp (sb_count s);
  re_resp : nb_core_resp (sb_count s') = nb_core_resp (sb_count s);
  re_log : log_extends k s s';
  re_dup : inflight_m s !! req_tid req = None -> no_dup k;
  re_end :
    (k <> [] /\ inflight_m s' = inflight_m s /\ sb_seq_ids s' = sb_seq_ids s) \/
    (inflight_m s !! req_tid req = None /\
     if req_need_rsp req then
       (exists e, inflight_m s' = <[req_tid req := e]> (inflight_m s)) /\ sb_seq_ids s' = sb_seq_ids s
     else inflight_m s' = inflight_m s /\
          sb_seq_ids s' = (deallocate_id (req_tid req) (sb_seq_ids s)).1);
}.

(** The state once the request is counted. *)
Definition counted (req : transaction_req) (s : scoreboard) : scoreboard :=
  let c := count_core_req (sb_count s) in
  set_count (if req_need_rsp req then count_need_rsp c else c) s.

Lemma counted_need req s :
  nb_core_req_need_rsp (sb_count (counted req s)) =
  if req_need_rsp req then u64 (nb_core_req_need_rsp (sb_count s) + 1)
  else nb_core_req_need_rsp (sb_count s).
Proof. unfold counted. simpl. by destruct (req_need_rsp req). Qed.
Lemma counted_resp req s : nb_core_resp (sb_count (counted req s)) = nb_core_resp (sb_count s).
Proof. unfold counted. simpl. by destruct (req_need_rsp req). Qed.

Lemma req_effect_refused req m s s1 :
  same_accounts (counted req s) s1 -> is_dup m = false \/ is_Some (inflight_m s !! req_tid req) ->
  exists k, req_effect req k s (add_error m s1).
Proof.
  intros (E1 & E2 & E3 & E4 & k & Hk & Hd) Hm. exists (k ++ [m]).
  rewrite counted_need in E3. rewrite counted_resp in E4. constructor; simpl; try done.
  - unfold log_extends in *. simpl. by rewrite Hk, app_assoc.
  - intros Hn. apply Forall_app. split; [done|]. rewrite Hn in Hm.
    destruct Hm as [Hm|[? [=]]]. by constructor.
  - left. split_and!; [|done..]. by destruct k.
Qed.

Lemma req_effect_end req s s1 f :
  same_accounts (counted req s) s1 -> inflight_m s !! req_tid req = None ->
  sb_count (f s1) = sb_count s1 -> sb_log (f s1) = sb_log s1 ->
  (if req_need_rsp req then
     (exists e, inflight_m (f s1) = <[req_tid req := e]> (inflight_m s1)) /\ sb_seq_ids (f s1) = sb_seq_ids s1
   else inflight_m (f s1) = inflight_m s1 /\
        sb_seq_ids (f s1) = (deallocate_id (req_tid req) (sb_seq_ids s1)).1) ->
  post (modify f) s1 (fun _ s' => exists k, req_effect req k s s').
Proof.
  intros (E1 & E2 & E3 & E4 & k & Hk & Hd) Hn Hc Hl Hf. apply post_modify. exists k.
  rewrite counted_need in E3. rewrite counted_resp in E4. simpl in *. rewrite E1, E2 in Hf.
  constructor; rewrite ?Hc; try done; [|by right]. unfold log_extends in *. by rewrite Hl, Hk.
Qed.

Lemma core_req_finish_effect req a e s s1 :
  same_accounts (counted req s) s1 -> inflight_m s !! req_tid req = None ->
  post (core_req_finish req a e) s1 (fun _ s' => exists k, req_effect req k s s').
Proof.
  intros H1 Hn. unfold core_req_finish. apply post_bind.
  eapply post_weaken; [|apply (keeps_when same_accounts _ _ (frames_ram_write _ _ _ _))].
  intros u s2 H2. assert (same_accounts (counted req s) s2) as H by (by etrans).
  destruct (req_need_rsp req) eqn:En; apply req_effect_end; rewrite ?En; eauto.
Qed.

Lemma core_req_effect junk req s :
  post (core_req_process junk req) s (fun _ s' => exists k, req_effect req k s s').
Proof.
  unfold core_req_process. apply post_bind, post_modify, post_bind.
  apply (post_weaken _ _ (fun _ s1 => s1 = counted req s)).
  2:{ unfold when, counted. by destruct (req_need_rsp req). }
  intros _ s1 ->. apply post_bind, post_get. set (s1 := counted req s).
  assert (same_accounts s1 s1) as Hs1 by reflexivity.
  case_bool_decide as Hdup; [by apply post_print, req_effect_refused; auto|].
  assert (inflight_m s !! req_tid req = None) as Hn by (by apply eq_None_not_Some).
  destruct (is_cmo req && negb (req_need_rsp req)) eqn:Ecmo.
  { apply andb_prop in Ecmo as [_ En%negb_true_iff]. apply req_effect_end; rewrite ?En; auto. }
  apply post_bind. eapply post_weaken;
    [|exact (keeps_if same_accounts _ _ _ (frames_expect_data _ _) (keeps_ret _ _) s1)].
  intros e s2 H2. apply post_bind, post_get.
  destruct (lrsc_update req e (lrsc_buf_m s2)) as [e1 l] eqn:El. apply post_bind, post_modify.
  assert (same_accounts s1 (set_lrsc l s2)) as H3 by (by etrans; [exact H2|exact (reflexivity (R := same_accounts) s2)]).
  destruct (_ || _ || _); [|by apply core_req_finish_effect].
  destruct (_ <? _)%nat; [|by apply post_print, req_effect_refused; auto].
  apply post_bind, post_modify, core_req_finish_effect; [|done].
  etrans; [exact H3|exact (reflexivity (R := same_accounts) (set_lrsc l s2))].
Qed.

Lemma core_req_accounts junk req s :
  accounts_inv s -> event_ok s (EvCoreReq junk req) ->
  post (core_req_process junk req) s (fun _ s' => accounts_inv s').
Proof.
  intros [H1 H2 H3] Hok. eapply post_weaken; [|apply core_req_effect].
  intros _ s' [k [E3 E4 Hk _ Hend]]. simpl in Hok.
  destruct Hend as [(Hne & E1 & E2)|[Hn Hend]].
  { split; rewrite ?E1, ?E2; [done..|]. intros Hl. by apply (log_extends_nil _ _ _ Hk) in Hl as [_ ?]. }
  destruct (req_need_rsp req) eqn:En.
  - destruct Hend as [[e E1] E2]. split; rewrite ?E1, ?E2, ?E3, ?E4; [done|..].
    + intros x Hx. destruct (decide (x = req_tid req)) as [->|]; [by apply Hok|].
      rewrite lookup_insert_ne in Hx by done. by apply H2.
    + intros [Hl _]%(log_extends_nil _ _ _ Hk). rewrite H3 by done.
      rewrite map_size_insert_None by done. rewrite u64_succ. f_equal. lia.
  - destruct Hend as [E1 E2].
    destruct (release_ids (req_tid req) (inflight_m s) (sb_seq_ids s)) as [A1 A2]; [done..|].
    split; rewrite ?E1, ?E2, ?E3, ?E4; [done..|].
    intros [Hl _]%(log_extends_nil _ _ _ Hk). by apply H3.
Qed.

(** *** What a core response does to the accounts *)

(** The checks of a response, before the entry is removed. *)
Lemma frames_checks resp e :
  frames (when (negb (e_is_error e))
    (when (e_is_amo_sc e) (check_sc resp e);;
     when (e_is_read e || e_is_amo e || e_is_amo_lr e) (check_data resp e))).
Proof. frames_tac; auto using frames_check_sc, frames_check_data. Qed.

Record resp_effect (resp : transaction_resp) (k : list sb_error) (s s' : scoreboard) : Prop := {
  pe_need : nb_core_req_need_rsp (sb_count s') = nb_core_req_need_rsp (sb_count s);
  pe_resp : nb_core_resp (sb_count s') = u64 (nb_core_resp (sb_count s) + 1);
  pe_log : log_extends k s s';
  pe_dup : no_dup k;
  pe_end :
    (k <> [] /\ inflight_m s' = inflight_m s /\ sb_seq_ids s' = sb_seq_ids s) \/
    (is_Some (inflight_m s !! rsp_tid resp) /\
     inflight_m s' = delete (rsp_tid resp) (inflight_m s) /\
     sb_seq_ids s' = (deallocate_id (rsp_tid resp) (sb_seq_ids s)).1);
}.

Lemma core_resp_effect resp s :
  post (core_resp_process resp) s (fun _ s' => exists k, resp_effect resp k s s').
Proof.
  unfold core_resp_process. apply post_bind, post_modify, post_bind, post_get. simpl.
  set (s1 := set_count (count_core_resp (sb_count s)) s).
  assert (forall m, is_dup m = false -> exists k, resp_effect resp k s (add_error m s1)) as Hr.
  { intros m Hm. exists [m]. constructor; try done; [by repeat constructor|by left]. }
  destruct (inflight_m s !! rsp_tid resp) as [e|] eqn:E; [|by apply post_print, Hr].
  destruct (_ && _); [by apply post_print, Hr|].
  apply post_bind. eapply post_weaken; [|apply (frames_checks resp e s1)].
  intros _ s2 (E1 & E2 & E3 & E4 & k & Hk & Hd). apply post_bind, post_modify, post_modify.
  exists k. constructor; simpl; try done. right. rewrite E1, E2. by split_and!; [eauto|..].
Qed.

Lemma core_resp_accounts resp s :
  accounts_inv s -> post (core_resp_process resp) s (fun _ s' => accounts_inv s').
Proof.
  intros [H1 H2 H3]. eapply post_weaken; [|apply core_resp_effect].
  intros _ s' [k [E3 E4 Hk _ Hend]]. destruct Hend as [(Hne & E1 & E2)|([e He] & E1 & E2)].
  { split; rewrite ?E1, ?E2; [done..|]. intros Hl. by apply (log_extends_nil _ _ _ Hk) in Hl as [_ ?]. }
  destruct (release_ids (rsp_tid resp) (delete (rsp_tid resp) (inflight_m s)) (sb_seq_ids s)) as [A1 A2].
  { done. }
  { intros x [y Hy]. apply lookup_delete_Some in Hy as [_ Hy]. apply H2. by exists y. }
  { apply lookup_delete_eq. }
  split; rewrite ?E1, ?E2, ?E3, ?E4; [done..|].
  intros [Hl _]%(log_extends_nil _ _ _ Hk). rewrite H3, map_size_delete_Some by (done || eauto).
  assert (size (inflight_m s) <> 0%nat).
  { intros Hs%map_size_empty_inv. rewrite Hs in He. by rewrite lookup_empty in He. }
  unfold wrap. rewrite Zplus_mod_idemp_l. f_equal. lia.
Qed.

Lemma handle_accounts ev s :
  accounts_inv s -> event_ok s ev -> post (handle ev) s (fun _ s' => accounts_inv s').
Proof.
  intros Hs Hok. destruct ev as [id|junk req|resp|req|resp|req|resp|i]; simpl in *;
    [|by apply core_req_accounts|by apply core_resp_accounts|
     apply (keeps_post same_accounts);
       [auto using frames_mem_read_req, frames_mem_read_resp, frames_mem_write_req,
          frames_mem_write_resp, frames_perf
       |intros s' H; exact (same_accounts_inv _ _ H Hs)]..].
  apply post_modify. destruct Hs as [H1 H2 H3]. split; simpl; [| |done].
  - apply list.NoDup_app. split_and!; [done| |apply NoDup_singleton].
    intros x Hx ->%list_elem_of_singleton. done.
  - intros x Hx. apply elem_of_app. left. by apply H2.
Qed.

(** Runs that return, each event allowed in the state it happens in. *)
Inductive sb_run : scoreboard -> list sb_event -> scoreboard -> Prop :=
  | sb_run_nil s : sb_run s [] s
  | sb_run_cons s ev s1 evs s2 :
      event_ok s ev -> handle ev s = Done tt s1 -> sb_run s1 evs s2 -> sb_run s (ev :: evs) s2.

Lemma sb_run_accounts s evs s' : sb_run s evs s' -> accounts_inv s -> accounts_inv s'.
Proof.
  intros H. induction H as [|s ev s1 evs s2 Hok He _ IH]; [done|]. intros Hs. apply IH.
  pose proof (handle_accounts ev s Hs Hok) as Hp. unfold post in Hp. by rewrite He in Hp.
Qed.

(** The scoreboard as constructed: nothing counted, nothing in flight. *)
Definition fresh (s : scoreboard) : Prop :=
  sb_log s = [] /\ nb_error s = 0 /\ sb_seq_ids s = [] /\ inflight_m s = ∅ /\
  nb_core_req_need_rsp (sb_count s) = 0 /\ nb_core_resp (sb_count s) = 0 /\ 0 <= sb_error_limit_m s.

(** As [build] leaves it, whatever the reservation buffer holds. *)
Lemma built_fresh lrsc segs limit :
  0 <= limit ->
  fresh (set_error_limit limit (set_mem_resp_model segs (set_sequence [] (hpdcache_test_scoreboard lrsc)))).
Proof. intros H. by split_and!. Qed.

Lemma fresh_accounts s : fresh s -> accounts_inv s.
Proof.
  intros (H1 & H2 & H3 & H4 & H5 & H6 & _). split.
  - rewrite H3. constructor.
  - intros id. rewrite H4, lookup_empty. by intros [].
  - intros _. by rewrite H4, H5, H6, map_size_empty.
Qed.

(** C13: In every interleaving of the processes, identifiers in use stay distinct and
    every request in flight holds one, so the release at a response always finds
    its identifier; and as long as no error was reported, the requests that want a
    response are those answered plus those in flight, so the final comparison of
    the two counters fails only after an error or with requests in flight. *)
Theorem scoreboard_accounts s0 evs s :
  fresh s0 -> sb_run s0 evs s ->
  NoDup (sb_seq_ids s) /\
  (forall id, is_Some (inflight_m s !! id) -> (deallocate_id id (sb_seq_ids s)).2 = false) /\
  (sb_log s = [] -> nb_core_req_need_rsp (sb_count s) =
                    u64 (nb_core_resp (sb_count s) + Z.of_nat (size (inflight_m s)))).
Proof.
  intros Hf Hr. destruct (sb_run_accounts _ _ _ Hr (fresh_accounts _ Hf)) as [H1 H2 H3].
  split_and!; [done| |done]. intros id Hid. apply H2 in Hid. unfold deallocate_id.
  pose proof (erase_id_spec id (sb_seq_ids s)) as He. by destruct (erase_id id (sb_seq_ids s)).
Qed.

Lemma sb_run_counts s evs s' : sb_run s evs s' -> err_ok s -> err_ok s' /\ extends s s'.
Proof.
  intros H. induction H as [s|s ev s1 evs s2 _ He _ IH]; [done|]. intros Hs.
  pose proof (counts_handle ev s Hs) as Hc. rewrite He in Hc. destruct Hc as [Hc1 Hc2].
  destruct (IH Hc1) as [H1 H2]. split; [done|by etrans].
Qed.

(** The error count is the number of messages printed; messages are never lost;
    with a limit set, a run goes on only while the count is below it, and the event
    that reaches it ends the run. *)
Theorem error_limit_enforced s0 evs s ev :
  fresh s0 -> sb_run s0 evs s ->
  nb_error s = u64 (Z.of_nat (length (sb_log s))) /\
  (sb_error_limit_m s = 0 \/ nb_error s < sb_error_limit_m s) /\
  match handle ev s with
  | Done _ s' => sb_error_limit_m s' = 0 \/ nb_error s' < sb_error_limit_m s'
  | Exit s' => 0 < sb_error_limit_m s /\ sb_error_limit_m s <= nb_error s' /\
               sb_log s `prefix_of` sb_log s'
  | Undef => True
  end.
Proof.
  intros Hf Hr. destruct Hf as (H1 & H2 & _ & _ & _ & _ & Hlim).
  assert (err_ok s0) as Hs0 by (split; [lia|by rewrite H1, H2]).
  destruct (sb_run_counts _ _ _ Hr Hs0) as [Hs [El _]]. pose proof Hs as [Ha Hb].
  pose proof (counts_handle ev s Hs) as Hc. split; [done|]. split; [lia|].
  destruct (handle ev s) as [u s'|s'|]; [|by destruct Hc as ([_ ?] & ? & ?)|done].
  destruct Hc as [[Hc _] [El' _]]. lia.
Qed.
End Accounts.

(** ** Witnesses: the default configuration, a load request and its response *)
Definition ex_req (op : hpdcache_req_op_e) (addr data : Z) : transaction_req :=
  {| req_id := 0; req_addr := addr; req_wdata := data; req_op := req_op_value op; req_be := 0xff;
     req_size := 3; req_sid := 0; req_tid := 3; req_need_rsp := true; req_phys_indexed := true;
     req_uncacheable := false; req_io := false; req_wr_policy_hint := HPDCACHE_WR_POLICY_AUTO;
     req_abort := false; req_fault := fault_req_init |}.
Definition ex_stale : inflight_entry_t :=
  {| e_time := 0; e_tid := 0; e_addr := 0; e_need_rsp := false; e_hit := true; e_is_read := true;
     e_is_write := true; e_is_amo := true; e_is_amo_sc := true; e_is_amo_lr := true;
     e_is_atomic := true; e_is_error := true; e_op := 0; e_is_uncacheable := true; e_bytes := 0;
     e_wdata := [7]; e_be := [7]; e_rdata := [1; 2; 3; 4; 5; 6; 7; 8]; e_rv := [255] |}.
Definition ex_sb (limit : Z) : scoreboard :=
  set_error_limit limit (set_mem_resp_model [] (set_sequence [] (hpdcache_test_scoreboard
    {| lrsc_valid := false; lrsc_base_addr := 0; lrsc_end_addr := 0; lrsc_is_atomic := false |}))).
Definition ex_events : list sb_event :=
  [EvAllocate 3; EvCoreReq ex_stale (ex_req HPDCACHE_REQ_LOAD 0x1008 0)].

Lemma ex_sb_fresh : fresh (ex_sb 1).
Proof. by vm_compute. Qed.

Ltac run_step := eapply sb_run_cons; [|cbv [handle]; vm_compute; reflexivity|].

Lemma scoreboard_accounts_witness :
  exists s, @sb_run default_config (ex_sb 1) ex_events s /\
    nb_core_req_need_rsp (sb_count s) = u64 (nb_core_resp (sb_count s) + Z.of_nat (size (inflight_m s))).
Proof.
  eexists. split.
  - run_step; [by apply not_elem_of_nil|]. run_step; [intros _; by apply list_elem_of_singleton|].
    apply sb_run_nil.
  - eapply (@scoreboard_accounts default_config (ex_sb 1) ex_events _ ex_sb_fresh).
    + run_step; [by apply not_elem_of_nil|]. run_step; [intros _; by apply list_elem_of_singleton|].
      apply sb_run_nil.
    + done.
Defined.

Definition ex_unmatched : sb_event :=
  EvCoreResp {| rsp_rdata := 0; rsp_sid := 0; rsp_tid := 9; rsp_error := false; rsp_aborted := false |}.

Lemma error_limit_enforced_witness :
  exists s', @handle default_config ex_unmatched (ex_sb 1) = Exit s' /\ 1 <= nb_error s'.
Proof.
  pose proof (@error_limit_enforced default_config (ex_sb 1) [] (ex_sb 1) ex_unmatched ex_sb_fresh
    (sb_run_nil _)) as (_ & _ & H).
  destruct (handle ex_unmatched (ex_sb 1)) as [u s'|s'|] eqn:E.
  - vm_compute in E. discriminate E.
  - exists s'. split; [reflexivity|]. exact (proj1 (proj2 H)).
  - vm_compute in E. discriminate E.
Defined.
