(* ===== verification/ScoreboardLrsc.v ===== *)
(** * The scoreboard's LR/SC reservation

    [lrsc_update] against an abstract reservation: at most one 8-byte word of
    memory, taken by an LR, lost at the first SC, or at the first store or AMO that
    touches the word. *)
From S2P Require Import Prelude Defs Transaction MemResp Sequence Scoreboard.

Section Lrsc.
Context {cfg : HpdConfig} {Hcfg : ConfigWf cfg}.

(** The accesses the core makes: naturally aligned, inside a cache line. *)
Definition access_ok (e : inflight_entry_t) : Prop :=
  0 <= e_addr e /\
  exists sz, 0 <= sz <= HPDCACHE_CL_OFFSET_WIDTH /\ e_bytes e = 2 ^ sz /\ (2 ^ sz | e_addr e).

(** The 8-byte words an access touches. *)
Definition touched (e : inflight_entry_t) (word : Z) : Prop :=
  e_addr e / 8 <= word < e_addr e / 8 + Z.max 1 (e_bytes e / 8).

#[global] Instance touched_dec e word : Decision (touched e word).
Proof. unfold touched. apply _. Defined.

Lemma CL_OFFSET_range : 3 <= HPDCACHE_CL_OFFSET_WIDTH <= 14.
Proof using Hcfg.
  destruct cfg_line as (k & Hk & E). unfold HPDCACHE_CL_OFFSET_WIDTH. rewrite E.
  rewrite LOG2_pow2; lia.
Qed.

Lemma get_nline_div a : get_nline a = a / 2 ^ HPDCACHE_CL_OFFSET_WIDTH.
Proof using Hcfg. apply Z.shiftr_div_pow2. pose proof CL_OFFSET_range. lia. Qed.

Lemma get_offset_mod a : get_offset a = a mod 2 ^ HPDCACHE_CL_OFFSET_WIDTH.
Proof using Hcfg.
  pose proof CL_OFFSET_range. unfold get_offset. rewrite Z.shiftl_mul_pow2, Z.mul_1_l by lia.
  rewrite <-Z.land_ones by lia. f_equal. rewrite Z.ones_equiv. lia.
Qed.

(** The word number, split into line and word of the line. *)
Lemma word_split a :
  a / 8 = get_nline a * 2 ^ (HPDCACHE_CL_OFFSET_WIDTH - 3) + get_offset a / 8 /\
  (0 <= a -> 0 <= get_offset a / 8 < 2 ^ (HPDCACHE_CL_OFFSET_WIDTH - 3)).
Proof using Hcfg.
  pose proof CL_OFFSET_range. rewrite get_nline_div, get_offset_mod.
  set (k := HPDCACHE_CL_OFFSET_WIDTH) in *.
  assert (2 ^ k = 2 ^ (k - 3) * 8) as Hk.
  { change 8 with (2 ^ 3). rewrite <-Z.pow_add_r by lia. f_equal. lia. }
  assert (0 < 2 ^ (k - 3)) as Hp by (apply Z.pow_pos_nonneg; lia). split.
  - rewrite (Z.div_mod a (2 ^ k)) at 1 by lia. rewrite Hk at 1.
    replace (2 ^ (k - 3) * 8 * (a / 2 ^ k) + a mod 2 ^ k)
      with (a / 2 ^ k * 2 ^ (k - 3) * 8 + a mod 2 ^ k) by ring.
    by rewrite Z.div_add_l by lia.
  - intros Ha. pose proof (Z.mod_pos_bound a (2 ^ k) ltac:(lia)). split.
    + apply Z.div_pos; lia.
    + apply Z.div_lt_upper_bound; lia.
Qed.

(** An access does not leave its line. *)
Lemma access_in_line e :
  access_ok e ->
  get_offset (e_addr e) / 8 + Z.max 1 (e_bytes e / 8) <= 2 ^ (HPDCACHE_CL_OFFSET_WIDTH - 3).
Proof using Hcfg.
  intros (Ha & sz & Hsz & Hb & q & Hq). pose proof (word_split (e_addr e)) as [_ Hw]. specialize (Hw Ha).
  pose proof CL_OFFSET_range. rewrite get_offset_mod in *. set (k := HPDCACHE_CL_OFFSET_WIDTH) in *.
  rewrite Hb. destruct (Z.le_gt_cases sz 3) as [H3|H3].
  { assert (2 ^ sz / 8 <= 1); [|lia]. change 1 with (2 ^ 3 / 8).
    apply Z.div_le_mono; [lia|]. apply Z.pow_le_mono_r; lia. }
  assert (2 ^ k = 2 ^ (k - sz) * 2 ^ sz) as Hk by (rewrite <-Z.pow_add_r by lia; f_equal; lia).
  assert (2 ^ sz = 2 ^ (sz - 3) * 8) as Hz.
  { change 8 with (2 ^ 3). rewrite <-Z.pow_add_r by lia. f_equal. lia. }
  assert (2 ^ (k - 3) = 2 ^ (k - sz) * 2 ^ (sz - 3)) as Hk3 by (rewrite <-Z.pow_add_r by lia; f_equal; lia).
  assert (0 < 2 ^ (k - sz)) by (apply Z.pow_pos_nonneg; lia).
  assert (0 < 2 ^ (sz - 3)) by (apply Z.pow_pos_nonneg; lia).
  rewrite Hq, Hk, Z.mul_mod_distr_r by lia. rewrite Hz at 1. rewrite Z.mul_assoc, Z.div_mul by lia.
  rewrite Hz, Z.div_mul by lia. rewrite Z.max_r by lia. rewrite Hk3.
  pose proof (Z.mod_pos_bound q (2 ^ (k - sz)) ltac:(lia)). nia.
Qed.

Lemma entry_words e :
  access_ok e -> (if e_bytes e <? 8 then 1 else Z.shiftr (e_bytes e) 3) = Z.max 1 (e_bytes e / 8).
Proof.
  intros (_ & sz & Hsz & Hb & _). rewrite Z.shiftr_div_pow2 by lia. change (2 ^ 3) with 8.
  assert (0 < e_bytes e) by (rewrite Hb; apply Z.pow_pos_nonneg; lia).
  destruct (Z.ltb_spec (e_bytes e) 8).
  - rewrite Z.div_small by lia. done.
  - pose proof (Z.div_le_mono 8 (e_bytes e) 8 ltac:(lia) ltac:(lia)) as Hd.
    rewrite Z.div_same in Hd by lia. lia.
Qed.

(** [addr_match]: there is a reservation and the access touches its word. *)
Lemma lrsc_addr_match_spec l e :
  access_ok e -> 0 <= lrsc_base_addr l ->
  lrsc_addr_match l e = lrsc_valid l && bool_decide (touched e (lrsc_base_addr l / 8)).
Proof using Hcfg.
  intros He Hl. unfold lrsc_addr_match. rewrite entry_words by done.
  rewrite !Z.shiftr_div_pow2 by lia. change (2 ^ 3) with 8.
  destruct (lrsc_valid l); [simpl|done].
  pose proof (word_split (lrsc_base_addr l)) as [Hlw Hlr]. specialize (Hlr Hl).
  pose proof (word_split (e_addr e)) as [Hew Her]. specialize (Her (proj1 He)).
  pose proof (access_in_line e He) as Hin.
  apply eq_bool_prop_intro. rewrite bool_decide_spec. unfold touched. rewrite Hlw, Hew.
  assert (0 < 2 ^ (HPDCACHE_CL_OFFSET_WIDTH - 3)) as Hp.
  { apply Z.pow_pos_nonneg; pose proof CL_OFFSET_range; lia. }
  set (P := 2 ^ (HPDCACHE_CL_OFFSET_WIDTH - 3)) in *.
  set (nl := get_nline (lrsc_base_addr l)). set (ne := get_nline (e_addr e)).
  set (ol := get_offset (lrsc_base_addr l) / 8) in *. set (oe := get_offset (e_addr e) / 8) in *.
  set (w := Z.max 1 (e_bytes e / 8)) in *.
  rewrite !andb_True.
  rewrite !Is_true_true, Z.eqb_eq, Z.leb_le, Z.ltb_lt. split.
  - intros [[-> H1] H2]. lia.
  - intros [H1 H2]. assert (nl = ne) by nia. subst nl. split_and!; nia.
Qed.

(** ** The abstract reservation *)

(** The reservation after a request, as the ISA has it. *)
Definition spec_reserve (r : option Z) (req : transaction_req) (e : inflight_entry_t) : option Z :=
  if is_amo_lr req then (if e_is_error e then None else Some (e_addr e / 8))
  else if is_amo_sc req then None
  else if is_store req || is_amo req then
    match r with
    | Some w => if decide (touched e w) then None else Some w
    | None => None
    end
  else r.

Definition reserved (l : lrsc_reservation_buf_t) : option Z :=
  if lrsc_valid l then Some (lrsc_base_addr l / 8) else None.

Definition lrsc_wf (l : lrsc_reservation_buf_t) : Prop := lrsc_valid l = true -> 0 <= lrsc_base_addr l.

Lemma lrsc_match_reserved l e :
  access_ok e -> lrsc_wf l ->
  lrsc_addr_match l e = match reserved l with Some w => bool_decide (touched e w) | None => false end.
Proof using Hcfg.
  intros He Hl. unfold reserved. destruct (lrsc_valid l) eqn:Ev.
  - rewrite lrsc_addr_match_spec by (done || by apply Hl). by rewrite Ev.
  - unfold lrsc_addr_match. by rewrite Ev.
Qed.

(** A request is at most one of LR, SC, store, AMO. *)
Lemma lr_exclusive req :
  is_amo_lr req = true -> is_amo req = false /\ is_amo_sc req = false /\ is_store req = false.
Proof.
  unfold is_amo_lr, is_amo, is_amo_sc, is_store. intros H%Z.eqb_eq. rewrite H. done.
Qed.

Lemma lrsc_update_refines req e l :
  access_ok e -> lrsc_wf l ->
  let '(e', l') := lrsc_update req e l in
  reserved l' = spec_reserve (reserved l) req e /\ lrsc_wf l' /\
  (is_amo_sc req = true ->
     e_is_atomic e' = match reserved l with Some w => bool_decide (touched e w) | None => false end /\
     e_is_error e' = e_is_error e && e_is_atomic e') /\
  (is_amo_sc req = false -> e' = e).
Proof using Hcfg.
  intros He Hl. unfold lrsc_update, spec_reserve.
  destruct (is_amo_lr req) eqn:Elr.
  { destruct (lr_exclusive req Elr) as (-> & -> & ->). simpl. unfold lr_reserve.
    destruct (e_is_error e); split_and!; try done. intros _. apply He. }
  rewrite (lrsc_match_reserved l e He Hl).
  destruct (is_amo_sc req) eqn:Esc; simpl.
  - rewrite orb_true_r. simpl. rewrite orb_true_r. split_and!; done.
  - rewrite !orb_false_r, (orb_comm (is_store req)).
    destruct (is_amo req || is_store req); [|done]. split_and!; [| |done|done].
    + unfold reserved. destruct (lrsc_valid l) eqn:Ev; simpl; [|by rewrite Ev].
      destruct (decide (touched e (lrsc_base_addr l / 8))) as [Ht|Ht].
      * by rewrite bool_decide_true.
      * rewrite bool_decide_false by done. by rewrite Ev.
    + destruct (match reserved l with Some _ => _ | None => _ end); [done|exact Hl].
Qed.

(** The reservation after a sequence of requests with their entries. *)
Fixpoint lrsc_run (l : lrsc_reservation_buf_t) (xs : list (transaction_req * inflight_entry_t))
    : lrsc_reservation_buf_t :=
  match xs with [] => l | (req, e) :: xs => lrsc_run (lrsc_update req e l).2 xs end.

Lemma lrsc_run_refines xs l :
  Forall (fun x => access_ok x.2) xs -> lrsc_wf l ->
  reserved (lrsc_run l xs) = foldl (fun r x => spec_reserve r x.1 x.2) (reserved l) xs /\
  lrsc_wf (lrsc_run l xs).
Proof using Hcfg.
  intros Hxs. revert l. induction Hxs as [|[req e] xs He Hxs IH]; intros l Hl; simpl; [done|].
  pose proof (lrsc_update_refines req e l He Hl) as Hr.
  destruct (lrsc_update req e l) as [e' l']. destruct Hr as (Hr & Hl' & _). simpl.
  rewrite <-Hr. by apply IH.
Qed.

(** An access that takes a reservation on [w] away, and is no LR. *)
Definition breaks (w : Z) (x : transaction_req * inflight_entry_t) : Prop :=
  is_amo_sc x.1 = true \/ ((is_store x.1 || is_amo x.1) = true /\ touched x.2 w).

Lemma foldl_none xs :
  Forall (fun x => is_amo_lr x.1 = false) xs ->
  foldl (fun r x => spec_reserve r x.1 x.2) None xs = None.
Proof.
  induction 1 as [|[req e] xs Hlr _ IH]; [done|]. simpl in *. unfold spec_reserve at 2.
  rewrite Hlr. destruct (is_amo_sc req), (is_store req || is_amo req); exact IH.
Qed.

Lemma foldl_some w xs :
  Forall (fun x => is_amo_lr x.1 = false) xs ->
  foldl (fun r x => spec_reserve r x.1 x.2) (Some w) xs = Some w <-> Forall (fun x => ~ breaks w x) xs.
Proof.
  induction 1 as [|[req e] xs Hlr Hxs IH]; [by split|]. simpl in *.
  rewrite list.Forall_cons. unfold breaks at 1. simpl. unfold spec_reserve at 2. rewrite Hlr.
  destruct (is_amo_sc req) eqn:Esc.
  { rewrite foldl_none by done. naive_solver. }
  destruct (is_store req || is_amo req) eqn:Es.
  - destruct (decide (touched e w)); [rewrite foldl_none by done|rewrite IH]; naive_solver.
  - rewrite IH. naive_solver.
Qed.

Lemma foldl_cases w xs :
  Forall (fun x => is_amo_lr x.1 = false) xs ->
  foldl (fun r x => spec_reserve r x.1 x.2) (Some w) xs = None \/
  foldl (fun r x => spec_reserve r x.1 x.2) (Some w) xs = Some w.
Proof.
  induction 1 as [|[req e] xs Hlr Hxs IH]; [by right|]. simpl in *.
  unfold spec_reserve at 2 4. rewrite Hlr.
  destruct (is_amo_sc req); [left; by apply foldl_none|].
  destruct (is_store req || is_amo req); [|done].
  destruct (decide (touched e w)); [left; by apply foldl_none|done].
Qed.

(** C16: After an LR that succeeds, and any requests but another LR, an SC is told it
    may be atomic exactly when it touches the 8-byte word of the LR and neither an
    SC nor a store or AMO that touches the word came between; it can only get an
    error response in that case, and it always consumes the reservation. *)
Theorem sc_atomic_iff lr e0 xs sc e l :
  is_amo_lr lr = true -> e_is_error e0 = false -> access_ok e0 -> lrsc_wf l ->
  Forall (fun x => access_ok x.2 /\ is_amo_lr x.1 = false) xs ->
  is_amo_sc sc = true -> access_ok e ->
  let l1 := lrsc_run (lrsc_update lr e0 l).2 xs in
  let '(e', l2) := lrsc_update sc e l1 in
  (e_is_atomic e' = true <->
     touched e (e_addr e0 / 8) /\ Forall (fun x => ~ breaks (e_addr e0 / 8) x) xs) /\
  (e_is_error e' = true -> e_is_atomic e' = true) /\ lrsc_valid l2 = false.
Proof using Hcfg.
  intros Hlr Herr He0 Hl Hxs Hsc He l1. apply list.Forall_and in Hxs as [Hok Hno].
  pose proof (lrsc_update_refines lr e0 l He0 Hl) as H0.
  destruct (lrsc_update lr e0 l) as [e0' l0] eqn:E0. destruct H0 as (H0 & Hw0 & _).
  assert (reserved l0 = Some (e_addr e0 / 8)) as Hr0.
  { rewrite H0. unfold spec_reserve. by rewrite Hlr, Herr. }
  destruct (lrsc_run_refines xs l0 Hok Hw0) as [Hr1 Hw1]. simpl in l1. fold l1 in Hr1, Hw1.
  rewrite Hr0 in Hr1. pose proof (foldl_some (e_addr e0 / 8) xs Hno) as Hsome.
  pose proof (lrsc_update_refines sc e l1 He Hw1) as H2.
  destruct (lrsc_update sc e l1) as [e' l2] eqn:E2. destruct H2 as (H2 & _ & H3 & _).
  destruct (H3 Hsc) as [Hat Her]. rewrite Her, Hat. rewrite <-Hr1 in Hsome. split_and!.
  - assert (reserved l1 = None \/ reserved l1 = Some (e_addr e0 / 8)) as [Hc|Hc].
    { rewrite Hr1. by apply foldl_cases. }
    + rewrite Hc in *. naive_solver.
    + rewrite Hc in *. rewrite bool_decide_eq_true. naive_solver.
  - by intros [_ ?]%andb_prop.
  - unfold spec_reserve in H2. destruct (is_amo_lr sc) eqn:Elr.
    + apply lr_exclusive in Elr as (_ & ? & _). congruence.
    + rewrite Hsc in H2. unfold reserved in H2. by destruct (lrsc_valid l2).
Qed.
End Lrsc.

(** ** Witness: LR, a store to the next word, SC to the reserved word *)
Definition ex_core_req (op : hpdcache_req_op_e) (addr size : Z) : transaction_req :=
  {| req_id := 0; req_addr := addr; req_wdata := 5; req_op := req_op_value op; req_be := 0xff;
     req_size := size; req_sid := 0; req_tid := 3; req_need_rsp := true; req_phys_indexed := true;
     req_uncacheable := false; req_io := false; req_wr_policy_hint := HPDCACHE_WR_POLICY_AUTO;
     req_abort := false; req_fault := fault_req_init |}.
Definition ex_junk : inflight_entry_t :=
  {| e_time := 0; e_tid := 0; e_addr := 0; e_need_rsp := false; e_hit := true; e_is_read := true;
     e_is_write := true; e_is_amo := true; e_is_amo_sc := true; e_is_amo_lr := true;
     e_is_atomic := true; e_is_error := true; e_op := 0; e_is_uncacheable := true; e_bytes := 0;
     e_wdata := [7]; e_be := [7]; e_rdata := [1; 2; 3; 4; 5; 6; 7; 8]; e_rv := [255] |}.
Definition ex_entry (req : transaction_req) : inflight_entry_t :=
  @mk_entry default_config ex_junk 0 (Some []) req.

Lemma ex_access_ok op addr :
  0 <= addr -> (8 | addr) -> @access_ok default_config (ex_entry (ex_core_req op addr 3)).
Proof. intros Ha Hd. split; [done|]. exists 3. split; [vm_compute; intuition discriminate|]. by split. Qed.

Lemma sc_atomic_iff_witness :
  let lr := ex_core_req HPDCACHE_REQ_AMO_LR 0x1000 3 in
  let st := ex_core_req HPDCACHE_REQ_STORE 0x1008 3 in
  let sc := ex_core_req HPDCACHE_REQ_AMO_SC 0x1000 3 in
  let l := {| lrsc_valid := false; lrsc_base_addr := 0; lrsc_end_addr := 0; lrsc_is_atomic := false |} in
  e_is_atomic (@lrsc_update default_config sc (ex_entry sc)
    (@lrsc_run default_config (@lrsc_update default_config lr (ex_entry lr) l).2 [(st, ex_entry st)])).1 = true.
Proof.
  intros lr st sc l.
  pose proof (@sc_atomic_iff default_config _ lr (ex_entry lr) [(st, ex_entry st)] sc (ex_entry sc) l) as H.
  cbv zeta in H. destruct (lrsc_update sc _ _) as [e' l2]. simpl.
  destruct H as [Hiff _].
  - by vm_compute.
  - by vm_compute.
  - apply ex_access_ok; [lia|by exists 0x200].
  - done.
  - constructor; [|constructor]. split; [|done]. apply ex_access_ok; [lia|by exists 0x201].
  - done.
  - apply ex_access_ok; [lia|by exists 0x200].
  - apply Hiff. split; [vm_compute; intuition discriminate|]. constructor; [|constructor].
    intros [Hsc|[_ Ht]]; [done|]. vm_compute in Ht. destruct Ht as [Ht _]. by apply Ht.
Defined.

(** The buffer is not initialised: what it holds decides whether an SC that no LR
    precedes is expected at the memory. *)
Lemma reservation_uninitialised :
  exists lrsc : bool -> lrsc_reservation_buf_t, forall valid,
    let s := set_mem_resp_model [] (hpdcache_test_scoreboard (lrsc valid)) in
    exists s' : scoreboard, @core_req_process default_config ex_junk (ex_core_req HPDCACHE_REQ_AMO_SC 0x1000 3) s = Done tt s'
      /\ length (inflight_amo_req_m s') = (if valid then 1 else 0)%nat.
Proof.
  exists (fun valid => {| lrsc_valid := valid; lrsc_base_addr := 0x1000; lrsc_end_addr := 0x1008; lrsc_is_atomic := false |}).
  intros []; eexists; (split; [vm_compute; reflexivity|reflexivity]).
Qed.
