(* ===== verification/ScoreboardData.v ===== *)
(** * The scoreboard's reference memory and data comparison

    For 64-bit words (the layout the byte-wise accesses to the scoreboard's arrays
    assume): what a load expects is what the RAM held when it was issued, the
    response is compared with it byte by byte, a store updates the enabled bytes,
    and a refill fills the bytes its mask selects that were never written. *)
From S2P Require Import Prelude Defs Transaction RamModel Amo MemResp Sequence Scoreboard ScoreboardProps.

(** The bytes of the scoreboard's RAM, at any address: an uninitialised one is [None]. *)
Definition sb_byte (s : scoreboard) (a : Z) : option Z :=
  contents SCOREBOARD_RAM_SIZE (ram_m s) (a mod SCOREBOARD_RAM_SIZE).

Lemma RAM_SIZE_pos : 0 < SCOREBOARD_RAM_SIZE.
Proof. by vm_compute. Qed.

(** ** Sequences of checks *)

(** Running [print_error] for the listed messages, without a limit. *)
Definition add_errors (l : list sb_error) (s : scoreboard) : scoreboard := foldl (fun s m => add_error m s) s l.

Lemma add_errors_fields l s :
  sb_log (add_errors l s) = sb_log s ++ l /\ inflight_m (add_errors l s) = inflight_m s /\
  sb_error_limit_m (add_errors l s) = sb_error_limit_m s /\ ram_m (add_errors l s) = ram_m s /\
  sb_seq_ids (add_errors l s) = sb_seq_ids s /\ sc_is_atomic (add_errors l s) = sc_is_atomic s.
Proof.
  revert s. induction l as [|m l IH]; intros s; simpl; [by rewrite app_nil_r|].
  destruct (IH (add_error m s)) as (-> & -> & -> & -> & -> & ->). simpl. by rewrite <-app_assoc.
Qed.

Lemma print_no_limit m s : sb_error_limit_m s <= 0 -> print_error m s = Done tt (add_error m s).
Proof. intros H. unfold print_error. simpl. by destruct (Z.ltb_spec 0 (sb_error_limit_m s)); [lia|]. Qed.

Lemma for_each_report {A} (f : A -> SB unit) (err : A -> option sb_error) l s :
  sb_error_limit_m s <= 0 ->
  (forall x s, x ∈ l -> sb_error_limit_m s <= 0 ->
     f x s = Done tt (match err x with Some m => add_error m s | None => s end)) ->
  for_each f l s = Done tt (add_errors (omap err l) s).
Proof.
  intros Hs Hf. revert s Hs. induction l as [|x l IH]; intros s Hs; [done|]. simpl.
  unfold mbind at 1, SB_bind. rewrite Hf; [|by apply list_elem_of_here|done].
  rewrite IH.
  - by destruct (err x).
  - intros y s' Hy. apply Hf. by apply list_elem_of_further.
  - by destruct (err x).
Qed.

(** Running the first part of a bind. *)
Lemma bind_done {A B} (m : SB A) (f : A -> SB B) s a s' : m s = Done a s' -> (m ≫= f) s = f a s'.
Proof. unfold mbind, SB_bind. by intros ->. Qed.
Lemma bind_get {B} (f : scoreboard -> SB B) s : (get ≫= f) s = f s s.
Proof. done. Qed.
Lemma bind_modify {B} g (f : unit -> SB B) s : (modify g ≫= f) s = f tt (g s).
Proof. done. Qed.
Lemma bind_ret {A B} (a : A) (f : A -> SB B) s : (mret a ≫= f) s = f a s.
Proof. done. Qed.

(** The words of a bus, read as bytes, are its bytes. *)
Lemma words_byte n data k :
  0 <= k < 8 * n ->
  bytes_of_words ((fun i => noc_slice i data) <$> seqZ 0 n) !! Z.to_nat k = Some (byte_of data k).
Proof.
  intros Hk. pose proof (Z.div_mod k 8 ltac:(lia)) as Hdm. pose proof (Z.mod_pos_bound k 8 ltac:(lia)).
  rewrite (bytes_of_words_lookup _ _ (noc_slice (k / 8) data)).
  - f_equal. rewrite Nat2Z.inj_mod, Z2Nat.id by lia. change (Z.of_nat 8) with 8.
    rewrite byte_of_noc_slice by lia. f_equal. lia.
  - rewrite list_lookup_fmap, (lookup_seqZ_lt 0 n); rewrite Nat2Z.inj_div, Z2Nat.id by lia; change (Z.of_nat 8) with 8;
      [done|lia].
Qed.

(** ** Writing an aligned block *)

(** An access aligned on a divisor of the size of the RAM does not wrap in it. *)
Lemma align_to_div a n : 0 < n -> (n | align_to a n).
Proof. intros. exists (a / n). done. Qed.

Lemma block_mod B a k :
  (B | SCOREBOARD_RAM_SIZE) -> 0 <= k < B ->
  align_to a B mod SCOREBOARD_RAM_SIZE + k = (align_to a B + k) mod SCOREBOARD_RAM_SIZE.
Proof.
  intros Hdiv Hk. pose proof RAM_SIZE_pos as HS. assert (0 < B) as Hpos by lia.
  pose proof (aligned_in_range SCOREBOARD_RAM_SIZE RAM_SIZE_pos B (align_to a B) Hpos
    Hdiv (align_to_div _ _ Hpos)) as Hr.
  pose proof (Z.mod_pos_bound (align_to a B) _ HS).
  rewrite Z.add_mod by lia. rewrite (Z.mod_small k) by lia. symmetry. apply Z.mod_small. lia.
Qed.

Lemma ram_write_block B s buf be addr :
  (B | SCOREBOARD_RAM_SIZE) -> 0 < B -> length buf = Z.to_nat B -> (Z.to_nat B <= 8 * length be)%nat ->
  let base := align_to addr B in
  exists r, sb_ram_write buf be B base s = Done tt (set_ram r s) /\
    (forall k, 0 <= k < B ->
       sb_byte (set_ram r s) (base + k) =
       if be_bit be (Z.to_nat k) then buf !! Z.to_nat k else sb_byte s (base + k)) /\
    (forall a, (forall k, 0 <= k < B -> a mod SCOREBOARD_RAM_SIZE <> (base + k) mod SCOREBOARD_RAM_SIZE) ->
       sb_byte (set_ram r s) a = sb_byte s a).
Proof.
  intros Hdiv Hpos Hbuf Hbe base. pose proof RAM_SIZE_pos as HS.
  destruct (write_total SCOREBOARD_RAM_SIZE RAM_SIZE_pos (ram_m s) buf be (Z.to_nat B) base)
    as [r Hr]; rewrite ?Z2Nat.id by lia; [done|by apply align_to_div|lia|lia|lia|].
  exists r. pose proof (write_contents SCOREBOARD_RAM_SIZE RAM_SIZE_pos _ _ _ _ _ _ Hr) as Hc.
  pose proof (fun k => block_mod B addr k Hdiv) as Hmod. fold base in Hmod.
  split; [|split].
  - unfold sb_ram_write, mbind, SB_bind, get, undef_if_none. by rewrite Hr.
  - intros k Hk. unfold sb_byte. simpl. rewrite <-Hmod by lia.
    rewrite Hc by (rewrite Hmod by lia; by apply Z.mod_pos_bound). unfold spec_write. rewrite Z2Nat.id by lia.
    replace (base mod SCOREBOARD_RAM_SIZE + k - base mod SCOREBOARD_RAM_SIZE) with k by lia.
    split_cmps. done.
  - intros a Ha. unfold sb_byte. simpl. rewrite Hc by (by apply Z.mod_pos_bound).
    unfold spec_write. rewrite Z2Nat.id by lia. split_cmps; [|done..].
    exfalso. apply (Ha (a mod SCOREBOARD_RAM_SIZE - base mod SCOREBOARD_RAM_SIZE)); [lia|].
    rewrite <-Hmod by lia. lia.
Qed.

Section Data.
Context {cfg : HpdConfig}.
Hypothesis Hword : HPDCACHE_WORD_WIDTH = 64.
Hypothesis Hwords : 1 <= HPDCACHE_REQ_WORDS.
Hypothesis Hdiv : (CORE_REQ_BYTES | SCOREBOARD_RAM_SIZE).

Lemma word_bytes_8 : CORE_REQ_WORD_BYTES = 8.
Proof using Hword. unfold CORE_REQ_WORD_BYTES. by rewrite Hword. Qed.

Lemma req_bytes_8 : CORE_REQ_BYTES = HPDCACHE_REQ_WORDS * 8 /\
  HPDCACHE_REQ_DATA_WIDTH / 8 = CORE_REQ_BYTES.
Proof using Hword.
  unfold CORE_REQ_BYTES, CORE_REQ_WORDS, HPDCACHE_REQ_DATA_WIDTH. rewrite word_bytes_8, Hword.
  split; [done|]. replace (HPDCACHE_REQ_WORDS * 64) with (HPDCACHE_REQ_WORDS * 8 * 8) by lia.
  by rewrite Z.div_mul.
Qed.

(** The words of the data bus, read as bytes, are its bytes. *)
Lemma core_words_byte data k :
  0 <= k < CORE_REQ_BYTES ->
  bytes_of_words (core_words data) !! Z.to_nat k = Some (byte_of data k).
Proof using Hword.
  intros Hk. pose proof req_bytes_8 as [Hb _]. unfold core_words. rewrite Hword. apply words_byte.
  unfold CORE_REQ_WORDS in *. lia.
Qed.

Lemma core_bes_bit be k :
  0 <= k < CORE_REQ_BYTES -> be_bit (core_bes be) (Z.to_nat k) = Z.testbit be k.
Proof using Hword.
  intros Hk. pose proof req_bytes_8 as [Hb _].
  pose proof (Z.div_mod k 8 ltac:(lia)) as Hdm. pose proof (Z.mod_pos_bound k 8 ltac:(lia)).
  unfold be_bit, core_bes. rewrite list_lookup_fmap.
  rewrite (lookup_seqZ_lt 0 CORE_REQ_WORDS); unfold CORE_REQ_WORDS.
  - simpl. rewrite word_bytes_8, Nat2Z.inj_div, Nat2Z.inj_mod, Z2Nat.id by lia.
    change (Z.of_nat 8) with 8. bits_simpl. f_equal. lia.
  - rewrite Nat2Z.inj_div, Z2Nat.id by lia. change (Z.of_nat 8) with 8. lia.
Qed.

Lemma length_core_words data : length (core_words data) = Z.to_nat HPDCACHE_REQ_WORDS.
Proof. unfold core_words. by rewrite length_fmap, length_seqZ. Qed.
Lemma length_core_bes be : length (core_bes be) = Z.to_nat HPDCACHE_REQ_WORDS.
Proof. unfold core_bes. by rewrite length_fmap, length_seqZ. Qed.

(** Writing a request's bytes to the RAM. *)
Lemma aligned_mod a k :
  0 <= k < CORE_REQ_BYTES ->
  align_to a CORE_REQ_BYTES mod SCOREBOARD_RAM_SIZE + k
    = (align_to a CORE_REQ_BYTES + k) mod SCOREBOARD_RAM_SIZE.
Proof using Hdiv Hword Hwords. intros Hk. pose proof req_bytes_8 as [Hb _]. by apply block_mod. Qed.

Lemma ram_write_bytes s buf be addr :
  length buf = Z.to_nat CORE_REQ_BYTES -> length be = Z.to_nat HPDCACHE_REQ_WORDS ->
  let base := align_to addr CORE_REQ_BYTES in
  exists r, sb_ram_write buf be CORE_REQ_BYTES base s = Done tt (set_ram r s) /\
    (forall k, 0 <= k < CORE_REQ_BYTES ->
       sb_byte (set_ram r s) (base + k) =
       if be_bit be (Z.to_nat k) then buf !! Z.to_nat k else sb_byte s (base + k)) /\
    (forall a, (forall k, 0 <= k < CORE_REQ_BYTES ->
                a mod SCOREBOARD_RAM_SIZE <> (base + k) mod SCOREBOARD_RAM_SIZE) ->
       sb_byte (set_ram r s) a = sb_byte s a).
Proof using Hdiv Hword Hwords.
  intros Hbuf Hbe. pose proof req_bytes_8 as [Hb _]. apply ram_write_block; [done|lia|done|rewrite Hbe; lia].
Qed.

Lemma store_kinds req :
  is_store req = true -> is_load req = false /\ is_amo req = false /\ is_amo_lr req = false /\
    is_amo_sc req = false /\ is_cmo req = false.
Proof.
  unfold is_load, is_amo, is_amo_lr, is_amo_sc, is_cmo, is_store. intros H%Z.eqb_eq. by rewrite H.
Qed.
Lemma load_kinds req :
  is_load req = true -> is_store req = false /\ is_amo req = false /\ is_amo_lr req = false /\
    is_amo_sc req = false /\ is_cmo req = false.
Proof.
  unfold is_load, is_amo, is_amo_lr, is_amo_sc, is_cmo, is_store. intros H%Z.eqb_eq. by rewrite H.
Qed.

(** A request hits no error segment. *)
Definition no_error_segment (s : scoreboard) (req : transaction_req) : Prop :=
  match sb_errorsegs s with
  | Some segs => within_error_segs segs (req_addr req)
                   (u64 (req_addr req + u8 (Z.shiftl 1 (req_size req)))) = false
  | None => True
  end.

Lemma mk_entry_no_error junk time s req :
  no_error_segment s req -> e_is_error (mk_entry junk time (sb_errorsegs s) req) = false.
Proof.
  unfold no_error_segment. simpl. destruct (sb_errorsegs s); [|done]. intros ->. apply andb_false_r.
Qed.

Lemma core_req_start junk req s :
  inflight_m s !! req_tid req = None -> is_cmo req = false ->
  core_req_process junk req s =
  (let e := mk_entry junk (nb_cycles (sb_count s)) (sb_errorsegs s) req in
   let aligned_addr := align_to (req_addr req) (HPDCACHE_REQ_DATA_WIDTH / 8) in
   e ← (if negb (e_is_error e) && (is_load req || is_amo_lr req || is_amo req)
        then expect_data aligned_addr e else mret e);
   s ← get;
   let '(e, l) := lrsc_update req e (lrsc_buf_m s) in
   modify (set_lrsc l);;
   if is_amo req || is_amo_lr req || (is_amo_sc req && e_is_atomic e) then
     if (length (inflight_amo_req_m s) <? AMO_FIFO_SIZE)%nat then
       modify (fun s => set_amo_fifo (inflight_amo_req_m s ++ [e]) s);;
       core_req_finish req aligned_addr e
     else print_error E_amo_fifo_full
   else core_req_finish req aligned_addr e) (counted req s).
Proof.
  intros Hid Hcmo. unfold core_req_process. rewrite Hcmo. unfold counted.
  unfold mbind at 1, SB_bind, upd_count, modify.
  destruct (req_need_rsp req); unfold when, mbind at 1, SB_bind, mret, SB_ret, modify, get, mbind at 1;
    simpl; rewrite Hid; done.
Qed.

(** C39: A store outside the error segments, under an identifier not in flight and with
    64-bit words, updates the reference RAM with exactly the
    bytes its byte enable selects, at the addresses of the request's aligned block,
    and no other byte; it reports nothing. *)
Theorem store_updates_ram junk req s :
  is_store req = true -> inflight_m s !! req_tid req = None -> no_error_segment s req ->
  let base := align_to (req_addr req) CORE_REQ_BYTES in
  exists s', core_req_process junk req s = Done tt s' /\ sb_log s' = sb_log s /\
    (forall k, 0 <= k < CORE_REQ_BYTES ->
       sb_byte s' (base + k) =
       if Z.testbit (req_be req) k then Some (byte_of (req_wdata req) k) else sb_byte s (base + k)) /\
    (forall a, (forall k, 0 <= k < CORE_REQ_BYTES ->
                a mod SCOREBOARD_RAM_SIZE <> (base + k) mod SCOREBOARD_RAM_SIZE) ->
       sb_byte s' a = sb_byte s a).
Proof using Hdiv Hword Hwords.
  intros Hst Hid Herr base. destruct (store_kinds req Hst) as (K1 & K2 & K3 & K4 & K5).
  rewrite core_req_start by done. cbv zeta.
  rewrite (mk_entry_no_error _ _ s) by done. rewrite K1, K2, K3, K4. cbn [negb andb orb].
  set (e := mk_entry junk _ _ req).
  rewrite bind_ret, bind_get. unfold lrsc_update. rewrite K2, K3, K4, Hst. cbn [orb andb].
  set (l := if _ || _ then _ else _). rewrite bind_modify.
  change (lrsc_buf_m (counted req s)) with (lrsc_buf_m s) in *. set (s1 := set_lrsc l (counted req s)).
  unfold core_req_finish. rewrite Hst. assert (e_is_error e = false) as -> by (by apply (mk_entry_no_error _ _ s)).
  cbn [negb andb]. unfold when at 1. rewrite (proj2 req_bytes_8). fold base.
  assert (e_wdata e = core_words (req_wdata req) /\ e_be e = core_bes (req_be req)) as [-> ->].
  { unfold e. simpl. by rewrite Hst. }
  destruct (ram_write_bytes s1 (bytes_of_words (core_words (req_wdata req))) (core_bes (req_be req))
    (req_addr req)) as (r & Hw & Hin & Hout).
  { rewrite length_bytes_of_words, length_core_words, (proj1 req_bytes_8). lia. }
  { apply length_core_bes. }
  fold base in Hw, Hin, Hout. rewrite (bind_done _ _ _ _ _ Hw).
  assert (exists s', (if req_need_rsp req then modify (fun s => set_inflight (<[req_tid req := e]> (inflight_m s)) s)
      else release_id (req_tid req)) (set_ram r s1) = Done tt s' /\ ram_m s' = r /\ sb_log s' = sb_log s)
    as (s' & -> & Hr & Hlog) by (destruct (req_need_rsp req); eexists; split_and!; done).
  exists s'. split; [done|]. split; [done|].
  assert (forall a, sb_byte s' a = sb_byte (set_ram r s1) a) as Heq by (intros; unfold sb_byte; by rewrite Hr).
  split.
  - intros k Hk. rewrite Heq, Hin by done. rewrite core_bes_bit, core_words_byte by done. done.
  - intros a Ha. rewrite Heq. by apply Hout.
Qed.

(** ** Loads *)

(** The entry expects the bytes [c]: those known are in [e_rdata], flagged in [e_rv]. *)
Definition expects (e : inflight_entry_t) (c : Z -> option Z) : Prop :=
  forall k, 0 <= k < CORE_REQ_BYTES -> exists x rv,
    e_rdata e !! Z.to_nat k = Some x /\ e_rv e !! Z.to_nat (k / 8) = Some rv /\
    c k = if Z.testbit rv (k mod 8) then Some x else None.

Lemma lookup_overwrite new old i : (i < length new)%nat -> overwrite new old !! i = new !! i.
Proof. intros. unfold overwrite. by rewrite lookup_app_l. Qed.

Lemma expect_data_spec addr e s :
  let base := align_to addr CORE_REQ_BYTES in
  exists rdata rv, expect_data base e s = Done (set_rdata rdata rv e) s /\
    expects (set_rdata rdata rv e) (fun k => sb_byte s (base + k)).
Proof using Hdiv Hword Hwords.
  intros base. pose proof req_bytes_8 as [Hb Hb']. pose proof RAM_SIZE_pos as HS.
  assert (0 < CORE_REQ_BYTES) as Hpos by lia.
  destruct (read_total SCOREBOARD_RAM_SIZE RAM_SIZE_pos (ram_m s) true (Z.to_nat CORE_REQ_BYTES) base)
    as [[buf v] Hr]; rewrite ?Z2Nat.id by lia; [done|by apply align_to_div|lia|].
  destruct (read_spec SCOREBOARD_RAM_SIZE _ _ _ _ _ Hr) as (Hlen & valid & -> & Hvl & Hbytes).
  eexists _, _. split.
  - unfold expect_data. rewrite bind_get, Hb'. unfold sb_ram_read.
    rewrite (bind_done _ _ _ (buf, Some valid) s) by (unfold undef_if_none; by rewrite Hr). done.
  - intros k Hk. destruct (Hbytes (Z.to_nat k) ltac:(lia)) as [Hx Hv].
    rewrite Z2Nat.id in Hx, Hv by lia. unfold base in Hx, Hv. rewrite aligned_mod in Hx, Hv by done.
    pose proof (Z.mod_pos_bound k 8 ltac:(lia)). pose proof (Z.div_mod k 8 ltac:(lia)).
    assert (Z.of_nat (length valid) = HPDCACHE_REQ_WORDS) as Hvl'.
    { rewrite Hvl, Nat2Z.inj_div, Nat2Z.inj_add, Z2Nat.id by lia. change (Z.of_nat 8) with 8.
      change (Z.of_nat 7) with 7. rewrite Hb, Z.div_add_l by lia. change (7 / 8) with 0. lia. }
    destruct (lookup_lt_is_Some_2 valid (Z.to_nat (k / 8))) as [rv Hrv]; [lia|].
    eexists _, rv. simpl. rewrite !lookup_overwrite by lia. split_and!; [done|done|].
    unfold sb_byte, contents. fold base in Hv |- *. rewrite <-Hv.
    unfold be_bit. assert (Z.to_nat k `div` 8 = Z.to_nat (k / 8))%nat as -> by (rewrite Z2Nat.inj_div; lia || done).
    rewrite Hrv. by rewrite Nat2Z.inj_mod, Z2Nat.id by lia.
Qed.

(** The table after a load that wants a response. *)
Lemma load_entry junk req s :
  is_load req = true -> req_need_rsp req = true -> inflight_m s !! req_tid req = None ->
  no_error_segment s req ->
  exists s' e, core_req_process junk req s = Done tt s' /\
    inflight_m s' = <[req_tid req := e]> (inflight_m s) /\
    e_addr e = req_addr req /\ e_bytes e = u8 (Z.shiftl 1 (req_size req)) /\
    e_is_read e = true /\ e_is_write e = false /\ e_is_amo e = false /\ e_is_amo_sc e = false /\
    e_is_error e = false /\
    expects e (fun k => sb_byte s (align_to (req_addr req) CORE_REQ_BYTES + k)).
Proof using Hdiv Hword Hwords.
  intros Hld Hn Hid Herr. destruct (load_kinds req Hld) as (K1 & K2 & K3 & K4 & K5).
  rewrite core_req_start by done. cbv zeta.
  rewrite (mk_entry_no_error _ _ s) by done. rewrite Hld. cbn [negb andb orb].
  set (e := mk_entry junk _ _ req). rewrite (proj2 req_bytes_8).
  destruct (expect_data_spec (req_addr req) e (counted req s)) as (rdata & rv & Hx & Hexp).
  rewrite (bind_done _ _ _ _ _ Hx), bind_get. unfold lrsc_update. rewrite K2, K3, K4, K1.
  cbn [orb andb]. rewrite bind_modify. unfold core_req_finish. rewrite K1, Hn. cbn [andb].
  unfold when. rewrite bind_ret. eexists _, _. split; [done|]. split; [done|].
  assert (e_is_error e = false) as He by (by apply (mk_entry_no_error _ _ s)).
  split_and!; done.
Qed.

(** The message, if any, for byte [i] of a response to an entry that expects [c]. *)
Definition byte_error (base rdata : Z) (c : Z -> option Z) (i : Z) : option sb_error :=
  match c i with
  | Some x => if byte_of rdata i =? x then None
              else Some (E_data_wrong (u64 (base + i)) (byte_of rdata i) x)
  | None => None
  end.

Lemma check_byte_spec base rdata e c i s :
  0 <= i < CORE_REQ_BYTES -> expects e c -> sb_error_limit_m s <= 0 ->
  check_byte base (core_words rdata) e i s =
  Done tt (match byte_error base rdata c i with Some m => add_error m s | None => s end).
Proof using Hword.
  intros Hi He Hs. destruct (He i Hi) as (x & rv & Hx & Hrv & Hc). unfold check_byte, byte_error.
  rewrite core_words_byte, Hx, word_bytes_8, Hrv, Hc by done.
  rewrite !(bind_done _ _ s _ s) by done. destruct (Z.testbit rv (i mod 8)); [|done].
  destruct (Z.eqb_spec (byte_of rdata i) x); simpl; [done|]. by apply print_no_limit.
Qed.

Lemma check_data_read resp e c s :
  e_is_amo e = false -> e_byte e + e_bytes e <= CORE_REQ_BYTES -> expects e c ->
  sb_error_limit_m s <= 0 ->
  check_data resp e s = Done tt (add_errors
    (omap (byte_error (align_to (e_addr e) CORE_REQ_BYTES) (rsp_rdata resp) c)
       (seqZ (e_byte e) (e_bytes e))) s).
Proof using Hword Hwords.
  intros Ha Hr He Hs. unfold check_data. rewrite Ha.
  pose proof req_bytes_8 as [Hb _].
  assert (0 < CORE_REQ_BYTES) as Hpos by lia.
  pose proof (Z.mod_pos_bound (e_addr e) CORE_REQ_BYTES Hpos) as Hm.
  set (base := align_to (e_addr e) CORE_REQ_BYTES).
  assert (for_each (check_byte base (core_words (rsp_rdata resp)) e) (seqZ (e_byte e) (e_bytes e)) s =
    Done tt (add_errors (omap (byte_error base (rsp_rdata resp) c) (seqZ (e_byte e) (e_bytes e))) s)) as Hchk.
  { apply for_each_report; [done|]. intros i s' Hi Hs'. apply elem_of_seqZ in Hi.
    apply check_byte_spec; [unfold e_byte in *; lia|done|done]. }
  by rewrite (bind_done _ _ _ _ _ Hchk).
Qed.

(** C15: Whatever happens between a load and its response, the response is compared
    with the bytes the reference RAM held when the load was issued: one message per
    requested byte that was initialised and differs, with its address, and no
    other; the entry and the identifier are released in any case. *)
Theorem load_checked junk req s s1 s2 resp :
  is_load req = true -> req_need_rsp req = true -> inflight_m s !! req_tid req = None ->
  no_error_segment s req -> core_req_process junk req s = Done tt s1 ->
  inflight_m s2 !! req_tid req = inflight_m s1 !! req_tid req -> sb_error_limit_m s2 <= 0 ->
  rsp_tid resp = req_tid req -> rsp_error resp = false ->
  req_addr req mod CORE_REQ_BYTES + u8 (Z.shiftl 1 (req_size req)) <= CORE_REQ_BYTES ->
  let base := align_to (req_addr req) CORE_REQ_BYTES in
  exists s3, core_resp_process resp s2 = Done tt s3 /\
    sb_log s3 = sb_log s2 ++
      omap (byte_error base (rsp_rdata resp) (fun k => sb_byte s (base + k)))
        (seqZ (req_addr req mod CORE_REQ_BYTES) (u8 (Z.shiftl 1 (req_size req)))) /\
    inflight_m s3 = delete (req_tid req) (inflight_m s2) /\
    sb_seq_ids s3 = (deallocate_id (req_tid req) (sb_seq_ids s2)).1.
Proof using Hdiv Hword Hwords.
  intros Hld Hn Hid Herr Hrun Hkeep Hlim Htid Hok Hfit base.
  destruct (load_entry junk req s Hld Hn Hid Herr)
    as (s' & e & Hrun' & Hin & Ha & Hb & Hr & Hw & Hamo & Hsc & He & Hexp).
  rewrite Hrun in Hrun'. injection Hrun' as <-. rewrite Hin, lookup_insert_eq in Hkeep.
  unfold core_resp_process. unfold upd_count at 1. rewrite bind_modify, bind_get.
  set (s3 := set_count _ s2). change (inflight_m s3) with (inflight_m s2). rewrite Htid, Hkeep.
  rewrite Hw, He, Hok, Hsc, Hr. cbn [negb andb orb Bool.eqb]. unfold when at 1 2 3.
  assert (check_data resp e s3 = Done tt (add_errors
    (omap (byte_error base (rsp_rdata resp) (fun k => sb_byte s (base + k)))
        (seqZ (req_addr req mod CORE_REQ_BYTES) (u8 (Z.shiftl 1 (req_size req))))) s3)) as Hc.
  { rewrite (check_data_read resp e (fun k => sb_byte s (base + k))); unfold e_byte;
      rewrite ?Ha, ?Hb; done. }
  assert ((mret tt;; check_data resp e) s3 = check_data resp e s3) as Hskip by (by rewrite bind_ret).
  rewrite (bind_done _ _ _ _ _ (eq_trans Hskip Hc)), bind_modify.
  eexists. split; [done|]. simpl.
  destruct (add_errors_fields (omap (byte_error base (rsp_rdata resp) (fun k => sb_byte s (base + k)))
        (seqZ (req_addr req mod CORE_REQ_BYTES) (u8 (Z.shiftl 1 (req_size req))))) s3)
    as (F1 & F2 & _ & _ & F5 & _). rewrite F1, F2, F5. done.
Qed.
End Data.

(** ** Refills *)
Section Refill.
Context {cfg : HpdConfig} {Hcfg : ConfigWf cfg}.
Hypothesis Hmem : (MEM_BYTES | SCOREBOARD_RAM_SIZE).

Lemma MEM_BYTES_words : MEM_BYTES = 8 * MEM_WORDS /\ 0 < MEM_WORDS.
Proof using Hcfg.
  unfold MEM_BYTES, MEM_WORDS. destruct cfg_mem as (k & Hk & ->).
  assert (0 < 2 ^ k) by (apply Z.pow_pos_nonneg; lia).
  replace (64 * 2 ^ k) with (2 ^ k * 64) by lia. rewrite Z.div_mul by lia. split; [|lia].
  replace (2 ^ k * 64) with (8 * 2 ^ k * 8) by lia. by rewrite Z.div_mul.
Qed.

Lemma testbit_unset_fold (f : Z -> bool) l t :
  Forall (fun k => 0 <= k) l -> 0 <= t ->
  Z.testbit (foldr (fun k acc => Z.lor acc (Z.shiftl (if f k then 0 else 1) k)) 0 l) t =
  existsb (fun k => (k =? t) && negb (f k)) l.
Proof.
  intros Hl Ht. induction Hl as [|k l Hk Hl IH]; simpl; [apply Z.testbit_0_l|].
  rewrite Z.lor_spec, IH, Z.shiftl_spec, orb_comm by done. f_equal.
  destruct (f k); [rewrite Z.testbit_0_l; by rewrite andb_false_r|].
  rewrite testbit_1, andb_true_r. split_cmps; done.
Qed.

Lemma testbit_unset_bits r a i t :
  0 <= t < 8 -> Z.testbit (unset_bits r a i) t = negb (getBmap SCOREBOARD_RAM_SIZE r (u64 (a + (8 * i + t)))).
Proof.
  intros Ht. unfold unset_bits.
  rewrite (testbit_unset_fold (fun k => getBmap SCOREBOARD_RAM_SIZE r (u64 (a + (8 * i + k))))) by (repeat constructor || lia).
  assert (t = 0 \/ t = 1 \/ t = 2 \/ t = 3 \/ t = 4 \/ t = 5 \/ t = 6 \/ t = 7) as Hc by lia.
  destruct Hc as [->|[->|[->|[->|[->|[->|[->| ->]]]]]]]; simpl;
    destruct (getBmap _ _ _); done.
Qed.

(** The byte enables the loop builds select unset bytes only. *)
Definition below (unset be : list Z) : Prop :=
  forall j b u t, be !! j = Some b -> unset !! j = Some u -> Z.testbit b t = true -> Z.testbit u t = true.

Lemma refill_be_below fuel i bytes _byte unset be be' :
  below unset be -> refill_be fuel i bytes _byte unset be = Some be' ->
  below unset be' /\ length be' = length be.
Proof.
  revert i bytes be. induction fuel as [|fuel IH]; intros i bytes be Hb H; simpl in H.
  - destruct (bytes <=? 0); [|done]. by injection H as <-.
  - destruct (bytes <=? 0); [by injection H as <-|].
    apply bind_Some in H as (m & _ & H). apply bind_Some in H as (mask & _ & H).
    apply bind_Some in H as (u & Hu & H). apply IH in H as [H1 H2].
    + split; [done|]. by rewrite H2, length_insert.
    + intros j b u' t Hj Hu' Ht. destruct (decide (j = Z.to_nat i)) as [->|Hne].
      * rewrite Hu in Hu'. injection Hu' as <-.
        apply list_lookup_insert_Some in Hj as [(_ & <- & _)|[Hne _]]; [|done].
        rewrite Z.land_spec in Ht. by apply andb_prop in Ht as [_ Ht].
      * rewrite list_lookup_insert_ne in Hj by done. by eapply Hb.
Qed.

(** The enabled bytes of a refill are bytes the RAM never held. *)
Lemma refill_writes_unset r aligned be k :
  below (refill_unset r aligned) be -> length be = Z.to_nat MEM_WORDS -> 0 <= k < MEM_BYTES ->
  be_bit be (Z.to_nat k) = true -> getBmap SCOREBOARD_RAM_SIZE r (u64 (aligned + k)) = false.
Proof using Hcfg.
  intros Hb Hlen Hk Hbit. pose proof MEM_BYTES_words as [HB HW].
  pose proof (Z.mod_pos_bound k 8 ltac:(lia)). pose proof (Z.div_mod k 8 ltac:(lia)) as Hdm.
  unfold be_bit in Hbit.
  assert (Z.to_nat k `div` 8 = Z.to_nat (k / 8))%nat as Hq by (rewrite Z2Nat.inj_div; lia || done).
  rewrite Hq, Nat2Z.inj_mod, Z2Nat.id in Hbit by lia. change (Z.of_nat 8) with 8 in Hbit.
  destruct (be !! Z.to_nat (k / 8)) as [b|] eqn:Eb; [|done].
  assert (refill_unset r aligned !! Z.to_nat (k / 8) = Some (unset_bits r aligned (k / 8))) as Hu.
  { unfold refill_unset. rewrite list_lookup_fmap, lookup_seqZ_lt by lia. simpl. f_equal. f_equal. lia. }
  pose proof (Hb _ _ _ _ Eb Hu Hbit) as Ht. rewrite testbit_unset_bits in Ht by done.
  apply negb_true_iff in Ht. by rewrite <-Hdm in Ht.
Qed.

(** A successful refill is a write of bytes the RAM never held. *)
Lemma refill_write resp e s s' :
  refill resp e s = Done tt s' ->
  let aligned := align_to (m_addr e) MEM_BYTES in
  let buf := bytes_of_words ((fun i => noc_slice i (rresp_data resp)) <$> seqZ 0 MEM_WORDS) in
  exists be r, write SCOREBOARD_RAM_SIZE (ram_m s) buf be (Z.to_nat MEM_BYTES) aligned = Some r /\
    s' = set_ram r s /\ below (refill_unset (ram_m s) aligned) be /\ length be = Z.to_nat MEM_WORDS.
Proof.
  intros H aligned buf. unfold refill in H. rewrite bind_get in H. fold aligned buf in H.
  destruct (refill_be _ _ _ _ _ _) as [be|] eqn:Ebe; [|done].
  rewrite (bind_done _ _ _ be s) in H by done. unfold sb_ram_write in H. rewrite bind_get in H.
  apply refill_be_below in Ebe as [Hbelow Hlen].
  2:{ intros j b u t Hj _ Ht. apply lookup_replicate in Hj as [-> _]. by rewrite Z.testbit_0_l in Ht. }
  rewrite length_replicate in Hlen.
  destruct (write SCOREBOARD_RAM_SIZE (ram_m s) buf be (Z.to_nat MEM_BYTES) aligned) as [r|] eqn:Ew; [|done].
  rewrite (bind_done _ _ _ r s) in H by done. injection H as <-. exists be, r. by split_and!.
Qed.

Lemma align_to_range a n : 0 < n -> 0 <= a -> 0 <= align_to a n <= a.
Proof.
  intros Hn Ha. unfold align_to. pose proof (Z.div_mod a n ltac:(lia)).
  pose proof (Z.mod_pos_bound a n ltac:(lia)). pose proof (Z.div_pos a n Ha Hn). nia.
Qed.

Lemma refill_keeps resp e s s' a x :
  0 <= m_addr e -> m_addr e + MEM_BYTES <= 2 ^ 64 ->
  refill resp e s = Done tt s' -> sb_byte s a = Some x -> sb_byte s' a = Some x.
Proof using Hmem Hcfg.
  intros Ha0 Ha1 Hrun Hx. pose proof RAM_SIZE_pos as HS. pose proof MEM_BYTES_words as [HB HW].
  destruct (refill_write resp e s s' Hrun) as (be & r & Ew & -> & Hbelow & Hlen).
  set (aligned := align_to (m_addr e) MEM_BYTES) in *.
  assert (0 < MEM_BYTES) as HB0 by lia.
  pose proof (align_to_range (m_addr e) MEM_BYTES HB0 Ha0) as Hal. fold aligned in Hal.
  unfold sb_byte in *. simpl.
  rewrite (write_contents SCOREBOARD_RAM_SIZE RAM_SIZE_pos _ _ _ _ _ _ Ew) by (by apply Z.mod_pos_bound).
  unfold spec_write. destruct (_ && _ && _) eqn:E; [|done]. exfalso.
  apply andb_prop in E as [[E1%Z.leb_le E2%Z.ltb_lt]%andb_prop E3]. rewrite Z2Nat.id in E2 by lia.
  set (k := a mod SCOREBOARD_RAM_SIZE - aligned mod SCOREBOARD_RAM_SIZE) in *.
  assert (0 <= k < MEM_BYTES) as Hk by (unfold k; lia).
  pose proof (refill_writes_unset _ aligned be k Hbelow Hlen Hk E3) as Hu.
  rewrite wrap_small in Hu by (split; lia). unfold contents in Hx.
  assert (getBmap SCOREBOARD_RAM_SIZE (ram_m s) (a mod SCOREBOARD_RAM_SIZE) =
          getBmap SCOREBOARD_RAM_SIZE (ram_m s) (aligned + k)) as Heq; [|rewrite Heq, Hu in Hx; done].
  unfold getBmap.
  assert ((aligned + k) mod SCOREBOARD_RAM_SIZE = (a mod SCOREBOARD_RAM_SIZE) mod SCOREBOARD_RAM_SIZE) as ->; [|done].
  rewrite <-(Z.add_mod_idemp_l aligned) by lia. f_equal. unfold k. lia.
Qed.

(** A memory read response never changes a byte of the reference RAM that was
    written before: it fills uninitialised bytes only. *)
Theorem refill_keeps_written resp s s' a x :
  (forall e, inflight_mem_read_m s !! rresp_id resp = Some e -> 0 <= m_addr e /\ m_addr e + MEM_BYTES <= 2 ^ 64) ->
  mem_read_resp_process resp s = Done tt s' -> sb_byte s a = Some x -> sb_byte s' a = Some x.
Proof using Hmem Hcfg.
  intros Haddr Hrun Hx.
  unfold mem_read_resp_process, upd_count in Hrun. rewrite bind_modify, bind_get in Hrun.
  set (s1 := set_count _ s) in Hrun. change (inflight_mem_read_m s1) with (inflight_mem_read_m s) in Hrun.
  destruct (inflight_mem_read_m s !! rresp_id resp) as [e|].
  2:{ pose proof (post_print (E_mem_read_resp_unmatched (rresp_id resp)) s1 (fun _ s' => ram_m s' = ram_m s1) eq_refl) as Hp.
      unfold post in Hp. rewrite Hrun in Hp. unfold sb_byte in *. by rewrite Hp. }
  destruct (Haddr e eq_refl) as [Ha0 Ha1].
  assert (exists s2, when (rresp_error resp =? 0) (refill resp e) s1 = Done tt s2 /\ ram_m s' = ram_m s2)
    as (s2 & Hs2 & Hr2).
  { unfold mbind, SB_bind in Hrun. destruct (when _ (refill resp e) s1) as [[] s2| |]; [|done|done].
    exists s2. split; [done|]. destruct (rresp_last resp); by injection Hrun as <-. }
  assert (sb_byte s' a = sb_byte s2 a) as -> by (unfold sb_byte; by rewrite Hr2).
  destruct (rresp_error resp =? 0); [|by injection Hs2 as <-].
  by apply (refill_keeps resp e s1 s2 a x).
Qed.

Lemma refill_be_wide n i bytes _byte unset be :
  64 <= bytes -> refill_be (S n) i bytes _byte unset be = None.
Proof.
  intros Hb. simpl. destruct (Z.leb_spec bytes 0); [lia|].
  assert (shl64 1 bytes = None) as ->; [|done]. unfold shl64.
  destruct (Z.leb_spec 0 bytes), (Z.ltb_spec bytes 64); lia || done.
Qed.

(** The refill of 64 bytes or more, which a full line of the default configuration
    is, has no defined behaviour: its mask shifts a 64-bit integer by its width. *)
Theorem line_refill_undefined resp s e :
  inflight_mem_read_m s !! rresp_id resp = Some e -> rresp_error resp = 0 -> 64 <= m_bytes e ->
  mem_read_resp_process resp s = Undef.
Proof.
  intros He Herr Hb. unfold mem_read_resp_process, upd_count. rewrite bind_modify, bind_get.
  set (s1 := set_count _ s). change (inflight_mem_read_m s1) with (inflight_mem_read_m s).
  rewrite He, Herr. assert (refill resp e s1 = Undef) as Hu.
  { unfold refill. rewrite bind_get, (refill_be_wide 31) by done. done. }
  unfold mbind at 1, SB_bind. simpl. by rewrite Hu.
Qed.

(** *** What a refill writes

    The loop starts at the word [_word] and shifts the mask by [_byte - i * 8], so it
    is defined only up to the word of [_byte], and writes bytes of that word only. *)
Definition refill_word (e : inflight_mem_entry_t) : Z := (m_addr e / MEM_BYTES) mod MEM_WORDS.
Definition refill_byte (e : inflight_mem_entry_t) : Z := m_addr e mod MEM_BYTES.

(** Every shift of the mask is in range. *)
Definition refill_defined (e : inflight_mem_entry_t) : bool :=
  (m_bytes e <=? 0)
  || (m_bytes e <? 64) && (refill_byte e - 8 * refill_word e <? 64)
     && (8 * (refill_word e + (m_bytes e - 1) / 8) <=? refill_byte e).

(** The bytes of the bus word the mask selects. *)
Definition refill_selects (e : inflight_mem_entry_t) (k : Z) : bool :=
  let _word := refill_word e in let _byte := refill_byte e in
  (_word <=? _byte / 8) && (k / 8 =? _byte / 8) && (_byte <=? k)
  && (k <? _byte + m_bytes e - 8 * (_byte / 8 - _word)).

Lemma testbit_mask b s t :
  0 <= b < 64 -> 0 <= s < 64 -> 0 <= t < 8 ->
  Z.testbit (u8 (u64 (Z.shiftl (u64 (u64 (Z.shiftl 1 b) - 1)) s))) t = (s <=? t) && (t <? s + b).
Proof.
  intros Hb Hs Ht. unfold wrap. rewrite (Z.mod_pow2_bits_low _ 8), (Z.mod_pow2_bits_low _ 64) by lia.
  rewrite Z.shiftl_spec by lia. rewrite Z.shiftl_1_l.
  pose proof (Z.pow_pos_nonneg 2 b ltac:(lia) ltac:(lia)). pose proof (Z.pow_lt_mono_r 2 b 64 ltac:(lia) ltac:(lia) ltac:(lia)).
  rewrite (Z.mod_small (2 ^ b)), Z.mod_small by lia.
  replace (2 ^ b - 1) with (Z.ones b) by (rewrite Z.ones_equiv; lia).
  destruct (Z.leb_spec s t); [|by rewrite Z.testbit_neg_r by lia].
  destruct (Z.ltb_spec t (s + b)); simpl; [apply Z.ones_spec_low; lia|apply Z.ones_spec_high; lia].
Qed.

Lemma shl64_Some a n m : shl64 a n = Some m <-> 0 <= n < 64 /\ m = u64 (Z.shiftl a n).
Proof.
  unfold shl64. destruct (Z.leb_spec 0 n), (Z.ltb_spec n 64); simpl; split; intros Hx; try done;
    try (destruct Hx; lia); [by injection Hx as <-|by destruct Hx as [_ ->]].
Qed.

(** The byte enables, bit by bit. *)
Lemma refill_be_bits fuel i bytes _byte unset be be' :
  0 <= i -> 0 <= _byte -> length be = length unset ->
  (forall j b, (Z.to_nat i <= j)%nat -> be !! j = Some b -> b = 0) ->
  refill_be fuel i bytes _byte unset be = Some be' ->
  forall j t b u, 0 <= t < 8 -> be' !! j = Some b -> unset !! j = Some u ->
  Z.testbit b t =
    if (j <? Z.to_nat i)%nat then Z.testbit (default 0 (be !! j)) t
    else (Z.of_nat j =? _byte / 8) && (_byte mod 8 <=? t)
         && (t <? _byte mod 8 + bytes - 8 * (_byte / 8 - i)) && Z.testbit u t.
Proof.
  pose proof (Z.div_mod _byte 8 ltac:(lia)) as Hdm. pose proof (Z.mod_pos_bound _byte 8 ltac:(lia)) as Hmod.
  revert i bytes be. induction fuel as [|fuel IH]; intros i bytes be Hi Hbyte Hlen Hz H j t b u Ht Hb Hu; simpl in H.
  - destruct (Z.leb_spec bytes 0); [|done]. injection H as <-. rewrite Hb. simpl.
    destruct (Nat.ltb_spec j (Z.to_nat i)); [done|]. rewrite (Hz j b) by done. rewrite Z.testbit_0_l.
    split_cmps; (done || lia).
  - destruct (Z.leb_spec bytes 0).
    { injection H as <-. rewrite Hb. simpl.
      destruct (Nat.ltb_spec j (Z.to_nat i)); [done|]. rewrite (Hz j b) by done. rewrite Z.testbit_0_l.
      split_cmps; (done || lia). }
    apply bind_Some in H as (m & [E1 ->]%shl64_Some & H). apply bind_Some in H as (mask & [E2 ->]%shl64_Some & H).
    apply bind_Some in H as (ui & Hui & H).
    assert (Z.to_nat i < length be)%nat as Hin by (rewrite Hlen; by eapply lookup_lt_Some).
    eapply IH in H as ->; [..|done|by rewrite length_insert| |done|done|done]; [|lia|].
    2: { intros j' b' Hj'. rewrite list_lookup_insert_ne by lia. apply Hz. lia. }
    destruct (Nat.ltb_spec j (Z.to_nat (i + 1))), (Nat.ltb_spec j (Z.to_nat i)); try lia.
    + by rewrite list_lookup_insert_ne by lia.
    + assert (j = Z.to_nat i) as -> by lia. rewrite list_lookup_insert_eq by done. simpl.
      rewrite Hui in Hu. injection Hu as ->. rewrite Z.land_spec, testbit_mask by lia.
      rewrite Z2Nat.id by lia. split_cmps; (done || lia).
    + split_cmps; (done || lia).
Qed.
Lemma refill_be_total fuel i bytes _byte unset be :
  0 <= i -> 0 <= _byte < 8 * Z.of_nat (length unset) -> bytes <= 8 * Z.of_nat fuel ->
  is_Some (refill_be fuel i bytes _byte unset be) <->
  bytes <= 0 \/ (bytes < 64 /\ _byte - 8 * i < 64 /\ 8 * (i + (bytes - 1) / 8) <= _byte).
Proof.
  revert i bytes be. induction fuel as [|fuel IH]; intros i bytes be Hi Hb Hf; simpl.
  - destruct (Z.leb_spec bytes 0); [|lia]. split; [by left|by eexists].
  - destruct (Z.leb_spec bytes 0); [split; [by left|by eexists]|].
    assert ((bytes - 1) / 8 = (bytes - 8 - 1) / 8 + 1) as Hq
      by (rewrite <-Z.div_add by lia; f_equal; lia).
    pose proof (Z.div_pos (bytes - 1) 8 ltac:(lia) ltac:(lia)).
    split.
    + intros [x Hx]. apply bind_Some in Hx as (m & [E1 ->]%shl64_Some & Hx).
      apply bind_Some in Hx as (mask & [E2 ->]%shl64_Some & Hx). apply bind_Some in Hx as (ui & Hui & Hx).
      right. split; [lia|]. split; [lia|]. assert (is_Some (Some x)) as Hs by (by eexists).
      rewrite <-Hx, IH in Hs by lia. rewrite Hq. destruct Hs as [Hs|Hs]; [|lia].
      assert ((bytes - 1) / 8 = 0) by (apply Z.div_small; lia). lia.
    + intros [?|(H1 & H2 & H3)]; [lia|].
      assert (shl64 1 bytes = Some (u64 (Z.shiftl 1 bytes))) as -> by (apply shl64_Some; split; [lia|done]). simpl.
      set (m := u64 _). assert (shl64 m (_byte - i * 8) = Some (u64 (Z.shiftl m (_byte - i * 8)))) as ->
        by (apply shl64_Some; split; [lia|done]). simpl.
      destruct (lookup_lt_is_Some_2 unset (Z.to_nat i)) as [u ->]; [lia|]. simpl. apply IH; [lia..|].
      destruct (Z.leb_spec (bytes - 8) 0); [by left|right]. lia.
Qed.

Lemma refill_defined_spec e s :
  is_Some (refill_be 32 (refill_word e) (m_bytes e) (refill_byte e)
    (refill_unset (ram_m s) (align_to (m_addr e) MEM_BYTES)) (replicate (Z.to_nat MEM_WORDS) 0))
  <-> refill_defined e = true.
Proof using Hcfg.
  pose proof MEM_BYTES_words as [HB HW]. assert (0 < MEM_BYTES) as HB0 by lia. unfold refill_defined.
  pose proof (Z.mod_pos_bound (m_addr e / MEM_BYTES) MEM_WORDS HW). pose proof (Z.mod_pos_bound (m_addr e) MEM_BYTES HB0).
  destruct (Z.leb_spec 64 (m_bytes e)).
  - change 32%nat with (S 31). rewrite refill_be_wide by done. split_cmps; simpl; split; intros Hx; (done || by destruct Hx).
  - rewrite refill_be_total.
    + rewrite orb_true_iff, !andb_true_iff, !Z.leb_le, !Z.ltb_lt. intuition lia.
    + unfold refill_word. lia.
    + unfold refill_unset. rewrite length_fmap, length_seqZ. unfold refill_byte. lia.
    + lia.
Qed.

Lemma sb_byte_unset s a : bool_decide (sb_byte s a = None) = negb (getBmap SCOREBOARD_RAM_SIZE (ram_m s) a).
Proof.
  unfold sb_byte, contents. assert (getBmap SCOREBOARD_RAM_SIZE (ram_m s) (a mod SCOREBOARD_RAM_SIZE) =
    getBmap SCOREBOARD_RAM_SIZE (ram_m s) a) as ->
    by (unfold getBmap; rewrite Z.mod_mod by (pose proof RAM_SIZE_pos; lia); done).
  by destruct (getBmap _ _ a).
Qed.

(** The bytes of a bus word a refill enables: those selected that the RAM never held. *)
Lemma refill_be_selects e s be k :
  0 <= m_addr e -> m_addr e + MEM_BYTES <= 2 ^ 64 -> 0 <= k < MEM_BYTES ->
  refill_be 32 (refill_word e) (m_bytes e) (refill_byte e)
    (refill_unset (ram_m s) (align_to (m_addr e) MEM_BYTES)) (replicate (Z.to_nat MEM_WORDS) 0) = Some be ->
  be_bit be (Z.to_nat k) =
    refill_selects e k && bool_decide (sb_byte s (align_to (m_addr e) MEM_BYTES + k) = None).
Proof using Hcfg Hmem.
  intros Ha0 Ha1 Hk H. pose proof MEM_BYTES_words as [HB HW]. pose proof RAM_SIZE_pos as HS.
  assert (0 < MEM_BYTES) as HB0 by lia.
  pose proof (Z.mod_pos_bound (m_addr e / MEM_BYTES) MEM_WORDS HW).
  pose proof (Z.mod_pos_bound (m_addr e) MEM_BYTES HB0).
  pose proof (Z.mod_pos_bound k 8 ltac:(lia)). pose proof (Z.div_mod k 8 ltac:(lia)) as Hdm.
  pose proof (Z.div_mod (refill_byte e) 8 ltac:(lia)) as Hbm.
  pose proof (Z.mod_pos_bound (refill_byte e) 8 ltac:(lia)).
  set (aligned := align_to (m_addr e) MEM_BYTES) in *.
  pose proof (align_to_range (m_addr e) MEM_BYTES HB0 Ha0) as Hal. fold aligned in Hal.
  assert (Z.to_nat k `div` 8 = Z.to_nat (k / 8))%nat as Hq by (rewrite Z2Nat.inj_div; lia || done).
  assert (refill_unset (ram_m s) aligned !! Z.to_nat (k / 8) = Some (unset_bits (ram_m s) aligned (k / 8))) as Hu.
  { unfold refill_unset. rewrite list_lookup_fmap, lookup_seqZ_lt by lia. simpl. f_equal. f_equal. lia. }
  assert (length be = Z.to_nat MEM_WORDS) as Hlen.
  { apply refill_be_below in H as [_ Hl]; [by rewrite length_replicate in Hl|].
    intros j b u t Hj _ Ht. apply lookup_replicate in Hj as [-> _]. by rewrite Z.testbit_0_l in Ht. }
  destruct (lookup_lt_is_Some_2 be (Z.to_nat (k / 8))) as [b Hb]; [lia|].
  unfold be_bit. rewrite Hq, Hb, Nat2Z.inj_mod, Z2Nat.id by lia. change (Z.of_nat 8) with 8.
  eapply refill_be_bits in H as ->; [..|exact Hb|exact Hu]; [|by apply Z.mod_pos_bound|unfold refill_byte; lia|..|lia].
  2: { unfold refill_unset. by rewrite length_replicate, length_fmap, length_seqZ. }
  2: { intros j b0 _ Hj. by apply lookup_replicate in Hj as [-> _]. }
  rewrite testbit_unset_bits, <-Hdm, wrap_small, sb_byte_unset, Z2Nat.id by (done || lia || split; lia).
  rewrite lookup_replicate_2 by lia. simpl. rewrite Z.testbit_0_l. unfold refill_selects.
  destruct (Nat.ltb_spec (Z.to_nat (k / 8)) (Z.to_nat (refill_word e))).
  - split_cmps; done.
  - destruct (Z.eqb_spec (k / 8) (refill_byte e / 8)) as [E|]; [|by rewrite andb_false_r].
    split_cmps; done.
Qed.

Lemma refill_undefined resp e s : refill_defined e = false -> refill resp e s = Undef.
Proof using Hcfg.
  intros Hu. pose proof (refill_defined_spec e s) as Hd. rewrite Hu in Hd. unfold refill. rewrite bind_get.
  fold (refill_word e) (refill_byte e). destruct (refill_be _ _ _ _ _ _); [|done].
  destruct Hd as [Hd _]. discriminate Hd. by eexists.
Qed.

(** What [refill] does, on every input. *)
Lemma refill_total resp e s :
  0 <= m_addr e -> m_addr e + MEM_BYTES <= 2 ^ 64 ->
  let base := align_to (m_addr e) MEM_BYTES in
  if refill_defined e then exists r, refill resp e s = Done tt (set_ram r s) /\
    (forall k, 0 <= k < MEM_BYTES -> sb_byte (set_ram r s) (base + k) =
       if refill_selects e k && bool_decide (sb_byte s (base + k) = None)
       then Some (byte_of (rresp_data resp) k) else sb_byte s (base + k)) /\
    (forall a, (forall k, 0 <= k < MEM_BYTES -> a mod SCOREBOARD_RAM_SIZE <> (base + k) mod SCOREBOARD_RAM_SIZE) ->
       sb_byte (set_ram r s) a = sb_byte s a)
  else refill resp e s = Undef.
Proof using Hcfg Hmem.
  intros Ha0 Ha1 base. pose proof MEM_BYTES_words as [HB HW]. assert (0 < MEM_BYTES) as HB0 by lia.
  destruct (refill_defined e) eqn:Hdef; [|by apply refill_undefined].
  apply (refill_defined_spec e s) in Hdef as [be Ebe]. unfold refill. rewrite bind_get.
  fold (refill_word e) (refill_byte e) base. fold base in Ebe. rewrite Ebe, (bind_done _ _ _ be s) by done.
  assert (length be = Z.to_nat MEM_WORDS) as Hlen.
  { apply refill_be_below in Ebe as [_ Hl]; [by rewrite length_replicate in Hl|].
    intros j b u t Hj _ Ht. apply lookup_replicate in Hj as [-> _]. by rewrite Z.testbit_0_l in Ht. }
  destruct (ram_write_block MEM_BYTES s (bytes_of_words ((fun i => noc_slice i (rresp_data resp)) <$> seqZ 0 MEM_WORDS)) be
    (m_addr e) Hmem HB0) as (r & Hr & Hin & Hout).
  { rewrite length_bytes_of_words, length_fmap, length_seqZ. lia. }
  { lia. }
  fold base in Hr, Hin, Hout. exists r. split; [done|]. split; [|done]. intros k Hk. rewrite Hin by done.
  rewrite (refill_be_selects e s be k) by done. fold base. by rewrite words_byte by lia.
Qed.

(** C35: What a response of the memory does to the reference memory, for every read in flight and every width of the memory interface. A response without an error gives to the bytes its mask selects, in the 64-bit word of the request's address, the value they have in the response if nothing was ever written there; every other byte is kept, and all of them when the response carries an error. The process is undefined exactly when the response has no error and a shift of the mask is out of range, as it is for the 64 bytes of a line. Nothing is reported, and the read leaves the table with the last response. The addresses of the bus word are below 2^64 and its width divides the size of the reference memory. *)
Theorem refill_spec resp e s :
  inflight_mem_read_m s !! rresp_id resp = Some e ->
  0 <= m_addr e -> m_addr e + MEM_BYTES <= 2 ^ 64 ->
  let base := align_to (m_addr e) MEM_BYTES in
  match mem_read_resp_process resp s with
  | Done _ s' =>
      (rresp_error resp = 0 -> refill_defined e = true) /\ sb_log s' = sb_log s
      /\ inflight_mem_read_m s' = (if rresp_last resp then delete (rresp_id resp) (inflight_mem_read_m s)
                                  else inflight_mem_read_m s)
      /\ (forall k, 0 <= k < MEM_BYTES -> sb_byte s' (base + k) =
           if (rresp_error resp =? 0) && refill_selects e k && bool_decide (sb_byte s (base + k) = None)
           then Some (byte_of (rresp_data resp) k) else sb_byte s (base + k))
      /\ (forall a, (forall k, 0 <= k < MEM_BYTES -> a mod SCOREBOARD_RAM_SIZE <> (base + k) mod SCOREBOARD_RAM_SIZE) ->
           sb_byte s' a = sb_byte s a)
  | Undef => rresp_error resp = 0 /\ refill_defined e = false
  | Exit _ => False
  end.
Proof using Hcfg Hmem.
  intros He Ha0 Ha1 base. unfold mem_read_resp_process, upd_count. rewrite bind_modify, bind_get.
  set (s1 := set_count _ s). change (inflight_mem_read_m s1) with (inflight_mem_read_m s). rewrite He.
  destruct (Z.eqb_spec (rresp_error resp) 0) as [Herr|Herr]; unfold when.
  - pose proof (refill_total resp e s1 Ha0 Ha1) as Hr. cbv zeta in Hr. fold base in Hr.
    destruct (refill_defined e); [|unfold mbind at 1, SB_bind; by rewrite Hr].
    destruct Hr as (r & Hr & Hin & Hout). rewrite (bind_done _ _ _ _ _ Hr).
    destruct (rresp_last resp); simpl; by split_and!.
  - rewrite bind_ret. destruct (rresp_last resp); simpl; by split_and!.
Qed.
End Refill.

(** ** Witnesses *)
Lemma default_div : (@CORE_REQ_BYTES default_config | SCOREBOARD_RAM_SIZE).
Proof. exists 2097152. by vm_compute. Qed.
Lemma default_mem_div : (@MEM_BYTES default_config | SCOREBOARD_RAM_SIZE).
Proof. exists 262144. by vm_compute. Qed.

Lemma store_updates_ram_witness :
  exists s', @core_req_process default_config ex_stale (ex_req HPDCACHE_REQ_STORE 0x1008 0x1122334455667788)
      (ex_sb 0) = Done tt s' /\ sb_byte s' 0x100f = Some 0x11.
Proof.
  destruct (@store_updates_ram default_config eq_refl ltac:(vm_compute; discriminate) default_div
    ex_stale (ex_req HPDCACHE_REQ_STORE 0x1008 0x1122334455667788) (ex_sb 0)) as (s' & H1 & _ & H2 & _);
    [done..|]. exists s'. split; [exact H1|]. exact (H2 7 ltac:(vm_compute; intuition discriminate)).
Defined.

(** A store, a load of the stored word, and a response with a wrong byte. *)
Definition ex_after (m : SB unit) (s : scoreboard) : scoreboard :=
  match m s with Done _ s' => s' | _ => s end.
Definition ex_stored : scoreboard :=
  set_inflight ∅ (ex_after (@core_req_process default_config ex_stale
    (ex_req HPDCACHE_REQ_STORE 0x1008 0x1122334455667788)) (ex_sb 0)).
Definition ex_load : transaction_req := ex_req HPDCACHE_REQ_LOAD 0x1008 0.
Definition ex_loaded : scoreboard := ex_after (@core_req_process default_config ex_stale ex_load) ex_stored.
Definition ex_resp : transaction_resp :=
  {| rsp_rdata := 0x1122334455667789; rsp_sid := 0; rsp_tid := 3; rsp_error := false; rsp_aborted := false |}.

Lemma load_checked_witness :
  exists s3, @core_resp_process default_config ex_resp ex_loaded = Done tt s3 /\
    sb_log s3 = [E_data_wrong 0x1008 0x89 0x88].
Proof.
  destruct (@load_checked default_config eq_refl ltac:(vm_compute; discriminate) default_div
    ex_stale ex_load ex_stored ex_loaded ex_loaded ex_resp) as (s3 & H1 & H2 & _);
    [by vm_compute..|]. exists s3. split; [exact H1|]. rewrite H2. by vm_compute.
Defined.

(** A refill of one word over a RAM whose first byte was written. *)
Definition ex_refill : scoreboard :=
  set_mem_read {[ 1 := {| m_addr := 0x1000; m_bytes := 8; m_is_uncacheable := false;
                          m_is_error := false; m_core_req_ptr := None |} ]}
    (set_ram {| mem_m := {[ 0x1000 := 0x55 ]}; bmap_m := {[ 0x200 := 1 ]} |} (ex_sb 0)).
Definition ex_read_resp : mem_read_resp :=
  {| rresp_error := 0; rresp_id := 1; rresp_data := 0xffeeddccbbaa9988; rresp_last := true |}.

Lemma refill_keeps_written_witness :
  exists s', @mem_read_resp_process default_config ex_read_resp ex_refill = Done tt s' /\
    sb_byte s' 0x1000 = Some 0x55.
Proof.
  eexists. split; [vm_compute; reflexivity|].
  eapply (@refill_keeps_written default_config _ default_mem_div ex_read_resp ex_refill).
  - intros e He. vm_compute in He. injection He as <-. vm_compute. intuition discriminate.
  - vm_compute. reflexivity.
  - by vm_compute.
Defined.

Lemma refill_spec_witness :
  exists s', @mem_read_resp_process default_config ex_read_resp ex_refill = Done tt s' /\
    sb_byte s' 0x1000 = Some 0x55 /\ sb_byte s' 0x1001 = Some 0x99 /\ sb_byte s' 0x1008 = None.
Proof.
  pose proof (@refill_spec default_config _ default_mem_div ex_read_resp
    {| m_addr := 0x1000; m_bytes := 8; m_is_uncacheable := false; m_is_error := false; m_core_req_ptr := None |}
    ex_refill eq_refl ltac:(vm_compute; discriminate) ltac:(vm_compute; discriminate)) as H.
  cbv zeta in H. destruct (mem_read_resp_process ex_read_resp ex_refill) as [[] s'| |]; [|done|by destruct H].
  destruct H as (_ & _ & _ & H & _). exists s'. split; [done|].
  pose proof (H 0 ltac:(vm_compute; intuition discriminate)) as H0.
  pose proof (H 1 ltac:(vm_compute; intuition discriminate)) as H1.
  pose proof (H 8 ltac:(vm_compute; intuition discriminate)) as H8.
  split; [exact (eq_trans H0 eq_refl)|split; [exact (eq_trans H1 eq_refl)|exact (eq_trans H8 eq_refl)]].
Defined.

Lemma line_refill_undefined_witness :
  @mem_read_resp_process default_config ex_read_resp
    (set_mem_read {[ 1 := {| m_addr := 0x1000; m_bytes := 64; m_is_uncacheable := false;
                            m_is_error := false; m_core_req_ptr := None |} ]} (ex_sb 0)) = Undef.
Proof.
  eapply (@line_refill_undefined default_config ex_read_resp); [by vm_compute|done|].
  simpl. lia.
Defined.
