(* ===== verification/ScoreboardSafe.v ===== *)
(** * The core side of the scoreboard is always defined

    The processes that handle the requests and the responses of the core index arrays
    of the entries, of the response and of the reference RAM: for requests that do not
    cross the bytes of a request they stay inside, in any state these processes can
    reach and whatever the responses are. Words have 64 bits, as in [ScoreboardData]. *)
From S2P Require Import Prelude Defs Transaction RamModel Amo MemResp Sequence Scoreboard.
From S2P Require Import ScoreboardProps ScoreboardData.

#[local] Open Scope Z_scope.

(** ** Defined runs *)

(** [runs m s Q]: [m] is defined in [s], and if it returns the result satisfies [Q]. *)
Definition runs {A} (m : SB A) (s : scoreboard) (Q : A -> scoreboard -> Prop) : Prop :=
  match m s with Done a s' => Q a s' | Exit _ => True | Undef => False end.

Lemma runs_ret {A} (a : A) s (Q : A -> scoreboard -> Prop) : Q a s -> runs (mret a) s Q.
Proof. done. Qed.
Lemma runs_bind {A B} (m : SB A) (f : A -> SB B) s Q :
  runs m s (fun a s' => runs (f a) s' Q) -> runs (m ≫= f) s Q.
Proof. unfold runs, mbind, SB_bind. destruct (m s); done. Qed.
Lemma runs_weaken {A} (m : SB A) s (P Q : A -> scoreboard -> Prop) :
  (forall a s', P a s' -> Q a s') -> runs m s P -> runs m s Q.
Proof. unfold runs. destruct (m s); auto. Qed.
Lemma runs_get s (Q : scoreboard -> scoreboard -> Prop) : Q s s -> runs get s Q.
Proof. done. Qed.
Lemma runs_modify f s (Q : unit -> scoreboard -> Prop) : Q tt (f s) -> runs (modify f) s Q.
Proof. done. Qed.
Lemma runs_some {A} (o : option A) s (Q : A -> scoreboard -> Prop) :
  is_Some o -> (forall a, o = Some a -> Q a s) -> runs (undef_if_none o) s Q.
Proof. intros [a ->] H. by apply H. Qed.
Lemma runs_print m s (Q : unit -> scoreboard -> Prop) : Q tt (add_error m s) -> runs (print_error m) s Q.
Proof. unfold runs, print_error. by destruct (_ && _). Qed.
Lemma runs_when b m s (Q : unit -> scoreboard -> Prop) :
  (b = true -> runs m s Q) -> (b = false -> Q tt s) -> runs (when b m) s Q.
Proof. intros H1 H2. unfold when. destruct b; [by apply H1|by apply runs_ret, H2]. Qed.
Lemma runs_for_each {A} (f : A -> SB unit) l (I : scoreboard -> Prop) s (Q : unit -> scoreboard -> Prop) :
  (forall x s, x ∈ l -> I s -> runs (f x) s (fun _ => I)) -> I s -> (forall s, I s -> Q tt s) ->
  runs (for_each f l) s Q.
Proof.
  intros Hf HI HQ. revert s HI. induction l as [|x l IH]; intros s HI; simpl; [by apply HQ|].
  apply runs_bind. eapply runs_weaken; [|apply Hf; [apply list_elem_of_here|done]].
  intros [] s' HI'. apply IH; [|done]. intros y s0 Hy. apply Hf. by apply list_elem_of_further.
Qed.

Section Safe.
Context {cfg : HpdConfig}.
Hypothesis Hword : HPDCACHE_WORD_WIDTH = 64.
Hypothesis Hwords : 1 <= HPDCACHE_REQ_WORDS.
Hypothesis Hdiv : (CORE_REQ_BYTES | SCOREBOARD_RAM_SIZE).

(** ** Entries *)

(** The bytes of the entry that are compared are in the request's words. *)
Definition compared (e : inflight_entry_t) : bool := e_is_read e || e_is_amo e || e_is_amo_lr e.

Record entry_defined (e : inflight_entry_t) : Prop := {
  ed_bytes : compared e = true -> e_byte e + e_bytes e <= CORE_REQ_BYTES;
  ed_data : compared e = true -> e_is_error e = false ->
    (Z.to_nat CORE_REQ_BYTES <= length (e_rdata e))%nat /\ (Z.to_nat CORE_REQ_WORDS <= length (e_rv e))%nat;
  ed_words : e_is_amo e || e_is_amo_sc e = true ->
    length (e_wdata e) = Z.to_nat CORE_REQ_WORDS /\ length (e_be e) = Z.to_nat CORE_REQ_WORDS;
  ed_op : e_is_amo e = true -> forall x y b, is_Some (core_compute_amo (e_op e) x y b);
}.

(** A request that is compared does not cross the bytes of a request. *)
Definition req_fits (t : transaction_req) : Prop :=
  is_load t || is_amo t || is_amo_lr t = true ->
  req_addr t mod CORE_REQ_BYTES + u8 (Z.shiftl 1 (req_size t)) <= CORE_REQ_BYTES.

Definition entries_defined (s : scoreboard) : Prop := map_Forall (fun _ => entry_defined) (inflight_m s).

Lemma e_word_range e : 0 <= e_word e < CORE_REQ_WORDS.
Proof using Hwords. apply Z.mod_pos_bound. unfold CORE_REQ_WORDS. lia. Qed.

Lemma amo_op_defined t x y b : is_amo t = true -> is_Some (core_compute_amo (req_op t) x y b).
Proof.
  unfold is_amo. intros H. repeat (apply orb_true_iff in H as [H|H]); apply Z.eqb_eq in H; rewrite H;
    unfold core_compute_amo; by rewrite req_op_of_value_value.
Qed.

(** The entry of a request, once its data was read. *)
Lemma mk_entry_defined junk time segs t :
  req_fits t -> let e := mk_entry junk time segs t in
  (compared e = true -> e_byte e + e_bytes e <= CORE_REQ_BYTES)
  /\ (e_is_amo e || e_is_amo_sc e = true ->
      length (e_wdata e) = Z.to_nat CORE_REQ_WORDS /\ length (e_be e) = Z.to_nat CORE_REQ_WORDS)
  /\ (e_is_amo e = true -> forall x y b, is_Some (core_compute_amo (e_op e) x y b)).
Proof.
  intros Hf e. unfold e, compared, e_byte. simpl. split_and!.
  - exact Hf.
  - intros H. destruct (is_amo t), (is_amo_sc t); try done; rewrite ?orb_true_r; simpl;
      by rewrite length_core_words, length_core_bes.
  - intros H x y b. by apply amo_op_defined.
Qed.

Lemma set_atomic_defined a err e :
  (err = true -> e_is_error e = true) -> compared e = false \/ err = e_is_error e ->
  entry_defined e -> entry_defined (set_atomic a err e).
Proof.
  intros He Hc [H1 H2 H3 H4]. constructor; simpl; try done.
  intros Hx Herr. change (compared e = true) in Hx. destruct Hc as [Hc | ->]; [congruence|by apply H2].
Qed.

(** ** The handler of requests *)

Lemma expect_data_runs addr e s (Q : inflight_entry_t -> scoreboard -> Prop) :
  (forall rdata rv, (Z.to_nat CORE_REQ_BYTES <= length rdata)%nat -> (Z.to_nat CORE_REQ_WORDS <= length rv)%nat ->
     Q (set_rdata rdata rv e) s) ->
  runs (expect_data (align_to addr CORE_REQ_BYTES) e) s Q.
Proof using Hdiv Hword Hwords.
  intros HQ. destruct (expect_data_spec Hword Hwords Hdiv addr e s) as (rdata & rv & Hx & Hexp).
  unfold runs. rewrite Hx. pose proof (req_bytes_8 Hword) as [Hb _]. unfold CORE_REQ_WORDS in *.
  destruct (Hexp (CORE_REQ_BYTES - 1)) as (x & v & Hl & Hr & _); [lia|]. simpl in Hl, Hr.
  apply lookup_lt_Some in Hl, Hr. apply HQ; [lia|].
  assert ((CORE_REQ_BYTES - 1) / 8 = HPDCACHE_REQ_WORDS - 1) as E by (rewrite Hb; Z.to_euclidean_division_equations; lia).
  rewrite E in Hr. lia.
Qed.

Lemma finish_runs req addr e s :
  (is_store req = true -> length (e_wdata e) = Z.to_nat CORE_REQ_WORDS /\ length (e_be e) = Z.to_nat CORE_REQ_WORDS) ->
  entry_defined e -> entries_defined s ->
  runs (core_req_finish req (align_to addr CORE_REQ_BYTES) e) s (fun _ => entries_defined).
Proof using Hdiv Hword Hwords.
  intros Hst He Hs. unfold core_req_finish. pose proof (req_bytes_8 Hword) as [Hb Hb'].
  apply runs_bind, runs_when.
  - intros [Hstore _]%andb_prop. destruct (Hst Hstore) as [Hw Hbe]. rewrite Hb'. unfold CORE_REQ_WORDS in *.
    destruct (ram_write_bytes Hword Hwords Hdiv s (bytes_of_words (e_wdata e)) (e_be e) addr) as (r & Hr & _);
      [rewrite length_bytes_of_words, Hw; lia|done|].
    unfold runs. rewrite Hr. destruct (req_need_rsp req); [|done]. by apply map_Forall_insert_2.
  - intros _. destruct (req_need_rsp req); [|done]. by apply map_Forall_insert_2.
Qed.

Lemma store_words junk time segs t :
  is_store t = true -> let e := mk_entry junk time segs t in
  length (e_wdata e) = Z.to_nat CORE_REQ_WORDS /\ length (e_be e) = Z.to_nat CORE_REQ_WORDS.
Proof. intros H e. unfold e. simpl. rewrite H. simpl. by rewrite length_core_words, length_core_bes. Qed.

(** The reservation changes an entry by its atomicity and, for an SC, its error. *)
Lemma lrsc_update_entry req e l :
  (lrsc_update req e l).1 = e \/
  is_amo_sc req = true /\ exists b err, (lrsc_update req e l).1 = set_atomic b (e_is_error e && err) e.
Proof.
  unfold lrsc_update. cbv zeta.
  destruct (is_amo req || is_amo_sc req || is_store req); [|by left]. simpl.
  destruct (is_amo_sc req); [right; eauto|by left].
Qed.

Lemma sc_kinds req :
  is_amo_sc req = true -> is_load req = false /\ is_amo req = false /\ is_amo_lr req = false.
Proof. unfold is_load, is_amo, is_amo_lr, is_amo_sc. intros H%Z.eqb_eq. by rewrite H. Qed.

(** The part of the handler after the data was read. *)
Lemma core_req_end_runs req addr e s :
  entry_defined e -> (is_amo_sc req = true -> compared e = false) ->
  (is_store req = true -> length (e_wdata e) = Z.to_nat CORE_REQ_WORDS /\ length (e_be e) = Z.to_nat CORE_REQ_WORDS) ->
  entries_defined s ->
  runs (s ← get;
    let '(e, l) := lrsc_update req e (lrsc_buf_m s) in
    modify (set_lrsc l);;
    if is_amo req || is_amo_lr req || (is_amo_sc req && e_is_atomic e) then
      if (length (inflight_amo_req_m s) <? AMO_FIFO_SIZE)%nat then
        modify (fun s => set_amo_fifo (inflight_amo_req_m s ++ [e]) s);;
        core_req_finish req (align_to addr CORE_REQ_BYTES) e
      else print_error E_amo_fifo_full
    else core_req_finish req (align_to addr CORE_REQ_BYTES) e) s (fun _ => entries_defined).
Proof using Hdiv Hword Hwords.
  intros He Hsc Hst Hs. apply runs_bind, runs_get.
  assert (entry_defined (lrsc_update req e (lrsc_buf_m s)).1
          /\ (is_store req = true ->
              length (e_wdata (lrsc_update req e (lrsc_buf_m s)).1) = Z.to_nat CORE_REQ_WORDS
              /\ length (e_be (lrsc_update req e (lrsc_buf_m s)).1) = Z.to_nat CORE_REQ_WORDS)) as [He' Hst'].
  { destruct (lrsc_update_entry req e (lrsc_buf_m s)) as [-> |[Hr (b & err & ->)]]; [done|]. split; [|done].
    apply set_atomic_defined; [by intros [? _]%andb_prop|left; by apply Hsc|done]. }
  destruct (lrsc_update req e (lrsc_buf_m s)) as [e' l]. simpl in He', Hst'.
  apply runs_bind, runs_modify.
  destruct (_ || _ || _); [|by apply finish_runs].
  destruct (_ <? _)%nat; [|by apply runs_print].
  apply runs_bind, runs_modify. by apply finish_runs.
Qed.

Lemma core_req_runs junk req s :
  req_fits req -> entries_defined s -> runs (core_req_process junk req) s (fun _ => entries_defined).
Proof using Hdiv Hword Hwords.
  intros Hf Hs. pose proof (req_bytes_8 Hword) as [Hb Hb']. unfold core_req_process.
  apply runs_bind, runs_modify, runs_bind.
  apply (runs_weaken _ _ (fun _ => entries_defined));
    [|apply runs_when; intros _; [by apply runs_modify|done]].
  intros [] s1 Hs1. apply runs_bind, runs_get.
  case_bool_decide; [by apply runs_print|].
  destruct (is_cmo req && negb (req_need_rsp req)); [by apply runs_modify|].
  cbv zeta. rewrite Hb'. set (e := mk_entry junk _ _ req).
  destruct (mk_entry_defined junk (nb_cycles (sb_count s1)) (sb_errorsegs s1) req Hf) as (E1 & E2 & E3).
  fold e in E1, E2, E3.
  assert (is_amo_sc req = true -> compared e = false) as Hsc.
  { intros Hsc. destruct (sc_kinds req Hsc) as (K1 & K2 & K3). unfold compared. simpl. by rewrite K1, K2, K3. }
  apply runs_bind. destruct (negb (e_is_error e) && _) eqn:Hread.
  - apply expect_data_runs. intros rdata rv Hr Hv. apply core_req_end_runs; [|exact Hsc| |done].
    + by constructor.
    + apply store_words.
  - apply runs_ret, core_req_end_runs; [|exact Hsc| |done].
    + constructor; try done. intros Hc Herr. exfalso. rewrite Herr in Hread. simpl in Hread.
      unfold compared in Hc. simpl in Hc. destruct (is_load req), (is_amo req), (is_amo_lr req); done.
    + apply store_words.
Qed.

(** ** The handler of responses *)

(** A write of the bytes of one word. *)
Lemma word_write_runs s buf be a (Q : unit -> scoreboard -> Prop) :
  (8 <= length buf)%nat -> (1 <= length be)%nat -> (forall r, Q tt (set_ram r s)) ->
  runs (sb_ram_write buf be CORE_REQ_WORD_BYTES (align_to a CORE_REQ_WORD_BYTES)) s Q.
Proof using Hdiv Hword.
  intros Hbuf Hbe HQ. rewrite (word_bytes_8 Hword).
  destruct (write_total SCOREBOARD_RAM_SIZE RAM_SIZE_pos (ram_m s) buf be (Z.to_nat 8) (align_to a 8))
    as [r Hr]; rewrite ?Z2Nat.id by lia; [by exists (SCOREBOARD_RAM_SIZE / 8)|by apply align_to_div|lia|lia|lia|].
  unfold sb_ram_write, runs, mbind, SB_bind, get, undef_if_none. rewrite Hr. apply HQ.
Qed.

Definition unchanged (s : scoreboard) (s' : scoreboard) : Prop :=
  inflight_m s' = inflight_m s /\ inflight_mem_read_m s' = inflight_mem_read_m s
  /\ inflight_mem_write_m s' = inflight_mem_write_m s.

Lemma check_sc_runs resp e s :
  entry_defined e -> e_is_amo_sc e = true -> runs (check_sc resp e) s (fun _ => unchanged s).
Proof using Hdiv Hword Hwords.
  intros [_ _ Hw _] Hsc. destruct (Hw ltac:(by rewrite Hsc, orb_true_r)) as [Hwd Hbe].
  pose proof (e_word_range e) as Hr. unfold check_sc. apply runs_bind, runs_get.
  destruct (e_is_atomic e && sc_is_atomic s).
  - apply runs_bind, word_write_runs.
    + rewrite length_drop, length_bytes_of_words, Hwd. lia.
    + rewrite length_drop, Hbe. lia.
    + intros r. apply runs_when; intros _; [by apply runs_print|done].
  - apply runs_when; intros _; [by apply runs_print|done].
Qed.

Lemma check_byte_runs aligned data e i s s0 :
  entry_defined e -> compared e = true -> e_is_error e = false -> i ∈ seqZ (e_byte e) (e_bytes e) ->
  unchanged s0 s -> runs (check_byte aligned (core_words data) e i) s (fun _ => unchanged s0).
Proof using Hdiv Hword Hwords.
  intros [H1 H2 _ _] Hc Herr Hi%elem_of_seqZ Hs. destruct (H2 Hc Herr) as [Hd Hv]. pose proof (H1 Hc) as Hb.
  assert (0 <= e_byte e) as H0 by (apply Z.mod_pos_bound; pose proof (req_bytes_8 Hword) as [-> _]; lia).
  pose proof (req_bytes_8 Hword) as [Hbytes _]. unfold CORE_REQ_WORDS in *.
  unfold check_byte. apply runs_bind, runs_some.
  { apply lookup_lt_is_Some_2. rewrite length_bytes_of_words, length_core_words. lia. }
  intros recv _. apply runs_bind, runs_some; [apply lookup_lt_is_Some_2; lia|].
  intros expc _. apply runs_bind, runs_some.
  { apply lookup_lt_is_Some_2. rewrite (word_bytes_8 Hword). Z.to_euclidean_division_equations. lia. }
  intros rv _. apply runs_when; intros _; [by apply runs_print|done].
Qed.

Lemma update_amo_runs data e s :
  entry_defined e -> e_is_amo e = true -> runs (update_amo (core_words data) e) s (fun _ => unchanged s).
Proof using Hdiv Hword Hwords.
  intros [_ _ Hw Hop] Ha. destruct (Hw ltac:(by rewrite Ha)) as [Hwd Hbe].
  pose proof (e_word_range e) as Hr. unfold update_amo. cbv zeta.
  apply runs_bind, runs_some; [apply lookup_lt_is_Some_2; lia|]. intros x _.
  apply runs_bind, runs_some; [apply lookup_lt_is_Some_2; rewrite length_core_words; unfold CORE_REQ_WORDS in *; lia|].
  intros y _. destruct (if e_bytes e =? 4 then _ else _) as [x' y'].
  apply runs_bind, runs_some; [by apply Hop|]. intros z _.
  apply runs_bind, runs_some; [apply lookup_lt_is_Some_2; lia|]. intros b _.
  apply word_write_runs; [rewrite length_bytes_of_words; simpl; lia|simpl; lia|done].
Qed.

(** The entry is removed, and nothing else is in flight or not. *)
Definition answered (tid : Z) (s s' : scoreboard) : Prop :=
  inflight_m s' = delete tid (inflight_m s) /\ inflight_mem_read_m s' = inflight_mem_read_m s
  /\ inflight_mem_write_m s' = inflight_mem_write_m s.

Lemma core_resp_runs_answered resp s :
  entries_defined s ->
  runs (core_resp_process resp) s (fun _ s' => entries_defined s'
    /\ (forall e, inflight_m s !! rsp_tid resp = Some e -> rsp_error resp = e_is_error e ->
        answered (rsp_tid resp) s s')).
Proof using Hdiv Hword Hwords.
  intros Hs. unfold core_resp_process. apply runs_bind, runs_modify, runs_bind, runs_get. simpl.
  destruct (inflight_m s !! rsp_tid resp) as [e|] eqn:He; [|by apply runs_print].
  destruct (negb (e_is_write e) && _) eqn:Hflag.
  { apply runs_print. split; [done|]. intros ? [= <-] Heq. apply andb_true_iff in Hflag as [_ Hflag].
    rewrite Heq in Hflag. by rewrite eqb_reflx in Hflag. }
  clear Hflag. pose proof (Hs _ _ He) as Hdef. set (s1 := set_count _ s).
  apply runs_bind. apply (runs_weaken _ _ (fun _ => unchanged s1)).
  { intros [] s2 (H1 & H2 & H3). apply runs_bind, runs_modify, runs_modify.
    unfold entries_defined, answered. simpl. rewrite H1, H2, H3. split; [by apply map_Forall_delete|done]. }
  apply runs_when; [|done]. intros Herr%negb_true_iff. apply runs_bind.
  apply (runs_weaken _ _ (fun _ => unchanged s1)).
  2: { apply runs_when; [|done]. intros Hsc. by apply check_sc_runs. }
  intros [] s2 Hs2. apply runs_when; [|done]. intros Hc.
  unfold check_data. cbv zeta. apply runs_bind.
  apply (runs_for_each _ _ (unchanged s1)); [|done|].
  { intros i s3 Hi Hs3. by apply check_byte_runs. }
  intros s3 Hs3. apply runs_when; [|done]. intros Ha.
  eapply runs_weaken; [|by apply update_amo_runs]. intros [] s4 Hs4.
  destruct Hs3 as (? & ? & ?), Hs4 as (? & ? & ?). unfold unchanged. split_and!; congruence.
Qed.

Lemma core_resp_runs resp s :
  entries_defined s -> runs (core_resp_process resp) s (fun _ => entries_defined).
Proof using Hdiv Hword Hwords.
  intros Hs. eapply runs_weaken; [|by apply core_resp_runs_answered]. by intros [] s' [? _].
Qed.
End Safe.
