(* ===== verification/Device.v ===== *)
(** * What the test bench expects of the cache

    An abstract device for the loops of [System] and [MemLoop]: one memory of bytes, in
    which the requests take effect in the order the device accepts them; it owes each of
    them one response, sent in any order. It handles one atomic operation at a time, as
    the state machine of hpdcache_uncached.sv does, from whose states those of
    [uc_state] are taken: while one is in progress no request is accepted, and its memory
    transaction is alone in flight. Its other memory transactions are free. *)
From S2P Require Import Prelude Defs Transaction MemModel Amo MemResp.
From S2P Require Import Scoreboard ScoreboardProps ScoreboardSafe.

#[local] Open Scope Z_scope.

(** Bytes of the memory read as an integer. *)
Definition memory := Z -> Z.
Definition load_bytes (n : Z) (m : memory) (a : Z) : Z := le_combine ((fun k => m (a + k)) <$> seqZ 0 n).

Section Device.
Context {cfg : HpdConfig}.

(** The error segments of the memory, and the addresses the requests stay in. *)
Context (segs : list segment_t) (region : Z -> Prop).

(** ** Requests *)

Definition req_bytes (t : transaction_req) : Z := u8 (Z.shiftl 1 (req_size t)).
Definition req_base (t : transaction_req) : Z := align_to (req_addr t) CORE_REQ_BYTES.
Definition req_offset (t : transaction_req) : Z := req_addr t mod CORE_REQ_BYTES.
Definition is_atomic_op (t : transaction_req) : bool := is_amo t || is_amo_lr t || is_amo_sc t.
(** Byte [k] of the request's block is accessed. *)
Definition accessed (t : transaction_req) (k : Z) : Prop := req_offset t <= k < req_offset t + req_bytes t.

(** The request touches an error segment. *)
Definition req_error (t : transaction_req) : bool :=
  (negb (is_cmo t) || is_cmo_prefetch t)
  && within_error_segs segs (req_addr t) (u64 (req_addr t + req_bytes t)).

(** The 8-byte words it touches. *)
Definition touches (t : transaction_req) (w : Z) : Prop :=
  req_addr t / 8 <= w < req_addr t / 8 + Z.max 1 (req_bytes t / 8).
#[global] Instance touches_dec t w : Decision (touches t w).
Proof. unfold touches. apply _. Defined.

(** What the sequences send: aligned accesses inside a block of the data bus and inside
    the region; an atomic operation is on 4 or 8 bytes, with the byte enables of its
    access, and wants a response. *)
Record req_good (t : transaction_req) : Prop := {
  rg_addr : 0 <= req_addr t;
  rg_size : is_cmo t = false -> 0 <= req_size t <= HPDCACHE_CL_OFFSET_WIDTH /\ req_size t < 8;
  rg_aligned : is_cmo t = false -> (2 ^ req_size t | req_addr t);
  rg_fits : is_cmo t = false -> req_offset t + req_bytes t <= CORE_REQ_BYTES;
  rg_region : is_cmo t = false -> forall k, 0 <= k < CORE_REQ_BYTES -> region (req_base t + k);
  rg_atomic : is_atomic_op t = true -> (req_size t = 2 \/ req_size t = 3) /\ req_need_rsp t = true;
  rg_be : is_atomic_op t = true -> forall k, 0 <= k -> Z.testbit (req_be t) k = true <-> accessed t k;
}.

(** ** State *)

(** The uncached handler: idle; with a memory request to send; waiting for the read and
    write responses of some identifiers; with a response to send. The boolean is the
    success of an SC. *)
Inductive uc_state :=
  | UC_IDLE
  | UC_MEM_REQ (t : transaction_req)
  | UC_MEM_WAIT_RSP (t : transaction_req) (rd wr : option Z) (ok : bool)
  | UC_CORE_RSP (t : transaction_req) (ok : bool).

(** A response to send: the request, the memory when it was accepted and the bytes of it
    the core had written, its error, and whether an SC held the reservation. *)
Record owed := {
  ow_req : transaction_req; ow_mem : memory; ow_written : Z -> bool; ow_error : bool; ow_hit : bool;
}.

Record device := {
  dv_mem : memory;
  dv_written : Z -> bool;          (* the core wrote the byte *)
  dv_rsrv : option Z;              (* the word reserved by an LR *)
  dv_uc : uc_state;
  dv_owed : gmap Z owed;
  dv_reads : gmap Z Z;             (* memory reads in flight, with their addresses *)
  dv_writes : gset Z;              (* memory writes in flight *)
  dv_filled : gset Z;              (* memory reads that had a beat without an error *)
}.

Definition set_uc (u : uc_state) (d : device) : device :=
  Build_device (dv_mem d) (dv_written d) (dv_rsrv d) u (dv_owed d) (dv_reads d) (dv_writes d) (dv_filled d).
Definition set_owed (o : gmap Z owed) (d : device) : device :=
  Build_device (dv_mem d) (dv_written d) (dv_rsrv d) (dv_uc d) o (dv_reads d) (dv_writes d) (dv_filled d).
Definition set_dmem (m : memory) (w : Z -> bool) (d : device) : device :=
  Build_device m w (dv_rsrv d) (dv_uc d) (dv_owed d) (dv_reads d) (dv_writes d) (dv_filled d).
Definition set_rsrv (r : option Z) (d : device) : device :=
  Build_device (dv_mem d) (dv_written d) r (dv_uc d) (dv_owed d) (dv_reads d) (dv_writes d) (dv_filled d).
Definition set_reads (r : gmap Z Z) (d : device) : device :=
  Build_device (dv_mem d) (dv_written d) (dv_rsrv d) (dv_uc d) (dv_owed d) r (dv_writes d) (dv_filled d).
Definition set_writes (w : gset Z) (d : device) : device :=
  Build_device (dv_mem d) (dv_written d) (dv_rsrv d) (dv_uc d) (dv_owed d) (dv_reads d) w (dv_filled d).
Definition set_filled (f : gset Z) (d : device) : device :=
  Build_device (dv_mem d) (dv_written d) (dv_rsrv d) (dv_uc d) (dv_owed d) (dv_reads d) (dv_writes d) f.

Definition device_init (m : memory) : device := Build_device m (fun _ => false) None UC_IDLE ∅ ∅ ∅ ∅.

(** ** Operations on the memory *)

(** The bytes a request enables. *)
Definition enabled (t : transaction_req) (a : Z) : bool :=
  (0 <=? a - req_base t) && (a - req_base t <? CORE_REQ_BYTES) && Z.testbit (req_be t) (a - req_base t).
Definition write_enabled (t : transaction_req) (f : Z -> Z) (d : device) : device :=
  set_dmem (fun a => if enabled t a then f a else dv_mem d a) (fun a => enabled t a || dv_written d a) d.

(** A store, and an SC that succeeds. *)
Definition store (t : transaction_req) (d : device) : device :=
  write_enabled t (fun a => byte_of (req_wdata t) (a - req_base t)) d.

(** An atomic operation, as the ISA has it, on the operand at the request's address. *)
Definition amo_result (t : transaction_req) (m : memory) : Z :=
  let w := 8 * req_bytes t in
  default 0 (op ← req_op_of_value (req_op t);
             amo_spec op w (load_bytes (req_bytes t) m (req_addr t))
               (wrap w (Z.shiftr (req_wdata t) (8 * req_offset t)))).
Definition amo (t : transaction_req) (d : device) : device :=
  write_enabled t (fun a => byte_of (amo_result t (dv_mem d)) (a - req_addr t)) d.

(** ** Steps *)

(** Accepting a request, with a reservation [r] before it. *)
Definition holds (t : transaction_req) (r : option Z) : bool :=
  match r with Some w => bool_decide (touches t w) | None => false end.
Definition reserve (t : transaction_req) (r : option Z) : option Z :=
  if is_amo_lr t then (if req_error t then None else Some (req_addr t / 8))
  else if is_amo_sc t then None
  else if is_store t || is_amo t then (if holds t r then None else r)
  else r.
Definition owed_error (t : transaction_req) (hit : bool) : bool :=
  req_error t && (if is_amo_sc t then hit else true).
Definition uses_memory (t : transaction_req) (hit : bool) : bool :=
  is_amo t || is_amo_lr t || (is_amo_sc t && hit).
Definition owe (t : transaction_req) (d : device) : owed :=
  let hit := holds t (dv_rsrv d) in
  {| ow_req := t; ow_mem := dv_mem d; ow_written := dv_written d; ow_error := owed_error t hit; ow_hit := hit |}.
Definition accept (t : transaction_req) (d : device) : device :=
  let hit := holds t (dv_rsrv d) in
  let d' := if is_store t && negb (req_error t) then store t d else d in
  let d' := set_rsrv (reserve t (dv_rsrv d)) d' in
  let d' := if req_need_rsp t then set_owed (<[req_tid t := owe t d]> (dv_owed d)) d' else d' in
  if uses_memory t hit then set_uc (UC_MEM_REQ t) d'
  else if is_amo_sc t then set_uc (UC_CORE_RSP t false) d' else d'.

(** The response of a request: its error, but for a store, whose error the memory may
    report later; the bytes a read accesses; the status of an SC in each word. *)
Record right (o : owed) (ok : bool) (r : transaction_resp) : Prop := {
  ri_error : is_store (ow_req o) = false -> rsp_error r = ow_error o;
  ri_data : ow_error o = false -> is_load (ow_req o) || is_amo (ow_req o) || is_amo_lr (ow_req o) = true ->
    forall k, accessed (ow_req o) k -> byte_of (rsp_rdata r) k = ow_mem o (req_base (ow_req o) + k);
  ri_sc : ow_error o = false -> is_amo_sc (ow_req o) = true ->
    let i := (req_addr (ow_req o) / 8) mod CORE_REQ_WORDS in
    let x := range ((i + 1) * 64 - 1) (i * 64) (rsp_rdata r) in
    (if req_bytes (ow_req o) =? 4 then u32 x else x) = if ok then 0 else 1;
}.

(** The end of an atomic operation. *)
Definition commit (o : owed) (ok : bool) (d : device) : device :=
  let t := ow_req o in
  let d' := if ow_error o then d
            else if is_amo t then amo t d else if is_amo_sc t && ok then store t d else d in
  set_uc UC_IDLE (set_owed (delete (req_tid t) (dv_owed d)) d').

(** The memory's answer to the handler. *)
Definition uc_next (t : transaction_req) (rd wr : option Z) (ok : bool) : uc_state :=
  match rd, wr with None, None => UC_CORE_RSP t ok | _, _ => UC_MEM_WAIT_RSP t rd wr ok end.
Definition uc_read (id : Z) (u : uc_state) : uc_state :=
  match u with
  | UC_MEM_WAIT_RSP t (Some i) wr ok => if i =? id then uc_next t None wr ok else u
  | _ => u
  end.
Definition uc_write (id : Z) (atomic : bool) (u : uc_state) : uc_state :=
  match u with
  | UC_MEM_WAIT_RSP t rd (Some i) ok => if i =? id then uc_next t rd None atomic else u
  | _ => u
  end.

(** Plain memory requests are sent before the handler's own. *)
Definition uc_quiet (u : uc_state) : bool :=
  match u with UC_IDLE | UC_MEM_REQ _ => true | _ => false end.

(** The bus word of an address is in the region. *)
Definition bus_good (a : Z) : Prop :=
  0 <= a /\ a + MEM_BYTES <= 2 ^ 64 /\ forall k, 0 <= k < MEM_BYTES -> region (align_to a MEM_BYTES + k).
(** A read of the memory returns what it holds, but where the core wrote. The promise is
    about the first beat without an error, which carries the bus word of the address: the
    scoreboard stores every beat of a read there, and only bytes it never stored, so what
    the later beats carry is free. *)
Definition truthful (d : device) (a : Z) (resp : mem_read_resp) : Prop :=
  rresp_error resp = 0 -> rresp_id resp ∉ dv_filled d -> forall k, 0 <= k < MEM_BYTES ->
    dv_written d (align_to a MEM_BYTES + k) = false ->
    byte_of (rresp_data resp) k = dv_mem d (align_to a MEM_BYTES + k).

(** A beat of a read. *)
Definition beat (resp : mem_read_resp) (d : device) : device :=
  let id := rresp_id resp in
  if rresp_last resp then
    set_uc (uc_read id (dv_uc d)) (set_filled (dv_filled d ∖ {[id]}) (set_reads (delete id (dv_reads d)) d))
  else if rresp_error resp =? 0 then set_filled ({[id]} ∪ dv_filled d) d else d.

(** The memory request of an atomic operation other than an LR. *)
Definition atomic_write (t : transaction_req) (r : mem_req) : bool :=
  (is_amo t && mem_is_amo r) || (is_amo_sc t && mem_is_stex r).

(** The steps, labelled with the event of the scoreboard. *)
Inductive dev_step (d : device) : sb_event -> device -> Prop :=
  | dev_accept junk t :
      dv_uc d = UC_IDLE -> req_good t -> dv_owed d !! req_tid t = None ->
      dev_step d (EvCoreReq junk t) (accept t d)
  | dev_respond r o :
      dv_owed d !! rsp_tid r = Some o -> is_atomic_op (ow_req o) = false -> right o false r ->
      dev_step d (EvCoreResp r) (set_owed (delete (rsp_tid r) (dv_owed d)) d)
  | dev_finish r o t ok :
      dv_uc d = UC_CORE_RSP t ok -> rsp_tid r = req_tid t -> dv_owed d !! req_tid t = Some o ->
      right o ok r -> dev_step d (EvCoreResp r) (commit o ok d)
  | dev_read req :
      uc_quiet (dv_uc d) = true -> mem_is_ldex req = false -> dv_reads d !! mreq_id req = None ->
      bus_good (mreq_addr req) ->
      dev_step d (EvMemReadReq req) (set_reads (<[mreq_id req := mreq_addr req]> (dv_reads d)) d)
  | dev_ldex req t :
      dv_uc d = UC_MEM_REQ t -> is_amo_lr t = true -> mem_is_ldex req = true ->
      dv_reads d = ∅ -> dv_writes d = ∅ -> bus_good (mreq_addr req) ->
      dev_step d (EvMemReadReq req)
        (set_uc (UC_MEM_WAIT_RSP t (Some (mreq_id req)) None false)
           (set_reads {[mreq_id req := mreq_addr req]} d))
  | dev_read_resp resp a :
      dv_reads d !! rresp_id resp = Some a -> truthful d a resp ->
      dev_step d (EvMemReadResp resp) (beat resp d)
  | dev_write wr :
      uc_quiet (dv_uc d) = true -> mem_is_amo (wreq wr) = false -> mem_is_stex (wreq wr) = false ->
      mreq_id (wreq wr) ∉ dv_writes d ->
      dev_step d (EvMemWriteReq wr) (set_writes ({[mreq_id (wreq wr)]} ∪ dv_writes d) d)
  | dev_atomic wr t :
      dv_uc d = UC_MEM_REQ t -> atomic_write t (wreq wr) = true ->
      get_nline (mreq_addr (wreq wr)) = get_nline (req_addr t) ->
      dv_reads d = ∅ -> dv_writes d = ∅ -> bus_good (mreq_addr (wreq wr)) ->
      dev_step d (EvMemWriteReq wr)
        (set_uc (UC_MEM_WAIT_RSP t (if is_amo t then Some (mreq_id (wreq wr)) else None)
                   (Some (mreq_id (wreq wr))) false)
           (set_reads (if is_amo t then {[mreq_id (wreq wr) := mreq_addr (wreq wr)]} else ∅)
              (set_writes {[mreq_id (wreq wr)]} d)))
  | dev_write_resp resp :
      wresp_id resp ∈ dv_writes d ->
      dev_step d (EvMemWriteResp resp)
        (set_uc (uc_write (wresp_id resp) (wresp_is_atomic resp) (dv_uc d))
           (set_writes (dv_writes d ∖ {[wresp_id resp]}) d))
  | dev_allocate id : dev_step d (EvAllocate id) d
  | dev_cycle i : dev_step d (EvCycle i) d.
End Device.
