(* ===== verification/DeviceSb.v ===== *)
(** * The handlers of the scoreboard, when they report nothing

    [total m s Q]: [m] ends, with no error that stops the program and nothing undefined.
    The effect of the handlers on what the device of [Device] is compared with. *)
From S2P Require Import Prelude Defs Transaction RamModel Amo MemModel MemResp Sequence.
From S2P Require Import Scoreboard ScoreboardProps ScoreboardLrsc ScoreboardData ScoreboardSafe Device.

#[local] Open Scope Z_scope.

Definition total {A} (m : SB A) (s : scoreboard) (Q : A -> scoreboard -> Prop) : Prop :=
  match m s with Done a s' => Q a s' | _ => False end.

Lemma total_ret {A} (a : A) s (Q : A -> scoreboard -> Prop) : Q a s -> total (mret a) s Q.
Proof. done. Qed.
Lemma total_bind {A B} (m : SB A) (f : A -> SB B) s Q :
  total m s (fun a s' => total (f a) s' Q) -> total (m ≫= f) s Q.
Proof. unfold total, mbind, SB_bind. destruct (m s); done. Qed.
Lemma total_weaken {A} (m : SB A) s (P Q : A -> scoreboard -> Prop) :
  (forall a s', P a s' -> Q a s') -> total m s P -> total m s Q.
Proof. unfold total. destruct (m s); auto. Qed.
Lemma total_get s (Q : scoreboard -> scoreboard -> Prop) : Q s s -> total get s Q.
Proof. done. Qed.
Lemma total_modify f s (Q : unit -> scoreboard -> Prop) : Q tt (f s) -> total (modify f) s Q.
Proof. done. Qed.
Lemma total_some {A} (o : option A) a s (Q : A -> scoreboard -> Prop) :
  o = Some a -> Q a s -> total (undef_if_none o) s Q.
Proof. by intros ->. Qed.
Lemma total_when b m s (Q : unit -> scoreboard -> Prop) :
  (b = true -> total m s Q) -> (b = false -> Q tt s) -> total (when b m) s Q.
Proof. intros H1 H2. unfold when. destruct b; [by apply H1|by apply total_ret, H2]. Qed.
Lemma total_for_each {A} (f : A -> SB unit) l s (Q : unit -> scoreboard -> Prop) :
  (forall x, x ∈ l -> f x s = Done tt s) -> Q tt s -> total (for_each f l) s Q.
Proof.
  intros Hf HQ. induction l as [|x l IH]; simpl; [done|]. apply total_bind. unfold total.
  rewrite Hf by apply list_elem_of_here. apply IH. intros y Hy. apply Hf. by apply list_elem_of_further.
Qed.
Lemma total_done {A} (m : SB A) s Q : total m s Q -> exists a s', m s = Done a s' /\ Q a s'.
Proof. unfold total. destruct (m s); [eauto|done..]. Qed.

Section Sb.
Context {cfg : HpdConfig} {wf : ConfigWf cfg}.
Hypothesis Hword : HPDCACHE_WORD_WIDTH = 64.
Hypothesis Hwords : 1 <= HPDCACHE_REQ_WORDS.
Hypothesis Hdiv : (CORE_REQ_BYTES | SCOREBOARD_RAM_SIZE).

(** Two addresses of the region have two places in the RAM of the scoreboard. *)
Context (segs : list segment_t) (region : Z -> Prop).
Hypothesis Hinj : forall a b,
  region a -> region b -> a mod SCOREBOARD_RAM_SIZE = b mod SCOREBOARD_RAM_SIZE -> a = b.

(** ** The reference memory over the region *)

Lemma aligned_offset n base k :
  0 < n -> (n | SCOREBOARD_RAM_SIZE) -> (n | base) -> 0 <= k < n ->
  (base + k) mod SCOREBOARD_RAM_SIZE = base mod SCOREBOARD_RAM_SIZE + k.
Proof.
  intros Hn HN Hb Hk. pose proof RAM_SIZE_pos as HS.
  pose proof (aligned_in_range SCOREBOARD_RAM_SIZE HS n base Hn HN Hb).
  pose proof (Z.mod_pos_bound base _ HS).
  rewrite Z.add_mod by lia. rewrite (Z.mod_small k) by lia. apply Z.mod_small. lia.
Qed.

Definition in_block (base n a : Z) : bool := (0 <=? a - base) && (a - base <? n).

(** The place of a byte of the region in a block of the region. *)
Lemma block_place n base a :
  0 < n -> (n | SCOREBOARD_RAM_SIZE) -> (n | base) -> (forall k, 0 <= k < n -> region (base + k)) -> region a ->
  let off := base mod SCOREBOARD_RAM_SIZE in let p := a mod SCOREBOARD_RAM_SIZE in
  (off <=? p) && (p <? off + n) = in_block base n a /\ (in_block base n a = true -> p - off = a - base).
Proof using Hinj.
  intros Hn HN Hb Hreg Ha off p. unfold in_block.
  destruct (Z.leb_spec off p), (Z.ltb_spec p (off + n)); simpl.
  2-4: assert (in_block base n a = true -> False) as Hf;
    [unfold in_block; intros [H1%Z.leb_le H2%Z.ltb_lt]%andb_prop;
     pose proof (aligned_offset n base (a - base) Hn HN Hb ltac:(lia)) as Ho;
     replace (base + (a - base)) with a in Ho by lia; unfold off, p in *; lia
    |unfold in_block in Hf; destruct (_ && _); [by destruct Hf|done]].
  pose proof (aligned_offset n base (p - off) Hn HN Hb ltac:(lia)) as Ho.
  assert (base + (p - off) = a) as E.
  { apply Hinj; [apply Hreg; lia|done|]. rewrite Ho. unfold off, p. lia. }
  rewrite <-E. rewrite (proj2 (Z.leb_le 0 _)), (proj2 (Z.ltb_lt _ n)) by lia. split; [done|lia].
Qed.

Lemma write_region n s buf be base :
  0 < n -> (n | SCOREBOARD_RAM_SIZE) -> (n | base) -> (forall k, 0 <= k < n -> region (base + k)) ->
  (Z.to_nat n <= length buf)%nat -> (Z.to_nat n <= 8 * length be)%nat ->
  exists r, sb_ram_write buf be n base s = Done tt (set_ram r s) /\
    forall a, region a -> sb_byte (set_ram r s) a =
      if in_block base n a && be_bit be (Z.to_nat (a - base)) then buf !! Z.to_nat (a - base) else sb_byte s a.
Proof using Hinj.
  intros Hn HN Hb Hreg Hbuf Hbe. pose proof RAM_SIZE_pos as HS.
  destruct (write_total SCOREBOARD_RAM_SIZE HS (ram_m s) buf be (Z.to_nat n) base) as [r Hr];
    rewrite ?Z2Nat.id by lia; [done|done|lia|done|done|].
  exists r. split; [unfold sb_ram_write, mbind, SB_bind, get, undef_if_none; by rewrite Hr|].
  intros a Ha. destruct (block_place n base a Hn HN Hb Hreg Ha) as [Hp Hk]. unfold sb_byte. simpl.
  rewrite (write_contents SCOREBOARD_RAM_SIZE HS _ _ _ _ _ _ Hr) by (by apply Z.mod_pos_bound).
  unfold spec_write. rewrite Z2Nat.id, Hp by lia.
  destruct (in_block base n a); [|done]. by rewrite Hk.
Qed.

(** ** Requests *)

(** What neither a request nor a response changes. *)
Definition same_rest (s s' : scoreboard) : Prop :=
  sb_log s' = sb_log s /\ sb_errorsegs s' = sb_errorsegs s /\ sc_is_atomic s' = sc_is_atomic s
  /\ inflight_mem_read_m s' = inflight_mem_read_m s /\ inflight_mem_write_m s' = inflight_mem_write_m s.

(** The entry of a request, whose data is compared with the bytes [c] of its block. *)
Record entry_of (t : transaction_req) (hit : bool) (c : Z -> option Z) (e : inflight_entry_t) : Prop := {
  eo_addr : e_addr e = req_addr t;
  eo_bytes : e_bytes e = req_bytes t;
  eo_read : e_is_read e = is_load t;
  eo_write : e_is_write e = is_store t;
  eo_amo : e_is_amo e = is_amo t;
  eo_sc : e_is_amo_sc e = is_amo_sc t;
  eo_lr : e_is_amo_lr e = is_amo_lr t;
  eo_op : e_op e = req_op t;
  eo_error : e_is_error e = owed_error segs t hit;
  eo_atomic : is_amo_sc t = true -> e_is_atomic e = hit;
  eo_data : is_store t || is_amo_sc t || is_amo t = true ->
    e_wdata e = core_words (req_wdata t) /\ e_be e = core_bes (req_be t);
  eo_expects : is_load t || is_amo t || is_amo_lr t = true -> req_error segs t = false -> expects e c;
}.

Lemma req_bytes_pow t : req_good region t -> is_cmo t = false -> req_bytes t = 2 ^ req_size t.
Proof.
  intros Hg Hc. destruct (rg_size _ _ Hg Hc) as [Hs Hs8]. unfold req_bytes.
  rewrite Z.shiftl_mul_pow2, Z.mul_1_l by lia. apply wrap_small. split; [apply Z.pow_nonneg; lia|].
  apply Z.pow_lt_mono_r; lia.
Qed.

(** An operation is of one kind. *)
Lemma kinds t :
  (is_load t = true -> is_store t = false /\ is_amo t = false /\ is_amo_lr t = false /\ is_amo_sc t = false /\ is_cmo t = false)
  /\ (is_store t = true -> is_load t = false /\ is_amo t = false /\ is_amo_lr t = false /\ is_amo_sc t = false /\ is_cmo t = false)
  /\ (is_amo_lr t = true -> is_load t = false /\ is_store t = false /\ is_amo t = false /\ is_amo_sc t = false /\ is_cmo t = false)
  /\ (is_amo_sc t = true -> is_load t = false /\ is_store t = false /\ is_amo t = false /\ is_amo_lr t = false /\ is_cmo t = false)
  /\ (is_amo t = true -> is_load t = false /\ is_store t = false /\ is_amo_lr t = false /\ is_amo_sc t = false /\ is_cmo t = false).
Proof.
  unfold is_load, is_amo, is_amo_lr, is_amo_sc, is_cmo, is_store. split_and!.
  1-4: intros H%Z.eqb_eq; by rewrite H.
  intros H. repeat (apply orb_true_iff in H as [H|H]); apply Z.eqb_eq in H; by rewrite H.
Qed.
Lemma cmo_kinds t :
  is_cmo t = true -> is_load t = false /\ is_store t = false /\ is_amo t = false /\ is_amo_lr t = false /\ is_amo_sc t = false.
Proof.
  destruct (kinds t) as (H1 & H2 & H3 & H4 & H5). intros Hc.
  split_and!; [destruct (is_load t)|destruct (is_store t)|destruct (is_amo t)|destruct (is_amo_lr t)|destruct (is_amo_sc t)];
    try done; exfalso; naive_solver congruence.
Qed.

Lemma entry_access e t :
  req_good region t -> is_cmo t = false -> e_addr e = req_addr t -> e_bytes e = req_bytes t -> access_ok e.
Proof using wf.
  intros Hg Hc Ha Hb. split; [rewrite Ha; apply Hg|]. destruct (rg_size _ _ Hg Hc) as [Hs _].
  exists (req_size t). split; [done|]. rewrite Ha, Hb, req_bytes_pow by done. split; [done|]. by apply Hg.
Qed.

(** The reservation of the scoreboard is that of the device. *)
Lemma lrsc_effect t e l :
  req_good region t -> lrsc_wf l -> e_addr e = req_addr t -> e_bytes e = req_bytes t ->
  e_is_error e = req_error segs t ->
  reserved (lrsc_update t e l).2 = reserve segs t (reserved l) /\ lrsc_wf (lrsc_update t e l).2
  /\ (lrsc_update t e l).1 =
     (if is_amo_sc t then set_atomic (holds t (reserved l)) (owed_error segs t (holds t (reserved l))) e else e).
Proof using wf.
  intros Hg Hl Ha Hb He. destruct (is_cmo t) eqn:Hc.
  { destruct (cmo_kinds t Hc) as (K1 & K2 & K3 & K4 & K5). unfold lrsc_update, reserve.
    rewrite K2, K3, K4, K5. done. }
  pose proof (entry_access e t Hg Hc Ha Hb) as Hacc.
  pose proof (lrsc_update_refines t e l Hacc Hl) as H.
  pose proof (lrsc_match_reserved l e Hacc Hl) as Hm.
  assert (forall w, touched e w <-> touches t w) as Ht by (intros w; unfold touched, touches; by rewrite Ha, Hb).
  assert (lrsc_addr_match l e = holds t (reserved l)) as Hh.
  { rewrite Hm. unfold holds. destruct (reserved l); [|done]. apply bool_decide_ext, Ht. }
  destruct (lrsc_update t e l) as [e' l'] eqn:E. destruct H as (Hr & Hw & Hsc & Hn). simpl. split_and!.
  - rewrite Hr. unfold spec_reserve, reserve. rewrite He, Ha. destruct (is_amo_lr t), (is_amo_sc t); try done.
    destruct (is_store t || is_amo t); [|done]. unfold holds. destruct (reserved l) as [w|]; [|done].
    destruct (decide (touched e w)) as [Hd|Hd]; [rewrite bool_decide_true by by apply Ht
      |rewrite bool_decide_false by by rewrite <-Ht]; done.
  - done.
  - destruct (is_amo_sc t) eqn:Es; [|by apply Hn]. unfold lrsc_update in E.
    destruct (kinds t) as (_ & _ & _ & K & _). destruct (K Es) as (_ & K2 & K3 & K4 & _).
    rewrite K4, K3, Es, K2 in E. simpl in E. injection E as <- _. unfold owed_error. by rewrite Hh, Es, He.
Qed.

(** What the handler of requests does. *)
Record accepted (t : transaction_req) (s s' : scoreboard) : Prop := {
  ac_rest : same_rest s s';
  ac_rsrv : reserved (lrsc_buf_m s') = reserve segs t (reserved (lrsc_buf_m s)) /\ lrsc_wf (lrsc_buf_m s');
  ac_ram : forall a, region a -> sb_byte s' a =
    if is_store t && negb (req_error segs t) && enabled t a
    then Some (byte_of (req_wdata t) (a - req_base t)) else sb_byte s a;
  ac_entry : let hit := holds t (reserved (lrsc_buf_m s)) in
    if req_need_rsp t then
      exists e, entry_of t hit (fun k => sb_byte s (req_base t + k)) e
        /\ inflight_m s' = <[req_tid t := e]> (inflight_m s)
        /\ inflight_amo_req_m s' = inflight_amo_req_m s ++ (if uses_memory t hit then [e] else [])
    else inflight_m s' = inflight_m s /\ inflight_amo_req_m s' = inflight_amo_req_m s;
}.

Lemma req_bytes_8' : HPDCACHE_REQ_DATA_WIDTH / 8 = CORE_REQ_BYTES /\ CORE_REQ_BYTES = HPDCACHE_REQ_WORDS * 8.
Proof using Hword. by destruct (req_bytes_8 Hword). Qed.

Lemma base_aligned t : (CORE_REQ_BYTES | req_base t).
Proof. by exists (req_addr t / CORE_REQ_BYTES). Qed.

(** The end of the handler. *)
Lemma finish_total t hit e s Q :
  req_good region t -> e_is_error e = owed_error segs t hit -> 
  (is_store t = true -> e_wdata e = core_words (req_wdata t) /\ e_be e = core_bes (req_be t)) ->
  (forall r, (forall a, region a -> sb_byte (set_ram r s) a =
      if is_store t && negb (req_error segs t) && enabled t a
      then Some (byte_of (req_wdata t) (a - req_base t)) else sb_byte s a) ->
    let s1 := set_ram r s in
    Q tt (if req_need_rsp t then set_inflight (<[req_tid t := e]> (inflight_m s1)) s1
          else set_ids (deallocate_id (req_tid t) (sb_seq_ids s1)).1 s1)) ->
  total (core_req_finish t (req_base t) e) s Q.
Proof using Hdiv Hinj Hword Hwords.
  intros Hg He Hst HQ. destruct req_bytes_8' as [Hb' Hb]. unfold core_req_finish. rewrite Hb'.
  assert (forall r, let s1 := set_ram r s in
    total (if req_need_rsp t then modify (fun s => set_inflight (<[req_tid t := e]> (inflight_m s)) s)
           else release_id (req_tid t)) s1
      (fun _ s' => s' = if req_need_rsp t then set_inflight (<[req_tid t := e]> (inflight_m s1)) s1
          else set_ids (deallocate_id (req_tid t) (sb_seq_ids s1)).1 s1)) as Hend.
  { intros r s1. unfold release_id. by destruct (req_need_rsp t). }
  apply total_bind, total_when.
  - intros [Hs Herr]%andb_prop. destruct (Hst Hs) as [-> ->].
    destruct (kinds t) as (_ & K & _). destruct (K Hs) as (_ & _ & _ & Ksc & Kc).
    destruct (write_region CORE_REQ_BYTES s (bytes_of_words (core_words (req_wdata t)))
      (core_bes (req_be t)) (req_base t)) as (r & Hr & Hram).
    { lia. }
    { done. }
    { apply base_aligned. }
    { by apply Hg. }
    { rewrite length_bytes_of_words, length_core_words. lia. }
    { rewrite length_core_bes. lia. }
    unfold total. rewrite Hr. eapply total_weaken; [|apply Hend]. intros [] s' ->. apply HQ.
    intros a Ha. rewrite Hram by done. rewrite Hs. rewrite He in Herr. unfold owed_error in Herr.
    rewrite Ksc, andb_true_r in Herr. rewrite Herr. cbn [andb negb]. unfold in_block, enabled.
    destruct (Z.leb_spec 0 (a - req_base t)), (Z.ltb_spec (a - req_base t) CORE_REQ_BYTES); try done. simpl.
    rewrite core_bes_bit by (done || lia). by rewrite core_words_byte by (done || lia).
  - intros Hs. assert (set_ram (ram_m s) s = s) as E by (by destruct s).
    rewrite <-E. eapply total_weaken; [|apply Hend]. intros [] s' ->. apply HQ.
    intros a Ha. rewrite E. rewrite He in Hs. unfold owed_error in Hs.
    destruct (is_store t) eqn:Est; [|done]. destruct (kinds t) as (_ & K & _). destruct (K Est) as (_ & _ & _ & Ksc & _).
    rewrite Ksc, andb_true_r in Hs. simpl in Hs. by rewrite Hs.
Qed.

(** The part after the data was read. *)
Lemma core_req_end_total t hit e s f Q :
  f = inflight_amo_req_m s ->
  req_good region t -> e_is_error e = owed_error segs t hit -> uses_memory t hit = (is_amo t || is_amo_lr t || (is_amo_sc t && e_is_atomic e)) ->
  (is_store t = true -> e_wdata e = core_words (req_wdata t) /\ e_be e = core_bes (req_be t)) ->
  (uses_memory t hit = true -> (length (inflight_amo_req_m s) < AMO_FIFO_SIZE)%nat) ->
  (forall r, (forall a, region a -> sb_byte (set_ram r s) a =
      if is_store t && negb (req_error segs t) && enabled t a
      then Some (byte_of (req_wdata t) (a - req_base t)) else sb_byte s a) ->
    let s1 := set_ram r (if uses_memory t hit then set_amo_fifo (inflight_amo_req_m s ++ [e]) s else s) in
    Q tt (if req_need_rsp t then set_inflight (<[req_tid t := e]> (inflight_m s1)) s1
          else set_ids (deallocate_id (req_tid t) (sb_seq_ids s1)).1 s1)) ->
  total (if is_amo t || is_amo_lr t || (is_amo_sc t && e_is_atomic e) then
     if (length f <? AMO_FIFO_SIZE)%nat then
       modify (fun s => set_amo_fifo (inflight_amo_req_m s ++ [e]) s);;
       core_req_finish t (req_base t) e
     else print_error E_amo_fifo_full
   else core_req_finish t (req_base t) e) s Q.
Proof using Hdiv Hinj Hword Hwords.
  intros -> Hg He Hu Hst Hlen HQ. rewrite <-Hu. destruct (uses_memory t hit).
  - rewrite (proj2 (Nat.ltb_lt _ _)) by auto. apply total_bind, total_modify.
    eapply finish_total; [done|done|done|]. intros r Hr. apply (HQ r). exact Hr.
  - eapply finish_total; done.
Qed.

(** The entry the handler builds. *)
Lemma built_entry junk time t hit rdata rv c :
  (is_load t || is_amo t || is_amo_lr t = true -> req_error segs t = false ->
     expects (set_rdata rdata rv (mk_entry junk time (Some segs) t)) c) ->
  entry_of t hit c (if is_amo_sc t then set_atomic hit (owed_error segs t hit) (set_rdata rdata rv (mk_entry junk time (Some segs) t))
                    else set_rdata rdata rv (mk_entry junk time (Some segs) t)).
Proof.
  intros Hexp. destruct (is_amo_sc t) eqn:Es; constructor; simpl; try done.
  all: try (unfold owed_error; rewrite Es, ?andb_true_r; done).
  all: try (intros Hd; rewrite Hd; done).
  all: try (intros Hd; rewrite Es in Hd; rewrite Hd; done).
Qed.

Lemma no_response_no_memory t hit : req_good region t -> req_need_rsp t = false -> uses_memory t hit = false.
Proof.
  intros Hg Hn. destruct (uses_memory t hit) eqn:Hu; [|done]. exfalso.
  assert (is_atomic_op t = true) as Ha.
  { unfold uses_memory in Hu. unfold is_atomic_op. destruct (is_amo t), (is_amo_lr t), (is_amo_sc t); done. }
  apply (rg_atomic _ _ Hg) in Ha as [_ Ha]. congruence.
Qed.

Lemma core_req_total junk t s :
  req_good region t -> sb_errorsegs s = Some segs -> inflight_m s !! req_tid t = None ->
  lrsc_wf (lrsc_buf_m s) -> (is_atomic_op t = true -> inflight_amo_req_m s = []) ->
  total (core_req_process junk t) s (fun _ => accepted t s).
Proof using All.
  intros Hg Hsegs Hid Hwf Hfifo. destruct req_bytes_8' as [Hb' Hb]. unfold core_req_process.
  apply total_bind, total_modify, total_bind.
  apply (total_weaken _ _ (fun _ s1 => exists c, s1 = set_count c s)).
  2: { apply total_when; intros _; [apply total_modify|]; by eexists. }
  intros [] s1 [c ->]. apply total_bind, total_get.
  change (inflight_m (set_count c _)) with (inflight_m s). rewrite Hid, bool_decide_false by by intros [? ?].
  destruct (is_cmo t && negb (req_need_rsp t)) eqn:Hcmo.
  { apply andb_prop in Hcmo as [Hc Hn%negb_true_iff]. destruct (cmo_kinds t Hc) as (K1 & K2 & K3 & K4 & K5).
    apply total_modify. constructor; simpl; unfold reserve; rewrite ?Hn, ?K2, ?K3, ?K4, ?K5; done. }
  cbv zeta. rewrite Hb'. fold (req_base t). set (s1 := set_count c s).
  change (sb_errorsegs s1) with (sb_errorsegs s). rewrite Hsegs.
  set (e := mk_entry junk _ (Some segs) t). set (hit := holds t (reserved (lrsc_buf_m s))).
  assert (e_is_error e = req_error segs t) as Herr by reflexivity.
  apply total_bind.
  apply (total_weaken _ _ (fun e1 s' => s' = s1 /\ e_is_error e1 = req_error segs t
    /\ (exists rdata rv, e1 = set_rdata rdata rv e)
    /\ (is_load t || is_amo t || is_amo_lr t = true -> req_error segs t = false ->
        expects e1 (fun k => sb_byte s (req_base t + k))))).
  2: { rewrite Herr. destruct (negb (req_error segs t) && _) eqn:Hrd.
    - destruct (expect_data_spec Hword Hwords Hdiv (req_addr t) e s1) as (rdata & rv & Hx & Hexp).
      unfold total. fold (req_base t) in Hx, Hexp. rewrite Hx. split_and!; [done|done|by eexists _, _|]. intros _ _. exact Hexp.
    - apply total_ret. split_and!; [done|done|by exists (e_rdata e), (e_rv e); destruct e|].
      intros Hk Hne. exfalso. rewrite Hne in Hrd. simpl in Hrd.
      destruct (is_load t), (is_amo t), (is_amo_lr t); done. }
  intros e1 s' (-> & He1 & (rdata & rv & Ee) & Hexp). apply total_bind, total_get.
  change (lrsc_buf_m s1) with (lrsc_buf_m s).
  destruct (lrsc_effect t e1 (lrsc_buf_m s) Hg Hwf) as (Hr & Hw & He2); [by rewrite Ee|by rewrite Ee|done|].
  destruct (lrsc_update t e1 (lrsc_buf_m s)) as [e2 l]. simpl in Hr, Hw, He2. fold hit in He2.
  apply total_bind, total_modify.
  assert (entry_of t hit (fun k => sb_byte s (req_base t + k)) e2) as Hent.
  { rewrite He2. clear He2. subst e1. by apply built_entry. }
  apply (core_req_end_total t hit); [done|done|apply Hent| |intros Hst; apply (eo_data _ _ _ _ Hent); by rewrite Hst| |].
  { unfold uses_memory. destruct (is_amo_sc t) eqn:Es; [by rewrite (eo_atomic _ _ _ _ Hent Es)|done]. }
  { intros Hu. simpl. rewrite Hfifo; [simpl; unfold AMO_FIFO_SIZE; lia|]. unfold uses_memory in Hu. unfold is_atomic_op.
    destruct (is_amo t), (is_amo_lr t), (is_amo_sc t); done. }
  intros r Hram. simpl in Hram.
  pose proof (no_response_no_memory t hit Hg) as Hnr.
  destruct (req_need_rsp t) eqn:Hn; [|rewrite Hnr by done]; destruct (uses_memory t hit) eqn:Hu; constructor; simpl;
    try done; rewrite ?Hn; fold hit; try (by split); try (by eexists; split_and!; [exact Hent|done|rewrite ?Hu, ?app_nil_r; done]).
Qed.

(** ** Responses *)

Lemma check_byte_ok base rdata e c i s :
  0 <= i < CORE_REQ_BYTES -> expects e c -> (forall x, c i = Some x -> byte_of rdata i = x) ->
  check_byte base (core_words rdata) e i s = Done tt s.
Proof using Hword.
  intros Hi He Hc. destruct (He i Hi) as (x & rv & Hx & Hrv & Hci). unfold check_byte.
  rewrite core_words_byte, Hx, (word_bytes_8 Hword), Hrv by done.
  rewrite !(bind_done _ _ s _ s) by done. destruct (Z.testbit rv (i mod 8)); [|done].
  by rewrite (Hc x Hci), Z.eqb_refl.
Qed.

(** *** The word of an atomic operation *)
Definition req_word (t : transaction_req) : Z := (req_addr t / 8) mod CORE_REQ_WORDS.
Definition word_base (t : transaction_req) : Z := align_to (req_addr t) 8.

Record in_word (t : transaction_req) : Prop := {
  iw_word : 0 <= req_word t < CORE_REQ_WORDS;
  iw_base : word_base t = req_base t + 8 * req_word t;
  iw_offset : req_offset t = 8 * req_word t + req_addr t mod 8;
  iw_addr : req_addr t = word_base t + req_addr t mod 8;
  iw_mod : 0 <= req_addr t mod 8;
  iw_fits : req_addr t mod 8 + req_bytes t <= 8;
  iw_bytes : req_bytes t = 4 \/ req_bytes t = 8;
}.

Lemma atomic_not_cmo t : is_atomic_op t = true -> is_cmo t = false.
Proof using All.
  destruct (kinds t) as (_ & _ & H3 & H4 & H5). unfold is_atomic_op. intros H.
  apply orb_true_iff in H as [H|H]; [apply orb_true_iff in H as [H|H]|]; naive_solver.
Qed.

Lemma atomic_in_word t : req_good region t -> is_atomic_op t = true -> in_word t.
Proof using All.
  intros Hg Ha. pose proof (atomic_not_cmo t Ha) as Hc. destruct req_bytes_8' as [_ Hb].
  pose proof (req_bytes_pow t Hg Hc) as Hbytes. destruct (rg_atomic _ _ Hg Ha) as [Hsz _].
  pose proof (rg_aligned _ _ Hg Hc) as [q Hq].
  assert (req_bytes t = 4 \/ req_bytes t = 8) as H48 by (rewrite Hbytes; destruct Hsz as [-> | ->]; auto).
  assert (req_addr t / CORE_REQ_BYTES = req_addr t / 8 / CORE_REQ_WORDS) as Hd.
  { unfold CORE_REQ_WORDS. rewrite Hb, Z.div_div by lia. f_equal. lia. }
  assert (0 < CORE_REQ_WORDS) as HW by (unfold CORE_REQ_WORDS; lia).
  assert (CORE_REQ_WORDS <> 0 /\ CORE_REQ_BYTES <> 0) as [HW0 HB0] by (split; lia).
  pose proof (Z.div_mod (req_addr t / 8) _ HW0) as Hm.
  pose proof (Z.div_mod (req_addr t) 8 ltac:(lia)) as Hm8.
  assert (CORE_REQ_BYTES = 8 * CORE_REQ_WORDS) as HB by (unfold CORE_REQ_WORDS; lia).
  pose proof (Z.div_mod (req_addr t) _ HB0) as HmB.
  constructor; unfold req_word, word_base, req_base, req_offset, align_to in *.
  - by apply Z.mod_pos_bound.
  - rewrite Hd, HB. lia.
  - rewrite Hd, HB in HmB. rewrite HB. lia.
  - lia.
  - by apply Z.mod_pos_bound.
  - rewrite Hbytes, Hq. clear -Hsz. destruct Hsz as [-> | ->]; change (2 ^ 2) with 4; change (2 ^ 3) with 8;
      [Z.to_euclidean_division_equations; lia|by rewrite Z.mod_mul].
  - done.
Qed.

Lemma be_bit_drop l i j : be_bit (drop i l) j = be_bit l (8 * i + j).
Proof.
  unfold be_bit. rewrite lookup_drop.
  replace (i + j / 8)%nat with ((8 * i + j) / 8)%nat by (rewrite Nat.mul_comm, Nat.div_add_l; lia).
  replace ((8 * i + j) mod 8)%nat with (j mod 8)%nat; [done|].
  rewrite Nat.add_comm, Nat.mul_comm. by rewrite Nat.Div0.mod_add.
Qed.

Lemma be_bit_one b j : (j < 8)%nat -> be_bit [b] j = Z.testbit b (Z.of_nat j).
Proof. intros Hj. unfold be_bit. by rewrite Nat.div_small, Nat.mod_small. Qed.

(** The bytes enabled are the accessed ones, all in the word. *)
Lemma enabled_word t a :
  req_good region t -> is_atomic_op t = true ->
  enabled t a = in_block (word_base t) 8 a && Z.testbit (req_be t) (8 * req_word t + (a - word_base t)).
Proof using All.
  intros Hg Ha. destruct (atomic_in_word t Hg Ha) as [W1 W2 W3 W4 W5 W6 W7].
  destruct req_bytes_8' as [_ Hb]. pose proof (rg_be _ _ Hg Ha) as Hbe.
  pose proof (rg_fits _ _ Hg (atomic_not_cmo t Ha)) as Hf.
  unfold enabled, in_block. replace (8 * req_word t + (a - word_base t)) with (a - req_base t) by lia.
  apply eq_true_iff_eq. rewrite !andb_true_iff, !Z.leb_le, !Z.ltb_lt. split.
  - intros [[H1 H2] H3]. apply Hbe in H3 as H4; [|lia]. unfold accessed in H4. split; [|done]. lia.
  - intros [[H1 H2] H3]. assert (0 <= a - req_base t) by lia. apply Hbe in H3 as H4; [|lia].
    unfold accessed in H4. split; [lia|done].
Qed.

(** Writing the word. *)
Lemma word_write_total t buf be s :
  req_good region t -> is_atomic_op t = true -> (8 <= length buf)%nat -> (1 <= length be)%nat ->
  exists r, sb_ram_write buf be CORE_REQ_WORD_BYTES (align_to (req_addr t) CORE_REQ_WORD_BYTES) s = Done tt (set_ram r s) /\
    forall a, region a -> sb_byte (set_ram r s) a =
      if in_block (word_base t) 8 a && be_bit be (Z.to_nat (a - word_base t))
      then buf !! Z.to_nat (a - word_base t) else sb_byte s a.
Proof using All.
  intros Hg Ha Hbuf Hbe. destruct (atomic_in_word t Hg Ha) as [W1 W2 W3 W4 W5 W6 W7].
  destruct req_bytes_8' as [_ Hb]. rewrite (word_bytes_8 Hword). fold (word_base t).
  apply write_region; [lia|by exists (SCOREBOARD_RAM_SIZE / 8)|by exists (req_addr t / 8)| |lia|lia].
  intros k Hk. rewrite W2. replace (req_base t + 8 * req_word t + k) with (req_base t + (8 * req_word t + k)) by lia.
  apply (rg_region _ _ Hg (atomic_not_cmo t Ha)). unfold CORE_REQ_WORDS in *. lia.
Qed.

(** The operand of an atomic operation in a word of the data bus. *)
Definition operand (t : transaction_req) (data : Z) : Z :=
  wrap (8 * req_bytes t) (Z.shiftr data (8 * req_offset t)).

Lemma operand_word t data :
  req_good region t -> is_atomic_op t = true ->
  let x := noc_slice (req_word t) data in
  (if req_bytes t =? 4 then u32 (Z.shiftr x ((req_addr t mod 8) * 8)) else x) = operand t data.
Proof using All.
  intros Hg Ha x. destruct (atomic_in_word t Hg Ha) as [W1 W2 W3 W4 W5 W6 W7].
  unfold operand, x, noc_slice. rewrite W3. destruct W7 as [E|E]; rewrite E in *; simpl.
  - change (8 * 4) with 32. apply Z.bits_inj'. intros i Hi.
    rewrite !testbit_wrap, !Z.shiftr_spec, testbit_range by lia.
    destruct (Z.ltb_spec i 32); [|done]. simpl. split_cmps; simpl; try lia. f_equal. lia.
  - assert (req_addr t mod 8 = 0) as -> by lia. change (8 * 8) with 64. apply Z.bits_inj'. intros i Hi.
    rewrite !testbit_wrap, !Z.shiftr_spec, testbit_range by lia.
    split_cmps; simpl; try lia; try done; f_equal; lia.
Qed.

Lemma core_words_lookup data t :
  in_word t -> core_words data !! Z.to_nat (req_word t) = Some (noc_slice (req_word t) data).
Proof using Hword.
  intros [W1 _ _ _ _ _ _]. unfold core_words. rewrite list_lookup_fmap, lookup_seqZ_lt by lia. simpl.
  rewrite Hword. unfold noc_slice. by rewrite !Z2Nat.id by lia.
Qed.

(** The result of an AMO on the operand of a response. *)
Definition amo_of (t : transaction_req) (data : Z) : Z :=
  default 0 (op ← req_op_of_value (req_op t); amo_spec op (8 * req_bytes t) (operand t data) (operand t (req_wdata t))).

Lemma amo_op t :
  is_amo t = true -> exists op, req_op t = req_op_value op /\ forall w x y, is_Some (amo_spec op w x y).
Proof.
  unfold is_amo. intros H. repeat (apply orb_true_iff in H as [H|H]); apply Z.eqb_eq in H;
    (eexists; split; [exact H|by eexists]).
Qed.

Lemma amo_computed t data :
  req_good region t -> is_amo t = true ->
  exists res, core_compute_amo (req_op t) (operand t data) (operand t (req_wdata t)) (req_bytes t) = Some res
    /\ wrap (8 * req_bytes t) res = amo_of t data.
Proof using All.
  intros Hg Ha. assert (is_atomic_op t = true) as Hat by (unfold is_atomic_op; by rewrite Ha).
  destruct (atomic_in_word t Hg Hat) as [_ _ _ _ _ _ W7]. destruct (amo_op t Ha) as (op & Hop & Hs).
  assert (8 * req_bytes t = 32 \/ 8 * req_bytes t = 64) as Hw by lia.
  assert (forall x, is_word (8 * req_bytes t) (operand t x)) as Hx by (intros; apply wrap_word; lia).
  pose proof (core_compute_amo_spec op _ _ _ Hw (Hx data) (Hx (req_wdata t))) as H.
  replace (8 * req_bytes t / 8) with (req_bytes t) in H by (rewrite Z.mul_comm, Z.div_mul; lia).
  unfold amo_of. rewrite Hop, req_op_of_value_value. simpl.
  destruct (Hs (8 * req_bytes t) (operand t data) (operand t (req_wdata t))) as [v Hv]. rewrite Hv in *.
  destruct (core_compute_amo _ _ _ _) as [res|]; [|done]. exists res. split; [done|]. by injection H.
Qed.

Lemma amo_byte t res off j :
  (off = 0 \/ off = 4) -> 0 <= j - off < req_bytes t -> j < 8 ->
  byte_of (u64 (Z.shiftl res (off * 8))) j = byte_of (wrap (8 * req_bytes t) res) (j - off).
Proof.
  intros Ho Hj H8. apply Z.bits_inj'. intros i Hi. rewrite !testbit_byte_of, !testbit_wrap, testbit_shiftl by lia.
  destruct (Z.ltb_spec i 8); [|by rewrite !andb_false_r]. split_cmps; simpl; try lia; try done. f_equal. lia.
Qed.

(** The byte enables of the word. *)
Lemma word_be t be j :
  in_word t -> core_bes (req_be t) !! Z.to_nat (req_word t) = Some be -> 0 <= j < 8 ->
  be_bit [be] (Z.to_nat j) = Z.testbit (req_be t) (8 * req_word t + j).
Proof using Hword.
  intros [W1 _ _ _ _ _ _] Hbw Hj.
  rewrite <-(core_bes_bit Hword) by (unfold CORE_REQ_WORDS in *; destruct req_bytes_8'; lia). unfold be_bit.
  replace (Z.to_nat (8 * req_word t + j)) with (Z.to_nat (req_word t) * 8 + Z.to_nat j)%nat by lia.
  rewrite Nat.div_add_l, !Nat.div_small, Nat.add_0_r, Hbw by lia. simpl. do 2 f_equal.
  by rewrite Nat.add_comm, Nat.Div0.mod_add.
Qed.

(** *** The handler *)

Lemma update_amo_total t hit c e data s Q :
  req_good region t -> is_amo t = true -> entry_of t hit c e ->
  (forall r, (forall a, region a -> sb_byte (set_ram r s) a =
     if enabled t a then Some (byte_of (amo_of t data) (a - req_addr t)) else sb_byte s a) -> Q tt (set_ram r s)) ->
  total (update_amo (core_words data) e) s Q.
Proof using All.
  intros Hg Ham He HQ. assert (is_atomic_op t = true) as Ha by (unfold is_atomic_op; by rewrite Ham).
  pose proof (atomic_in_word t Hg Ha) as Hiw. pose proof Hiw as [W1 W2 W3 W4 W5 W6 W7].
  destruct (eo_data _ _ _ _ He) as [Hwd Hbe]; [by rewrite Ham, !orb_true_r|].
  assert (e_word e = req_word t) as Ewd by (unfold e_word; by rewrite (eo_addr _ _ _ _ He), (word_bytes_8 Hword)).
  unfold update_amo. cbv zeta. rewrite Ewd, (eo_addr _ _ _ _ He), (eo_bytes _ _ _ _ He), (eo_op _ _ _ _ He), Hwd, Hbe.
  apply total_bind. eapply total_some; [by apply core_words_lookup|].
  apply total_bind. eapply total_some; [by apply core_words_lookup|]. rewrite (word_bytes_8 Hword).
  pose proof (operand_word t data Hg Ha) as O1. pose proof (operand_word t (req_wdata t) Hg Ha) as O2.
  cbv zeta in O1, O2. destruct (amo_computed t data Hg Ham) as (res & Hres & Hv).
  assert (exists be, core_bes (req_be t) !! Z.to_nat (req_word t) = Some be) as [be Hbw].
  { apply lookup_lt_is_Some. rewrite length_core_bes. unfold CORE_REQ_WORDS in W1. lia. }
  assert (total (
     amo_res ← undef_if_none (core_compute_amo (req_op t) (operand t data) (operand t (req_wdata t)) (req_bytes t));
     amo_be ← undef_if_none (core_bes (req_be t) !! Z.to_nat (req_word t));
     sb_ram_write (bytes_of_words [u64 (Z.shiftl amo_res ((req_addr t mod 8) * 8))]) [amo_be] 8
       (align_to (req_addr t) 8)) s Q) as Hend.
  { apply total_bind. eapply total_some; [exact Hres|]. apply total_bind. eapply total_some; [exact Hbw|].
    destruct (word_write_total t (bytes_of_words [u64 (Z.shiftl res ((req_addr t mod 8) * 8))]) [be] s Hg Ha)
      as (r & Hr & Hram); [rewrite length_bytes_of_words; simpl; lia|simpl; lia|].
    rewrite (word_bytes_8 Hword) in Hr. unfold total. rewrite Hr. apply HQ. intros a Hra. rewrite Hram by done.
    rewrite (enabled_word t a Hg Ha). unfold in_block.
    destruct (Z.leb_spec 0 (a - word_base t)), (Z.ltb_spec (a - word_base t) 8); try done; cbn [andb].
    set (j := a - word_base t) in *.
    rewrite (word_be t be j Hiw Hbw) by lia.
    destruct (Z.testbit (req_be t) (8 * req_word t + j)) eqn:Hbit; [|done].
    apply (rg_be _ _ Hg Ha) in Hbit as Hacc; [|lia]. unfold accessed in Hacc.
    rewrite (bytes_of_words_lookup _ _ (u64 (Z.shiftl res ((req_addr t mod 8) * 8)))) by (by rewrite Nat.div_small by lia).
    rewrite Nat.mod_small, Z2Nat.id by lia. f_equal.
    assert (req_addr t mod 8 = 0 \/ req_addr t mod 8 = 4) as Ho.
    { destruct (rg_aligned _ _ Hg (atomic_not_cmo t Ha)) as [q Hq]. destruct (rg_atomic _ _ Hg Ha) as [Hs _].
      rewrite Hq. clear -Hs. destruct Hs as [-> | ->]; change (2 ^ 2) with 4; change (2 ^ 3) with 8;
        Z.to_euclidean_division_equations; lia. }
    rewrite (amo_byte t) by (done || lia). rewrite Hv. f_equal. lia. }
  destruct (req_bytes t =? 4); cbv beta iota zeta; rewrite O1, O2; exact Hend.
Qed.

Lemma check_sc_total t hit c e r s Q :
  req_good region t -> is_amo_sc t = true -> entry_of t hit c e ->
  (let x := noc_slice (req_word t) (rsp_rdata r) in
   (if req_bytes t =? 4 then u32 x else x) = if hit && sc_is_atomic s then 0 else 1) ->
  (forall m, (forall a, region a -> sb_byte (set_ram m s) a =
     if hit && sc_is_atomic s && enabled t a then Some (byte_of (req_wdata t) (a - req_base t)) else sb_byte s a) ->
     Q tt (set_ram m s)) ->
  total (check_sc r e) s Q.
Proof using All.
  intros Hg Hsc He Hx HQ. assert (is_atomic_op t = true) as Ha by (unfold is_atomic_op; by rewrite Hsc, orb_true_r).
  pose proof (atomic_in_word t Hg Ha) as Hiw. pose proof Hiw as [W1 W2 W3 W4 W5 W6 W7].
  destruct (eo_data _ _ _ _ He) as [Hwd Hbe]; [by rewrite Hsc, orb_true_r|]. destruct req_bytes_8' as [_ HB].
  assert (e_word e = req_word t) as Ewd by (unfold e_word; by rewrite (eo_addr _ _ _ _ He), (word_bytes_8 Hword)).
  unfold check_sc. cbv zeta in Hx |- *. rewrite Ewd, (eo_addr _ _ _ _ He), (eo_bytes _ _ _ _ He), Hwd, Hbe, Hword.
  fold (noc_slice (req_word t) (rsp_rdata r)). apply total_bind, total_get. rewrite (eo_atomic _ _ _ _ He Hsc).
  destruct (hit && sc_is_atomic s).
  - destruct (word_write_total t (drop (Z.to_nat (8 * req_word t)) (bytes_of_words (core_words (req_wdata t))))
      (drop (Z.to_nat (req_word t)) (core_bes (req_be t))) s Hg Ha) as (m & Hm & Hram).
    { rewrite length_drop, length_bytes_of_words, length_core_words. unfold CORE_REQ_WORDS in *. lia. }
    { rewrite length_drop, length_core_bes. unfold CORE_REQ_WORDS in *. lia. }
    apply total_bind. unfold total at 1. rewrite Hm. rewrite Hx. apply total_when; [done|]. intros _. apply HQ.
    intros a Hra. rewrite Hram by done. rewrite (enabled_word t a Hg Ha). unfold in_block.
    destruct (Z.leb_spec 0 (a - word_base t)), (Z.ltb_spec (a - word_base t) 8); try done; cbn [andb].
    rewrite be_bit_drop, lookup_drop.
    replace (8 * Z.to_nat (req_word t) + Z.to_nat (a - word_base t))%nat with (Z.to_nat (a - req_base t)) by lia.
    replace (Z.to_nat (8 * req_word t) + Z.to_nat (a - word_base t))%nat with (Z.to_nat (a - req_base t)) by lia.
    rewrite core_bes_bit, core_words_byte by (done || unfold CORE_REQ_WORDS in *; lia).
    replace (8 * req_word t + (a - word_base t)) with (a - req_base t) by lia. done.
  - rewrite Hx. apply total_when; [done|]. intros _.
    assert (set_ram (ram_m s) s = s) as E by (by destruct s). rewrite <-E. apply HQ. intros a _. by rewrite E.
Qed.

(** What the handler of responses does. *)
Record responded (t : transaction_req) (hit : bool) (r : transaction_resp) (s s' : scoreboard) : Prop := {
  rd_rest : same_rest s s';
  rd_rsrv : lrsc_buf_m s' = lrsc_buf_m s;
  rd_fifo : inflight_amo_req_m s' = inflight_amo_req_m s;
  rd_entry : inflight_m s' = delete (rsp_tid r) (inflight_m s);
  rd_ram : forall a, region a -> sb_byte s' a =
    if negb (owed_error segs t hit) && is_amo t && enabled t a
    then Some (byte_of (amo_of t (rsp_rdata r)) (a - req_addr t))
    else if negb (owed_error segs t hit) && is_amo_sc t && (hit && sc_is_atomic s) && enabled t a
    then Some (byte_of (req_wdata t) (a - req_base t)) else sb_byte s a;
}.

(** The state before the entry is removed, with the bytes [f] in the RAM. *)
Definition checked (f : Z -> option Z) (s s' : scoreboard) : Prop :=
  (exists m, s' = set_ram m s) /\ forall a, region a -> sb_byte s' a = f a.

Lemma check_data_total t hit c e r s :
  req_good region t -> is_load t || is_amo t || is_amo_lr t = true -> owed_error segs t hit = false ->
  entry_of t hit c e ->
  (forall k, accessed t k -> forall x, c k = Some x -> byte_of (rsp_rdata r) k = x) ->
  total (check_data r e) s (fun _ => checked (fun a =>
    if is_amo t && enabled t a then Some (byte_of (amo_of t (rsp_rdata r)) (a - req_addr t)) else sb_byte s a) s).
Proof using All.
  intros Hg Hk Herr He Hc. destruct (kinds t) as (K1 & K2 & K3 & K4 & K5). destruct req_bytes_8' as [_ HB].
  assert (is_cmo t = false /\ is_amo_sc t = false) as [Hcmo Hsc].
  { apply orb_true_iff in Hk as [Hk|Hk]; [apply orb_true_iff in Hk as [Hk|Hk]|]; naive_solver. }
  assert (req_error segs t = false) as Hre by (unfold owed_error in Herr; by rewrite Hsc, andb_true_r in Herr).
  pose proof (eo_expects _ _ _ _ He Hk Hre) as Hexp. pose proof (rg_fits _ _ Hg Hcmo) as Hf.
  assert (0 <= req_offset t) as H0 by (apply Z.mod_pos_bound; lia).
  unfold check_data. cbv zeta. apply total_bind, total_for_each.
  - intros i Hi%elem_of_seqZ. unfold e_byte in Hi. rewrite (eo_addr _ _ _ _ He), (eo_bytes _ _ _ _ He) in Hi.
    fold (req_offset t) in Hi. eapply check_byte_ok; [lia|exact Hexp|]. apply Hc. unfold accessed. lia.
  - rewrite (eo_amo _ _ _ _ He). apply total_when.
    + intros Ham. eapply update_amo_total; [done|done|done|]. intros m Hm. split; [by exists m|]. by rewrite Ham.
    + intros Ham. split; [exists (ram_m s); by destruct s|]. by rewrite Ham.
Qed.

Lemma core_resp_total r s t hit c e :
  inflight_m s !! rsp_tid r = Some e -> req_good region t -> entry_of t hit c e ->
  (is_store t = false -> rsp_error r = owed_error segs t hit) ->
  (owed_error segs t hit = false -> is_load t || is_amo t || is_amo_lr t = true ->
     forall k, accessed t k -> forall x, c k = Some x -> byte_of (rsp_rdata r) k = x) ->
  (owed_error segs t hit = false -> is_amo_sc t = true ->
     let x := noc_slice (req_word t) (rsp_rdata r) in
     (if req_bytes t =? 4 then u32 x else x) = if hit && sc_is_atomic s then 0 else 1) ->
  total (core_resp_process r) s (fun _ => responded t hit r s).
Proof using All.
  intros Hin Hg He Herr Hdata Hsc. unfold core_resp_process. apply total_bind, total_modify, total_bind, total_get.
  set (s1 := set_count _ s). change (inflight_m s1) with (inflight_m s). rewrite Hin.
  rewrite (eo_write _ _ _ _ He), (eo_error _ _ _ _ He).
  assert (negb (is_store t) && negb (Bool.eqb (rsp_error r) (owed_error segs t hit)) = false) as ->.
  { destruct (is_store t); [done|]. rewrite Herr by done. by rewrite eqb_reflx. }
  apply total_bind. destruct (kinds t) as (K1 & K2 & K3 & K4 & K5).
  apply (total_weaken _ _ (fun _ => checked (fun a =>
    if negb (owed_error segs t hit) && is_amo t && enabled t a
    then Some (byte_of (amo_of t (rsp_rdata r)) (a - req_addr t))
    else if negb (owed_error segs t hit) && is_amo_sc t && (hit && sc_is_atomic s) && enabled t a
    then Some (byte_of (req_wdata t) (a - req_base t)) else sb_byte s a) s1)).
  { intros [] s2 [[m ->] Hram]. apply total_bind, total_modify, total_modify. by constructor. }
  rewrite (eo_read _ _ _ _ He), (eo_amo _ _ _ _ He), (eo_lr _ _ _ _ He), (eo_sc _ _ _ _ He).
  assert (forall s' : scoreboard, s' = s1 -> exists m, s' = set_ram m s1) as Hsame
    by (intros s' ->; exists (ram_m s1); by destruct s1).
  apply total_when; [|intros Hb%negb_false_iff; rewrite Hb; split; [by apply Hsame|done]].
  intros Hb%negb_true_iff. specialize (Hdata Hb). specialize (Hsc Hb). rewrite Hb. cbn [negb andb].
  apply total_bind. destruct (is_amo_sc t) eqn:Es.
  - destruct (K4 eq_refl) as (-> & _ & -> & -> & _). cbn [orb andb]. apply total_when; [|done]. intros _.
    eapply check_sc_total; [done|done|done|by apply Hsc|]. intros m Hm. apply total_when; [done|]. intros _.
    split; [by exists m|exact Hm].
  - apply total_when; [done|]. intros _. cbn [andb]. apply total_when.
    + intros Hk. eapply total_weaken; [|eapply (check_data_total t hit c e r s1); by auto].
      intros [] s' [H1 H2]. split; [exact H1|exact H2].
    + intros Hk. apply orb_false_iff in Hk as [[_ ->]%orb_false_iff _]. split; [by apply Hsame|done].
Qed.
End Sb.
