(* ===== verification/DeviceProps.v ===== *)
(** * The scoreboard and a faithful device: the core side

    The relation [related] between the scoreboard and the device of [Device], and that it
    holds after the device accepts a request or sends a response. *)
From S2P Require Import Prelude Defs Transaction RamModel Amo MemModel MemResp Sequence.
From S2P Require Import Scoreboard ScoreboardProps ScoreboardLrsc ScoreboardData ScoreboardSafe Device DeviceSb.

#[local] Open Scope Z_scope.

Section Faithful.
Context {cfg : HpdConfig} {wf : ConfigWf cfg}.
Hypothesis Hword : HPDCACHE_WORD_WIDTH = 64.
Hypothesis Hwords : 1 <= HPDCACHE_REQ_WORDS.
Hypothesis Hdiv : (CORE_REQ_BYTES | SCOREBOARD_RAM_SIZE).
Hypothesis Hmem : (MEM_BYTES | SCOREBOARD_RAM_SIZE).
Context (segs : list segment_t) (region : Z -> Prop).
Hypothesis Hinj : forall a b,
  region a -> region b -> a mod SCOREBOARD_RAM_SIZE = b mod SCOREBOARD_RAM_SIZE -> a = b.

(** ** The relation *)

(** The bytes of the block the scoreboard knew: of the memory, and all that were written. *)
Definition known (c : Z -> option Z) (o : owed) : Prop :=
  is_cmo (ow_req o) = false -> forall k, 0 <= k < CORE_REQ_BYTES ->
    (forall x, c k = Some x -> ow_mem o (req_base (ow_req o) + k) = x)
    /\ (ow_written o (req_base (ow_req o) + k) = true -> is_Some (c k)).

(** The entry of a request the device owes a response. *)
Record awaits (e : inflight_entry_t) (o : owed) : Prop := {
  aw_good : req_good region (ow_req o);
  aw_error : ow_error o = owed_error segs (ow_req o) (ow_hit o);
  aw_entry : exists c, entry_of segs (ow_req o) (ow_hit o) c e /\ known c o;
}.

Definition flight_ok (tid : Z) (e : option inflight_entry_t) (o : option owed) : Prop :=
  match e, o with
  | Some e, Some o => req_tid (ow_req o) = tid /\ awaits e o
  | None, None => True
  | _, _ => False
  end.

Definition uc_req (u : uc_state) : option transaction_req :=
  match u with
  | UC_IDLE => None
  | UC_MEM_REQ t | UC_MEM_WAIT_RSP t _ _ _ | UC_CORE_RSP t _ => Some t
  end.

(** The FIFO of atomic requests holds the one the handler has not sent. *)
Definition fifo_ok (u : uc_state) (s : scoreboard) : Prop :=
  match u with
  | UC_MEM_REQ t => exists e, inflight_m s !! req_tid t = Some e /\ inflight_amo_req_m s = [e]
  | _ => inflight_amo_req_m s = []
  end.

Definition none_but {A} (i : option Z) (m : gmap Z A) : Prop :=
  forall id, is_Some (m !! id) -> i = Some id.

(** The state of the handler, for the response [o] it works on. *)
Definition handler_ok (u : uc_state) (o : owed) (d : device) (s : scoreboard) : Prop :=
  match u with
  | UC_IDLE => True
  | UC_MEM_REQ t => uses_memory t (ow_hit o) = true
  | UC_MEM_WAIT_RSP t rd wr _ =>
      uses_memory t (ow_hit o) = true /\ (is_amo_sc t = true -> rd = None)
      /\ none_but rd (dv_reads d) /\ (forall id, id ∈ dv_writes d -> wr = Some id)
      /\ (forall id, rd = Some id -> is_Some (dv_reads d !! id)) /\ (forall id, wr = Some id -> id ∈ dv_writes d)
      /\ (rd = None -> wr = None -> False)
  | UC_CORE_RSP t ok =>
      is_amo_sc t = true ->
      if ow_hit o then sc_is_atomic s = ok /\ dv_writes d = ∅ else ok = false
  end.

(** The bytes a read selects are known once a beat without an error came. *)
Definition filled (e : inflight_mem_entry_t) (s : scoreboard) : Prop :=
  forall k, 0 <= k < MEM_BYTES -> refill_selects e k = true -> is_Some (sb_byte s (align_to (m_addr e) MEM_BYTES + k)).
Definition filled_ok (d : device) (s : scoreboard) : Prop :=
  forall id, id ∈ dv_filled d -> exists e, inflight_mem_read_m s !! id = Some e /\ filled e s.
(** What the reference memory knows it keeps. *)
Definition ram_grows (s s' : scoreboard) : Prop :=
  forall a, region a -> is_Some (sb_byte s a) -> is_Some (sb_byte s' a).

Record related (d : device) (s : scoreboard) : Prop := {
  rl_log : sb_log s = [];
  rl_segs : sb_errorsegs s = Some segs;
  rl_mem : forall a x, region a -> sb_byte s a = Some x -> dv_mem d a = x;
  rl_written : forall a, region a -> dv_written d a = true -> is_Some (sb_byte s a);
  rl_rsrv : reserved (lrsc_buf_m s) = dv_rsrv d;
  rl_wf : lrsc_wf (lrsc_buf_m s);
  rl_flight : forall tid, flight_ok tid (inflight_m s !! tid) (dv_owed d !! tid);
  rl_fifo : fifo_ok (dv_uc d) s;
  rl_reads : forall id, m_addr <$> inflight_mem_read_m s !! id = dv_reads d !! id;
  rl_bus : forall id a, dv_reads d !! id = Some a -> bus_good region a;
  rl_filled : filled_ok d s;
  rl_writes : forall id, is_Some (inflight_mem_write_m s !! id) <-> id ∈ dv_writes d;
  rl_atomic : forall tid o, dv_owed d !! tid = Some o -> is_atomic_op (ow_req o) = true ->
    uc_req (dv_uc d) = Some (ow_req o);
  rl_uc : forall t, uc_req (dv_uc d) = Some t -> exists o, dv_owed d !! req_tid t = Some o /\ ow_req o = t
    /\ is_atomic_op t = true /\ (forall a, ow_mem o a = dv_mem d a) /\ handler_ok (dv_uc d) o d s;
}.

Abbreviation accept := (accept segs).
Abbreviation related_after d' := (fun (_ : unit) s' => related d' s').

Lemma filled_keeps d s d' s' :
  related d s -> dv_filled d' ⊆ dv_filled d -> ram_grows s s' ->
  (forall id e, id ∈ dv_filled d' -> inflight_mem_read_m s !! id = Some e -> inflight_mem_read_m s' !! id = Some e) ->
  filled_ok d' s'.
Proof.
  intros H Ed Hk Es id Hid. destruct (rl_filled _ _ H id (Ed _ Hid)) as (e & He & Hf).
  exists e. split; [by apply Es|]. intros k Hr Hs. pose proof (rl_reads _ _ H id) as Ha. rewrite He in Ha. simpl in Ha.
  destruct (rl_bus _ _ H id (m_addr e)) as (_ & _ & Hb); [done|]. apply Hk; auto.
Qed.

Lemma accepted_keeps t s s' : accepted segs region t s s' -> ram_grows s s'.
Proof. intros [_ _ Hr _] a Ha Hs. rewrite Hr by done. repeat case_match; (done || by eexists). Qed.
Lemma responded_keeps t hit r s s' : responded segs region t hit r s s' -> ram_grows s s'.
Proof. intros [_ _ _ _ Hr] a Ha Hs. rewrite Hr by done. repeat case_match; (done || by eexists). Qed.

Lemma flight_entry d s tid o :
  related d s -> dv_owed d !! tid = Some o ->
  exists e, inflight_m s !! tid = Some e /\ req_tid (ow_req o) = tid /\ awaits e o.
Proof.
  intros H Ho. pose proof (rl_flight _ _ H tid) as Hf. rewrite Ho in Hf. unfold flight_ok in Hf.
  destruct (inflight_m s !! tid) as [e|]; [by exists e|done].
Qed.

Lemma flight_none d s tid : related d s -> dv_owed d !! tid = None <-> inflight_m s !! tid = None.
Proof.
  intros H. pose proof (rl_flight _ _ H tid) as Hf. unfold flight_ok in Hf.
  destruct (inflight_m s !! tid), (dv_owed d !! tid); done.
Qed.

(** ** Accepting a request *)

Lemma accept_fields t d :
  dv_mem (accept t d) = dv_mem (if is_store t && negb (req_error segs t) then store t d else d)
  /\ dv_written (accept t d) = dv_written (if is_store t && negb (req_error segs t) then store t d else d)
  /\ dv_rsrv (accept t d) = reserve segs t (dv_rsrv d)
  /\ dv_owed (accept t d) = (if req_need_rsp t then <[req_tid t := owe segs t d]> (dv_owed d) else dv_owed d)
  /\ dv_reads (accept t d) = dv_reads d /\ dv_writes (accept t d) = dv_writes d /\ dv_filled (accept t d) = dv_filled d
  /\ dv_uc (accept t d) = if uses_memory t (holds t (dv_rsrv d)) then UC_MEM_REQ t
       else if is_amo_sc t then UC_CORE_RSP t false else dv_uc d.
Proof.
  unfold Device.accept. destruct (uses_memory t (holds t (dv_rsrv d))), (is_amo_sc t), (req_need_rsp t),
    (is_store t && negb (req_error segs t)); done.
Qed.

Lemma atomic_uses t hit : uses_memory t hit = true \/ is_amo_sc t = true -> is_atomic_op t = true.
Proof. unfold uses_memory, is_atomic_op. destruct (is_amo t), (is_amo_lr t), (is_amo_sc t); naive_solver. Qed.
Lemma uses_atomic t hit : is_atomic_op t = true -> uses_memory t hit = false -> is_amo_sc t = true /\ hit = false.
Proof. unfold uses_memory, is_atomic_op. destruct (is_amo t), (is_amo_lr t), (is_amo_sc t), hit; naive_solver. Qed.
Lemma atomic_not_store t : is_atomic_op t = true -> is_store t = false.
Proof.
  destruct (kinds t) as (_ & K & _). unfold is_atomic_op. destruct (is_store t); [|done].
  destruct (K eq_refl) as (_ & -> & -> & -> & _). done.
Qed.

(** The entry of the request just accepted. *)
Lemma accept_awaits t d s e :
  related d s -> req_good region t ->
  entry_of segs t (holds t (dv_rsrv d)) (fun k => sb_byte s (req_base t + k)) e -> awaits e (owe segs t d).
Proof.
  intros H Hg He. split; [done|done|]. eexists. split; [exact He|]. simpl. intros Hc k Hk.
  pose proof (rg_region _ _ Hg Hc k Hk) as Hr. split; [intros x|]; by apply H.
Qed.

(** The memory: a store, or a write of the bytes enabled. *)
Lemma write_related t (f : Z -> Z) d d' s s' :
  related d s ->
  (forall a, dv_mem d' a = if enabled t a then f a else dv_mem d a) ->
  (forall a, dv_written d' a = enabled t a || dv_written d a) ->
  (forall a, region a -> sb_byte s' a = if enabled t a then Some (f a) else sb_byte s a) ->
  (forall a x, region a -> sb_byte s' a = Some x -> dv_mem d' a = x)
  /\ (forall a, region a -> dv_written d' a = true -> is_Some (sb_byte s' a)).
Proof.
  intros H Hm Hw Hs. split; intros a.
  - intros x Ha. rewrite Hs, Hm by done. destruct (enabled t a); [congruence|by apply H].
  - intros Ha. rewrite Hs, Hw by done. destruct (enabled t a); [done|by apply H].
Qed.

Lemma accept_memory t d s s' :
  related d s -> accepted segs region t s s' ->
  (forall a x, region a -> sb_byte s' a = Some x -> dv_mem (accept t d) a = x)
  /\ (forall a, region a -> dv_written (accept t d) a = true -> is_Some (sb_byte s' a)).
Proof.
  intros H [_ _ Hram _]. destruct (accept_fields t d) as (E1 & E2 & _). rewrite E1, E2.
  destruct (is_store t && negb (req_error segs t)); [by eapply write_related|].
  cbn [andb] in Hram. split; intros a; [intros x|]; intros Ha; rewrite Hram by done; by apply H.
Qed.

(** The handler and the FIFO. *)
Lemma accept_atomic t d s s' :
  related d s -> dv_uc d = UC_IDLE -> req_good region t -> accepted segs region t s s' -> is_atomic_op t = true ->
  fifo_ok (dv_uc (accept t d)) s'
  /\ uc_req (dv_uc (accept t d)) = Some t
  /\ dv_owed (accept t d) = <[req_tid t := owe segs t d]> (dv_owed d)
  /\ handler_ok (dv_uc (accept t d)) (owe segs t d) (accept t d) s'.
Proof.
  intros H Huc Hg [_ _ _ Hent] Ha. destruct (rg_atomic _ _ Hg Ha) as [_ Hn].
  destruct (accept_fields t d) as (_ & _ & _ & E4 & _ & _ & _ & E7). rewrite E4, E7, Hn in *. cbv zeta in Hent.
  rewrite (rl_rsrv _ _ H) in Hent. destruct Hent as (e & _ & Hin & Hf).
  pose proof (rl_fifo _ _ H) as Hf0. rewrite Huc in Hf0. simpl in Hf0. rewrite Hf0 in Hf. simpl in Hf.
  destruct (uses_memory t (holds t (dv_rsrv d))) eqn:Hu.
  - split_and!; [|done..]. exists e. by rewrite Hin, lookup_insert_eq.
  - destruct (uses_atomic _ _ Ha Hu) as [Hsc Hh]. rewrite Hsc. split_and!; [done..|]. simpl. by rewrite Hh.
Qed.

Lemma accept_flight t d s s' :
  related d s -> req_good region t -> accepted segs region t s s' ->
  forall tid, flight_ok tid (inflight_m s' !! tid) (dv_owed (accept t d) !! tid).
Proof.
  intros H Hg [_ _ _ Hent] tid. destruct (accept_fields t d) as (_ & _ & _ & -> & _). cbv zeta in Hent.
  rewrite (rl_rsrv _ _ H) in Hent. destruct (req_need_rsp t).
  - destruct Hent as (e & He & -> & _). destruct (decide (tid = req_tid t)) as [->|Hne].
    + rewrite !lookup_insert_eq. split; [done|]. by apply (accept_awaits t d s).
    + rewrite !lookup_insert_ne by done. apply H.
  - destruct Hent as [-> _]. apply H.
Qed.

Lemma accept_related junk t d s :
  related d s -> dv_uc d = UC_IDLE -> req_good region t -> dv_owed d !! req_tid t = None ->
  total (core_req_process junk t) s (related_after (accept t d)).
Proof using Hword Hwords Hdiv Hinj wf.
  intros H Huc Hg Hid. pose proof (rl_fifo _ _ H) as Hf0. rewrite Huc in Hf0. simpl in Hf0.
  eapply total_weaken; [|apply (core_req_total Hword Hwords Hdiv segs region Hinj junk t s);
    [done|apply H|by apply (flight_none d s)|apply H|done]].
  intros [] s' Hacc. destruct (accept_memory t d s s' H Hacc) as [Hmm Hww].
  pose proof (accept_flight t d s s' H Hg Hacc) as Hfl.
  pose proof (accept_atomic t d s s' H Huc Hg Hacc) as Hat.
  pose proof (accepted_keeps t s s' Hacc) as Hkp. destruct Hacc as [(R1 & R2 & R3 & R4 & R5) [Hr Hw] _ Hent].
  destruct (accept_fields t d) as (_ & _ & E3 & E4 & E5 & E6 & E8 & E7).
  assert (is_atomic_op t = false -> dv_uc (accept t d) = UC_IDLE) as Hidle.
  { intros Ha. rewrite E7, Huc. destruct (uses_memory _ _) eqn:Hu;
      [assert (is_atomic_op t = true) by (eapply atomic_uses; eauto); congruence|].
    destruct (is_amo_sc t) eqn:Hs; [|done]. rewrite (atomic_uses t false) in Ha by auto. done. }
  constructor; rewrite ?R1, ?R2, ?R4, ?R5, ?E3, ?E5, ?E6; try done; try apply H.
  - rewrite Hr. by rewrite (rl_rsrv _ _ H).
  - destruct (is_atomic_op t) eqn:Ha; [by apply Hat|]. rewrite Hidle by done. simpl.
    cbv zeta in Hent. rewrite (rl_rsrv _ _ H), Hf0 in Hent. destruct (uses_memory _ _) eqn:Hu;
      [assert (is_atomic_op t = true) by (eapply atomic_uses; eauto); congruence|].
    destruct (req_need_rsp t); [by destruct Hent as (e & _ & _ & Hf)|by destruct Hent as [_ Hf]].
  - apply (filled_keeps d s); rewrite ?R4; (done || by rewrite E8).
  - intros tid o Ho Ha. rewrite E4 in Ho. destruct (is_atomic_op t) eqn:Hta.
    + destruct Hat as (_ & Hu & Ho' & _); [done|]. rewrite Hu. rewrite <-E4, Ho' in Ho.
      destruct (decide (tid = req_tid t)) as [->|Hne]; [rewrite lookup_insert_eq in Ho; by injection Ho as <-|].
      rewrite lookup_insert_ne in Ho by done. pose proof (rl_atomic _ _ H tid o Ho Ha) as Hx. by rewrite Huc in Hx.
    + exfalso. assert (dv_owed d !! tid = Some o) as Ho1.
      { destruct (req_need_rsp t); [|done]. destruct (decide (tid = req_tid t)) as [->|Hne];
          [|by rewrite lookup_insert_ne in Ho]. rewrite lookup_insert_eq in Ho. injection Ho as <-. simpl in Ha. congruence. }
      pose proof (rl_atomic _ _ H tid o Ho1 Ha) as Hx. by rewrite Huc in Hx.
  - intros t' Ht'. destruct (is_atomic_op t) eqn:Hta; [|by rewrite Hidle in Ht'].
    destruct Hat as (_ & Hu & Ho' & Hph); [done|]. rewrite Hu in Ht'. injection Ht' as <-.
    exists (owe segs t d). rewrite Ho', lookup_insert_eq. split_and!; [done..| |done]. intros a.
    destruct (accept_fields t d) as (-> & _). by rewrite (atomic_not_store _ Hta).
Qed.
(** ** Responses *)

(** The operand of an atomic operation in a response is what the memory held. *)
Lemma le_split_shifted n w j :
  0 <= j -> le_split n (Z.shiftr w (8 * j)) = byte_of w <$> seqZ j (Z.of_nat n).
Proof.
  revert j. induction n as [|n IH]; intros j Hj; [done|]. rewrite (seqZ_cons j) by lia. simpl. f_equal.
  rewrite Z.shiftr_shiftr by lia. replace (8 * j + 8) with (8 * Z.succ j) by lia.
  rewrite IH by lia. do 2 f_equal. lia.
Qed.

Lemma load_operand t data m :
  (forall k, accessed t k -> byte_of data k = m (req_base t + k)) -> 0 <= req_offset t -> 0 <= req_bytes t ->
  operand t data = load_bytes (req_bytes t) m (req_addr t).
Proof.
  intros Hd Ho Hb. unfold operand, load_bytes.
  rewrite <-(Z2Nat.id (req_bytes t)), <-le_combine_split, le_split_shifted by lia. f_equal.
  replace (seqZ (req_offset t)) with (seqZ (req_offset t + 0)) by (f_equal; lia).
  rewrite <-fmap_add_seqZ, <-list_fmap_compose. apply list_fmap_ext. intros _ k Hk%list_elem_of_lookup_2%elem_of_seqZ.
  simpl. rewrite Hd by (unfold accessed; lia). f_equal. unfold req_base, req_offset, align_to.
  pose proof (Z_div_mod_eq_full (req_addr t) CORE_REQ_BYTES). lia.
Qed.

Lemma amo_value t data m :
  req_good region t -> is_amo t = true ->
  (forall k, accessed t k -> byte_of data k = m (req_base t + k)) -> amo_of t data = amo_result t m.
Proof using All.
  intros Hg Ha Hd. assert (is_atomic_op t = true) as Hat by (eapply (atomic_uses t true); left; unfold uses_memory; by rewrite Ha).
  destruct (atomic_in_word Hword Hwords Hdiv segs region Hinj t Hg Hat) as [W1 _ W3 _ W5 _ W7].
  unfold amo_of, amo_result. by rewrite (load_operand t data m) by (done || lia).
Qed.

Lemma flight_resp d s r o :
  related d s -> dv_owed d !! rsp_tid r = Some o ->
  exists e c, inflight_m s !! rsp_tid r = Some e /\ req_tid (ow_req o) = rsp_tid r
    /\ req_good region (ow_req o) /\ ow_error o = owed_error segs (ow_req o) (ow_hit o)
    /\ entry_of segs (ow_req o) (ow_hit o) c e /\ known c o.
Proof.
  intros H Ho. destruct (flight_entry d s _ o H Ho) as (e & He & Ht & [A1 A2 (c & A3 & A4)]). by exists e, c.
Qed.

Lemma resp_total r o ok d s :
  related d s -> dv_owed d !! rsp_tid r = Some o -> right o ok r ->
  (is_amo_sc (ow_req o) = true -> ow_hit o && sc_is_atomic s = ok) ->
  total (core_resp_process r) s (fun _ => responded segs region (ow_req o) (ow_hit o) r s).
Proof using All.
  intros H Ho [Rerr Rdata Rsc] Hok. destruct (flight_resp d s r o H Ho) as (e & c & He & Ht & Hg & Herr & Hent & Hc).
  rewrite Herr in *. set (t := ow_req o) in *.
  eapply (core_resp_total Hword Hwords Hdiv segs region Hinj r s t); [done..| |].
  - intros Hne Hk k Hacc x Hx. destruct (kinds t) as (K1 & K2 & K3 & K4 & K5).
    assert (is_cmo t = false) as Hcmo.
    { destruct (is_cmo t) eqn:E; [|done]. destruct (cmo_kinds t E) as (F1 & _ & F3 & F4 & _).
      rewrite F1, F3, F4 in Hk. done. }
    rewrite Rdata by done. apply Hc; [done| |done]. pose proof (rg_fits _ _ Hg Hcmo) as Hf. unfold accessed in Hacc.
    pose proof (Z.mod_pos_bound (req_addr t) CORE_REQ_BYTES). destruct (req_bytes_8' Hword) as [_ HB].
    unfold req_offset in *. lia.
  - intros Hne Hsc. specialize (Rsc Hne Hsc). unfold noc_slice, req_word. rewrite <-Hok in Rsc by done. exact Rsc.
Qed.

Lemma respond_related r o d s :
  related d s -> dv_owed d !! rsp_tid r = Some o -> is_atomic_op (ow_req o) = false -> right o false r ->
  total (core_resp_process r) s (related_after (set_owed (delete (rsp_tid r) (dv_owed d)) d)).
Proof using All.
  intros H Ho Ha Hr. assert (is_amo_sc (ow_req o) = false /\ is_amo (ow_req o) = false) as [Hsc Hamo].
  { unfold is_atomic_op in Ha. by apply orb_false_iff in Ha as [[-> _]%orb_false_iff ->]. }
  eapply total_weaken; [|apply (resp_total r o false d s H Ho Hr); by rewrite Hsc].
  intros [] s' Hresp. pose proof (responded_keeps _ _ _ _ _ Hresp) as Hkp.
  destruct Hresp as [(R1 & R2 & R3 & R4 & R5) Hl Hf Hi Hram]. rewrite Hsc, Hamo, !andb_false_r in Hram. cbn [andb] in Hram.
  assert (forall t, uc_req (dv_uc d) = Some t -> req_tid t <> rsp_tid r) as Hne.
  { intros t Ht E. destruct (rl_uc _ _ H t Ht) as (o' & Ho' & E' & Hat & _). rewrite E, Ho in Ho'. congruence. }
  constructor; rewrite ?R1, ?R2, ?Hl, ?R4, ?R5; try apply H.
  - intros a x Ha'. rewrite Hram by done. by apply H.
  - intros a Ha'. rewrite Hram by done. by apply H.
  - intros tid. rewrite Hi. simpl. destruct (decide (tid = rsp_tid r)) as [->|?];
      [by rewrite !lookup_delete_eq|rewrite !lookup_delete_ne by done; apply H].
  - pose proof (rl_fifo _ _ H) as Hq. simpl. destruct (dv_uc d) as [|t| |]; simpl in *; rewrite Hf; try done.
    destruct Hq as (e & He & Hq). exists e. by rewrite Hi, lookup_delete_ne by (apply not_eq_sym, Hne; done).
  - apply (filled_keeps d s); rewrite ?R4; done.
  - intros tid o' Ho'. simpl in Ho'. apply lookup_delete_Some in Ho' as [_ Ho']. apply (rl_atomic _ _ H _ _ Ho').
  - intros t Ht. destruct (rl_uc _ _ H t Ht) as (o' & Ho' & E & Hat & Hm & Hp). exists o'. split_and!; try done.
    + simpl. by rewrite lookup_delete_ne by (apply not_eq_sym, Hne; done).
    + simpl. destruct (dv_uc d); simpl in *; rewrite ?R3; done.
Qed.

Lemma commit_fields o ok d :
  dv_rsrv (commit o ok d) = dv_rsrv d /\ dv_owed (commit o ok d) = delete (req_tid (ow_req o)) (dv_owed d)
  /\ dv_reads (commit o ok d) = dv_reads d /\ dv_writes (commit o ok d) = dv_writes d /\ dv_filled (commit o ok d) = dv_filled d
  /\ dv_uc (commit o ok d) = UC_IDLE.
Proof. unfold commit. destruct (ow_error o), (is_amo (ow_req o)), (is_amo_sc (ow_req o) && ok); done. Qed.

Lemma commit_memory o ok d r s s' :
  related d s -> req_good region (ow_req o) -> right o ok r -> ow_error o = owed_error segs (ow_req o) (ow_hit o) ->
  (forall a, ow_mem o a = dv_mem d a) -> (is_amo_sc (ow_req o) = true -> ow_hit o && sc_is_atomic s = ok) ->
  responded segs region (ow_req o) (ow_hit o) r s s' ->
  (forall a x, region a -> sb_byte s' a = Some x -> dv_mem (commit o ok d) a = x)
  /\ (forall a, region a -> dv_written (commit o ok d) a = true -> is_Some (sb_byte s' a)).
Proof using All.
  intros H Hg Hr Herr Hm Hok [_ _ _ _ Hram]. destruct (kinds (ow_req o)) as (_ & _ & _ & K4 & K5).
  rewrite <-Herr in Hram. unfold commit. cbv zeta. simpl. destruct (ow_error o) eqn:Herr'.
  { cbn [negb andb] in Hram. split; intros a; [intros x|]; intros Ha; rewrite Hram by done; by apply H. }
  cbn [negb andb] in Hram. destruct (is_amo (ow_req o)) eqn:Ham.
  - destruct (K5 eq_refl) as (_ & _ & _ & Hsc & _). rewrite Hsc in Hram. cbn [andb] in Hram.
    rewrite (amo_value _ (rsp_rdata r) (dv_mem d)) in Hram; [|done|done|].
    + by eapply write_related.
    + intros k Hk. rewrite (ri_data _ _ _ Hr) by (rewrite ?Ham, ?orb_true_r; done). apply Hm.
  - cbn [andb] in Hram. destruct (is_amo_sc (ow_req o)) eqn:Hsc.
    + rewrite Hok in Hram by done. destruct ok; cbn [andb] in *; [by eapply write_related|].
      split; intros a; [intros x|]; intros Ha; rewrite Hram by done; by apply H.
    + cbn [andb] in *. split; intros a; [intros x|]; intros Ha; rewrite Hram by done; by apply H.
Qed.

Lemma finish_related r o t ok d s :
  related d s -> dv_uc d = UC_CORE_RSP t ok -> rsp_tid r = req_tid t -> dv_owed d !! req_tid t = Some o ->
  right o ok r -> total (core_resp_process r) s (related_after (commit o ok d)).
Proof using All.
  intros H Huc Htid Ho Hr.
  destruct (rl_uc _ _ H t) as (o' & Ho' & Et & Hat & Hm & Hp); [by rewrite Huc|].
  assert (o' = o) as -> by congruence. rewrite Huc in Hp. simpl in Hp.
  assert (is_amo_sc (ow_req o) = true -> ow_hit o && sc_is_atomic s = ok) as Hok.
  { rewrite Et. intros Hsc. specialize (Hp Hsc). destruct (ow_hit o); [by destruct Hp|done]. }
  rewrite <-Htid in Ho. destruct (flight_resp d s r o H Ho) as (e & c & _ & _ & Hg & Herr & _).
  eapply total_weaken; [|by apply (resp_total r o ok d s H Ho Hr)].
  intros [] s' Hresp. destruct (commit_memory o ok d r s s' H Hg Hr Herr Hm Hok Hresp) as [Hmm Hww].
  pose proof (responded_keeps _ _ _ _ _ Hresp) as Hkp. destruct Hresp as [(R1 & R2 & R3 & R4 & R5) Hl Hf Hi _].
  destruct (commit_fields o ok d) as (E1 & E2 & E3 & E4 & E6 & E5). rewrite Et, <-Htid in E2.
  constructor; rewrite ?R1, ?R2, ?Hl, ?R4, ?R5, ?E1, ?E3, ?E4, ?E5; try done; try apply H.
  - intros tid. rewrite Hi, E2. destruct (decide (tid = rsp_tid r)) as [->|?];
      [by rewrite !lookup_delete_eq|rewrite !lookup_delete_ne by done; apply H].
  - simpl. rewrite Hf. pose proof (rl_fifo _ _ H) as Hq. by rewrite Huc in Hq.
  - apply (filled_keeps d s); rewrite ?R4; (done || by rewrite E6).
  - intros tid o2 Ho2 Ha2. exfalso. rewrite E2 in Ho2. apply lookup_delete_Some in Ho2 as [Hne Ho2].
    pose proof (rl_atomic _ _ H tid o2 Ho2 Ha2) as E. rewrite Huc in E. injection E as E.
    destruct (flight_entry d s tid o2 H Ho2) as (_ & _ & Ht & _). congruence.
Qed.

End Faithful.

#[global] Arguments flight_entry {_ _ _} d s tid o _ _.
