(* ===== verification/DeviceMem.v ===== *)
(** * The scoreboard and a faithful device: the memory side

    The relation of [DeviceProps] holds after the requests of the device to the memory and
    the responses of the memory. *)
From S2P Require Import Prelude Defs Transaction RamModel Amo MemModel MemResp Sequence.
From S2P Require Import Scoreboard ScoreboardProps ScoreboardLrsc ScoreboardData ScoreboardSafe.
From S2P Require Import Device DeviceSb DeviceProps.

#[local] Open Scope Z_scope.

Section Memory.
Context {cfg : HpdConfig} {wf : ConfigWf cfg}.
Hypothesis Hmem : (MEM_BYTES | SCOREBOARD_RAM_SIZE).
Context (segs : list segment_t) (region : Z -> Prop).
Hypothesis Hinj : forall a b,
  region a -> region b -> a mod SCOREBOARD_RAM_SIZE = b mod SCOREBOARD_RAM_SIZE -> a = b.

Abbreviation related := (related segs region).
Abbreviation related_after d' := (fun (_ : unit) s' => related d' s').

(** The device with the same memory, reservation and responses to send. *)
Definition same_promises (d d' : device) : Prop :=
  dv_mem d' = dv_mem d /\ dv_written d' = dv_written d /\ dv_rsrv d' = dv_rsrv d /\ dv_owed d' = dv_owed d
  /\ uc_req (dv_uc d') = uc_req (dv_uc d).
Definition same_core (s s' : scoreboard) : Prop :=
  sb_log s' = sb_log s /\ sb_errorsegs s' = sb_errorsegs s /\ lrsc_buf_m s' = lrsc_buf_m s
  /\ inflight_m s' = inflight_m s.
(** The reference memory learns what the memory holds. *)
Definition learns (d : device) (s s' : scoreboard) : Prop :=
  forall a, region a -> sb_byte s' a = sb_byte s a \/ sb_byte s' a = Some (dv_mem d a).

Record side_ok (d : device) (s : scoreboard) : Prop := {
  sd_fifo : fifo_ok (dv_uc d) s;
  sd_reads : forall id, m_addr <$> inflight_mem_read_m s !! id = dv_reads d !! id;
  sd_bus : forall id a, dv_reads d !! id = Some a -> bus_good region a;
  sd_writes : forall id, is_Some (inflight_mem_write_m s !! id) <-> id ∈ dv_writes d;
  sd_filled : filled_ok d s;
}.

Lemma side_related d d' s s' :
  related d s -> same_promises d d' -> same_core s s' -> learns d s s' -> side_ok d' s' ->
  (forall t o, uc_req (dv_uc d) = Some t -> ow_req o = t -> handler_ok (dv_uc d) o d s -> handler_ok (dv_uc d') o d' s') ->
  related d' s'.
Proof.
  intros H (E1 & E2 & E3 & E4 & E5) (S1 & S2 & S3 & S4) Hl [F1 F2 F3 F4 F5] Hp.
  constructor; rewrite ?S1, ?S2, ?S3, ?S4, ?E1, ?E2, ?E3, ?E4, ?E5; try done; try apply H.
  - intros a x Ha Hx. destruct (Hl a Ha) as [Hs|Hs]; rewrite Hs in Hx; [by apply H|congruence].
  - intros a Ha Hw. destruct (Hl a Ha) as [-> | ->]; [by apply H|done].
  - intros t Ht. destruct (rl_uc _ _ _ _ H t Ht) as (o & Ho & Et & Hat & Hm & Hph). exists o. split_and!; try done. by eapply Hp.
Qed.

Lemma learns_same d s s' : ram_m s' = ram_m s -> learns d s s'.
Proof. intros E a _. left. unfold sb_byte. by rewrite E. Qed.

Lemma learns_keeps d s s' : learns d s s' -> ram_grows region s s'.
Proof. intros Hl a Ha Hs. destruct (Hl a Ha) as [-> | ->]; [done|by eexists]. Qed.
(** A step that adds reads to the table. *)
Lemma filled_same d s d' s' :
  related d s -> dv_filled d' = dv_filled d -> ram_m s' = ram_m s ->
  (forall id e, inflight_mem_read_m s !! id = Some e -> inflight_mem_read_m s' !! id = Some e) -> filled_ok d' s'.
Proof.
  intros H Ed Er Hs. apply (filled_keeps segs region d s); [done|by rewrite Ed|by apply (learns_keeps d), learns_same|auto].
Qed.

Lemma no_read d s id : related d s -> dv_reads d !! id = None <-> inflight_mem_read_m s !! id = None.
Proof. intros H. rewrite <-(rl_reads _ _ _ _ H id). destruct (_ !! id); done. Qed.
Lemma no_write d s id : related d s -> id ∉ dv_writes d <-> inflight_mem_write_m s !! id = None.
Proof. intros H. rewrite <-(rl_writes _ _ _ _ H id), eq_None_not_Some. done. Qed.

(** The request of the handler is the one at the head of the FIFO. *)
Lemma handler_entry d s t :
  related d s -> dv_uc d = UC_MEM_REQ t ->
  exists e o c, inflight_m s !! req_tid t = Some e /\ inflight_amo_req_m s = [e] /\ ow_req o = t
    /\ entry_of segs t (ow_hit o) c e /\ uses_memory t (ow_hit o) = true.
Proof.
  intros H Huc. pose proof (rl_fifo _ _ _ _ H) as Hf. rewrite Huc in Hf. destruct Hf as (e & He & Hf).
  destruct (rl_uc _ _ _ _ H t) as (o & Ho & Et & _ & _ & Hp); [by rewrite Huc|]. rewrite Huc in Hp.
  destruct (flight_entry d s _ o H Ho) as (e' & He' & _ & [_ _ (c & Hc & _)]). assert (e' = e) as -> by congruence.
  rewrite Et in Hc. by exists e, o, c.
Qed.

Lemma total_pop err (k : inflight_entry_t -> SB unit) e s Q :
  inflight_amo_req_m s = [e] -> total (k e) (set_amo_fifo [] s) Q -> total (pop_amo err k) s Q.
Proof.
  intros He Hk. unfold pop_amo. apply total_bind, total_get. rewrite He. apply total_bind, total_when; [done|]. intros _.
  apply total_bind, total_modify, Hk.
Qed.

Lemma find_core_req_some addr m k e :
  m !! k = Some e -> get_nline addr = get_nline (e_addr e) -> find_core_req addr m <> None.
Proof.
  unfold find_core_req. intros Hk Hl.
  set (f := fun (k : Z) (e : inflight_entry_t) (best : option (Z * inflight_entry_t)) => _).
  enough (is_Some (map_fold f None m)) as [x ->] by done. revert Hk.
  apply (map_fold_weak_ind (fun b m => m !! k = Some e -> is_Some b)); [done|].
  intros k' e' m' b Hnone IH Hk. unfold f. destruct (decide (k = k')) as [->|Hne].
  - rewrite lookup_insert_eq in Hk. injection Hk as ->. rewrite Hl, Z.eqb_refl. destruct b; [by destruct (older _ _)|done].
  - rewrite lookup_insert_ne in Hk by done. destruct (IH Hk) as [x ->].
    destruct (_ =? _); [by destruct (older _ _)|done].
Qed.

(** *** Reads *)

Lemma read_req_total req s Q :
  inflight_mem_read_m s !! mreq_id req = None -> sb_errorsegs s = Some segs ->
  (forall c, let e := mk_mem_entry segs (find_core_req (mreq_addr req) (inflight_m s)) req in
     total (when (mem_is_ldex req) (pop_amo E_unexpected_ldex (fun _ => mret tt)))
       (set_mem_read (<[mreq_id req := e]> (inflight_mem_read_m s)) (set_count c s)) Q) ->
  total (mem_read_req_process req) s Q.
Proof.
  intros Hn Hs HQ. unfold mem_read_req_process. apply total_bind, total_modify, total_bind, total_get.
  set (s1 := set_count _ s). change (inflight_mem_read_m s1) with (inflight_mem_read_m s).
  rewrite Hn, bool_decide_false by by intros [? ?]. apply total_bind. eapply total_some; [exact Hs|].
  apply total_bind, total_modify. apply HQ.
Qed.

Lemma reads_insert d s id a e :
  related d s -> m_addr e = a ->
  forall i, m_addr <$> <[id := e]> (inflight_mem_read_m s) !! i = <[id := a]> (dv_reads d) !! i.
Proof.
  intros H <- i. destruct (decide (i = id)) as [->|Hne]; [by rewrite !lookup_insert_eq|].
  rewrite !lookup_insert_ne by done. apply H.
Qed.

Lemma read_related req d s :
  related d s -> uc_quiet (dv_uc d) = true -> mem_is_ldex req = false -> dv_reads d !! mreq_id req = None ->
  bus_good region (mreq_addr req) ->
  total (mem_read_req_process req) s (related_after (set_reads (<[mreq_id req := mreq_addr req]> (dv_reads d)) d)).
Proof.
  intros H Hq Hl Hn Hb. apply read_req_total; [by apply (no_read d)|apply H|]. intros c e. rewrite Hl.
  apply total_ret. eapply side_related; [exact H|done|done|by apply learns_same| |].
  - split; simpl; try apply H; [by apply reads_insert| |].
    + intros id a Ha. apply lookup_insert_Some in Ha as [[_ <-]|[_ Ha]]; [done|]. by eapply (rl_bus _ _ _ _ H).
    + apply (filled_same d s); [done..|]. intros id x Hx. simpl. rewrite lookup_insert_ne; [done|].
      intros <-. apply (no_read d s) in Hn; [congruence|done].
  - intros t o _ _. simpl. by destruct (dv_uc d).
Qed.

Lemma ldex_related req t d s :
  related d s -> dv_uc d = UC_MEM_REQ t -> is_amo_lr t = true -> mem_is_ldex req = true ->
  dv_reads d = ∅ -> dv_writes d = ∅ -> bus_good region (mreq_addr req) ->
  total (mem_read_req_process req) s (related_after
    (set_uc (UC_MEM_WAIT_RSP t (Some (mreq_id req)) None false) (set_reads {[mreq_id req := mreq_addr req]} d))).
Proof.
  intros H Huc Hlr Hl Hr Hw Hb. apply read_req_total; [apply (no_read d); [done|by rewrite Hr]|apply H|]. intros c e.
  rewrite Hl. destruct (handler_entry d s t H Huc) as (e0 & o & c0 & _ & Hf & _). eapply total_pop; [exact Hf|].
  apply total_ret. eapply side_related; [exact H|by unfold same_promises; rewrite Huc|done|by apply learns_same| |].
  - split; simpl; try apply H; [done| | |].
    + rewrite <-(insert_empty (M := gmap Z)), <-Hr. by apply reads_insert.
    + intros id a Ha. apply lookup_singleton_Some in Ha as [_ <-]. done.
    + apply (filled_same d s); [done..|]. intros id x Hx. by rewrite (proj1 (no_read d s _ H)) in Hx by by rewrite Hr.
  - intros t' o' Ht Eo Hp. rewrite Huc in *. simpl in *. destruct (kinds t) as (_ & _ & K & _).
    destruct (K Hlr) as (_ & _ & _ & Hsc & _). split_and!; [done|by rewrite Hsc| | | | |done].
    + intros id [x Hx]. apply lookup_singleton_Some in Hx as [-> _]. done.
    + rewrite Hw. set_solver.
    + intros id E. injection E as <-. rewrite lookup_singleton_eq. done.
    + done.
Qed.

(** *** Writes *)

(** The end of the handler of writes. *)
Definition write_tail (req : mem_req) (core_req : option Z) (e : inflight_mem_entry_t) : SB unit :=
  if mem_is_amo req then
    pop_amo E_unexpected_amo (fun _ =>
      when (bool_decide (core_req = None)) (print_error E_amo_no_core_request);;
      modify (fun s => set_mem_read (map_insert (mreq_id req) e (inflight_mem_read_m s)) s))
  else if mem_is_stex req then
    pop_amo E_unexpected_stex (fun entry =>
      if negb (e_is_atomic entry) then print_error E_stex_no_reservation
      else when (bool_decide (core_req = None)) (print_error E_sc_no_core_request))
  else mret tt.

Lemma write_req_total wr s Q :
  let req := wreq wr in
  inflight_mem_write_m s !! mreq_id req = None -> sb_errorsegs s = Some segs ->
  (forall c, let core := find_core_req (mreq_addr req) (inflight_m s) in let e := mk_mem_entry segs core req in
     total (write_tail req core e) (set_mem_write (<[mreq_id req := e]> (inflight_mem_write_m s)) (set_count c s)) Q) ->
  total (mem_write_req_process wr) s Q.
Proof.
  intros req Hn Hs HQ. unfold mem_write_req_process. fold req. apply total_bind, total_modify, total_bind, total_get.
  set (s1 := set_count _ s). change (inflight_mem_write_m s1) with (inflight_mem_write_m s).
  rewrite Hn, bool_decide_false by by intros [? ?]. apply total_bind. eapply total_some; [exact Hs|].
  apply total_bind, total_modify. apply HQ.
Qed.

Lemma writes_insert d s id (e : inflight_mem_entry_t) :
  related d s -> forall i, is_Some (<[id := e]> (inflight_mem_write_m s) !! i) <-> i ∈ {[id]} ∪ dv_writes d.
Proof.
  intros H i. rewrite lookup_insert_is_Some', elem_of_union, elem_of_singleton, (rl_writes _ _ _ _ H). naive_solver.
Qed.

Lemma write_related_plain wr d s :
  related d s -> uc_quiet (dv_uc d) = true -> mem_is_amo (wreq wr) = false -> mem_is_stex (wreq wr) = false ->
  mreq_id (wreq wr) ∉ dv_writes d ->
  total (mem_write_req_process wr) s (related_after (set_writes ({[mreq_id (wreq wr)]} ∪ dv_writes d) d)).
Proof.
  intros H Hq Ha Hx Hn. apply write_req_total; [by apply (no_write d)|apply H|]. intros c core e.
  unfold write_tail. rewrite Ha, Hx. apply total_ret.
  eapply side_related; [exact H|done|done|by apply learns_same| |].
  - split; simpl; try apply H. by apply writes_insert.
  - intros t o _ _. simpl. by destruct (dv_uc d).
Qed.

(** The memory request of an AMO or of an SC. *)
Definition sent (t : transaction_req) (req : mem_req) (d : device) : device :=
  set_uc (UC_MEM_WAIT_RSP t (if is_amo t then Some (mreq_id req) else None) (Some (mreq_id req)) false)
    (set_reads (if is_amo t then {[mreq_id req := mreq_addr req]} else ∅) (set_writes {[mreq_id req]} d)).

Lemma sent_related t req d s s' e :
  related d s -> dv_uc d = UC_MEM_REQ t -> dv_reads d = ∅ -> dv_writes d = ∅ -> bus_good region (mreq_addr req) ->
  m_addr e = mreq_addr req -> same_core s s' -> ram_m s' = ram_m s -> inflight_amo_req_m s' = [] ->
  inflight_mem_read_m s' = (if is_amo t then map_insert (mreq_id req) e (inflight_mem_read_m s) else inflight_mem_read_m s) ->
  inflight_mem_write_m s' = <[mreq_id req := e]> (inflight_mem_write_m s) ->
  related (sent t req d) s'.
Proof.
  intros H Huc Hr Hw Hb He Hs Hram Hf Er Ew. eapply side_related; [exact H| |done|by apply learns_same| |].
  - unfold same_promises. by rewrite Huc.
  - split; simpl; [done|..].
    + intros id. rewrite Er. destruct (is_amo t).
      * unfold map_insert. rewrite (proj1 (no_read d s _ H)) by by rewrite Hr.
        rewrite <-(insert_empty (M := gmap Z)), <-Hr. by apply reads_insert.
      * rewrite <-Hr. apply H.
    + intros id a Ha. destruct (is_amo t); [|done]. apply lookup_singleton_Some in Ha as [_ <-]. done.
    + intros id. rewrite Ew, (writes_insert d s) by done. rewrite Hw. set_solver.
    + apply (filled_same d s); [done..|]. intros id x Hx. by rewrite (proj1 (no_read d s _ H)) in Hx by by rewrite Hr.
  - intros t' o' Ht Eo Hp. rewrite Huc in *. simpl in *. destruct (kinds t) as (_ & _ & _ & K & _). split_and!.
    + done.
    + intros Hsc. destruct (K Hsc) as (_ & _ & -> & _). done.
    + intros id [x Hx]. destruct (is_amo t); [|done]. apply lookup_singleton_Some in Hx as [-> _]. done.
    + set_solver.
    + intros id E. destruct (is_amo t); [|done]. injection E as <-. by rewrite lookup_singleton_eq.
    + intros id E. injection E as <-. set_solver.
    + done.
Qed.

Lemma atomic_related wr t d s :
  related d s -> dv_uc d = UC_MEM_REQ t -> atomic_write t (wreq wr) = true ->
  get_nline (mreq_addr (wreq wr)) = get_nline (req_addr t) ->
  dv_reads d = ∅ -> dv_writes d = ∅ -> bus_good region (mreq_addr (wreq wr)) ->
  total (mem_write_req_process wr) s (related_after (sent t (wreq wr) d)).
Proof.
  intros H Huc Hat Hline Hr Hw Hb. set (req := wreq wr) in *.
  apply write_req_total; [apply (no_write d); [done|rewrite Hw; set_solver]|apply H|]. fold req. intros c core e.
  destruct (handler_entry d s t H Huc) as (e0 & o & c0 & Hin & Hf & Eo & Hent & Hu).
  assert (core <> None) as Hcore.
  { apply (find_core_req_some _ _ _ _ Hin). by rewrite (eo_addr _ _ _ _ _ Hent). }
  destruct (kinds t) as (_ & _ & _ & K4 & K5). unfold atomic_write in Hat. unfold write_tail.
  destruct (mem_is_amo req) eqn:Ha.
  - eapply total_pop; [exact Hf|]. rewrite bool_decide_false by done. apply total_bind, total_ret, total_modify.
    assert (is_amo t = true) as Hamo.
    { destruct (is_amo t); [done|]. unfold mem_is_amo in Ha. unfold mem_is_stex in Hat.
      destruct (mreq_command req =? HPDCACHE_MEM_ATOMIC), (mreq_atomic req =? HPDCACHE_MEM_ATOMIC_STEX); simpl in *; try done.
      by rewrite andb_false_r in Hat. }
    by eapply (sent_related t req d s _ e); rewrite ?Hamo.
  - rewrite andb_false_r in Hat. simpl in Hat. apply andb_prop in Hat as [Hsc ->]. eapply total_pop; [exact Hf|].
    assert (is_amo t = false) as Hamo by (by destruct (K4 Hsc) as (_ & _ & ? & _)).
    assert (ow_hit o = true) as Hh.
    { unfold uses_memory in Hu. destruct (K4 Hsc) as (_ & _ & H1 & H2 & _). rewrite H1, H2, Hsc in Hu. done. }
    rewrite (eo_atomic _ _ _ _ _ Hent Hsc), Hh, bool_decide_false by done. apply total_ret.
    by eapply (sent_related t req d s _ e); rewrite ?Hamo.
Qed.

(** *** Responses of the memory *)

Lemma refill_learns d s resp e :
  related d s -> bus_good region (m_addr e) -> truthful d (m_addr e) resp -> rresp_error resp = 0 ->
  (rresp_id resp ∈ dv_filled d -> filled e s) -> refill_defined e = true ->
  exists r, refill resp e s = Done tt (set_ram r s) /\ learns d s (set_ram r s) /\ filled e (set_ram r s).
Proof using Hinj Hmem wf.
  intros H (B1 & B2 & B3) Ht Herr Hf Hdef. pose proof (refill_total Hmem resp e s B1 B2) as Hr. cbv zeta in Hr.
  rewrite Hdef in Hr. destruct Hr as (r & Hr & Hin & Hout). exists r. split; [done|].
  set (base := align_to (m_addr e) MEM_BYTES) in *. split.
  - intros a Ha. destruct (decide (0 <= a - base < MEM_BYTES)) as [Hk|Hk].
    + assert (exists k, 0 <= k < MEM_BYTES /\ a = base + k) as (k & Hk' & ->) by (exists (a - base); lia).
      rewrite Hin by done.
      destruct (refill_selects e k) eqn:Hs; [|by left]. case_bool_decide as Hn; simpl; [|by left]. right. f_equal.
      apply Ht; [done| |done|].
      * intros Hi. destruct (Hf Hi k Hk' Hs) as [x Hx]. fold base in Hx. congruence.
      * destruct (dv_written d (base + k)) eqn:Hw; [|done].
        destruct (rl_written _ _ _ _ H _ Ha Hw) as [x Hx]. congruence.
    + left. apply Hout. intros k Hk' E. apply Hinj in E; [lia|done|by apply B3].
  - intros k Hk Hs. fold base. rewrite Hin by done. rewrite Hs. case_bool_decide as Hn; simpl; [by eexists|].
    by apply not_eq_None_Some.
Qed.

Lemma bad_mask_undef resp e s :
  inflight_mem_read_m s !! rresp_id resp = Some e -> rresp_error resp = 0 -> refill_defined e = false ->
  mem_read_resp_process resp s = Undef.
Proof using wf.
  intros He Herr Hu. unfold mem_read_resp_process, upd_count. rewrite bind_modify, bind_get. set (s1 := set_count _ s).
  change (inflight_mem_read_m s1) with (inflight_mem_read_m s). rewrite He, Herr.
  unfold mbind at 1, SB_bind. simpl. by rewrite refill_undefined.
Qed.

Lemma uc_read_req id u : uc_req (uc_read id u) = uc_req u.
Proof. destruct u as [| |t [i|] wr ok|]; simpl; try done. destruct (i =? id), wr; done. Qed.
Lemma uc_write_req id b u : uc_req (uc_write id b u) = uc_req u.
Proof. destruct u as [| |t rd [i|] ok|]; simpl; try done. destruct (i =? id), rd; done. Qed.

Lemma read_phase d s s' t o id :
  is_Some (dv_reads d !! id) -> sc_is_atomic s' = sc_is_atomic s -> ow_req o = t -> uc_req (dv_uc d) = Some t ->
  handler_ok (dv_uc d) o d s ->
  handler_ok (uc_read id (dv_uc d)) o (set_uc (uc_read id (dv_uc d)) (set_reads (delete id (dv_reads d)) d)) s'.
Proof.
  intros Hid Hs Et Hu Hp. destruct (dv_uc d) as [|t1|t1 rd wr ok|t1 ok]; try done; simpl in *; [|by rewrite Hs].
  destruct Hp as (P1 & P2 & P3 & P4 & P5 & P6 & P7). pose proof (P3 _ Hid) as ->. rewrite Z.eqb_refl.
  assert (is_amo_sc t1 = true -> False) as Hsc by (intros Hsc; by specialize (P2 Hsc)).
  destruct wr as [w|]; simpl; [|by intros Hx%Hsc]. split_and!; [done..| |done|done|done|done].
  intros i [x Hx]. apply lookup_delete_Some in Hx as [Hne Hx]. exfalso. apply Hne.
  assert (Some id = Some i) as [= E]; [|done]. apply P3. by eexists.
Qed.

Lemma write_phase d s s' t o id b :
  id ∈ dv_writes d -> sc_is_atomic s' = b -> ow_req o = t -> uc_req (dv_uc d) = Some t ->
  handler_ok (dv_uc d) o d s ->
  handler_ok (uc_write id b (dv_uc d)) o (set_uc (uc_write id b (dv_uc d)) (set_writes (dv_writes d ∖ {[id]}) d)) s'.
Proof.
  intros Hid Hs Et Hu Hp. destruct (dv_uc d) as [|t1|t1 rd wr ok|t1 ok]; try done; simpl in *.
  2: { intros Hsc. specialize (Hp Hsc). destruct (ow_hit o); [|done]. destruct Hp as [_ Hw]. rewrite Hw in Hid. set_solver. }
  destruct Hp as (P1 & P2 & P3 & P4 & P5 & P6 & P7). pose proof (P4 _ Hid) as ->. rewrite Z.eqb_refl.
  assert (forall i, i ∈ dv_writes d ∖ {[id]} -> False) as Hno.
  { intros i [Hi Hne]%elem_of_difference. specialize (P4 _ Hi). injection P4 as ->. set_solver. }
  destruct rd as [r|]; simpl.
  - split_and!; [done..| | | |done]; [by intros i Hi%Hno|done|done].
  - intros Hsc. unfold uses_memory in P1. destruct (kinds t1) as (_ & _ & _ & K & _).
    destruct (K Hsc) as (_ & _ & Ka & Kl & _). rewrite Ka, Kl, Hsc in P1. simpl in P1. rewrite P1. split; [done|]. set_solver.
Qed.

(** The refill of a beat, if it has one. *)
Lemma beat_refill resp d s e :
  related d s -> inflight_mem_read_m s !! rresp_id resp = Some e -> truthful d (m_addr e) resp ->
  (rresp_error resp = 0 /\ refill_defined e = false)
  \/ exists r, when (rresp_error resp =? 0) (refill resp e) s = Done tt (set_ram r s) /\ learns d s (set_ram r s)
      /\ (rresp_error resp = 0 -> filled e (set_ram r s)).
Proof using Hinj Hmem wf.
  intros H He Ht. pose proof (rl_reads _ _ _ _ H (rresp_id resp)) as Ha. rewrite He in Ha. simpl in Ha.
  destruct (Z.eqb_spec (rresp_error resp) 0) as [Herr|Herr]; simpl.
  - destruct (refill_defined e) eqn:Hdef; [right|by left].
    destruct (refill_learns d s resp e) as (r & Hr & Hl & Hf); [done|by apply (rl_bus _ _ _ _ H (rresp_id resp))|done|done| |done|].
    + intros Hi. destruct (rl_filled _ _ _ _ H _ Hi) as (e' & He' & Hf). by assert (e' = e) as -> by congruence.
    + by exists r.
  - right. exists (ram_m s). split; [by destruct s|]. split; [by apply learns_same|done].
Qed.

Lemma read_resp_related resp a d s :
  related d s -> dv_reads d !! rresp_id resp = Some a -> truthful d a resp ->
  (exists e, inflight_mem_read_m s !! rresp_id resp = Some e /\ rresp_error resp = 0 /\ refill_defined e = false)
  \/ total (mem_read_resp_process resp) s (related_after (beat resp d)).
Proof using Hinj Hmem wf.
  intros H Ha Ht. pose proof (rl_reads _ _ _ _ H (rresp_id resp)) as Hr. rewrite Ha in Hr.
  destruct (inflight_mem_read_m s !! rresp_id resp) as [e|] eqn:He; [|done]. injection Hr as Ea.
  set (s1 := set_count (count_mem_read_resp (sb_count s)) s). assert (related d s1) as H1 by (destruct H; by constructor).
  destruct (beat_refill resp d s1 e H1 He) as [[Herr Hu]|(r & Hr & Hl & Hf)]; [by rewrite Ea|left; by exists e|right].
  unfold mem_read_resp_process. apply total_bind, total_modify, total_bind, total_get. fold s1.
  change (inflight_mem_read_m s1) with (inflight_mem_read_m s). rewrite He. apply total_bind. unfold total at 1. rewrite Hr.
  unfold beat. apply total_when; intros ->; [apply total_modify|]; (eapply side_related; [exact H1| |done|exact Hl| |]).
  - split_and!; try done. apply uc_read_req.
  - split; simpl; try apply H.
    + pose proof (rl_fifo _ _ _ _ H) as Hq. destruct (dv_uc d) as [| |t [i|] wr ok|]; simpl in *; try done.
      destruct (i =? rresp_id resp), wr; done.
    + intros id. destruct (decide (id = rresp_id resp)) as [->|?];
        [by rewrite !lookup_delete_eq|rewrite !lookup_delete_ne by done; apply H].
    + intros id x Hx. apply lookup_delete_Some in Hx as [_ Hx]. by apply (rl_bus _ _ _ _ H) in Hx.
    + apply (filled_keeps segs region d s1); [done|simpl; set_solver|by apply (learns_keeps d)|].
      intros id x Hid Hx. simpl. rewrite lookup_delete_ne; [done|]. set_solver.
  - intros t o Hu Eo Hp. apply (read_phase d s _ t); simpl; done.
  - by destruct (rresp_error resp =? 0).
  - assert (filled_ok d (set_ram r s1)) as Hk by (apply (filled_keeps segs region d s1); [done|done|by apply (learns_keeps d)|done]).
    destruct (Z.eqb_spec (rresp_error resp) 0) as [Herr|]; (split; [apply H..|apply H|]); [|done].
    intros id [->%elem_of_singleton|Hid]%elem_of_union; [exists e; split; [done|by apply Hf]|by apply Hk].
  - intros t o _ _. destruct (rresp_error resp =? 0); simpl; by destruct (dv_uc d).
Qed.

Lemma write_resp_related resp d s :
  related d s -> wresp_id resp ∈ dv_writes d ->
  total (mem_write_resp_process resp) s (related_after
    (set_uc (uc_write (wresp_id resp) (wresp_is_atomic resp) (dv_uc d))
       (set_writes (dv_writes d ∖ {[wresp_id resp]}) d))).
Proof.
  intros H Hid. unfold mem_write_resp_process. apply total_bind, total_modify, total_bind, total_get.
  set (s1 := set_count _ s). change (inflight_mem_write_m s1) with (inflight_mem_write_m s).
  destruct (proj2 (rl_writes _ _ _ _ H _) Hid) as [x ->]. apply total_bind, total_modify, total_modify.
  eapply side_related; [exact H| |done|by apply learns_same| |].
  - split_and!; try done. apply uc_write_req.
  - split; simpl; try apply H.
    + pose proof (rl_fifo _ _ _ _ H) as Hq. destruct (dv_uc d) as [| |t rd [i|] ok|]; simpl in *; try done.
      destruct (i =? wresp_id resp), rd; done.
    + intros id. rewrite elem_of_difference, elem_of_singleton, <-(rl_writes _ _ _ _ H), lookup_delete_is_Some. naive_solver.
  - intros t o Hu Eo Hp. apply (write_phase d s _ t); simpl; done.
Qed.

End Memory.
