(* ===== verification/DeviceRuns.v ===== *)
(** * A faithful device raises no false alarm

    Runs of the scoreboard with the device of [Device]: the reports of the scoreboard are
    empty as long as the device keeps its promises. *)
From S2P Require Import Prelude Defs Transaction RamModel Amo MemModel MemResp Sequence.
From S2P Require Import Scoreboard ScoreboardProps ScoreboardLrsc ScoreboardData ScoreboardSafe.
From S2P Require Import Device DeviceSb DeviceProps DeviceMem.

#[local] Open Scope Z_scope.

(** The runs of the device. *)
Inductive dev_run `{HpdConfig} (segs : list segment_t) (region : Z -> Prop) (d : device) : list sb_event -> device -> Prop :=
  | dev_run_nil : dev_run segs region d [] d
  | dev_run_snoc evs d1 ev d2 :
      dev_run segs region d evs d1 -> dev_step segs region d1 ev d2 -> dev_run segs region d (evs ++ [ev]) d2.

(** The scoreboard after the construction and [build]. *)
Definition sb_built (lrsc : lrsc_reservation_buf_t) (segs : list segment_t) (limit : Z) : scoreboard :=
  set_error_limit limit (set_mem_resp_model segs (set_sequence [] (hpdcache_test_scoreboard lrsc))).

Lemma dev_run_cons `{HpdConfig} segs region d ev d1 evs d2 :
  dev_step segs region d ev d1 -> dev_run segs region d1 evs d2 -> dev_run segs region d (ev :: evs) d2.
Proof.
  intros Hst Hr. induction Hr as [|evs d3 ev' d4 _ IH Hst'].
  - apply (dev_run_snoc _ _ _ [] d ev d1); [apply dev_run_nil|done].
  - change (ev :: evs ++ [ev']) with ((ev :: evs) ++ [ev']). by eapply dev_run_snoc.
Qed.

Lemma for_each_snoc {A} (f : A -> SB unit) l x s : for_each f (l ++ [x]) s = (for_each f l;; f x) s.
Proof.
  revert s. induction l as [|y l IH]; intros s; simpl.
  - unfold mbind, SB_bind. simpl. by destruct (f x s) as [[]| |].
  - unfold mbind, SB_bind in *. destruct (f y s) as [a s1| |]; [apply IH|done..].
Qed.

Section Runs.
Context {cfg : HpdConfig} {wf : ConfigWf cfg}.
Hypothesis Hword : HPDCACHE_WORD_WIDTH = 64.
Hypothesis Hwords : 1 <= HPDCACHE_REQ_WORDS.
Hypothesis Hdiv : (CORE_REQ_BYTES | SCOREBOARD_RAM_SIZE).
Hypothesis Hmem : (MEM_BYTES | SCOREBOARD_RAM_SIZE).
Context (segs : list segment_t) (region : Z -> Prop).
Hypothesis Hinj : forall a b,
  region a -> region b -> a mod SCOREBOARD_RAM_SIZE = b mod SCOREBOARD_RAM_SIZE -> a = b.

Abbreviation related := (related segs region).
Abbreviation related_after d' := (fun (_ : unit) s' => related d' s').

(** A read response whose refill has a mask that is not defined. *)
Definition bad_refill (ev : sb_event) (s : scoreboard) : Prop :=
  exists resp e, ev = EvMemReadResp resp /\ inflight_mem_read_m s !! rresp_id resp = Some e
    /\ rresp_error resp = 0 /\ refill_defined e = false.

Lemma step_related d ev d' s :
  related d s -> dev_step segs region d ev d' ->
  (exists s', handle ev s = Done tt s' /\ related d' s') \/ bad_refill ev s.
Proof using All.
  intros H Hstep.
  assert (forall m, total m s (related_after d') -> exists s', m s = Done tt s' /\ related d' s') as Hd.
  { intros m Hm. destruct (total_done _ _ _ Hm) as ([] & s' & ? & ?). eauto. }
  destruct Hstep as [junk t|r o|r o t ok|req|req t|resp a Ha Ht|wr|wr t|resp|id|i].
  6: { destruct (read_resp_related Hmem segs region Hinj resp a d s H Ha Ht) as [(e & He & Herr & Hu)|Hr];
         [right; by exists resp, e|left; by apply Hd]. }
  all: left; apply Hd.
  - by apply accept_related.
  - by eapply respond_related.
  - by eapply finish_related.
  - by apply read_related.
  - by apply ldex_related.
  - by apply write_related_plain.
  - by apply atomic_related.
  - by apply write_resp_related.
  - apply total_modify. destruct H; by constructor.
  - apply total_bind, total_modify, total_modify. destruct H; by constructor.
Qed.

Lemma related_init m lrsc limit : lrsc_valid lrsc = false -> related (device_init m) (sb_built lrsc segs limit).
Proof.
  intros Hl. assert (forall a, sb_byte (sb_built lrsc segs limit) a = None) as Hb.
  { intros a. unfold sb_byte, contents. rewrite getBmap_testbit by done. unfold bmap_get. simpl.
    by rewrite lookup_empty, Z.testbit_0_l. }
  constructor; simpl; try done.
  - intros a x _. by rewrite Hb.
  - unfold reserved. by rewrite Hl.
  - intros Hv. exfalso. simpl in Hv. congruence.
  - intros id. by rewrite lookup_empty.
Qed.

Lemma bad_refill_undef ev s : bad_refill ev s -> handle ev s = Undef.
Proof. intros (resp & e & -> & He & Herr & Hu). by eapply bad_mask_undef. Qed.

Lemma run_related m lrsc limit evs d :
  lrsc_valid lrsc = false -> dev_run segs region (device_init m) evs d ->
  match for_each handle evs (sb_built lrsc segs limit) with
  | Done _ s => related d s
  | Exit _ => False
  | Undef => exists evs1 ev evs2 s, evs = evs1 ++ ev :: evs2
      /\ for_each handle evs1 (sb_built lrsc segs limit) = Done tt s /\ bad_refill ev s
  end.
Proof using All.
  intros Hl Hr. induction Hr as [|evs d1 ev d2 _ IH Hst]; [by apply related_init|].
  rewrite for_each_snoc. unfold mbind, SB_bind. destruct (for_each handle evs _) as [[] s| |] eqn:E; [|done|].
  - destruct (step_related d1 ev d2 s IH Hst) as [(s' & -> & H)|Hb]; [done|].
    rewrite (bad_refill_undef _ _ Hb). by exists evs, ev, [], s.
  - destruct IH as (evs1 & ev1 & evs2 & s & -> & H1 & H2).
    exists evs1, ev1, (evs2 ++ [ev]), s. by rewrite <-app_assoc.
Qed.

(** C2: The scoreboard raises no false alarm. In every run with a device that keeps its promises (requests take effect in the order it accepts them, each is answered once, in any order, with the data and the error flag of that order, atomic operations are done one at a time, and a read of the memory returns what it holds where the core has not written) the scoreboard reports nothing and never ends the program; the requests it has in flight are those the device still has to answer, and each byte its reference memory holds is the byte of the memory of the device. The run is undefined only at a response of the memory whose refill mask shifts out of its range. *)
Theorem no_false_alarm m lrsc limit evs d :
  lrsc_valid lrsc = false -> dev_run segs region (device_init m) evs d ->
  match for_each handle evs (sb_built lrsc segs limit) with
  | Done _ s => sb_log s = []
      /\ (forall tid, is_Some (inflight_m s !! tid) <-> is_Some (dv_owed d !! tid))
      /\ (forall a x, region a -> sb_byte s a = Some x -> dv_mem d a = x)
  | Exit _ => False
  | Undef => exists evs1 ev evs2 s, evs = evs1 ++ ev :: evs2
      /\ for_each handle evs1 (sb_built lrsc segs limit) = Done tt s /\ bad_refill ev s
  end.
Proof using All.
  intros Hl Hr. pose proof (run_related m lrsc limit evs d Hl Hr) as H.
  destruct (for_each handle evs _) as [u s| |]; [|done|done]. split_and!; [apply H| |apply H].
  intros tid. pose proof (rl_flight _ _ _ _ H tid) as Hf. unfold flight_ok in Hf.
  destruct (inflight_m s !! tid), (dv_owed d !! tid); naive_solver.
Qed.
End Runs.

(** ** Witness: a store, then an atomic addition on what it wrote *)
#[local] Existing Instance default_config.

Definition ex_region (a : Z) : Prop := 0 <= a < SCOREBOARD_RAM_SIZE.
Definition ex_memory : memory := fun _ => 0.
Definition ex_store : transaction_req := ex_req HPDCACHE_REQ_STORE 0x1008 0xff05.
Definition ex_add : transaction_req := ex_req HPDCACHE_REQ_AMO_ADD 0x1008 1.
Definition ex_amo_write : mem_write_req :=
  {| wreq := {| mreq_addr := 0x1008; mreq_len := 0; mreq_size := 3; mreq_id := 5;
                mreq_command := HPDCACHE_MEM_ATOMIC; mreq_atomic := 0; mreq_cacheable := false |};
     wreq_data := 1; wreq_be := 0xff; wreq_last := true |}.
Definition ex_old : mem_read_resp := {| rresp_error := 0; rresp_id := 5; rresp_data := 0; rresp_last := true |}.
Definition ex_done : mem_write_resp := {| wresp_is_atomic := false; wresp_error := 0; wresp_id := 5 |}.
Definition ex_answer (data : Z) : transaction_resp :=
  {| rsp_rdata := data; rsp_sid := 0; rsp_tid := 3; rsp_error := false; rsp_aborted := false |}.
Definition ex_sent : list sb_event :=
  [EvCoreReq ex_stale ex_store; EvCoreResp (ex_answer 0); EvCoreReq ex_stale ex_add; EvMemWriteReq ex_amo_write;
   EvMemReadResp ex_old; EvMemWriteResp ex_done].
Definition ex_run : list sb_event := ex_sent ++ [EvCoreResp (ex_answer 0xff05)].
Definition ex_lrsc : lrsc_reservation_buf_t :=
  {| lrsc_valid := false; lrsc_base_addr := 7; lrsc_end_addr := 0; lrsc_is_atomic := true |}.

Lemma ex_region_inj a b :
  ex_region a -> ex_region b -> a mod SCOREBOARD_RAM_SIZE = b mod SCOREBOARD_RAM_SIZE -> a = b.
Proof. intros Ha Hb. by rewrite !Z.mod_small. Qed.

Lemma ex_req_good op addr data :
  (8 | addr) -> 0 <= addr -> addr + 8 <= SCOREBOARD_RAM_SIZE -> req_good ex_region (ex_req op addr data).
Proof.
  intros Hal H0 H1. assert (addr mod 8 = 0) as Hm by (by apply Z.mod_divide).
  assert (addr / 8 * 8 = addr) as Hd by (pose proof (Z.div_mod addr 8); lia).
  assert (CORE_REQ_BYTES = 8) as HB by (by vm_compute).
  assert (req_offset (ex_req op addr data) = 0) as Ho by (unfold req_offset; by rewrite HB).
  split.
  - done.
  - intros _. by vm_compute.
  - done.
  - intros _. rewrite Ho. vm_compute. discriminate.
  - intros _ k Hk. unfold req_base, align_to, ex_region. rewrite HB in *. cbn [ex_req req_addr]. rewrite Hd. lia.
  - intros _. split; [by right|done].
  - intros _ k Hk. unfold accessed. rewrite Ho. change (req_bytes _) with 8. cbn [ex_req req_be].
    change 255 with (Z.ones 8).
    rewrite Z.testbit_ones, andb_true_iff, Z.leb_le, Z.ltb_lt by lia. lia.
Qed.

(** The response the device owes before the last event. *)
Definition ex_owed : owed :=
  owe [] ex_add (accept [] ex_store (device_init ex_memory)).

Lemma ex_dev_sent :
  exists d, dev_run [] ex_region (device_init ex_memory) ex_sent d
    /\ dv_uc d = UC_CORE_RSP ex_add false /\ dv_owed d !! 3 = Some ex_owed.
Proof.
  assert (bus_good ex_region 0x1008) as Hbus.
  { split; [done|]. split; [by vm_compute|]. intros k Hk. unfold ex_region.
    change (align_to 0x1008 MEM_BYTES) with 4096. change MEM_BYTES with 64 in Hk. change SCOREBOARD_RAM_SIZE with 16777216. lia. }
  eexists. split.
  { eapply dev_run_cons; [apply dev_accept; [done| |done]|].
    { apply ex_req_good; [by exists 513|done|by vm_compute]. }
    eapply dev_run_cons; [eapply dev_respond; [done|done|by constructor]|].
    eapply dev_run_cons; [apply dev_accept; [done| |done]|].
    { apply ex_req_good; [by exists 513|done|by vm_compute]. }
    eapply dev_run_cons; [by eapply dev_atomic|].
    eapply dev_run_cons; [eapply dev_read_resp; [done|]|].
    { intros _ _ k Hk Hw. change (enabled ex_store (4096 + k) || false = false) in Hw. rewrite orb_false_r in Hw.
      change (byte_of 0 k = if enabled ex_store (4096 + k) then byte_of 0xff05 (4096 + k - 4104) else 0).
      rewrite Hw. unfold byte_of. by rewrite Z.shiftr_0_l. }
    eapply dev_run_cons; [apply dev_write_resp; simpl; set_solver|apply dev_run_nil]. }
  split; reflexivity.
Qed.

Lemma ex_dev_run : exists d, dev_run [] ex_region (device_init ex_memory) ex_run d.
Proof.
  destruct ex_dev_sent as (d & Hr & Huc & Ho). eexists. eapply dev_run_snoc; [exact Hr|].
  eapply dev_finish; [exact Huc|done|exact Ho|].
  split; try done. intros _ _ k Hk. change (0 <= k < 8) in Hk.
  assert (k = 0 \/ k = 1 \/ k = 2 \/ k = 3 \/ k = 4 \/ k = 5 \/ k = 6 \/ k = 7) as H by lia.
  by destruct H as [->|[->|[->|[->|[->|[->|[->| ->]]]]]]].
Qed.

Lemma no_false_alarm_witness :
  exists s, for_each (@handle default_config) ex_run (sb_built ex_lrsc [] 1) = Done tt s /\ sb_log s = []
    /\ sb_byte s 0x1008 = Some 6.
Proof.
  destruct ex_dev_run as [d Hd].
  pose proof (@no_false_alarm default_config _ eq_refl ltac:(vm_compute; discriminate) default_div default_mem_div
    [] ex_region ex_region_inj ex_memory ex_lrsc 1 ex_run d eq_refl Hd) as H.
  assert (match for_each handle ex_run (sb_built ex_lrsc [] 1) with Done _ s => sb_byte s 0x1008 = Some 6 | _ => False end) as Hb
    by (vm_compute; reflexivity).
  destruct (for_each handle ex_run (sb_built ex_lrsc [] 1)) as [[] s| |]; [|destruct Hb|destruct Hb].
  exists s. split; [reflexivity|]. split; [apply H|exact Hb].
Defined.
