(* ===== verification/DeviceAlarm.v ===== *)
(** * No error of the device is missed

    The converse of [DeviceRuns]: a response that breaks a promise is reported, as far as
    the scoreboard can know it. *)
From S2P Require Import Prelude Defs Transaction RamModel Amo MemModel MemResp Sequence.
From S2P Require Import Scoreboard ScoreboardProps ScoreboardLrsc ScoreboardData ScoreboardSafe.
From S2P Require Import Device DeviceSb DeviceProps DeviceMem DeviceRuns.

#[local] Open Scope Z_scope.

(** ** Computations that report nothing *)

(** If [m] ends and the log is still empty, then [Q]. *)
Definition quiet {A} (m : SB A) (s : scoreboard) (Q : A -> scoreboard -> Prop) : Prop :=
  match m s with Done a s' => sb_log s' = [] -> Q a s' | _ => True end.

(** A message is never taken back. *)
Definition keeps_messages (s s' : scoreboard) : Prop := sb_log s' = [] -> sb_log s = [].
#[export] Instance keeps_messages_preorder : PreOrder keeps_messages.
Proof. split; [intros s H; exact H|intros a b c H1 H2 H; auto]. Qed.

Lemma frames_messages {A} (m : SB A) : frames m -> keeps keeps_messages m.
Proof.
  intros H s. eapply post_weaken; [|apply H]. intros a s' (_ & _ & _ & _ & k & Hk & _) Hl.
  by apply (log_extends_nil _ _ _ Hk) in Hl as [? _].
Qed.

Lemma quiet_weaken {A} (m : SB A) s (P Q : A -> scoreboard -> Prop) :
  (forall a s', P a s' -> Q a s') -> quiet m s P -> quiet m s Q.
Proof. unfold quiet. destruct (m s); auto. Qed.
Lemma quiet_bind {A B} (m : SB A) (f : A -> SB B) s Q :
  (forall a, keeps keeps_messages (f a)) -> quiet m s (fun a s' => quiet (f a) s' Q) -> quiet (m ≫= f) s Q.
Proof.
  unfold quiet, mbind, SB_bind. intros Hf Hm. destruct (m s) as [a s1| |]; [|done|done].
  pose proof (Hf a s1) as Hk. unfold post in Hk. destruct (f a s1) as [b s2| |]; [|done|done]. intros Hl. by apply Hm; [apply Hk|].
Qed.
Lemma quiet_get (f : scoreboard -> SB unit) s Q : quiet (f s) s Q -> quiet (get ≫= f) s Q.
Proof. done. Qed.
Lemma quiet_modify (g : scoreboard -> scoreboard) (f : unit -> SB unit) s Q : quiet (f tt) (g s) Q -> quiet (modify g ≫= f) s Q.
Proof. done. Qed.
Lemma quiet_const {A} (m : SB A) s (P : Prop) : P -> quiet m s (fun _ _ => P).
Proof. unfold quiet. by destruct (m s). Qed.
Lemma quiet_some {A B} (o : option A) a (f : A -> SB B) s Q : o = Some a -> quiet (f a) s Q -> quiet (undef_if_none o ≫= f) s Q.
Proof. by intros ->. Qed.
Lemma quiet_print m s Q : quiet (print_error m) s Q.
Proof. unfold quiet, print_error. destruct (_ && _); [done|]. simpl. intros H. by apply app_nil in H as [_ ?]. Qed.
Lemma quiet_when_print b m s (Q : unit -> scoreboard -> Prop) : (b = false -> Q tt s) -> quiet (when b (print_error m)) s Q.
Proof. intros H. destruct b; [apply quiet_print|]. intros _. by apply H. Qed.

(** A loop of checks, each of which leaves the state alone when it reports nothing. *)
Lemma quiet_for_each {A} (f : A -> SB unit) l s (P : A -> Prop) :
  (forall x, keeps keeps_messages (f x)) -> (forall x, x ∈ l -> quiet (f x) s (fun _ s' => s' = s /\ P x)) ->
  quiet (for_each f l) s (fun _ s' => s' = s /\ forall x, x ∈ l -> P x).
Proof.
  intros Hk Hf. induction l as [|x l IH]; simpl; [intros _; split; [done|]; by intros x ?%not_elem_of_nil|].
  apply quiet_bind; [intros _; apply keeps_for_each; [apply _|done]|].
  eapply quiet_weaken; [|apply Hf, list_elem_of_here]. intros [] s' [-> HP].
  eapply quiet_weaken; [|apply IH; intros y Hy; by apply Hf, list_elem_of_further].
  intros [] s' [-> Hl]. split; [done|]. intros y [->|Hy]%elem_of_cons; auto.
Qed.

Section Alarm.
Context {cfg : HpdConfig} {wf : ConfigWf cfg}.
Hypothesis Hword : HPDCACHE_WORD_WIDTH = 64.
Hypothesis Hwords : 1 <= HPDCACHE_REQ_WORDS.
Hypothesis Hdiv : (CORE_REQ_BYTES | SCOREBOARD_RAM_SIZE).
Hypothesis Hmem : (MEM_BYTES | SCOREBOARD_RAM_SIZE).
Context (segs : list segment_t) (region : Z -> Prop).
Hypothesis Hinj : forall a b,
  region a -> region b -> a mod SCOREBOARD_RAM_SIZE = b mod SCOREBOARD_RAM_SIZE -> a = b.

(** ** The checks of a response *)

(** The word with the status of an SC. *)
Definition sc_status (t : transaction_req) (r : transaction_resp) : Z :=
  let x := noc_slice (req_word t) (rsp_rdata r) in if req_bytes t =? 4 then u32 x else x.

(** What the scoreboard accepts: [c] are the bytes it knew when the request came, [sc] the
    last answer of the memory to a write. *)
Record verdict (t : transaction_req) (hit sc : bool) (c : Z -> option Z) (r : transaction_resp) : Prop := {
  vd_error : is_store t = false -> rsp_error r = owed_error segs t hit;
  vd_data : owed_error segs t hit = false -> is_load t || is_amo t || is_amo_lr t = true ->
    forall k, accessed t k -> forall x, c k = Some x -> byte_of (rsp_rdata r) k = x;
  vd_sc : owed_error segs t hit = false -> is_amo_sc t = true -> sc_status t r = if hit && sc then 0 else 1;
}.

Lemma quiet_check_byte base rdata e c i s :
  0 <= i < CORE_REQ_BYTES -> expects e c ->
  quiet (check_byte base (core_words rdata) e i) s (fun _ s' => s' = s /\ forall x, c i = Some x -> byte_of rdata i = x).
Proof using Hword.
  intros Hi He. destruct (He i Hi) as (x & rv & Hx & Hrv & Hc). unfold check_byte.
  eapply quiet_some; [by apply core_words_byte|]. eapply quiet_some; [exact Hx|].
  eapply quiet_some; [by rewrite (word_bytes_8 Hword)|]. rewrite (word_bytes_8 Hword). apply quiet_when_print.
  intros Hb. split; [done|]. intros y Hy. rewrite Hc in Hy. destruct (Z.testbit rv (i mod 8)); [|done].
  injection Hy as <-. apply negb_false_iff, Z.eqb_eq in Hb. exact Hb.
Qed.

Lemma quiet_check_data t hit c e r s :
  req_good region t -> is_cmo t = false -> entry_of segs t hit c e -> expects e c ->
  quiet (check_data r e) s (fun _ _ => forall k, accessed t k -> forall x, c k = Some x -> byte_of (rsp_rdata r) k = x).
Proof using Hword Hwords.
  intros Hg Hcmo He Hexp. pose proof (rg_fits _ _ Hg Hcmo) as Hf. destruct (req_bytes_8' Hword) as [_ HB].
  assert (0 <= req_offset t) as H0 by (apply Z.mod_pos_bound; lia).
  unfold check_data. cbv zeta. apply quiet_bind.
  { intros _. apply keeps_when; [apply _|]. apply frames_messages. unfold update_amo. frames_tac. }
  eapply quiet_weaken; [|apply (quiet_for_each _ _ _ (fun i => forall x, c i = Some x -> byte_of (rsp_rdata r) i = x))].
  - intros [] s' [-> H]. unfold quiet. destruct (when _ _ _); [|done|done]. intros _ k Hk. apply H.
    apply elem_of_seqZ. unfold e_byte. rewrite (eo_addr _ _ _ _ _ He), (eo_bytes _ _ _ _ _ He). fold (req_offset t).
    unfold accessed in Hk. lia.
  - intros i. apply frames_messages. unfold check_byte. frames_tac.
  - intros i Hi%elem_of_seqZ. unfold e_byte in Hi. rewrite (eo_addr _ _ _ _ _ He), (eo_bytes _ _ _ _ _ He) in Hi.
    fold (req_offset t) in Hi. apply quiet_check_byte; [lia|done].
Qed.

Lemma quiet_check_sc t hit c e r s :
  is_amo_sc t = true -> entry_of segs t hit c e ->
  quiet (check_sc r e) s (fun _ _ => sc_status t r = if hit && sc_is_atomic s then 0 else 1).
Proof using Hword.
  intros Hsc He. unfold check_sc, sc_status. cbv zeta.
  assert (e_word e = req_word t) as Ewd by (unfold e_word; by rewrite (eo_addr _ _ _ _ _ He), (word_bytes_8 Hword)).
  rewrite Ewd, (eo_bytes _ _ _ _ _ He), Hword. fold (noc_slice (req_word t) (rsp_rdata r)).
  apply quiet_get. rewrite (eo_atomic _ _ _ _ _ He Hsc). destruct (hit && sc_is_atomic s).
  - apply quiet_bind; [intros _; apply frames_messages; frames_tac|]. unfold quiet at 1.
    destruct (sb_ram_write _ _ _ _ _) as [u s1| |]; [intros _|done|done].
    apply quiet_when_print. by intros H%negb_false_iff%Z.eqb_eq.
  - apply quiet_when_print. by intros H%negb_false_iff%Z.eqb_eq.
Qed.

Lemma quiet_checks r s t hit c e :
  req_good region t -> entry_of segs t hit c e -> owed_error segs t hit = false ->
  (is_store t = false -> rsp_error r = owed_error segs t hit) ->
  quiet (when (e_is_amo_sc e) (check_sc r e);; when (e_is_read e || e_is_amo e || e_is_amo_lr e) (check_data r e)) s
    (fun _ _ => verdict t hit (sc_is_atomic s) c r).
Proof using Hword Hwords.
  intros Hg He Herr Hflag. destruct (kinds t) as (K1 & K2 & K3 & K4 & K5).
  rewrite (eo_sc _ _ _ _ _ He), (eo_read _ _ _ _ _ He), (eo_amo _ _ _ _ _ He), (eo_lr _ _ _ _ _ He).
  destruct (is_amo_sc t) eqn:Hsc.
  - destruct (K4 eq_refl) as (Hl & _ & Ha & Hlr & _). rewrite Hl, Ha, Hlr.
    apply quiet_bind; [intros _; apply keeps_ret; apply _|].
    eapply quiet_weaken; [|by apply (quiet_check_sc t hit c e r s)]. intros [] s' Hs. apply quiet_const.
    split; [done| |done]. intros _. by rewrite Hl, Ha, Hlr.
  - destruct (is_load t || is_amo t || is_amo_lr t) eqn:Hk.
    + assert (is_cmo t = false) as Hcmo
        by (apply orb_true_iff in Hk as [Hk|Hk]; [apply orb_true_iff in Hk as [Hk|Hk]|]; naive_solver).
      assert (req_error segs t = false) as Hre by (unfold owed_error in Herr; by rewrite Hsc, andb_true_r in Herr).
      change (quiet (check_data r e) s (fun _ _ => verdict t hit (sc_is_atomic s) c r)).
      eapply quiet_weaken; [|by apply (quiet_check_data t hit c e r s Hg Hcmo He), (eo_expects _ _ _ _ _ He)].
      intros ? ? Hd. split; [done|by intros _ _|congruence].
    + apply quiet_const. split; [done|congruence|congruence].
Qed.

Lemma quiet_core_resp r s t hit c e :
  inflight_m s !! rsp_tid r = Some e -> req_good region t -> entry_of segs t hit c e ->
  quiet (core_resp_process r) s (fun _ _ => verdict t hit (sc_is_atomic s) c r).
Proof using Hword Hwords.
  intros Hin Hg He. unfold core_resp_process. apply quiet_modify, quiet_get.
  set (s1 := set_count _ s). change (inflight_m s1) with (inflight_m s). rewrite Hin.
  rewrite (eo_write _ _ _ _ _ He), (eo_error _ _ _ _ _ He).
  destruct (negb (is_store t) && _) eqn:Hflag; [apply quiet_print|].
  assert (is_store t = false -> rsp_error r = owed_error segs t hit) as Herr.
  { intros Hst. rewrite Hst in Hflag. by apply negb_false_iff, eqb_prop in Hflag. }
  apply quiet_bind; [intros _; apply keeps_bind; [apply _| |intros _]; apply keeps_modify; intros ? Hl; exact Hl|].
  apply (quiet_weaken _ _ (fun _ _ => verdict t hit (sc_is_atomic s) c r)); [intros; by apply quiet_const|].
  destruct (owed_error segs t hit) eqn:Hoe; simpl.
  - apply quiet_const. split; rewrite Hoe; done.
  - apply (quiet_checks r s1 t hit c e Hg He Hoe). by rewrite Hoe.
Qed.

(** ** The device's responses *)

Lemma expects_lengths e c :
  expects e c -> (Z.to_nat CORE_REQ_BYTES <= length (e_rdata e))%nat /\ (Z.to_nat CORE_REQ_WORDS <= length (e_rv e))%nat.
Proof using Hword Hwords.
  intros He. destruct (req_bytes_8' Hword) as [_ HB].
  destruct (He (CORE_REQ_BYTES - 1)) as (x & rv & H1%lookup_lt_Some & H2%lookup_lt_Some & _); [lia|].
  clear -HB H1 H2 Hwords. unfold CORE_REQ_WORDS. Z.to_euclidean_division_equations. lia.
Qed.

Lemma entry_of_defined t hit c e : req_good region t -> entry_of segs t hit c e -> entry_defined e.
Proof using Hword Hwords.
  intros Hg He. destruct (kinds t) as (K1 & K2 & K3 & K4 & K5).
  assert (compared e = true -> is_load t || is_amo t || is_amo_lr t = true) as Hc.
  { unfold compared. by rewrite (eo_read _ _ _ _ _ He), (eo_amo _ _ _ _ _ He), (eo_lr _ _ _ _ _ He). }
  assert (compared e = true -> is_cmo t = false /\ is_amo_sc t = false) as Hk.
  { intros H%Hc. apply orb_true_iff in H as [H|H]; [apply orb_true_iff in H as [H|H]|]; naive_solver. }
  split.
  - intros H. unfold e_byte. rewrite (eo_addr _ _ _ _ _ He), (eo_bytes _ _ _ _ _ He). by apply (rg_fits _ _ Hg), Hk.
  - intros H. rewrite (eo_error _ _ _ _ _ He). intros Herr. eapply expects_lengths, (eo_expects _ _ _ _ _ He); [by apply Hc|].
    destruct (Hk H) as [_ Hsc]. unfold owed_error in Herr. by rewrite Hsc, andb_true_r in Herr.
  - rewrite (eo_amo _ _ _ _ _ He), (eo_sc _ _ _ _ _ He). intros H.
    destruct (eo_data _ _ _ _ _ He) as [-> ->]; [destruct (is_store t), (is_amo t), (is_amo_sc t); done|].
    by rewrite length_core_words, length_core_bes.
  - rewrite (eo_amo _ _ _ _ _ He), (eo_op _ _ _ _ _ He). intros H x y b. by apply amo_op_defined.
Qed.

Lemma related_defined d s : related segs region d s -> entries_defined s.
Proof using Hword Hwords.
  intros H tid e He. pose proof (rl_flight _ _ _ _ H tid) as Hf. rewrite He in Hf. unfold flight_ok in Hf.
  destruct (dv_owed d !! tid) as [o|]; [|done]. destruct Hf as (_ & [A1 _ (c & A2 & _)]). by eapply entry_of_defined.
Qed.

(** A response that breaks a promise, as far as the core can tell: it answers nothing; or
    its error is wrong, for a request other than a store; or a byte it reads, that the core
    had written when the request was accepted, is wrong; or the status of an SC is. *)
Inductive wrong (d : device) (r : transaction_resp) : Prop :=
  | wrong_unmatched : dv_owed d !! rsp_tid r = None -> wrong d r
  | wrong_error o :
      dv_owed d !! rsp_tid r = Some o -> is_store (ow_req o) = false -> rsp_error r <> ow_error o -> wrong d r
  | wrong_data o k :
      dv_owed d !! rsp_tid r = Some o -> ow_error o = false ->
      is_load (ow_req o) || is_amo (ow_req o) || is_amo_lr (ow_req o) = true ->
      accessed (ow_req o) k -> ow_written o (req_base (ow_req o) + k) = true ->
      byte_of (rsp_rdata r) k <> ow_mem o (req_base (ow_req o) + k) -> wrong d r
  | wrong_status o ok :
      dv_owed d !! rsp_tid r = Some o -> ow_error o = false -> is_amo_sc (ow_req o) = true ->
      dv_uc d = UC_CORE_RSP (ow_req o) ok -> sc_status (ow_req o) r <> (if ok then 0 else 1) -> wrong d r.

(** The scoreboard prints an error, or ends the program with one. *)
Definition reported (ev : sb_event) (s : scoreboard) : Prop :=
  match handle ev s with Done _ s' => sb_log s' <> [] | Exit _ => True | Undef => False end.

Lemma accessed_in_block t k : req_good region t -> is_cmo t = false -> accessed t k -> 0 <= k < CORE_REQ_BYTES.
Proof using Hword Hwords.
  intros Hg Hc. pose proof (rg_fits _ _ Hg Hc). destruct (req_bytes_8' Hword) as [_ HB].
  pose proof (Z.mod_pos_bound (req_addr t) CORE_REQ_BYTES). unfold accessed, req_offset in *. lia.
Qed.

Lemma wrong_rejected d s r o e c :
  related segs region d s -> wrong d r -> dv_owed d !! rsp_tid r = Some o ->
  req_good region (ow_req o) -> ow_error o = owed_error segs (ow_req o) (ow_hit o) -> known c o ->
  entry_of segs (ow_req o) (ow_hit o) c e -> ~ verdict (ow_req o) (ow_hit o) (sc_is_atomic s) c r.
Proof using Hword Hwords.
  intros H Hw Ho Hg Herr Hc He [V1 V2 V3]. destruct (kinds (ow_req o)) as (K1 & K2 & K3 & K4 & K5).
  destruct Hw as [Hn|o' Ho' Hst Hne|o' k Ho' Hf Hk Hacc Hwr Hne|o' ok Ho' Hf Hsc Huc Hne]; [congruence|..];
    assert (o' = o) as -> by congruence; rewrite <-Herr in *.
  - by apply Hne, V1.
  - assert (is_cmo (ow_req o) = false) as Hcmo
      by (apply orb_true_iff in Hk as [Hk|Hk]; [apply orb_true_iff in Hk as [Hk|Hk]|]; naive_solver).
    destruct (Hc Hcmo k) as [C1 C2]; [by apply (accessed_in_block (ow_req o))|]. destruct (C2 Hwr) as [x Hx].
    apply Hne. by rewrite (C1 x Hx), (V2 Hf Hk k Hacc x Hx).
  - destruct (rl_uc _ _ _ _ H (ow_req o)) as (o2 & Ho2 & _ & _ & _ & Hh); [by rewrite Huc|].
    destruct (flight_resp segs region d s r o H Ho) as (_ & _ & _ & Htid & _). rewrite Htid, Ho in Ho2.
    injection Ho2 as <-. rewrite Huc in Hh. specialize (Hh Hsc). apply Hne. rewrite (V3 Hf Hsc).
    destruct (ow_hit o); [by destruct Hh as [-> _]|by rewrite Hh].
Qed.

Lemma wrong_reported d s r : related segs region d s -> wrong d r -> reported (EvCoreResp r) s.
Proof using Hword Hwords Hdiv.
  intros H Hw. pose proof (core_resp_runs Hword Hwords Hdiv r s (related_defined d s H)) as Hr. unfold runs in Hr.
  unfold reported. simpl. destruct (dv_owed d !! rsp_tid r) as [o|] eqn:Ho.
  - destruct (flight_resp segs region d s r o H Ho) as (e & c & Hin & _ & Hg & Herr & He & Hc).
    pose proof (quiet_core_resp r s _ _ _ _ Hin Hg He) as Hq. unfold quiet in Hq.
    destruct (core_resp_process r s); [|done..]. intros Hl. by eapply wrong_rejected, Hq.
  - apply (flight_none segs region d s) in Ho; [|done].
    assert (quiet (core_resp_process r) s (fun _ _ => False)) as Hq.
    { unfold core_resp_process. apply quiet_modify, quiet_get. simpl. rewrite Ho. apply quiet_print. }
    unfold quiet in Hq. by destruct (core_resp_process r s).
Qed.

(** C3: No error of the cache that the core can see is missed. After any run with a device that has kept its promises, a response that answers no request in flight, or whose error flag is wrong (for a request other than a store), or in which a byte that the core had written before the request is not what the memory held when the request was accepted, or with the wrong status of a store-conditional, is reported: the scoreboard prints an error, or ends the program with one, and its check of the response is defined. *)
Theorem no_missed_error m lrsc limit evs d s r :
  lrsc_valid lrsc = false -> dev_run segs region (device_init m) evs d ->
  for_each handle evs (sb_built lrsc segs limit) = Done tt s -> wrong d r -> reported (EvCoreResp r) s.
Proof using All.
  intros Hl Hr Hs Hw. pose proof (run_related Hword Hwords Hdiv Hmem segs region Hinj m lrsc limit evs d Hl Hr) as H.
  rewrite Hs in H. by apply (wrong_reported d s r H).
Qed.
End Alarm.

(** ** Witness: the sum of the atomic addition instead of what the memory held *)
#[local] Existing Instance default_config.

Lemma no_missed_error_witness :
  exists s, for_each (@handle default_config) ex_sent (sb_built ex_lrsc [] 1) = Done tt s
    /\ reported (EvCoreResp (ex_answer 0xff06)) s.
Proof.
  destruct ex_dev_sent as (d & Hr & _ & Ho).
  assert (match for_each handle ex_sent (sb_built ex_lrsc [] 1) with Done _ _ => True | _ => False end) as Hd
    by (vm_compute; exact I).
  destruct (for_each handle ex_sent (sb_built ex_lrsc [] 1)) as [[] s| |] eqn:Hs; [|destruct Hd|destruct Hd].
  exists s. split; [reflexivity|].
  apply (@no_missed_error default_config _ eq_refl ltac:(vm_compute; discriminate) default_div default_mem_div
    [] ex_region ex_region_inj ex_memory ex_lrsc 1 ex_sent d s); [done..|].
  apply (wrong_data d (ex_answer 0xff06) ex_owed 0 Ho); [done|done|vm_compute; split; congruence|done|vm_compute; congruence].
Defined.
