(* ===== verification/QemuPlugin.v ===== *)
(** * The QEMU plugin that records traces ([qemu_plugin.c])

    The plugin's global variables are the fields of [plugin]; each callback is a
    function of them. [exit(1)] is [Exited 1]; the loops around the compressor take
    a fuel and are shown to end. Allocation, [mz_deflateInit] and [mz_deflateEnd]
    are taken to succeed; the trace file takes every byte once it is open. *)
From Stdlib Require Import Ascii String.
From stdpp Require Import strings pretty.
From S2P Require Import Prelude Codec.

Definition SIZE_BUFFER : Z := 5000.
Arguments SIZE_BUFFER : simpl never.

(** [enum mode] *)
Inductive mode_write := WRITE_BINARY | WRITE_ASCII | NO_WRITE.
#[export] Instance mode_write_eq_dec : EqDecision mode_write.
Proof. solve_decision. Defined.

(** [enum qemu_plugin_mem_value_type] *)
Inductive mem_value_type := VALUE_U8 | VALUE_U16 | VALUE_U32 | VALUE_U64 | VALUE_U128.
#[export] Instance mem_value_type_eq_dec : EqDecision mem_value_type.
Proof. solve_decision. Defined.

(** [qemu_plugin_mem_value]: the union is its 64-bit view; the narrower members
    are its low bytes on the little-endian host. *)
Record mem_value := { mv_type : mem_value_type; mv_u64 : Z }.

(** What a memory callback asks of QEMU about its access: the size as a shift, the
    direction, the virtual address, the physical one when there is, the value. *)
Record mem_access := {
  ma_size_shift : Z; ma_is_store : bool; ma_vaddr : Z; ma_phys : option Z; ma_value : mem_value;
}.

Section Plugin.
Context {C : Codec}.

(** The global variables. [p_file] is what was written to [file_descriptor], None
    when the descriptor is not an open file. *)
Record plugin := {
  p_mode : mode_write;
  is_64_bits : bool;
  buffer_compress : list Z;
  buffer_begin : Z;
  need_to_compress : bool;
  write_data : bool;
  p_file : option (list Z);
  p_stream : option dstream;
  current_instruction : Z;
}.

(** The initial values of the globals. *)
Definition plugin_static : plugin :=
  {| p_mode := WRITE_BINARY; is_64_bits := false;
     buffer_compress := replicate (Z.to_nat SIZE_BUFFER) 0; buffer_begin := 0;
     need_to_compress := true; write_data := true; p_file := None; p_stream := None;
     current_instruction := 0 |}.

Definition set_buffer (b : list Z) (n : Z) (s : plugin) : plugin :=
  {| p_mode := p_mode s; is_64_bits := is_64_bits s; buffer_compress := b; buffer_begin := n;
     need_to_compress := need_to_compress s; write_data := write_data s; p_file := p_file s;
     p_stream := p_stream s; current_instruction := current_instruction s |}.
Definition set_output (st : option dstream) (f : option (list Z)) (s : plugin) : plugin :=
  {| p_mode := p_mode s; is_64_bits := is_64_bits s; buffer_compress := buffer_compress s;
     buffer_begin := buffer_begin s; need_to_compress := need_to_compress s;
     write_data := write_data s; p_file := f; p_stream := st;
     current_instruction := current_instruction s |}.
Definition set_current (n : Z) (s : plugin) : plugin :=
  {| p_mode := p_mode s; is_64_bits := is_64_bits s; buffer_compress := buffer_compress s;
     buffer_begin := buffer_begin s; need_to_compress := need_to_compress s;
     write_data := write_data s; p_file := p_file s; p_stream := p_stream s;
     current_instruction := n |}.
Definition set_options (m : mode_write) (comp : bool) (f : option (list Z)) (s : plugin) : plugin :=
  {| p_mode := m; is_64_bits := is_64_bits s; buffer_compress := buffer_compress s;
     buffer_begin := buffer_begin s; need_to_compress := comp;
     write_data := write_data s; p_file := f; p_stream := p_stream s;
     current_instruction := current_instruction s |}.

(** ** The compressor *)

(** The [do ... while (stream->avail_out <= 0)] loop over one chunk. *)
Fixpoint deflate_loop (fuel : nat) (last_call : Z) (input : list Z) (buffer_begin buffer_size : Z)
    (st : dstream) (file : option (list Z)) : exec (dstream * option (list Z)) :=
  match fuel with
  | O => Diverges
  | S fuel =>
      let c := mz_deflate st last_call input (Z.to_nat buffer_size) in
      if call_ret c =? MZ_STREAM_ERROR then Exited 1 else
      let avail_out := buffer_size - Z.of_nat (length (call_out c)) in
      let have := u64 (buffer_begin - avail_out) in
      match file with
      | None => Exited 1
      | Some f =>
          let file := Some (f ++ take (Z.to_nat have) (call_out c)) in
          if avail_out <=? 0 then
            deflate_loop fuel last_call (drop (call_used c) input) buffer_begin buffer_size
              (call_stream c) file
          else Ret (call_stream c, file)
      end
  end.

(** The loop over the chunks of the buffer; [buffer_begin - 1] is computed in [int]
    and compared as a [size_t]. *)
Fixpoint compress_loop (fuel inner : nat) (last_call : Z) (buf : list Z) (begin_ size offset : Z)
    (st : dstream) (file : option (list Z)) : exec (dstream * option (list Z)) :=
  if offset <? u64 (begin_ - 1) then
    match fuel with
    | O => Diverges
    | S fuel =>
        let left := u64 (begin_ - offset) in
        let chunk := if size <=? left then size else left in
        '(st, file) ← deflate_loop inner last_call
                        (take (Z.to_nat chunk) (drop (Z.to_nat offset) buf)) begin_ size st file;
        compress_loop fuel inner last_call buf begin_ size (u64 (offset + chunk)) st file
    end
  else Ret (st, file).

Definition compress_data_to_file (fuel : nat) (last_call : Z) (s : plugin) : exec plugin :=
  let size := u64 (buffer_begin s) in
  let st := default deflateInit (p_stream s) in
  '(st, file) ← compress_loop fuel fuel last_call (buffer_compress s) (buffer_begin s) size 0 st (p_file s);
  Ret (set_output (Some st) file s).

(** ** Writing *)

(** One byte into the buffer, which is compressed when it is full. *)
Definition write_byte (fuel : nat) (b : Z) (s : plugin) : exec plugin :=
  let s := set_buffer (<[Z.to_nat (buffer_begin s) := b]> (buffer_compress s)) (buffer_begin s + 1) s in
  if buffer_begin s =? SIZE_BUFFER then
    s ← compress_data_to_file fuel MZ_NO_FLUSH s;
    Ret (set_buffer (buffer_compress s) 0 s)
  else Ret s.

Fixpoint write_bytes (fuel : nat) (data : list Z) (s : plugin) : exec plugin :=
  match data with
  | [] => Ret s
  | b :: data => s ← write_byte fuel b s; write_bytes fuel data s
  end.

(** [write_buffer(data, size)]. Without compression, [write] returns 0 only for an
    empty [data]; its error -1 is not tested. *)
Definition write_buffer (fuel : nat) (data : list Z) (s : plugin) : exec plugin :=
  if need_to_compress s then write_bytes fuel data s
  else
    match p_file s, data with
    | Some _, [] => Exited 1
    | Some f, _ => Ret (set_output (p_stream s) (Some (f ++ data)) s)
    | None, _ => Ret s
    end.

Definition write_address (fuel : nat) (address : Z) (s : plugin) : exec plugin :=
  write_buffer fuel (le_split (if is_64_bits s then 8 else 4) address) s.

Definition get_size_value (t : mem_value_type) : Z :=
  match t with
  | VALUE_U8 => 0 | VALUE_U16 => 1 | VALUE_U32 => 2 | VALUE_U64 => 3 | VALUE_U128 => 4
  end.

Definition write_type_transaction (fuel : nat) (is_store : bool) (s : plugin) : exec plugin :=
  write_buffer fuel [if is_store then 1 else 0] s.

Definition write_size (fuel : nat) (size_address : Z) (size_value : mem_value_type) (s : plugin) : exec plugin :=
  write_buffer fuel [u8 (Z.lor size_address (Z.shiftl (get_size_value size_value) 4))] s.

Definition write_boolean (fuel : nat) (value : Z) (s : plugin) : exec plugin :=
  write_buffer fuel [value] s.

Definition write_delay (fuel : nat) (delay : Z) (s : plugin) : exec plugin :=
  write_buffer fuel [delay] s.

Definition write_value (fuel : nat) (value : mem_value) (s : plugin) : exec plugin :=
  match mv_type value with
  | VALUE_U8 => write_buffer fuel (le_split 1 (mv_u64 value)) s
  | VALUE_U16 => write_buffer fuel (le_split 2 (mv_u64 value)) s
  | VALUE_U32 => write_buffer fuel (le_split 4 (mv_u64 value)) s
  | VALUE_U64 => write_buffer fuel (le_split 8 (mv_u64 value)) s
  | VALUE_U128 => Ret s
  end.

Definition boolean_value_and_type (is_store : bool) (cacheable : Z) : Z :=
  let v := 2 in
  let v := if is_store then u8 (u8 (Z.lor v (Z.shiftl 1 2)) - 2) else v in
  u8 (Z.lor v cacheable).

Definition write_in_file (fuel : nat) (is_store : bool) (address size time_elapsed : Z)
    (value : mem_value) (cacheable : Z) (s : plugin) : exec plugin :=
  s ← write_delay fuel time_elapsed s;
  s ← write_address fuel address s;
  s ← write_size fuel size (mv_type value) s;
  s ← write_boolean fuel (boolean_value_and_type is_store cacheable) s;
  if is_store then write_value fuel value s else Ret s.

(** ** The callbacks *)

(** The address ranges the plugin records as uncacheable. *)
Definition mmio (a : Z) : bool :=
  ((0x10000000 <=? a) && (a <? 0x10000100)) || ((0x10001000 <=? a) && (a <? 0x10009000))
  || ((0x00100000 <=? a) && (a <? 0x00102000)) || ((0x10100000 <=? a) && (a <? 0x10100018))
  || ((0x02000000 <=? a) && (a <? 0x02010000)) || ((0x0c000000 <=? a) && (a <? 0x0c600000))
  || ((0x20000000 <=? a) && (a <? 0x24000000)) || ((0x30000000 <=? a) && (a <? 0x40000000))
  || ((0x04000000 <=? a) && (a <? 0x06000000)).

(** [PRIx64] *)
Definition hex_digit (d : Z) : ascii :=
  ascii_of_nat (Z.to_nat (if d <? 10 then 48 + d else 87 + d)).
Fixpoint hex_loop (fuel : nat) (x : Z) (acc : string) : string :=
  match fuel with
  | O => acc
  | S fuel =>
      let acc := String (hex_digit (x mod 16)) acc in
      if x / 16 =? 0 then acc else hex_loop fuel (x / 16) acc
  end.
Definition PRIx64 (x : Z) : string := hex_loop 16 x EmptyString.

(** The line of the textual mode, cut to the 74 characters [my_string] holds. *)
Definition ascii_line (n : Z) (is_store : bool) (vcpu vaddr size value : Z) : string :=
  substring 0 74
    (pretty n +:+ " [MEM] " +:+ (if is_store then "store" else "load ") +:+ " vcpu=" +:+ pretty vcpu
     +:+ " addr=0x" +:+ PRIx64 vaddr +:+ " size=" +:+ pretty size +:+ " value=" +:+ pretty value
     +:+ String (ascii_of_nat 10) EmptyString)%string.

Definition chars (l : string) : list Z :=
  (fun c => Z.of_nat (nat_of_ascii c)) <$> list_ascii_of_string l.

Definition access_addr (a : mem_access) : Z := default (ma_vaddr a) (ma_phys a).
Definition access_uncacheable (a : mem_access) : Z :=
  match ma_phys a with Some p => if mmio p then 1 else 0 | None => 0 end.

Definition mem_cb (fuel : nat) (vcpu_index : Z) (a : mem_access) (s : plugin) : exec plugin :=
  if write_data s then
    s ← match p_mode s with
        | WRITE_BINARY =>
            write_in_file fuel (ma_is_store a) (access_addr a) (u8 (ma_size_shift a))
              (u8 (current_instruction s)) (ma_value a) (access_uncacheable a) s
        | WRITE_ASCII =>
            write_buffer fuel (chars (ascii_line (current_instruction s) (ma_is_store a) vcpu_index
              (access_addr a) (ma_size_shift a) (mv_u64 (ma_value a)))) s
        | NO_WRITE => Ret s
        end;
    Ret (set_current 0 s)
  else Ret s.

(** [counter_inst]: the [int] counter, whose overflow is undefined. *)
Definition counter_inst (s : plugin) : exec plugin :=
  if current_instruction s =? 2 ^ 31 - 1 then Fault
  else Ret (set_current (current_instruction s + 1) s).

(** [tb_trans_cb]: the callbacks registered on the [n] instructions of a block. *)
Inductive registration := On_mem (insn : nat) | On_exec (insn : nat).
Definition tb_trans_cb (n : nat) : list registration :=
  flat_map (fun i => [On_mem i; On_exec i]) (seq 0 n).

Definition plugin_exit (fuel : nat) (s : plugin) : exec plugin :=
  if need_to_compress s then compress_data_to_file fuel MZ_FINISH s else Ret s.

(** ** Installation *)

(** [set_mode(arg)], on the characters of its argument. *)
Definition set_mode (arg : string) : exec mode_write :=
  match arg with
  | String c rest =>
      m ← (if decide (c = "0"%char) then Ret WRITE_BINARY
           else if decide (c = "1"%char) then Ret WRITE_ASCII
           else if decide (c = "2"%char) then Ret NO_WRITE
           else Exited 1);
      match rest with EmptyString => Ret m | _ => Exited 1 end
  | EmptyString => Exited 1
  end.

(** One option, split at its first [=]; the value is a null pointer without one.
    [can_open] answers whether [open] creates the file. *)
Definition install_option (can_open : string -> bool) (opt : string * option string) (s : plugin)
    : exec (bool * plugin) :=
  let '(key, value) := opt in
  if String.eqb key "mode" then
    v ← fault_if_none value;
    m ← set_mode v;
    Ret (true, set_options m (need_to_compress s) (p_file s) s)
  else if String.eqb key "ofile" then
    v ← fault_if_none value;
    Ret (true, set_options (p_mode s) (need_to_compress s) (if can_open v then Some [] else None) s)
  else if String.eqb key "compress" then
    v ← fault_if_none value;
    Ret (true, set_options (p_mode s) (String.eqb v "true") (p_file s) s)
  else Ret (false, s).

Fixpoint install_options (can_open : string -> bool) (opts : list (string * option string)) (s : plugin)
    : exec (bool * plugin) :=
  match opts with
  | [] => Ret (true, s)
  | o :: opts =>
      '(parsed, s) ← install_option can_open o s;
      if parsed : bool then install_options can_open opts s else Ret (false, s)
  end.

Definition qemu_plugin_install (can_open : string -> bool) (target_name : string)
    (opts : list (string * option string)) (s : plugin) : exec (Z * plugin) :=
  if negb (length opts =? 3)%nat then Ret (-1, s) else
  '(parsed, s) ← install_options can_open opts s;
  if parsed : bool then
    Ret (0, {| p_mode := p_mode s; is_64_bits := String.eqb target_name "riscv64";
               buffer_compress := buffer_compress s; buffer_begin := 0;
               need_to_compress := need_to_compress s; write_data := write_data s;
               p_file := p_file s; p_stream := p_stream s;
               current_instruction := current_instruction s |})
  else Ret (-1, s).

(** ** A run of QEMU

    The callbacks in the order QEMU calls them: an instruction, or a memory access. *)
Inductive qemu_event := Insn | Access (vcpu : Z) (a : mem_access).

Definition plugin_event (fuel : nat) (e : qemu_event) (s : plugin) : exec plugin :=
  match e with Insn => counter_inst s | Access v a => mem_cb fuel v a s end.
Fixpoint plugin_run (fuel : nat) (es : list qemu_event) (s : plugin) : exec plugin :=
  match es with [] => Ret s | e :: es => s ← plugin_event fuel e s; plugin_run fuel es s end.

(** ** The records of a trace *)
Record trace_record := {
  tr_delay : Z; tr_addr : Z; tr_size : Z; tr_store : bool; tr_uncacheable : Z; tr_value : mem_value;
}.

Definition value_bytes (v : mem_value) : list Z :=
  le_split (match mv_type v with
            | VALUE_U8 => 1 | VALUE_U16 => 2 | VALUE_U32 => 4 | VALUE_U64 => 8 | VALUE_U128 => 0 end)
    (mv_u64 v).

(** The bytes of a record, as the code lays them out, with the address on
    [addr_bytes] bytes. *)
Definition encode (addr_bytes : nat) (r : trace_record) : list Z :=
  [tr_delay r] ++ le_split addr_bytes (tr_addr r)
  ++ [u8 (Z.lor (tr_size r) (Z.shiftl (get_size_value (mv_type (tr_value r))) 4))]
  ++ [boolean_value_and_type (tr_store r) (tr_uncacheable r)]
  ++ (if tr_store r then value_bytes (tr_value r) else []).

(** The record of an access [n] instructions after the previous one. *)
Definition record_of (n : Z) (a : mem_access) : trace_record :=
  {| tr_delay := u8 n; tr_addr := access_addr a; tr_size := u8 (ma_size_shift a);
     tr_store := ma_is_store a; tr_uncacheable := access_uncacheable a; tr_value := ma_value a |}.

Fixpoint records_of (n : Z) (es : list qemu_event) : list trace_record :=
  match es with
  | [] => []
  | Insn :: es => records_of (n + 1) es
  | Access _ a :: es => record_of n a :: records_of 0 es
  end.

(** ** What the buffer and the stream hold *)
Section Laws.
Context {L : CodecLaws C}.

(** [bytes] were written since the start: a part went through the stream into the
    file, the rest waits in the buffer. *)
Definition plugin_inv (bytes : list Z) (s : plugin) : Prop :=
  need_to_compress s = true /\ length (buffer_compress s) = Z.to_nat SIZE_BUFFER
  /\ 0 <= buffer_begin s < SIZE_BUFFER
  /\ exists fed f, p_file s = Some f
     /\ deflated (default deflateInit (p_stream s)) fed f Open
     /\ bytes = fed ++ take (Z.to_nat (buffer_begin s)) (buffer_compress s)
     /\ (SIZE_BUFFER | Z.of_nat (length fed)).

(** The settings a write leaves alone. *)
Definition same_settings (s s' : plugin) : Prop :=
  p_mode s' = p_mode s /\ is_64_bits s' = is_64_bits s /\ write_data s' = write_data s
  /\ current_instruction s' = current_instruction s.

(** The [do ... while] loop takes the whole chunk, and ends the stream with it on
    the last call. *)
Lemma deflate_loop_spec last_call room : (0 < room)%nat -> Z.of_nat room < 2 ^ 64 ->
  forall input st i o ph,
  deflated st i o ph -> legal ph last_call input ->
  eventually (fun fuel => deflate_loop fuel last_call input (Z.of_nat room) (Z.of_nat room) st (Some o))
    (fun r => exists o', r.2 = Some o'
       /\ deflated r.1 (i ++ input) o' (if decide (last_call = MZ_FINISH) then Ended else Open)).
Proof.
  intros Hroom Hmax input st. remember (deflate_todo st last_call input) as k eqn:Hk.
  revert input st Hk. induction (lt_wf k) as [k _ IH]. intros input st -> i o ph Hd Hl.
  destruct (deflate_step st last_call input room i o ph ltac:(lia) Hd Hl)
    as (Hret & Hused & Hout & ph' & Hd' & Hph & Htodo).
  assert (forall fuel, deflate_loop (S fuel) last_call input (Z.of_nat room) (Z.of_nat room) st (Some o) =
    let c := mz_deflate st last_call input room in
    if (Z.of_nat room - Z.of_nat (length (call_out c)) <=? 0) then
      deflate_loop fuel last_call (drop (call_used c) input) (Z.of_nat room) (Z.of_nat room) (call_stream c)
        (Some (o ++ call_out c))
    else Ret (call_stream c, Some (o ++ call_out c))) as Heq.
  { intros fuel. cbn [deflate_loop]. rewrite Nat2Z.id.
    set (c := mz_deflate _ _ _ _) in *. cbv zeta.
    rewrite (proj2 (Z.eqb_neq _ _) Hret). rewrite (wrap_small 64) by (unfold is_word; lia).
    rewrite take_ge by lia. done. }
  set (c := mz_deflate st last_call input room) in *. cbv zeta in Heq.
  destruct (decide (length (call_out c) = room)) as [Hfull|Hnot].
  - apply (eventually_S _ _ _ Heq). rewrite (proj2 (Z.leb_le _ 0)) by lia.
    destruct (decide (ph' = Ended)) as [->|Hne].
    + destruct Hph as [-> Hall]. rewrite Hall, drop_all, take_ge in * by lia.
      apply (eventually_S _ (fun _ => Ret (call_stream c, Some ((o ++ call_out c) ++ [])))).
      * intros fuel. cbn [deflate_loop]. rewrite Nat2Z.id.
        rewrite (deflate_ended _ _ _ room ltac:(lia) Hd'). cbv zeta. simpl.
        rewrite Z.sub_0_r, take_nil, (proj2 (Z.leb_gt _ 0)) by lia. done.
      * eapply eventually_ret; [done|]. simpl. rewrite app_nil_r. eauto.
    + eapply eventually_mono.
      * apply (IH _ (Htodo Hfull Hne) _ _ eq_refl _ _ ph' Hd').
        destruct ph'; simpl in *; [tauto| |done]. destruct Hph as (-> & -> & _). done.
      * intros r (o' & Hr & Ho'). exists o'. by rewrite <-app_assoc, take_drop in Ho'.
  - apply (eventually_S _ _ _ Heq). rewrite (proj2 (Z.leb_gt _ 0)) by lia.
    eapply eventually_ret; [done|]. simpl. eexists. split; [done|].
    destruct ph'; simpl in Hph.
    + destruct Hph as [-> Hall]. rewrite decide_False by done.
      by rewrite Hall, take_ge in Hd' by lia.
    + lia.
    + destruct Hph as [-> Hall]. rewrite decide_True by done.
      by rewrite Hall, take_ge in Hd' by lia.
Qed.

(** A call on a buffer of at least two bytes hands all of it to the stream. *)
Lemma compress_spec last_call s fed f :
  last_call = MZ_NO_FLUSH \/ last_call = MZ_FINISH ->
  p_file s = Some f -> deflated (default deflateInit (p_stream s)) fed f Open ->
  2 <= buffer_begin s <= SIZE_BUFFER -> length (buffer_compress s) = Z.to_nat SIZE_BUFFER ->
  eventually (fun fuel => compress_data_to_file fuel last_call s)
    (fun s' => exists st f', s' = set_output (Some st) (Some f') s
       /\ deflated st (fed ++ take (Z.to_nat (buffer_begin s)) (buffer_compress s)) f'
            (if decide (last_call = MZ_FINISH) then Ended else Open)).
Proof.
  intros Hlast Hf Hd Hb Hlen. unfold SIZE_BUFFER in *. unfold compress_data_to_file.
  rewrite (wrap_small 64 (buffer_begin s)) by (unfold is_word; lia). cbv zeta.
  destruct (deflate_loop_spec last_call (Z.to_nat (buffer_begin s)) ltac:(lia) ltac:(lia)
              (take (Z.to_nat (buffer_begin s)) (buffer_compress s)) _ _ _ Open Hd Hlast)
    as (n & [st o'] & Hn & o'' & Ho & Hd').
  simpl in Ho, Hd'. subst o'. rewrite Z2Nat.id in Hn by lia.
  exists (max 1 n), (set_output (Some st) (Some o'') s). split; [|eauto].
  intros [|fuel] Hle; [lia|]. cbn [compress_loop].
  rewrite (wrap_small 64 (buffer_begin s - 1)) by (unfold is_word; lia).
  rewrite (proj2 (Z.ltb_lt 0 _)) by lia.
  rewrite Z.sub_0_r, (wrap_small 64 (buffer_begin s)) by (unfold is_word; lia).
  rewrite Z.leb_refl. change (Z.to_nat 0) with O. rewrite drop_0, Hf, Hn, exec_bind_ret by lia.
  rewrite Z.add_0_l, (wrap_small 64 (buffer_begin s)) by (unfold is_word; lia).
  assert (forall k, compress_loop k (S fuel) last_call (buffer_compress s) (buffer_begin s)
            (buffer_begin s) (buffer_begin s) st (Some o'') = Ret (st, Some o'')) as ->; [|done].
  intros k. destruct k; cbn [compress_loop];
    rewrite (wrap_small 64 (buffer_begin s - 1)), (proj2 (Z.ltb_ge _ _)) by (unfold is_word; lia); done.
Qed.

(** Writing a list of bytes, then more: the property the writers compose by. *)
Definition writes (m : nat -> plugin -> exec plugin) (data : list Z) (s0 : plugin) : Prop :=
  forall bytes s, plugin_inv bytes s -> same_settings s0 s ->
  eventually (fun fuel => m fuel s) (fun s' => plugin_inv (bytes ++ data) s' /\ same_settings s0 s').

Lemma write_byte_writes b s0 : writes (fun fuel => write_byte fuel b) [b] s0.
Proof.
  intros bytes s (Hc & Hlen & Hb & fed & f & Hf & Hd & -> & Hdiv) Hs. unfold SIZE_BUFFER in *.
  unfold write_byte. cbv zeta. simpl buffer_begin.
  assert (take (Z.to_nat (buffer_begin s + 1)) (<[Z.to_nat (buffer_begin s) := b]> (buffer_compress s))
          = take (Z.to_nat (buffer_begin s)) (buffer_compress s) ++ [b]) as Htake.
  { replace (Z.to_nat (buffer_begin s + 1)) with (S (Z.to_nat (buffer_begin s))) by lia.
    erewrite take_S_r by (apply list_lookup_insert_eq; lia). by rewrite take_insert_ge by lia. }
  destruct (Z.eqb_spec (buffer_begin s + 1) SIZE_BUFFER) as [He|He].
  - set (s1 := set_buffer _ _ s). unfold SIZE_BUFFER in *.
    assert (eventually (fun fuel => compress_data_to_file fuel MZ_NO_FLUSH s1)
      (fun s' => exists st f', s' = set_output (Some st) (Some f') s1
         /\ deflated st (fed ++ take (Z.to_nat (buffer_begin s1)) (buffer_compress s1)) f' Open)) as Hw.
    { apply (compress_spec MZ_NO_FLUSH s1 fed f);
        [by left|done|done|simpl; unfold SIZE_BUFFER; lia|simpl; by rewrite length_insert]. }
    eapply (eventually_bind _ (fun _ s => Ret (set_buffer (buffer_compress s) 0 s))); [exact Hw|].
    intros s' (st & f' & -> & Hd'). eapply eventually_ret; [done|]. split; [|by destruct Hs as (?&?&?&?)].
    split; [done|]. split; [simpl; by rewrite length_insert|]. split; [simpl; unfold SIZE_BUFFER; lia|].
    eexists _, f'. split; [done|]. split; [exact Hd'|]. simpl. rewrite Htake, app_nil_r, app_assoc.
    split; [done|]. rewrite !length_app, length_take. unfold SIZE_BUFFER. simpl length.
    destruct Hdiv as [k Hk]. exists (k + 1). lia.
  - unfold SIZE_BUFFER in *. eapply eventually_ret; [done|]. split; [|by destruct Hs as (?&?&?&?)].
    split; [done|]. split; [simpl; by rewrite length_insert|].
    split; [simpl; unfold SIZE_BUFFER; lia|].
    exists fed, f. split; [done|]. split; [done|]. simpl. rewrite Htake. by rewrite app_assoc.
Qed.

Lemma writes_nil s0 : writes (fun _ s => Ret s) [] s0.
Proof. intros bytes s Hi Hs. apply (eventually_ret _ s); [done|]. by rewrite app_nil_r. Qed.

Lemma writes_seq m m' data data' s0 :
  writes m data s0 -> writes m' data' s0 ->
  writes (fun fuel s => m fuel s ≫= m' fuel) (data ++ data') s0.
Proof.
  intros Hm Hm' bytes s Hi Hs. eapply eventually_bind; [by apply Hm|].
  intros s' [Hi' Hs']. rewrite app_assoc. by apply Hm'.
Qed.

Lemma write_bytes_writes data s0 : writes (fun fuel => write_bytes fuel data) data s0.
Proof.
  induction data as [|b data IH]; [apply writes_nil|].
  apply (writes_seq _ _ [b] data); [apply write_byte_writes|done].
Qed.

Lemma write_buffer_writes data s0 : writes (fun fuel => write_buffer fuel data) data s0.
Proof.
  intros bytes s Hi Hs. assert (need_to_compress s = true) as Hc by apply Hi.
  unfold write_buffer. rewrite Hc. by apply write_bytes_writes.
Qed.

Lemma write_address_writes address s0 :
  writes (fun fuel => write_address fuel address)
    (le_split (if is_64_bits s0 then 8 else 4) address) s0.
Proof.
  intros bytes s Hi Hs. unfold write_address. destruct Hs as (?&H64&?&?) eqn:E. rewrite H64.
  by apply write_buffer_writes.
Qed.

Lemma write_value_writes v s0 : writes (fun fuel => write_value fuel v) (value_bytes v) s0.
Proof.
  intros bytes s. unfold write_value, value_bytes.
  destruct (mv_type v); first [apply write_buffer_writes | apply writes_nil].
Qed.

(** A record is written whole, whatever the fill of the buffer. *)
Lemma write_in_file_writes r s0 :
  writes (fun fuel => write_in_file fuel (tr_store r) (tr_addr r) (tr_size r) (tr_delay r)
                        (tr_value r) (tr_uncacheable r))
    (encode (if is_64_bits s0 then 8 else 4) r) s0.
Proof.
  unfold write_in_file, encode.
  apply (writes_seq _ _ [_]); [apply write_buffer_writes|].
  apply writes_seq; [apply write_address_writes|].
  apply (writes_seq _ _ [_]); [apply write_buffer_writes|].
  apply (writes_seq _ _ [_]); [apply write_buffer_writes|].
  destruct (tr_store r); [apply write_value_writes|apply writes_nil].
Qed.

Definition trace_bytes (addr_bytes : nat) (n : Z) (es : list qemu_event) : list Z :=
  concat (encode addr_bytes <$> records_of n es).

(** A run in binary mode writes the records of its accesses, and nothing else. *)
Lemma plugin_run_writes es : forall bytes s,
  plugin_inv bytes s -> p_mode s = WRITE_BINARY -> write_data s = true ->
  0 <= current_instruction s -> current_instruction s + Z.of_nat (length es) < 2 ^ 31 ->
  eventually (fun fuel => plugin_run fuel es s)
    (plugin_inv (bytes ++ trace_bytes (if is_64_bits s then 8 else 4) (current_instruction s) es)).
Proof.
  induction es as [|[|v a] es IH]; intros bytes s Hi Hm Hw Hc Hlen; simpl in Hlen.
  - apply (eventually_ret _ s); [done|]. unfold trace_bytes. simpl. by rewrite app_nil_r.
  - eapply (eventually_bind _ (fun fuel => plugin_run fuel es)).
    + apply (eventually_ret _ (set_current (current_instruction s + 1) s)
               (fun s' => s' = set_current (current_instruction s + 1) s)); [|done].
      intros fuel. simpl. unfold counter_inst. by rewrite (proj2 (Z.eqb_neq _ _)) by lia.
    + intros s' ->. apply (IH bytes (set_current (current_instruction s + 1) s));
        [exact Hi|done|done|simpl; lia|simpl; lia].
  - eapply (eventually_bind _ (fun fuel => plugin_run fuel es)
              (fun s' => plugin_inv (bytes ++ encode (if is_64_bits s then 8 else 4)
                                       (record_of (current_instruction s) a)) s'
                         /\ p_mode s' = p_mode s /\ is_64_bits s' = is_64_bits s
                         /\ write_data s' = write_data s /\ current_instruction s' = 0)).
    + simpl plugin_event. unfold mem_cb. rewrite Hw, Hm.
      eapply (eventually_bind _ (fun _ s => Ret (set_current 0 s))).
      * apply (write_in_file_writes (record_of (current_instruction s) a) s); [done|by repeat split].
      * intros s' (Hi' & ? & ? & ? & ?). eapply eventually_ret; [done|].
        split; [exact Hi'|]. simpl. split_and!; congruence.
    + intros s' (Hi' & Hm' & H64 & Hw' & Hc').
      eapply eventually_mono; [apply IH; [exact Hi'|congruence|congruence|lia|lia]|].
      intros s''. rewrite H64, Hc', <-app_assoc. done.
Qed.

Lemma plugin_inv_fill bytes s :
  plugin_inv bytes s -> Z.of_nat (length bytes) mod SIZE_BUFFER = buffer_begin s.
Proof.
  intros (_ & Hlen & Hb & fed & f & _ & _ & -> & k & Hk). unfold SIZE_BUFFER in *.
  rewrite length_app, length_take, Nat2Z.inj_add, Hk.
  rewrite Z.add_comm, Z.mod_add, Z.mod_small by lia. lia.
Qed.

(** The three endings of [plugin_exit]. *)
Lemma plugin_exit_complete bytes s :
  plugin_inv bytes s -> 2 <= buffer_begin s ->
  eventually (fun fuel => plugin_exit fuel s)
    (fun s' => exists st f, p_file s' = Some f /\ deflated st bytes f Ended).
Proof.
  intros (Hc & Hlen & Hb & fed & f & Hf & Hd & -> & _) H2. unfold plugin_exit. rewrite Hc.
  eapply eventually_mono; [apply (compress_spec MZ_FINISH s fed f); auto; lia|].
  intros s' (st & f' & -> & Hd'). exists st, f'. done.
Qed.

Lemma plugin_exit_one bytes s fuel :
  plugin_inv bytes s -> buffer_begin s = 1 ->
  exists s' f, plugin_exit fuel s = Ret s' /\ p_file s' = Some f
    /\ deflated (default deflateInit (p_stream s')) (take (length bytes - 1) bytes) f Open.
Proof.
  intros (Hc & Hlen & Hb & fed & f & Hf & Hd & -> & _) H1. unfold plugin_exit. rewrite Hc.
  unfold compress_data_to_file. rewrite H1.
  assert (forall k st file, compress_loop k fuel MZ_FINISH (buffer_compress s) 1 (u64 1) 0 st file
    = Ret (st, file)) as -> by by intros [|k].
  simpl. do 2 eexists. split; [done|]. split; [exact Hf|]. simpl. unfold SIZE_BUFFER in *.
  rewrite length_app, length_take, take_app_length' by lia. done.
Qed.

Lemma plugin_exit_empty bytes s fuel :
  plugin_inv bytes s -> buffer_begin s = 0 -> plugin_exit fuel s = Diverges.
Proof.
  intros (Hc & Hlen & Hb & fed & f & Hf & Hd & -> & _) H0. unfold plugin_exit. rewrite Hc.
  unfold compress_data_to_file. rewrite H0, Hf. destruct fuel as [|fuel]; [done|].
  assert (forall k st f, deflate_loop k MZ_FINISH [] 0 0 st (Some f) = Diverges) as Hdiv.
  { induction k as [|k IH]; intros st f'; [done|]. cbn [deflate_loop].
    change (Z.to_nat 0) with O. rewrite deflate_no_room. apply IH. }
  cbn [compress_loop]. change (0 <? u64 (0 - 1)) with true. cbv iota zeta.
  change (u64 0 <=? u64 (0 - 0)) with true. cbv iota. change (u64 0) with 0.
  change (Z.to_nat 0) with O. by rewrite take_0, Hdiv.
Qed.
End Laws.
End Plugin.
