(* ===== verification/Trace.v ===== *)
(** * Trace files ([hpdcache_test_trace_manager.h])

    The reader of the compressed traces the QEMU plugin records, over the interface
    of the inflater, and the debug writer. The reader's buffer is the list of the
    bytes stored in it since the last refill started; a read past them is [Fault]. *)
From S2P Require Import Prelude Defs Transaction Codec.

Definition MAX_SIZE_BUFFER : Z := 5000000.
Arguments MAX_SIZE_BUFFER : simpl never.

Section Trace.
Context {cfg : HpdConfig} {C : Codec}.

(** ** [trace_reader] *)

(** [stream]: null, initialised, or freed at the end of the trace (the pointer is
    not reset). *)
Inductive reader_stream := Null | Inflating (st : istream) | Freed.

(** [rd_trace] is what is left of the file behind [trace_descriptor]. *)
Record trace_reader := {
  bool_finish : bool; rd_stream : reader_stream; rd_trace : list Z;
  rd_buf : list Z; end_buffer : Z; read_buffer : Z;
}.

(** The constructor on an open trace, with [init_buf]. *)
Definition mk_reader (trace : list Z) : trace_reader :=
  {| bool_finish := false; rd_stream := Null; rd_trace := trace; rd_buf := [];
     end_buffer := MAX_SIZE_BUFFER; read_buffer := MAX_SIZE_BUFFER |}.

(** [memcpy(&(buf[end_buffer]), out, have)] in an array of [20 * MAX_SIZE_BUFFER]. *)
Definition store_buf (buf : list Z) (end_ : Z) (out : list Z) : exec (list Z) :=
  if end_ + Z.of_nat (length out) <=? MAX_SIZE_BUFFER * 20 then
    Ret (take (Z.to_nat end_) buf ++ out ++ drop (Z.to_nat end_ + length out) buf)
  else Fault.

(** The [do ... while (stream->avail_in > 0)] loop: the last code, the stream, the
    buffer and [end_buffer]. *)
Fixpoint inflate_loop (fuel : nat) (input : list Z) (st : istream) (buf : list Z) (end_ : Z)
    : exec (Z * istream * list Z * Z) :=
  match fuel with
  | O => Diverges
  | S fuel =>
      let r := mz_inflate st MZ_SYNC_FLUSH input (Z.to_nat MAX_SIZE_BUFFER) in
      if call_ret r =? MZ_STREAM_ERROR then Exited 1 else
      let have := Z.of_nat (length (call_out r)) in
      buf ← (if 0 <? have then store_buf buf end_ (call_out r) else Ret buf);
      let end_ := end_ + have in
      let input := drop (call_used r) input in
      match input with
      | [] => Ret (call_ret r, call_stream r, buf, end_)
      | _ => inflate_loop fuel input (call_stream r) buf end_
      end
  end.

Definition decompress_data_from_trace (fuel : nat) (s : trace_reader) : exec trace_reader :=
  st ← match rd_stream s with
       | Null => Ret inflateInit | Inflating st => Ret st | Freed => Fault
       end;
  let input := take (Z.to_nat MAX_SIZE_BUFFER) (rd_trace s) in
  '(ret, st, buf, end_) ← inflate_loop fuel input st (rd_buf s) (end_buffer s);
  let finish := ret =? MZ_STREAM_END in
  Ret {| bool_finish := finish; rd_stream := if finish then Freed else Inflating st;
         rd_trace := drop (Z.to_nat MAX_SIZE_BUFFER) (rd_trace s);
         rd_buf := buf; end_buffer := end_; read_buffer := read_buffer s |}.

Definition rewind (s : trace_reader) : trace_reader :=
  {| bool_finish := bool_finish s; rd_stream := rd_stream s; rd_trace := rd_trace s;
     rd_buf := rd_buf s; end_buffer := 0; read_buffer := 0 |}.
Definition advance (s : trace_reader) : trace_reader :=
  {| bool_finish := bool_finish s; rd_stream := rd_stream s; rd_trace := rd_trace s;
     rd_buf := rd_buf s; end_buffer := end_buffer s; read_buffer := read_buffer s + 1 |}.

(** [get_content_of_trace(ptr, size)]: the bytes it stores at [ptr]. *)
Fixpoint get_content_of_trace (fuel size : nat) (s : trace_reader) : exec (list Z * trace_reader) :=
  match size with
  | O => Ret ([], s)
  | S size =>
      s ← (if read_buffer s =? end_buffer s then decompress_data_from_trace fuel (rewind s) else Ret s);
      b ← fault_if_none (rd_buf s !! Z.to_nat (read_buffer s));
      '(l, s) ← get_content_of_trace fuel size (advance s);
      Ret (b :: l, s)
  end.

Definition is_finish (s : trace_reader) : bool :=
  (end_buffer s <=? read_buffer s) && bool_finish s.

Definition read_int (fuel size : nat) (s : trace_reader) : exec (Z * trace_reader) :=
  '(l, s) ← get_content_of_trace fuel size s; Ret (le_combine l, s).

Definition read_address (fuel : nat) (s : trace_reader) : exec (Z * trace_reader) := read_int fuel 8 s.

(** Reading an [unsigned] at the address of a [char] finds the character in its low
    byte and whatever follows it, [junk], in the others. *)
Definition widen (junk c : Z) : Z := Z.lor (u8 c) (Z.shiftl (wrap 24 junk) 8).

Definition read_type_transaction (fuel : nat) (junk : Z) (s : trace_reader) : exec (Z * trace_reader) :=
  '(b, s) ← read_int fuel 1 s; Ret (widen junk b, s).

(** The two nibbles, through a signed [char]: the value and [*size_value]. *)
Definition read_size (fuel : nat) (junk : Z) (s : trace_reader) : exec (Z * Z * trace_reader) :=
  '(b, s) ← read_int fuel 1 s;
  let result := to_signed 8 b in
  let size_value := u8 (Z.shiftr result 4) in
  let result := to_signed 8 (Z.shiftl result 4) in
  let result := Z.shiftr result 4 in
  Ret (widen junk result, size_value, s).

Definition get_bit (to_read position : Z) : bool :=
  let to_read := to_signed 8 (Z.shiftl (to_signed 8 to_read) (8 - position)) in
  let to_read := Z.shiftr to_read 7 in
  negb (Z.land to_read 1 =? 0).

(** Assignments to the members of the transaction, cut to their widths. *)
Definition set_req_addr (a : Z) (t : transaction_req) : transaction_req :=
  {| req_id := req_id t; req_addr := wrap HPDCACHE_PA_WIDTH a; req_wdata := req_wdata t;
     req_op := req_op t; req_be := req_be t; req_size := req_size t; req_sid := req_sid t;
     req_tid := req_tid t; req_need_rsp := req_need_rsp t; req_phys_indexed := req_phys_indexed t;
     req_uncacheable := req_uncacheable t; req_io := req_io t;
     req_wr_policy_hint := req_wr_policy_hint t; req_abort := req_abort t; req_fault := req_fault t |}.
Definition set_req_size (v : Z) (t : transaction_req) : transaction_req :=
  {| req_id := req_id t; req_addr := req_addr t; req_wdata := req_wdata t;
     req_op := req_op t; req_be := req_be t; req_size := wrap HPDCACHE_REQ_SIZE_WIDTH v;
     req_sid := req_sid t; req_tid := req_tid t; req_need_rsp := req_need_rsp t;
     req_phys_indexed := req_phys_indexed t; req_uncacheable := req_uncacheable t; req_io := req_io t;
     req_wr_policy_hint := req_wr_policy_hint t; req_abort := req_abort t; req_fault := req_fault t |}.
Definition set_req_wdata (v : Z) (t : transaction_req) : transaction_req :=
  {| req_id := req_id t; req_addr := req_addr t; req_wdata := wrap HPDCACHE_REQ_DATA_WIDTH v;
     req_op := req_op t; req_be := req_be t; req_size := req_size t; req_sid := req_sid t;
     req_tid := req_tid t; req_need_rsp := req_need_rsp t; req_phys_indexed := req_phys_indexed t;
     req_uncacheable := req_uncacheable t; req_io := req_io t;
     req_wr_policy_hint := req_wr_policy_hint t; req_abort := req_abort t; req_fault := req_fault t |}.
Definition set_booleans (op : Z) (need_rsp uncacheable : bool) (t : transaction_req) : transaction_req :=
  {| req_id := req_id t; req_addr := req_addr t; req_wdata := req_wdata t;
     req_op := wrap HPDCACHE_REQ_OP_WIDTH op; req_be := req_be t; req_size := req_size t;
     req_sid := req_sid t; req_tid := req_tid t; req_need_rsp := need_rsp; req_phys_indexed := true;
     req_uncacheable := uncacheable; req_io := uncacheable;
     req_wr_policy_hint := req_wr_policy_hint t; req_abort := false; req_fault := req_fault t |}.

Definition read_boolean_and_type (fuel : nat) (t : transaction_req) (s : trace_reader)
    : exec (transaction_req * trace_reader) :=
  '(tmp, s) ← read_int fuel 1 s;
  Ret (set_booleans (Z.shiftr tmp 2) (get_bit tmp 2) (get_bit tmp 1) t, s).

(** [read_value]: the number of bytes read for each size code; none for others. *)
Definition read_value (fuel : nat) (t : transaction_req) (size_value_store : Z) (s : trace_reader)
    : exec (transaction_req * trace_reader) :=
  let read_n n := '(v, s) ← read_int fuel n s; Ret (set_req_wdata v t, s) in
  if size_value_store =? 0 then read_n 1%nat
  else if size_value_store =? 1 then read_n 2%nat
  else if size_value_store =? 2 then read_n 4%nat
  else if size_value_store =? 3 then read_n 8%nat
  else if size_value_store =? 4 then read_n 8%nat
  else Ret (t, s).

Definition read_delay (fuel : nat) (s : trace_reader) : exec (Z * trace_reader) := read_int fuel 1 s.

(** [read_transaction(transaction)]: the delay and the transaction filled in. *)
Definition read_transaction (fuel : nat) (junk : Z) (t : transaction_req) (s : trace_reader)
    : exec (Z * transaction_req * trace_reader) :=
  '(delay, s) ← read_delay fuel s;
  '(addr, s) ← read_address fuel s;
  let t := set_req_addr addr t in
  '(size, size_value, s) ← read_size fuel junk s;
  let t := set_req_size size t in
  '(t, s) ← read_boolean_and_type fuel t s;
  '(t, s) ← (if req_op t =? req_op_value HPDCACHE_REQ_STORE then read_value fuel t size_value s
             else Ret (t, s));
  Ret (delay, t, s).

(** Reading one transaction after the other, each into an object of its own. *)
Fixpoint read_transactions (fuel : nat) (junk : Z) (ts : list transaction_req) (s : trace_reader)
    : exec (list (Z * transaction_req) * trace_reader) :=
  match ts with
  | [] => Ret ([], s)
  | t :: ts =>
      '(delay, t, s) ← read_transaction fuel junk t s;
      '(l, s) ← read_transactions fuel junk ts s;
      Ret ((delay, t) :: l, s)
  end.

(** [get_address], on the little-endian host; [size] is shifted in an [uint8_t]. *)
Definition get_address (size address_on_real_computer : Z) : exec Z :=
  let size := u8 (Z.shiftl size 2) in
  if HPDCACHE_REQ_DATA_WIDTH <? size then Exited 1
  else Ret (u64 (address_on_real_computer + HPDCACHE_REQ_DATA_WIDTH - size)).

(** ** [trace_writer] *)
Definition construct_bool_in_one_byte (to_add : bool) (result : Z) : Z :=
  let result := u32 (Z.shiftl result 1) in
  if to_add then Z.lor result 1 else result.

Definition tw_address (t : transaction_req) : list Z := le_split 8 (req_addr t).
Definition tw_type_transaction (t : transaction_req) : list Z := le_split 1 (req_op t).
Definition tw_size (t : transaction_req) : list Z := le_split 1 (req_size t).
Definition tw_boolean (t : transaction_req) : list Z :=
  let v := 0 in
  let v := construct_bool_in_one_byte (req_need_rsp t) v in
  let v := construct_bool_in_one_byte (req_phys_indexed t) v in
  let v := construct_bool_in_one_byte (req_uncacheable t) v in
  let v := construct_bool_in_one_byte (req_io t) v in
  let v := construct_bool_in_one_byte (req_abort t) v in
  le_split 1 v.
Definition tw_delay (delay : Z) : list Z := le_split 4 delay.

(** [write_in_trace(t, delay)]: the bytes appended to the file. *)
Definition write_in_trace (t : transaction_req) (delay : Z) : list Z :=
  tw_delay delay ++ tw_address t ++ tw_type_transaction t ++ tw_size t ++ tw_boolean t.

(** ** Reading a complete trace

    [i] was deflated into the file [o], which one [read] takes whole and whose
    contents fit the buffer. *)
Section Reading.
Context {L : CodecLaws C} (st0 : dstream) (i o : list Z) (Hc : deflated st0 i o Ended).
Context (Ho : Z.of_nat (length o) <= MAX_SIZE_BUFFER)
        (Hi : Z.of_nat (length i) <= MAX_SIZE_BUFFER * 20).

(** The stream took [c] and produced [d]. *)
Definition stream_inv (s : trace_reader) (c d : list Z) : Prop :=
  match rd_stream s with
  | Null => c = [] /\ d = []
  | Inflating st => inflated st c d false /\ c = o
  | Freed => c = o /\ d = i /\ bool_finish s = true
  end.

(** The bytes of the buffer that were not read. *)
Definition unread (s : trace_reader) : list Z :=
  take (Z.to_nat (end_buffer s - read_buffer s)) (drop (Z.to_nat (read_buffer s)) (rd_buf s)).

(** The first [pos] bytes of [i] have been read. *)
Definition reader_inv (pos : nat) (s : trace_reader) : Prop :=
  exists c d, stream_inv s c d /\ c ++ rd_trace s = o /\ d `prefix_of` i
    /\ d = take pos i ++ unread s /\ (pos <= length i)%nat
    /\ 0 <= read_buffer s <= end_buffer s
    /\ (read_buffer s < end_buffer s -> end_buffer s <= Z.of_nat (length (rd_buf s))).

Lemma mk_reader_inv : reader_inv 0 (mk_reader o).
Proof.
  exists [], []. assert (unread (mk_reader o) = []) as ->.
  { unfold unread. cbn [rd_buf mk_reader]. by rewrite drop_nil, take_nil. }
  split_and!; try done; [apply prefix_nil|lia].
Qed.

Lemma store_buf_ok buf end_ out :
  0 <= end_ -> end_ + Z.of_nat (length out) <= MAX_SIZE_BUFFER * 20 ->
  (if 0 <? Z.of_nat (length out) then store_buf buf end_ out else Ret buf)
  = Ret (take (Z.to_nat end_) buf ++ out ++ drop (Z.to_nat end_ + length out) buf).
Proof.
  intros H0 H. destruct (Z.ltb_spec 0 (Z.of_nat (length out))).
  - unfold store_buf. by rewrite (proj2 (Z.leb_le _ _)).
  - destruct out; [|simpl length in *; lia]. simpl. by rewrite Nat.add_0_r, take_drop.
Qed.

(** An iteration that has room in the buffer. *)
Definition stored (buf : list Z) (end_ : Z) (out : list Z) : list Z :=
  take (Z.to_nat end_) buf ++ out ++ drop (Z.to_nat end_ + length out) buf.

Lemma inflate_loop_step fuel input st buf end_ :
  let r := mz_inflate st MZ_SYNC_FLUSH input (Z.to_nat MAX_SIZE_BUFFER) in
  call_ret r <> MZ_STREAM_ERROR -> 0 <= end_ ->
  end_ + Z.of_nat (length (call_out r)) <= MAX_SIZE_BUFFER * 20 ->
  inflate_loop (S fuel) input st buf end_ =
    match drop (call_used r) input with
    | [] => Ret (call_ret r, call_stream r, stored buf end_ (call_out r), end_ + Z.of_nat (length (call_out r)))
    | _ => inflate_loop fuel (drop (call_used r) input) (call_stream r) (stored buf end_ (call_out r))
             (end_ + Z.of_nat (length (call_out r)))
    end.
Proof.
  intros r Hret H0 H. cbn [inflate_loop]. fold r. cbv zeta. rewrite (proj2 (Z.eqb_neq _ _) Hret).
  rewrite store_buf_ok by done. rewrite exec_bind_ret. by destruct (drop _ _).
Qed.

Lemma take_stored (d d0 buf out : list Z) end_ :
  end_ = Z.of_nat (length d) - Z.of_nat (length d0) -> (length d0 <= length d)%nat ->
  take (Z.to_nat end_) buf = drop (length d0) d ->
  take (Z.to_nat (end_ + Z.of_nat (length out))) (stored buf end_ out) = drop (length d0) (d ++ out).
Proof.
  intros -> Hle Hbuf. unfold stored. rewrite Hbuf, drop_app_le, app_assoc by lia.
  apply take_app_length'. rewrite length_app, length_drop. lia.
Qed.

(** The loop produces the bytes that follow [d], until the end of [i] or at least
    one full output buffer. *)
Lemma inflate_loop_spec input : forall st c d (d0 : list Z) buf end_,
  inflated st c d false -> c ++ input = o -> d `prefix_of` i ->
  end_ = Z.of_nat (length d) - Z.of_nat (length d0) -> d0 `prefix_of` d ->
  take (Z.to_nat end_) buf = drop (length d0) d ->
  eventually (fun fuel => inflate_loop fuel input st buf end_) (fun '(ret, st', buf', end') =>
    exists d' ended, inflated st' o d' ended /\ d' `prefix_of` i /\ d0 `prefix_of` d'
      /\ end' = Z.of_nat (length d') - Z.of_nat (length d0)
      /\ take (Z.to_nat end') buf' = drop (length d0) d'
      /\ (ret = MZ_STREAM_END <-> ended = true) /\ (ended = true -> d' = i)
      /\ (ended = false -> (length d < length d')%nat)).
Proof.
  intros st c d. remember (length i - length d)%nat as k eqn:Hk.
  revert input st c d Hk. induction (lt_wf k) as [k _ IH].
  intros input st c d -> d0 buf end_ Hst Hco Hd He Hd0 Hbuf.
  assert (Z.to_nat MAX_SIZE_BUFFER <> 0%nat) as Hroom by (unfold MAX_SIZE_BUFFER; lia).
  destruct (inflate_step st0 i o st input _ c d Hroom Hc Hst ltac:(by rewrite Hco) Hd)
    as (Hret & Hused & Hout & Hd' & ended & Hst' & Hend & Hfin & Hshort).
  set (r := mz_inflate st MZ_SYNC_FLUSH input (Z.to_nat MAX_SIZE_BUFFER)) in *.
  apply prefix_length in Hd as Hdlen. apply prefix_length in Hd' as Hdlen'.
  apply prefix_length in Hd0 as Hd0len. rewrite length_app in Hdlen'.
  assert (d0 `prefix_of` d ++ call_out r) as Hd0' by by apply prefix_app_r.
  pose proof (take_stored d d0 buf (call_out r) end_ He Hd0len Hbuf) as Hbuf'.
  eapply eventually_S; [intros fuel; apply inflate_loop_step; fold r; [done|lia|lia]|]. fold r.
  destruct (drop (call_used r) input) as [|b rest] eqn:Hrest.
  - eapply eventually_ret; [done|]. exists (d ++ call_out r), ended.
    assert (length input <= call_used r)%nat as Hall.
    { apply (f_equal length) in Hrest. rewrite length_drop in Hrest. simpl in Hrest. lia. }
    rewrite take_ge, Hco in Hst' by lia. split_and!; try done.
    + rewrite length_app. lia.
    + intros He'. by apply Hfin.
    + intros ->. rewrite length_app.
      destruct (decide (length (call_out r) < Z.to_nat MAX_SIZE_BUFFER)%nat) as [Hlt|]; [|lia].
      destruct (Hshort Hlt) as [_ Habs]. by specialize (Habs Hco).
  - assert (length (call_out r) = Z.to_nat MAX_SIZE_BUFFER) as Hfull.
    { destruct (decide (length (call_out r) < Z.to_nat MAX_SIZE_BUFFER)%nat) as [Hlt|]; [|lia].
      destruct (Hshort Hlt) as [Hu _]. rewrite Hu, drop_all in Hrest. done. }
    rewrite <-Hrest. destruct ended.
    { exfalso. destruct (Hfin eq_refl) as [Hcc _]. rewrite <-Hco in Hcc. apply app_inv_head in Hcc.
      apply (f_equal length) in Hcc, Hrest. rewrite length_take in Hcc. rewrite length_drop in Hrest.
      simpl in Hrest. lia. }
    eapply eventually_mono.
    + assert (length i - length (d ++ call_out r) < length i - length d)%nat as Hm.
      { assert (0 < MAX_SIZE_BUFFER) by done. rewrite length_app. lia. }
      eapply (IH _ Hm _ _ _ _ eq_refl d0); try done.
      * by rewrite <-app_assoc, take_drop.
      * rewrite length_app. lia.
    + intros [[[ret st'] buf''] end'] (d' & ended & H). destruct H as (?&?&?&?&?&?&?&Hl).
      exists d', ended. split_and!; try done. intros He'. specialize (Hl He').
      rewrite length_app in Hl. lia.
Qed.

(** A refill leaves unread bytes when there are bytes left to read. *)
Lemma decompress_spec pos s :
  reader_inv pos s -> read_buffer s = end_buffer s -> (pos < length i)%nat ->
  eventually (fun fuel => decompress_data_from_trace fuel (rewind s))
    (fun s' => reader_inv pos s' /\ read_buffer s' = 0 /\ read_buffer s' < end_buffer s').
Proof.
  intros (c & d & Hst & Hco & Hd & Hdu & Hpos & _) He Hlt.
  unfold unread in Hdu. rewrite He, Z.sub_diag, take_0, app_nil_r in Hdu.
  assert (Z.of_nat (length (rd_trace s)) <= MAX_SIZE_BUFFER) as Htr.
  { rewrite <-Hco, length_app in Ho. lia. }
  assert (exists st, (match rd_stream s with Null => Ret inflateInit | Inflating st => Ret st
                      | Freed => Fault end) = Ret st /\ inflated st c d false) as (st & Hm & Hinf).
  { unfold stream_inv in Hst. destruct (rd_stream s) as [|st|].
    - destruct Hst as [-> ->]. exists inflateInit. split; [done|apply inflate_init_law].
    - exists st. by destruct Hst.
    - destruct Hst as (_ & Hdi & _). rewrite Hdi in Hdu. apply (f_equal length) in Hdu.
      rewrite length_take in Hdu. lia. }
  unfold decompress_data_from_trace.
  cbn [rd_stream rewind rd_trace rd_buf end_buffer read_buffer]. rewrite Hm. cbv zeta.
  eapply eventually_ext; [intros fuel; rewrite exec_bind_ret; reflexivity|].
  rewrite (take_ge (rd_trace s)), (drop_ge (rd_trace s)) by lia.
  eapply (eventually_bind _ (fun _ '(ret, st, buf, end_) => _)).
  - apply (inflate_loop_spec (rd_trace s) st c d d (rd_buf s) 0); try done; [lia|].
    by rewrite drop_all.
  - intros [[[ret st'] buf'] end'] (d' & ended & Hinf' & Hd'i & Hdd' & -> & Hbuf & Hret & Hend & Hprog).
    eapply eventually_ret; [done|]. simpl.
    assert (length d = pos) as Hld by (rewrite Hdu, length_take; lia).
    assert (length d < length d')%nat as Hgrow.
    { destruct ended; [|by apply Hprog]. rewrite (Hend eq_refl). lia. }
    assert (Z.to_nat (Z.of_nat (length d') - Z.of_nat (length d)) <= length buf')%nat as Hbl.
    { apply (f_equal length) in Hbuf. rewrite length_take, length_drop in Hbuf. lia. }
    split_and!; [|done|lia].
    exists o, d'. split_and!.
    + unfold stream_inv. simpl. destruct (Z.eqb_spec ret MZ_STREAM_END) as [He'|He']; simpl.
      * by rewrite (Hend (proj1 Hret He')).
      * destruct ended; [by destruct He'; apply Hret|done].
    + simpl. apply app_nil_r.
    + done.
    + unfold unread. simpl. rewrite Z.sub_0_r, drop_0, Hbuf. rewrite <-Hdu.
      destruct Hdd' as [x ->]. by rewrite drop_app_length.
    + done.
    + simpl. lia.
    + simpl. lia.
    + simpl. lia.
Qed.

Lemma get_content_spec size : forall pos s,
  reader_inv pos s -> (pos + size <= length i)%nat ->
  eventually (fun fuel => get_content_of_trace fuel size s)
    (fun '(l, s') => l = take size (drop pos i) /\ reader_inv (pos + size) s').
Proof.
  induction size as [|size IH]; intros pos s Hs Hle.
  { eapply eventually_ret; [done|]. by rewrite Nat.add_0_r. }
  cbn [get_content_of_trace].
  eapply (eventually_bind _ (fun fuel s => b ← _; '(l, s) ← get_content_of_trace fuel size (advance s); _)
            (fun s' => reader_inv pos s' /\ read_buffer s' < end_buffer s')).
  { destruct (Z.eqb_spec (read_buffer s) (end_buffer s)) as [He|He].
    - eapply eventually_mono; [apply (decompress_spec pos); [done|done|lia]|].
      intros s' (H1 & _ & H2). by split.
    - apply (eventually_ret _ s); [done|]. split; [done|]. destruct Hs as (?&?&?&?&?&?&?&?&?). lia. }
  clear s Hs. intros s [(c & d & Hst & Hco & Hd & Hdu & Hpos & Hrd & Hbl) Hlt].
  specialize (Hbl Hlt).
  destruct (lookup_lt_is_Some_2 (rd_buf s) (Z.to_nat (read_buffer s)) ltac:(lia)) as [b Hb].
  assert (unread s = b :: unread (advance s)) as Hun.
  { unfold unread. simpl. rewrite (drop_S _ b (Z.to_nat (read_buffer s))) by done.
    replace (Z.to_nat (end_buffer s - read_buffer s))
      with (S (Z.to_nat (end_buffer s - (read_buffer s + 1)))) by lia.
    simpl. by replace (Z.to_nat (read_buffer s + 1)) with (S (Z.to_nat (read_buffer s))) by lia. }
  assert (i !! pos = Some b) as Hib.
  { apply (prefix_lookup_Some d); [|done]. rewrite Hdu, Hun, lookup_app_r by (rewrite length_take; lia).
    rewrite length_take. by replace (pos - pos `min` length i)%nat with O by lia. }
  rewrite Hb. simpl.
  eapply (eventually_bind _ (fun _ '(l, s) => Ret (b :: l, s))).
  - apply (IH (S pos)); [|lia]. exists c, d. split_and!; try done.
    + rewrite (take_S_r _ _ b) by done. rewrite <-app_assoc. simpl. by rewrite <-Hun.
    + lia.
    + simpl. lia.
    + simpl. lia.
  - intros [l s'] [-> Hs']. eapply eventually_ret; [done|].
    rewrite (drop_S i b pos) by done. split; [done|]. by replace (pos + S size)%nat with (S pos + size)%nat by lia.
Qed.
End Reading.
End Trace.
