(* ===== verification/TraceProps.v ===== *)
(** * What the plugin records, the reader reads

    The records of [QemuPlugin] read back by [Trace], through any codec that keeps
    its contract; and the traces for which the plugin does not produce a file. *)
From Stdlib Require Import Ascii String.
From stdpp Require Import strings.
From S2P Require Import Prelude Defs Transaction Codec QemuPlugin Trace.

Section RoundTrip.
Context {cfg : HpdConfig} {wf : ConfigWf cfg} {C : Codec} {L : CodecLaws C}.

(** The transaction a record stands for; the members a trace does not hold are
    those of the object it is read into. *)
Definition value_bits (v : mem_value) : Z :=
  match mv_type v with
  | VALUE_U8 => 8 | VALUE_U16 => 16 | VALUE_U32 => 32 | VALUE_U64 => 64 | VALUE_U128 => 0
  end.
Definition traced (r : trace_record) (t : transaction_req) : transaction_req :=
  {| req_id := req_id t; req_addr := wrap HPDCACHE_PA_WIDTH (tr_addr r);
     req_wdata := if tr_store r
                  then wrap HPDCACHE_REQ_DATA_WIDTH (wrap (value_bits (tr_value r)) (mv_u64 (tr_value r)))
                  else req_wdata t;
     req_op := req_op_value (if tr_store r then HPDCACHE_REQ_STORE else HPDCACHE_REQ_LOAD);
     req_be := req_be t; req_size := tr_size r; req_sid := req_sid t; req_tid := req_tid t;
     req_need_rsp := negb (tr_store r); req_phys_indexed := true;
     req_uncacheable := tr_uncacheable r =? 1; req_io := tr_uncacheable r =? 1;
     req_wr_policy_hint := req_wr_policy_hint t; req_abort := false; req_fault := req_fault t |}.

(** Accesses of up to 128 bytes; stores of up to 64 bits, since the plugin records
    no value for 128-bit ones. *)
Definition access_ok (a : mem_access) : Prop :=
  0 <= ma_size_shift a < 8 /\ (ma_is_store a = true -> mv_type (ma_value a) <> VALUE_U128).
Definition event_ok (e : qemu_event) : Prop := match e with Insn => True | Access _ a => access_ok a end.

Record record_ok (r : trace_record) : Prop := {
  ro_delay : is_word 8 (tr_delay r);
  ro_size : 0 <= tr_size r < 8;
  ro_uncacheable : tr_uncacheable r = 0 \/ tr_uncacheable r = 1;
  ro_value : tr_store r = true -> mv_type (tr_value r) <> VALUE_U128;
}.

Lemma records_ok es n : Forall event_ok es -> Forall record_ok (records_of n es).
Proof.
  intros H. revert n. induction H as [|[|v a] es Ha _ IH]; intros n; simpl; [done|apply IH|].
  destruct Ha as [Hs Hv]. constructor; [|apply IH]. constructor; simpl; [|..|done].
  - by apply wrap_word.
  - rewrite wrap_small; [done|]. unfold is_word. lia.
  - unfold access_uncacheable. destruct (ma_phys a); [destruct (mmio _)|]; auto.
Qed.

(** The packed bytes. *)
Lemma widen_small junk c : wrap HPDCACHE_REQ_SIZE_WIDTH (widen junk c) = wrap 3 c.
Proof. unfold HPDCACHE_REQ_SIZE_WIDTH, widen. bitwise. rewrite (Z.testbit_neg_r junk) by lia. btauto. Qed.

Definition size_byte_ok (size sv : Z) : bool :=
  let b := u8 (Z.lor size (Z.shiftl sv 4)) in
  (wrap 3 (Z.shiftr (to_signed 8 (Z.shiftl (to_signed 8 b) 4)) 4) =? size)
  && (u8 (Z.shiftr (to_signed 8 b) 4) =? sv).

Lemma size_byte size v :
  0 <= size < 8 -> size_byte_ok size (get_size_value v) = true.
Proof.
  intros H. revert size H.
  apply (forallb_interval (fun size => size_byte_ok size (get_size_value v)) 0 8).
  by destruct v.
Qed.

Lemma boolean_byte store u t :
  u = 0 \/ u = 1 ->
  let b := boolean_value_and_type store u in
  set_booleans (Z.shiftr b 2) (get_bit b 2) (get_bit b 1) t
  = set_booleans (req_op_value (if store then HPDCACHE_REQ_STORE else HPDCACHE_REQ_LOAD))
      (negb store) (u =? 1) t.
Proof. intros [-> | ->]; destruct store; done. Qed.

(** ** Reading one record *)
Section Reading.
Context (st0 : dstream) (i o : list Z) (Hc : deflated st0 i o Ended).
Context (Ho : Z.of_nat (length o) <= MAX_SIZE_BUFFER)
        (Hi : Z.of_nat (length i) <= MAX_SIZE_BUFFER * 20).

(** [rest] is what is left to read. *)
Definition reader_at (rest : list Z) (s : trace_reader) : Prop :=
  exists pos, reader_inv i o pos s /\ drop pos i = rest.

Lemma read_int_at bs rest s :
  reader_at (bs ++ rest) s ->
  eventually (fun fuel => read_int fuel (length bs) s)
    (fun '(v, s') => v = le_combine bs /\ reader_at rest s').
Proof.
  intros (pos & Hinv & Hd). unfold read_int.
  assert (pos + length bs <= length i)%nat as Hle.
  { destruct Hinv as (?&?&?&?&?&?&Hpos&_). apply (f_equal length) in Hd.
    rewrite length_drop, length_app in Hd. lia. }
  eapply (eventually_bind _ (fun _ '(l, s) => Ret (le_combine l, s)));
    [by apply (get_content_spec st0 i o Hc Ho Hi (length bs) pos)|].
  intros [l s'] [-> Hs']. eapply eventually_ret; [done|].
  rewrite Hd, take_app_length. split; [done|]. exists (pos + length bs)%nat. split; [done|].
  by rewrite <-drop_drop, Hd, drop_app_length.
Qed.

Lemma read_byte_at b rest s :
  reader_at ([b] ++ rest) s ->
  eventually (fun fuel => read_int fuel 1 s) (fun '(v, s') => v = b /\ reader_at rest s').
Proof.
  intros H. eapply eventually_mono; [by apply (read_int_at [b])|].
  intros [v s'] [-> Hs]. split; [|done]. simpl. by rewrite Z.shiftl_0_l, Z.lor_0_r.
Qed.

Lemma read_value_at v t rest s :
  mv_type v <> VALUE_U128 -> reader_at (value_bytes v ++ rest) s ->
  eventually (fun fuel => read_value fuel t (get_size_value (mv_type v)) s)
    (fun '(t', s') => t' = set_req_wdata (wrap (value_bits v) (mv_u64 v)) t /\ reader_at rest s').
Proof.
  intros Hv Hs. unfold value_bytes in Hs. unfold value_bits.
  assert (forall n, reader_at (le_split n (mv_u64 v) ++ rest) s ->
    eventually (fun fuel => '(x, s) ← read_int fuel n s; Ret (set_req_wdata x t, s))
      (fun '(t', s') => t' = set_req_wdata (wrap (8 * Z.of_nat n) (mv_u64 v)) t /\ reader_at rest s')) as Hn.
  { intros n Hn. eapply (eventually_bind _ (fun _ '(x, s) => Ret (set_req_wdata x t, s))).
    - apply read_int_at in Hn. rewrite length_le_split in Hn. exact Hn.
    - intros [x s'] [-> Hs']. eapply eventually_ret; [done|]. by rewrite le_combine_split. }
  destruct (mv_type v); try done; by apply Hn in Hs.
Qed.

Lemma read_transaction_at r junk t rest s :
  record_ok r -> reader_at (encode 8 r ++ rest) s ->
  eventually (fun fuel => read_transaction fuel junk t s)
    (fun '(d, t', s') => d = tr_delay r /\ t' = traced r t /\ reader_at rest s').
Proof.
  intros [Hd Hsz Hu Hv] Hs. unfold encode in Hs. rewrite <-!app_assoc in Hs. unfold read_transaction.
  eapply (eventually_bind _ (fun fuel '(delay, s) => _)); [by apply read_byte_at|].
  intros [d s1] [-> Hs1].
  eapply (eventually_bind _ (fun fuel '(addr, s) => _)).
  { apply read_int_at in Hs1. rewrite length_le_split in Hs1. exact Hs1. }
  intros [a s2] [-> Hs2]. rewrite le_combine_split. cbv zeta.
  pose proof (size_byte (tr_size r) (mv_type (tr_value r)) Hsz) as Hb. unfold size_byte_ok in Hb.
  cbv zeta in Hb. apply andb_true_iff in Hb as [Hb1%Z.eqb_eq Hb2%Z.eqb_eq].
  eapply (eventually_bind _ (fun fuel '(size, sv, s) => _)
            (fun '(size, sv, s) => wrap HPDCACHE_REQ_SIZE_WIDTH size = tr_size r
               /\ sv = get_size_value (mv_type (tr_value r)) /\ reader_at _ s)).
  { unfold read_size. eapply (eventually_bind _ (fun fuel '(b, s) => _)); [by apply read_byte_at|].
    intros [b s'] [-> Hs']. eapply eventually_ret; [done|].
    cbv beta iota zeta. rewrite widen_small. split_and!; [exact Hb1|exact Hb2|exact Hs']. }
  intros [[sz sv] s3] (Hsize & -> & Hs3).
  eapply (eventually_bind _ (fun fuel '(t, s) => _)
            (fun '(t', s) => t' = set_booleans (req_op_value (if tr_store r then HPDCACHE_REQ_STORE
                else HPDCACHE_REQ_LOAD)) (negb (tr_store r)) (tr_uncacheable r =? 1)
                (set_req_size sz (set_req_addr (wrap 64 (tr_addr r)) t)) /\ reader_at _ s)).
  { unfold read_boolean_and_type. eapply (eventually_bind _ (fun fuel '(b, s) => _)); [by apply read_byte_at|].
    intros [b s'] [-> Hs']. eapply eventually_ret; [done|]. by rewrite boolean_byte. }
  intros [t' s4] [-> Hs4].
  assert (wrap HPDCACHE_PA_WIDTH (wrap 64 (tr_addr r)) = wrap HPDCACHE_PA_WIDTH (tr_addr r)) as Ha.
  { pose proof cfg_pa as Hpa. unfold HPDCACHE_SET_WIDTH, HPDCACHE_CL_OFFSET_WIDTH in Hpa.
    pose proof (LOG2_nonneg HPDCACHE_SETS).
    pose proof (LOG2_nonneg (HPDCACHE_CL_WORDS * HPDCACHE_WORD_WIDTH / 8)). bitwise. }
  destruct (tr_store r) eqn:Hstore.
  - eapply (eventually_bind _ (fun fuel '(t, s) => _)).
    { change (req_op (set_booleans ?a ?b ?c ?d) =? ?e) with true. by apply read_value_at; [apply Hv|]. }
    intros [t' s5] [-> Hs5]. eapply eventually_ret; [done|]. split_and!; [done| |done].
    unfold traced, set_req_wdata, set_booleans, set_req_size, set_req_addr. simpl.
    by rewrite Hsize, Ha, Hstore.
  - eapply eventually_ret; [done|]. split_and!; [done| |done].
    unfold traced, set_booleans, set_req_size, set_req_addr. simpl. by rewrite Hsize, Ha, Hstore.
Qed.

Lemma read_transactions_at rs : forall ts junk rest s,
  Forall record_ok rs -> length ts = length rs ->
  reader_at (concat (encode 8 <$> rs) ++ rest) s ->
  eventually (fun fuel => read_transactions fuel junk ts s)
    (fun '(l, s') => l = zip_with (fun r t => (tr_delay r, traced r t)) rs ts /\ reader_at rest s').
Proof.
  induction rs as [|r rs IH]; intros ts junk rest s Hok Hlen Hs; destruct ts as [|t ts]; try done.
  { by eapply eventually_ret. }
  apply list.Forall_cons in Hok as [Hr Hrs].
  change (concat (encode 8 <$> r :: rs)) with (encode 8 r ++ concat (encode 8 <$> rs)) in Hs.
  rewrite <-app_assoc in Hs. simpl in Hlen.
  cbn [read_transactions].
  eapply (eventually_bind _ (fun fuel '(d, t, s) => _)); [by apply read_transaction_at|].
  intros [[d t'] s'] (-> & -> & Hs').
  eapply (eventually_bind _ (fun fuel '(l, s) => _)); [apply (IH ts junk rest s'); [done|lia|done]|].
  intros [l s''] (-> & Hs''). by eapply eventually_ret.
Qed.
End Reading.

(** ** The plugin as it is installed *)
Record pristine (s : plugin) : Prop := {
  pr_buffer : buffer_compress s = replicate (Z.to_nat SIZE_BUFFER) 0;
  pr_begin : buffer_begin s = 0;
  pr_write : write_data s = true;
  pr_stream : p_stream s = None;
  pr_current : current_instruction s = 0;
}.

Lemma set_options_pristine m c f s : pristine s -> pristine (set_options m c f s).
Proof. by intros []. Qed.

Lemma install_option_pristine can_open o s b s' :
  pristine s -> install_option can_open o s = Ret (b, s') -> pristine s'.
Proof.
  intros Hs. destruct o as [key [v|]]; cbn [install_option fault_if_none];
    (destruct (String.eqb key "mode"%string); [|destruct (String.eqb key "ofile"%string);
       [|destruct (String.eqb key "compress"%string)]]); intros H;
    repeat (apply exec_bind_Ret_inv in H as (? & ? & H)); try done;
    injection H as <- <-; try done; by apply set_options_pristine.
Qed.

Lemma install_options_pristine can_open opts : forall s b s',
  pristine s -> install_options can_open opts s = Ret (b, s') -> pristine s'.
Proof.
  induction opts as [|o opts IH]; intros s b s' Hs H; cbn [install_options] in H;
    [by injection H as <- <-|].
  apply exec_bind_Ret_inv in H as ([parsed s1] & H1 & H2).
  apply install_option_pristine in H1; [|done].
  destruct parsed; [by eapply IH|by injection H2 as <- <-].
Qed.

(** A plugin installed to record a compressed binary trace of a 64-bit target into
    a file that could be opened. *)
Definition recording (s : plugin) : Prop :=
  exists can_open opts, qemu_plugin_install can_open "riscv64"%string opts plugin_static = Ret (0, s)
  /\ p_mode s = WRITE_BINARY /\ need_to_compress s = true /\ p_file s = Some [].

Lemma recording_inv s :
  recording s -> plugin_inv [] s /\ is_64_bits s = true /\ write_data s = true
                 /\ current_instruction s = 0.
Proof.
  intros (can_open & opts & H & Hm & Hc & Hf). unfold qemu_plugin_install in H.
  destruct (negb _); [done|]. apply exec_bind_Ret_inv in H as ([parsed s1] & H1 & H2).
  apply install_options_pristine in H1 as [Hb Hbe Hw Hst Hcu]; [|done].
  destruct parsed; [|done]. injection H2 as <-. simpl in Hc, Hf |- *.
  split; [|done]. unfold plugin_inv. simpl. rewrite Hb, Hst, length_replicate.
  split; [done|]. split; [done|]. split; [done|]. exists [], [].
  split; [done|]. split; [apply deflate_init_law|]. split; [done|]. by exists 0.
Qed.

(** The run and the exit of the plugin, up to the file it leaves. *)
Definition record_trace (fuel : nat) (es : list qemu_event) (s : plugin) : exec (list Z) :=
  s ← plugin_run fuel es s;
  s ← plugin_exit fuel s;
  fault_if_none (p_file s).

Lemma record_trace_complete s es :
  recording s -> Z.of_nat (length es) < 2 ^ 31 ->
  2 <= Z.of_nat (length (trace_bytes 8 0 es)) mod SIZE_BUFFER ->
  eventually (fun fuel => record_trace fuel es s)
    (fun o => exists st, deflated st (trace_bytes 8 0 es) o Ended).
Proof.
  intros Hr Hlen Hmod. pose proof Hr as (_ & _ & _ & Hm & _).
  apply recording_inv in Hr as (Hi & H64 & Hw & Hcu).
  eapply (eventually_bind _ (fun fuel s => s ← plugin_exit fuel s; fault_if_none (p_file s)));
    [apply (plugin_run_writes es [] s Hi Hm Hw); rewrite Hcu; lia|].
  rewrite H64, Hcu. simpl. intros s1 Hi1.
  eapply (eventually_bind _ (fun _ s => fault_if_none (p_file s)));
    [apply (plugin_exit_complete _ s1 Hi1); by rewrite <-(plugin_inv_fill _ _ Hi1)|].
  intros s2 (st & f & -> & Hd). eapply eventually_ret; [done|]. eauto.
Qed.

(** ** The properties *)

(** The file is complete only if the bytes recorded do not end on the edge of the plugin's buffer: when their number is a multiple of 5000 the plugin never returns from its exit callback, and when it is one more, the exit returns with the last byte unwritten and the stream not closed. *)
Theorem plugin_exit_endings s es :
  recording s -> Z.of_nat (length es) < 2 ^ 31 ->
  exists n s1, (forall fuel, (n <= fuel)%nat -> plugin_run fuel es s = Ret s1) /\
  let total := trace_bytes 8 0 es in
  let rest := Z.of_nat (length total) mod SIZE_BUFFER in
  (rest = 0 -> forall fuel, plugin_exit fuel s1 = Diverges) /\
  (rest = 1 -> forall fuel, exists s2 f, plugin_exit fuel s1 = Ret s2 /\ p_file s2 = Some f
     /\ deflated (default deflateInit (p_stream s2)) (take (length total - 1) total) f Open) /\
  (2 <= rest -> eventually (fun fuel => plugin_exit fuel s1)
     (fun s2 => exists st f, p_file s2 = Some f /\ deflated st total f Ended)).
Proof.
  intros Hr Hlen. pose proof Hr as (_ & _ & _ & Hm & _).
  apply recording_inv in Hr as (Hi & H64 & Hw & Hcu).
  destruct (plugin_run_writes es [] s Hi Hm Hw ltac:(lia) ltac:(rewrite Hcu; lia)) as (n & s1 & Hn & Hi1).
  rewrite H64, Hcu in Hi1. simpl in Hi1. exists n, s1. split; [done|]. cbv zeta.
  rewrite (plugin_inv_fill _ _ Hi1). split_and!.
  - intros H0 fuel. by eapply plugin_exit_empty.
  - intros H1 fuel. by apply plugin_exit_one.
  - intros H2. by apply plugin_exit_complete.
Qed.

(** C19: What becomes of a trace the plugin records in compressed binary mode from a 64-bit target (the one named riscv64), with less than 2^31 callbacks, no 128-bit store and accesses of at most 128 bytes; [total] are the bytes of its records. When their number leaves 2 or more modulo the 5000 bytes of the buffer of the plugin, they number at most twenty times the buffer of the reader and the file fits that buffer once, the trace reader reads back the sequence of accesses that were recorded: each read answers the number of instructions since the previous access (modulo 256) and a transaction with the address, size, direction, cacheability and, for a store, the value of the access, in order. When their number is a multiple of 5000, an empty trace included, the plugin never returns from its exit; when it is one more, it returns with the last byte unwritten and the stream not closed. *)
Theorem trace_roundtrip s es ts junk :
  recording s -> Forall event_ok es -> Z.of_nat (length es) < 2 ^ 31 ->
  let total := trace_bytes 8 0 es in
  let rest := Z.of_nat (length total) mod SIZE_BUFFER in
  (2 <= rest -> Z.of_nat (length total) <= MAX_SIZE_BUFFER * 20 ->
   (forall st o, deflated st total o Ended -> Z.of_nat (length o) <= MAX_SIZE_BUFFER) ->
   length ts = length (records_of 0 es) ->
   eventually
     (fun fuel => o ← record_trace fuel es s; read_transactions fuel junk ts (mk_reader o))
     (fun '(l, _) => l = zip_with (fun r t => (tr_delay r, traced r t)) (records_of 0 es) ts)) /\
  (rest = 0 -> exists n, forall fuel, (n <= fuel)%nat -> record_trace fuel es s = Diverges) /\
  (rest = 1 -> exists n, forall fuel, (n <= fuel)%nat -> exists o st,
     record_trace fuel es s = Ret o /\ deflated st (take (length total - 1) total) o Open).
Proof.
  intros Hr Hes Hlen total rest. split.
  { intros Hmod Hi Ho Hts.
    eapply (eventually_bind _ (fun fuel o => read_transactions fuel junk ts (mk_reader o)));
      [by apply record_trace_complete|].
    intros o (st & Hd). specialize (Ho st o Hd).
    eapply eventually_mono.
    - apply (read_transactions_at st _ o Hd Ho Hi (records_of 0 es) ts junk []);
        [by apply records_ok|done|].
      exists O. split; [by apply mk_reader_inv|]. rewrite drop_0. by rewrite app_nil_r.
    - by intros [l s'] [-> _]. }
  destruct (plugin_exit_endings s es Hr Hlen) as (n & s1 & Hn & H0 & H1 & _).
  split; intros Hrest; exists n; intros fuel Hf; unfold record_trace; rewrite (Hn fuel Hf); simpl.
  - by rewrite (H0 Hrest fuel).
  - destruct (H1 Hrest fuel) as (s2 & f & -> & Hfile & Hd). simpl. rewrite Hfile. eauto.
Qed.

(** The record the debug writer appends is not the one the reader expects: it is 15 bytes long against 11, and where the reader takes the address it finds the upper bytes of the delay followed by the low five bytes of the address. *)
Theorem trace_writer_differs t delay :
  length (write_in_trace t delay) = 15%nat
  /\ le_combine (take 8 (drop 1 (write_in_trace t delay)))
     = Z.lor (range 31 8 delay) (Z.shiftl (range 39 0 (req_addr t)) 24).
Proof.
  split; [done|].
  assert (take 8 (drop 1 (write_in_trace t delay))
          = le_split 8 (Z.lor (range 31 8 delay) (Z.shiftl (range 39 0 (req_addr t)) 24))) as ->.
  { unfold write_in_trace, tw_delay, tw_address. simpl.
    repeat (apply f_equal2; [bitwise; f_equal; lia|]). done. }
  rewrite le_combine_split. apply wrap_small. apply lor_word; [lia| |].
  - assert (is_word 24 (range 31 8 delay)) as Hw by (apply range_word; lia). unfold is_word in *. lia.
  - assert (is_word 40 (range 39 0 (req_addr t))) as Hw by (apply range_word; lia).
    rewrite Z.shiftl_mul_pow2 by lia. unfold is_word in *. lia.
Qed.
End RoundTrip.

(** ** Witnesses

    Two accesses of a 64-bit target, recorded through the storing codec. *)
#[local] Existing Instance Stored.stored_codec.
#[local] Existing Instance Stored.stored_laws.
#[local] Existing Instance default_config.
Definition ex_value (t : mem_value_type) (v : Z) : mem_value := {| mv_type := t; mv_u64 := v |}.
Definition ex_trace_events : list qemu_event :=
  [Insn; Insn;
   Access 0 {| ma_size_shift := 3; ma_is_store := false; ma_vaddr := 0x80001000;
               ma_phys := Some 0x80001000; ma_value := ex_value VALUE_U64 7 |};
   Insn;
   Access 0 {| ma_size_shift := 2; ma_is_store := true; ma_vaddr := 0x4000;
               ma_phys := Some 0x10000004; ma_value := ex_value VALUE_U32 0xdeadbeef |}].
Definition ex_plugin : plugin :=
  match qemu_plugin_install (fun _ => true) "riscv64"%string
          [("mode"%string, Some "0"%string); ("ofile"%string, Some "t"%string);
           ("compress"%string, Some "true"%string)] plugin_static with
  | Ret (_, s) => s
  | _ => plugin_static
  end.

Lemma ex_recording : recording ex_plugin.
Proof.
  exists (fun _ => true), [("mode"%string, Some "0"%string); ("ofile"%string, Some "t"%string);
           ("compress"%string, Some "true"%string)].
  split; [vm_compute; reflexivity|]. split; [reflexivity|]. split; reflexivity.
Qed.

Lemma ex_stored_size st o bytes :
  deflated st bytes o Ended -> (length o <= 2 * length bytes + 1)%nat.
Proof.
  intros [Ho _]. apply (f_equal length) in Ho. rewrite !length_app in Ho.
  assert (forall l, length (Stored.enc l) = 2 * length l)%nat as He.
  { induction l; [done|]. simpl in *. lia. }
  rewrite He in Ho. destruct (Stored.finishing st); simpl in Ho; lia.
Qed.

Lemma trace_roundtrip_witness :
  recording ex_plugin
  /\ eventually
       (fun fuel => o ← record_trace fuel ex_trace_events ex_plugin;
                    read_transactions fuel 0 [transaction_req_init; transaction_req_init] (mk_reader o))
       (fun '(l, _) => l = zip_with (fun r t => (tr_delay r, traced r t)) (records_of 0 ex_trace_events)
                             [transaction_req_init; transaction_req_init]).
Proof.
  split; [exact ex_recording|].
  assert (length (trace_bytes 8 0 ex_trace_events) = 26%nat) as Hn by (vm_compute; reflexivity).
  apply (trace_roundtrip ex_plugin ex_trace_events).
  - exact ex_recording.
  - repeat constructor; simpl; try done; lia.
  - reflexivity.
  - rewrite Hn. vm_compute. discriminate.
  - rewrite Hn. unfold MAX_SIZE_BUFFER. lia.
  - intros st o Hd%ex_stored_size. rewrite Hn in Hd. unfold MAX_SIZE_BUFFER. lia.
  - reflexivity.
Defined.

Lemma plugin_exit_endings_witness :
  recording ex_plugin
  /\ exists n s1, (forall fuel, (n <= fuel)%nat -> plugin_run fuel [] ex_plugin = Ret s1) /\
     forall fuel, plugin_exit fuel s1 = Diverges.
Proof.
  split; [exact ex_recording|].
  pose proof (plugin_exit_endings ex_plugin [] ex_recording) as H. specialize (H eq_refl).
  destruct H as (n & s1 & Hn & H0 & _).
  exists n, s1. split; [exact Hn|]. apply H0. reflexivity.
Defined.
