(* ===== verification/SeqGen.v ===== *)
(** * The request sequences ([sequence_lib/])

    The random values come from the SCV library: a call of [next()] is a value of
    the distribution the sequence configured, and a [draws] record holds the values
    drawn for one transaction. The sequences are functions of these values; the
    wait for a free identifier is the requirement that there is one. *)
From S2P Require Import Prelude Defs Transaction MemModel Sequence MemResp.

(** ** Distributions *)

(** [scv_bag<T>]: values with their weights; a bag of pairs holds ranges. *)
Definition bag (A : Type) : Type := list (A * Z).
Definition push {A} (x : A) (w : Z) (b : bag A) : bag A := b ++ [(x, w)].

(** [x] may be drawn from the bag. *)
Definition drawn {A} (b : bag A) (x : A) : Prop := exists w, (x, w) ∈ b /\ 0 < w.
Definition drawn_range (b : bag (Z * Z)) (x : Z) : Prop :=
  exists lo hi w, ((lo, hi), w) ∈ b /\ 0 < w /\ lo <= x <= hi.

(** The compile-time options of the fault injection. *)
Class FaultConfig := {
  CONF_HPDCACHE_TEST_FAULT_INJ : bool;
  CONF_HPDCACHE_TEST_FAULT_INJ_DIR : bool;
  CONF_HPDCACHE_TEST_DOUBLE_FAULT_INJ : bool;
}.

Section SeqGen.
Context {cfg : HpdConfig} {fcfg : FaultConfig}.

Definition op_v (op : hpdcache_req_op_e) : Z := req_op_value op.

Definition REQ_DATA_BYTES : Z := HPDCACHE_REQ_DATA_WIDTH / 8.
Definition LOG2_REQ_DATA_BYTES : Z := HPDCACHE_TEST_DEFS_LOG2 REQ_DATA_BYTES.

(** What the constructor of a sequence sets up. *)
Record setup := {
  su_segs : list memory_segment;
  su_seg : bag Z;
  su_delay : bag (Z * Z);
  su_amo_sc_do : bag bool;
  su_wr_policy : bag hpdcache_wr_policy_hint_e;
  su_op : bag Z;
  su_op_amo : bag Z;
  su_need_rsp : bag bool;
  su_size : Z * Z;                 (* [size->keep_only(lo, hi)] *)
  su_fault : bag bool;
  su_fault_domain : bag fault_domain_e;
  su_fault_double : bag bool;
  su_fault_way : bag (Z * Z);
}.

(** The array [seg[4]], and the assignment through one of its methods. *)
Definition segs_init (n : nat) : list memory_segment := replicate n memory_segment_init.
Definition on_seg (i : nat) (f : memory_segment -> memory_segment) (l : list memory_segment)
    : list memory_segment := alter f i l.

(** The distributions both random sequences share. *)
Definition random_delay : bag (Z * Z) := push (5, 20) 2 (push (1, 4) 18 (push (0, 0) 80 [])).
Definition random_amo_sc_do : bag bool := push true 75 (push false 25 []).
Definition random_wr_policy : bag hpdcache_wr_policy_hint_e :=
  push HPDCACHE_WR_POLICY_WT 10 (push HPDCACHE_WR_POLICY_WB 10 (push HPDCACHE_WR_POLICY_AUTO 80 [])).
Definition random_need_rsp : bag bool := push true 95 (push false 5 []).
Definition push_ops (l : list (hpdcache_req_op_e * Z)) : bag Z :=
  fold_left (fun b '(op, w) => push (op_v op) w b) l [].
Definition cmo_ops : list (hpdcache_req_op_e * Z) :=
  [(HPDCACHE_REQ_CMO_FENCE, 10); (HPDCACHE_REQ_CMO_PREFETCH, 10);
   (HPDCACHE_REQ_CMO_FLUSH_NLINE, 10); (HPDCACHE_REQ_CMO_FLUSH_ALL, 1);
   (HPDCACHE_REQ_CMO_FLUSH_INVAL_NLINE, 10); (HPDCACHE_REQ_CMO_FLUSH_INVAL_ALL, 1)].
Definition amo_ops : list (hpdcache_req_op_e * Z) :=
  [(HPDCACHE_REQ_AMO_LR, 4); (HPDCACHE_REQ_AMO_SC, 4); (HPDCACHE_REQ_AMO_SWAP, 4);
   (HPDCACHE_REQ_AMO_ADD, 4); (HPDCACHE_REQ_AMO_AND, 4); (HPDCACHE_REQ_AMO_OR, 4);
   (HPDCACHE_REQ_AMO_XOR, 4); (HPDCACHE_REQ_AMO_MAX, 4); (HPDCACHE_REQ_AMO_MAXU, 4);
   (HPDCACHE_REQ_AMO_MIN, 4); (HPDCACHE_REQ_AMO_MINU, 4)].
Definition random_op : bag Z :=
  push_ops ([(HPDCACHE_REQ_LOAD, 400); (HPDCACHE_REQ_STORE, 350)] ++ cmo_ops).

(** [hpdcache_test_random_seq]'s constructor. *)
Definition random_segs : list memory_segment :=
  let seg := segs_init 4 in
  let seg := on_seg 0 (set_base 0x00000000) seg in
  let seg := on_seg 0 (set_length 0x00004000) seg in
  let seg := on_seg 0 (set_uncached false) seg in
  let seg := on_seg 0 (set_amo_supported true) seg in
  let seg := on_seg 0 (set_wr_policy_hint WR_POLICY_RANDOM) seg in
  let seg := on_seg 1 (set_base 0x40004000) seg in
  let seg := on_seg 1 (set_length 0x00004000) seg in
  let seg := on_seg 1 (set_uncached false) seg in
  let seg := on_seg 1 (set_amo_supported true) seg in
  let seg := on_seg 1 (set_wr_policy_hint WR_POLICY_WB) seg in
  let seg := on_seg 2 (set_base 0x80008000) seg in
  let seg := on_seg 2 (set_length 0x00004000) seg in
  let seg := on_seg 2 (set_uncached false) seg in
  let seg := on_seg 2 (set_amo_supported true) seg in
  let seg := on_seg 2 (set_wr_policy_hint WR_POLICY_WT) seg in
  let seg := on_seg 3 (set_base 0xC000C000) seg in
  let seg := on_seg 3 (set_length 0x00004000) seg in
  let seg := on_seg 3 (set_uncached true) seg in
  let seg := on_seg 3 (set_amo_supported true) seg in
  on_seg 3 (set_wr_policy_hint WR_POLICY_AUTO) seg.
Definition random_seq : setup := {|
  su_segs := random_segs;
  su_seg := push 3 1 (push 2 33 (push 1 33 (push 0 33 [])));
  su_delay := random_delay;
  su_amo_sc_do := random_amo_sc_do;
  su_wr_policy := random_wr_policy;
  su_op := random_op;
  su_op_amo :=
    push_ops ([(HPDCACHE_REQ_LOAD, 800); (HPDCACHE_REQ_STORE, 600)] ++ cmo_ops ++ amo_ops);
  su_need_rsp := random_need_rsp;
  su_size := (0, LOG2_REQ_DATA_BYTES);
  su_fault := (if CONF_HPDCACHE_TEST_FAULT_INJ then push true 1 else fun b => b) (push false 99 []);
  su_fault_domain :=
    push CACHE_DAT 80 (if CONF_HPDCACHE_TEST_FAULT_INJ_DIR then push CACHE_DIR 20 [] else []);
  su_fault_double :=
    (if CONF_HPDCACHE_TEST_DOUBLE_FAULT_INJ then push true 5 else fun b => b) (push false 95 []);
  su_fault_way := push (0, HPDCACHE_WAYS - 1) 100 [];
|}.

(** [hpdcache_test_unique_set_seq]'s constructor: the settings of [seg[2]] that go
    to [seg[3]], which overwrites them, are the source's. *)
Definition unique_set_segs : list memory_segment :=
  let seg := segs_init 4 in
  let seg := on_seg 0 (set_base 0x00000000) seg in
  let seg := on_seg 0 (set_length 0x00004000) seg in
  let seg := on_seg 0 (set_uncached false) seg in
  let seg := on_seg 0 (set_amo_supported true) seg in
  let seg := on_seg 0 (set_wr_policy_hint WR_POLICY_RANDOM) seg in
  let seg := on_seg 1 (set_base 0x40004000) seg in
  let seg := on_seg 1 (set_length 0x00004000) seg in
  let seg := on_seg 1 (set_uncached false) seg in
  let seg := on_seg 1 (set_amo_supported true) seg in
  let seg := on_seg 1 (set_wr_policy_hint WR_POLICY_WB) seg in
  let seg := on_seg 2 (set_base 0x80008000) seg in
  let seg := on_seg 2 (set_length 0x00004000) seg in
  let seg := on_seg 2 (set_uncached false) seg in
  let seg := on_seg 3 (set_amo_supported true) seg in
  let seg := on_seg 3 (set_wr_policy_hint WR_POLICY_WT) seg in
  let seg := on_seg 3 (set_base 0xC000C000) seg in
  let seg := on_seg 3 (set_length 0x00004000) seg in
  let seg := on_seg 3 (set_uncached false) seg in
  let seg := on_seg 3 (set_amo_supported true) seg in
  on_seg 3 (set_wr_policy_hint WR_POLICY_AUTO) seg.
Definition unique_set_seq : setup := {|
  su_segs := unique_set_segs;
  su_seg := push 3 (100 / 4) (push 2 (100 / 4) (push 1 (100 / 4) (push 0 (100 / 4) [])));
  su_delay := random_delay;
  su_amo_sc_do := random_amo_sc_do;
  su_wr_policy := random_wr_policy;
  su_op := random_op;
  su_op_amo :=
    push_ops ([(HPDCACHE_REQ_LOAD, 400); (HPDCACHE_REQ_STORE, 350)] ++ cmo_ops ++ amo_ops);
  su_need_rsp := random_need_rsp;
  su_size := (0, LOG2_REQ_DATA_BYTES);
  su_fault := []; su_fault_domain := []; su_fault_double := []; su_fault_way := [];
|}.

(** The constructors of [hpdcache_test_read_seq] and [hpdcache_test_write_seq]; the
    size is restricted to 8 bytes when it is drawn. *)
Definition one_segment (length : Z) : list memory_segment :=
  let seg := segs_init 1 in
  let seg := on_seg 0 (set_base 0x00000000) seg in
  let seg := on_seg 0 (set_length length) seg in
  on_seg 0 (set_uncached false) seg.
Definition single_op_seq (length : Z) (op : hpdcache_req_op_e) : setup := {|
  su_segs := one_segment length; su_seg := [(0, 1)]; su_delay := [((0, 0), 1)];
  su_amo_sc_do := []; su_wr_policy := []; su_op := [(op_v op, 1)]; su_op_amo := [];
  su_need_rsp := []; su_size := (0, 3);
  su_fault := []; su_fault_domain := []; su_fault_double := []; su_fault_way := [];
|}.
Definition read_seq : setup := single_op_seq 0x00080000 HPDCACHE_REQ_LOAD.
Definition write_seq : setup := single_op_seq 0x00004000 HPDCACHE_REQ_STORE.

(** ** The values drawn for one transaction *)
Record draws := {
  d_seg : Z; d_addr : Z; d_op : Z; d_op_amo : Z; d_data : Z; d_size : Z;
  d_wr_policy : hpdcache_wr_policy_hint_e; d_need_rsp : bool;
  d_fault : bool; d_fault_way : Z; d_fault_domain : fault_domain_e; d_fault_double : bool;
}.

Definition create_random_data (d : draws) : Z := wrap HPDCACHE_REQ_DATA_WIDTH (d_data d).

Definition create_random_size (d : draws) (is_amo : bool) : Z :=
  let ret := u32 (d_size d) in
  if is_amo then (if 3 <=? ret then 3 else 2) else ret.

(** The write policy of a transaction in a segment. *)
Definition select_random_wr_policy (d : draws) (seg_wr_policy : wr_policy_e) : hpdcache_wr_policy_hint_e :=
  match seg_wr_policy with
  | WR_POLICY_RANDOM => d_wr_policy d
  | WR_POLICY_WB => HPDCACHE_WR_POLICY_WB
  | WR_POLICY_WT => HPDCACHE_WR_POLICY_WT
  | WR_POLICY_AUTO => HPDCACHE_WR_POLICY_AUTO
  end.

(** [((base + (addr % length)) / bytes) * bytes]; None divides by zero. *)
Definition segment_address (seg : memory_segment) (addr bytes : Z) : option Z :=
  if ms_length seg =? 0 then None
  else Some (u64 (u64 (ms_base seg + addr mod ms_length seg) / bytes * bytes)).

(** [((1UL << bytes) - 1) << offset], whose shifts are defined below 64. *)
Definition request_be (bytes offset : Z) : option Z :=
  if (bytes <? 64) && (offset <? 64) then
    Some (wrap (HPDCACHE_REQ_DATA_WIDTH / 8)
            (u64 (Z.shiftl (u64 (u64 (Z.shiftl 1 bytes) - 1)) offset)))
  else None.

Definition fault_of (d : draws) (t : transaction_req) : hpdcache_fault_injection_req :=
  if d_fault d then
    {| fault_valid := true; fault_set := get_cache_set t; fault_way := d_fault_way d;
       fault_word := get_cache_word t; fault_dom := d_fault_domain d;
       fault_mask := if d_fault_double d then 0xA0 else 0x20 |}
  else req_fault t.

(** The transaction, from the object [T()] the pool hands out. *)
Definition build (op wdata tid address be size : Z) (need_rsp uncacheable : bool)
    (hint : hpdcache_wr_policy_hint_e) : transaction_req :=
  {| req_id := req_id transaction_req_init; req_addr := wrap HPDCACHE_PA_WIDTH address;
     req_wdata := wrap HPDCACHE_REQ_DATA_WIDTH wdata; req_op := wrap HPDCACHE_REQ_OP_WIDTH op;
     req_be := be; req_size := wrap HPDCACHE_REQ_SIZE_WIDTH size; req_sid := 0;
     req_tid := wrap HPDCACHE_REQ_TRANS_ID_WIDTH tid;
     req_need_rsp := need_rsp; req_phys_indexed := false; req_uncacheable := uncacheable;
     req_io := req_io transaction_req_init; req_wr_policy_hint := hint; req_abort := false;
     req_fault := req_fault transaction_req_init |}.
Definition with_fault (f : hpdcache_fault_injection_req) (t : transaction_req) : transaction_req :=
  {| req_id := req_id t; req_addr := req_addr t; req_wdata := req_wdata t; req_op := req_op t;
     req_be := req_be t; req_size := req_size t; req_sid := req_sid t; req_tid := req_tid t;
     req_need_rsp := req_need_rsp t; req_phys_indexed := req_phys_indexed t;
     req_uncacheable := req_uncacheable t; req_io := req_io t;
     req_wr_policy_hint := req_wr_policy_hint t; req_abort := req_abort t; req_fault := f |}.

(** [req_is_amo] of an operation code. *)
Definition op_is_amo (op : Z) : bool :=
  let t := build op 0 0 0 0 0 false false HPDCACHE_WR_POLICY_AUTO in
  is_amo t || is_amo_sc t || is_amo_lr t.
Definition op_is_cmo (op : Z) : bool :=
  is_cmo (build op 0 0 0 0 0 false false HPDCACHE_WR_POLICY_AUTO).

(** The part [create_random_transaction] of both random sequences shares: from the
    address on. A CMO has no size, byte enable or cacheability; an atomic operation
    always wants a response. *)
Definition finish_random (seg : memory_segment) (d : draws) (op tid sz address : Z)
    : option transaction_req :=
  let req_is_amo := op_is_amo op in
  let hint := select_random_wr_policy d (ms_wr_policy_hint seg) in
  if op_is_cmo op then
    Some (build op (create_random_data d) tid address 0 0 (d_need_rsp d) false hint)
  else
    be ← request_be (Z.shiftl 1 sz) (address mod REQ_DATA_BYTES);
    Some (build op (create_random_data d) tid address be sz (req_is_amo || d_need_rsp d)
            (ms_uncached seg) hint).

Definition draw_op (seg : memory_segment) (d : draws) : Z :=
  if ms_amo_supported seg then d_op_amo d else d_op d.

(** [create_random_transaction] of [hpdcache_test_random_seq]. *)
Definition create_random_transaction (su : setup) (d : draws) (tid : Z) : option transaction_req :=
  seg ← su_segs su !! Z.to_nat (d_seg d);
  let op := draw_op seg d in
  let sz := create_random_size d (op_is_amo op) in
  address ← segment_address seg (d_addr d) (Z.shiftl 1 sz);
  t ← finish_random seg d op tid sz address;
  Some (with_fault (fault_of d t) t).

(** [create_random_addr] and [create_random_transaction] of
    [hpdcache_test_unique_set_seq], for the set drawn once. *)
Definition create_random_addr (set : Z) (seg : memory_segment) (addr bytes : Z) : option Z :=
  let _set_mask := Z.shiftl 1 HPDCACHE_SET_WIDTH - 1 in
  let set_mask := u64 (Z.shiftl _set_mask HPDCACHE_CL_OFFSET_WIDTH) in
  address ← segment_address seg addr bytes;
  Some (Z.lor (Z.ldiff address set_mask) (u64 (Z.shiftl set HPDCACHE_CL_OFFSET_WIDTH))).
Definition create_unique_set_transaction (su : setup) (set : Z) (d : draws) (tid : Z)
    : option transaction_req :=
  seg ← su_segs su !! Z.to_nat (d_seg d);
  let op := draw_op seg d in
  let sz := create_random_size d (op_is_amo op) in
  address ← create_random_addr set seg (d_addr d) (Z.shiftl 1 sz);
  finish_random seg d op tid sz address.

(** [create_sc_transaction(addr, uncacheable)] *)
Definition create_sc_transaction (d : draws) (addr : Z) (uncacheable : bool) (tid : Z)
    : option transaction_req :=
  let sz := create_random_size d true in
  let bytes := Z.shiftl 1 sz in
  let address := addr / bytes * bytes in
  be ← request_be bytes (address mod REQ_DATA_BYTES);
  Some (build (op_v HPDCACHE_REQ_AMO_SC) (create_random_data d) tid address be sz true uncacheable
          HPDCACHE_WR_POLICY_AUTO).

(** [hpdcache_test_unique_set_seq] has its own copy of it. *)
Definition unique_set_create_sc_transaction := create_sc_transaction.

(** [create_random_transaction] of the read and write sequences: [wdata] is 0 in the
    first and drawn in the second; [size->keep_only(0, 3)]. *)
Definition create_single_transaction (su : setup) (wdata : Z) (d : draws) (tid : Z)
    : option transaction_req :=
  seg ← su_segs su !! 0%nat;
  let sz := u32 (d_size d) in
  let bytes := Z.shiftl 1 sz in
  address ← segment_address seg (d_addr d) bytes;
  be ← request_be bytes (address mod REQ_DATA_BYTES);
  Some (build (d_op d) wdata tid address be sz true (ms_uncached seg) HPDCACHE_WR_POLICY_AUTO).
Definition create_read_transaction (d : draws) (tid : Z) : option transaction_req :=
  create_single_transaction read_seq 0 d tid.
Definition create_write_transaction (d : draws) (tid : Z) : option transaction_req :=
  create_single_transaction write_seq (create_random_data d) d tid.

(** ** The run of a sequence

    The loop of [run] as a machine: the main loop at iteration [n], the requests
    between an LR and its SC, the SC, and the end, where the null transaction stops
    the driver. One turn creates and sends one transaction. *)
Record seq_state := { q_ids : list Z; q_rng : rng; q_pool : Transaction_pool }.

Inductive run_phase :=
  | Main (n : nat)
  | Between (n : nat) (lr : transaction_req) (rest : nat)
  | Sc (n : nat) (lr : transaction_req)
  | Stop.

(** The inputs of a turn: the identifiers the scoreboard released before it, the
    values drawn for the transaction, the delay, and [amo_sc_do]. *)
Record turn := { tu_released : list Z; tu_draws : draws; tu_delay : Z; tu_sc_do : bool }.

Definition release_all (ids : list Z) (released : list Z) : list Z :=
  fold_left (fun ids id => (deallocate_id id ids).1) released ids.

(** Creating a transaction: an identifier, an object of the pool, its contents; and
    [send_transaction], which gives the object back. *)
Definition create_and_send (create : Z -> option transaction_req) (q : seq_state)
    : option (transaction_req * seq_state) :=
  '(r, p) ← acquire_transaction (q_pool q);
  '(tid, ids, g) ← allocate_id (q_ids q) (q_rng q);
  t ← create tid;
  Some (t, {| q_ids := ids; q_rng := g;
              q_pool := pool_release r (set_heap (<[r := t]> (pool_heap p)) p) |}).

Definition enter (max n : nat) : run_phase := if (n <? max)%nat then Main n else Stop.

Definition phase_next (max between : nat) (sc_do : bool) (ph : run_phase) (t : transaction_req) : run_phase :=
  match ph with
  | Main n =>
      if is_amo_lr t && sc_do then (match between with O => Sc n t | _ => Between n t between end)
      else enter max (S n)
  | Between n lr rest => match rest with S (S k) => Between n lr (S k) | _ => Sc n lr end
  | Sc n _ => enter max (S n)
  | Stop => Stop
  end.

(** One turn: None while no identifier is free (the sequence waits), and at the end. *)
Definition seq_turn (max between : nat) (create : draws -> Z -> option transaction_req)
    (tu : turn) (ph : run_phase) (q : seq_state) : option (transaction_req * run_phase * seq_state) :=
  let q := {| q_ids := release_all (q_ids q) (tu_released tu); q_rng := q_rng q; q_pool := q_pool q |} in
  c ← match ph with
      | Main _ | Between _ _ _ => Some (create (tu_draws tu))
      | Sc _ lr => Some (create_sc_transaction (tu_draws tu) (req_addr lr) (req_uncacheable lr))
      | Stop => None
      end;
  '(t, q) ← create_and_send c q;
  Some (t, phase_next max between (tu_sc_do tu) ph t, q).

(** The transactions sent over a list of turns, each with its phase and delay. *)
Fixpoint seq_run (max between : nat) (create : draws -> Z -> option transaction_req)
    (tus : list turn) (ph : run_phase) (q : seq_state)
    : option (list (run_phase * transaction_req * Z) * run_phase * seq_state) :=
  match tus with
  | [] => Some ([], ph, q)
  | tu :: tus =>
      '(t, ph', q) ← seq_turn max between create tu ph q;
      '(l, phn, q) ← seq_run max between create tus ph' q;
      Some ((ph, t, tu_delay tu) :: l, phn, q)
  end.
End SeqGen.
