(* ===== verification/SeqProps.v ===== *)
(** * The requests of the sequences are well formed

    What every created request satisfies, how the phases of a run follow each other,
    and the progress of a turn of any sequence ([seq_turn_steps]). *)
From S2P Require Import Prelude Defs Transaction MemModel Sequence MemResp SeqGen.

#[local] Arguments wrap : simpl never.

(** ** Creating and sending a transaction *)
Section Creation.
Context {cfg : HpdConfig} {wf : ConfigWf cfg}.

(** The invariant of the sequence between two turns, with no object held. *)
Record seq_inv (q : seq_state) : Prop := {
  si_ids : ids_wf (q_ids q);
  si_pool : pool_inv (q_pool q) ∅;
}.

Lemma release_all_wf ids released : ids_wf ids -> ids_wf (release_all ids released).
Proof.
  revert ids. induction released as [|id l IH]; intros ids H; [done|]. apply IH. by apply deallocate_wf.
Qed.

(** The steps of a creation: an object, a free identifier, the contents. *)
Lemma create_and_send_steps create q :
  seq_inv q -> is_available_id (q_ids q) = true ->
  exists r p tid g, acquire_transaction (q_pool q) = Some (r, p) /\ pool_inv p {[r]}
    /\ allocate_id (q_ids q) (q_rng q) = Some (tid, q_ids q ++ [tid], g)
    /\ tid ∉ q_ids q /\ ids_wf (q_ids q ++ [tid]) /\ 0 <= tid < HPDCACHE_REQ_MAX_TRANS_ID
    /\ wrap HPDCACHE_REQ_TRANS_ID_WIDTH tid = tid
    /\ create_and_send create q =
         (t ← create tid;
          Some (t, {| q_ids := q_ids q ++ [tid]; q_rng := g;
                      q_pool := pool_release r (set_heap (<[r := t]> (pool_heap p)) p) |})).
Proof.
  intros [Hids Hpool] Hav.
  destruct (pool_acquire_inv (q_pool q) ∅ Hpool) as (r & p & Hacq & _).
  assert (acquire_transaction (q_pool q) = Some (r, set_heap (<[r := transaction_req_init]> (pool_heap p)) p))
    as Hat by (unfold acquire_transaction; by rewrite Hacq).
  pose proof (pool_step_inv _ _ (pool_step_acquire _ ∅ _ _ Hat) Hpool) as Hp'. simpl in Hp'.
  rewrite union_empty_r_L in Hp'.
  destruct (allocate_id_ok (q_ids q) (q_rng q) Hids Hav) as (id & g' & Hal & Hid & Hwf & _).
  assert (0 <= id < HPDCACHE_REQ_MAX_TRANS_ID) as Hr.
  { destruct Hwf as [_ Hr]. apply Forall_app in Hr as [_ Hr]. by apply list.Forall_cons in Hr as [Hr _]. }
  exists r, (set_heap (<[r := transaction_req_init]> (pool_heap p)) p), id, g'. split_and!; try done; try apply Hr.
  - apply wrap_small. unfold is_word. unfold HPDCACHE_REQ_MAX_TRANS_ID in Hr.
    pose proof cfg_ids as [_ Hi]. rewrite Z.shiftl_mul_pow2, Z.mul_1_l in Hr; lia.
  - unfold create_and_send. by rewrite Hat, Hal.
Qed.

(** The object goes back to the pool. *)
Lemma sent_pool_inv p r t :
  pool_inv p {[r]} -> pool_inv (pool_release r (set_heap (<[r := t]> (pool_heap p)) p)) ∅.
Proof.
  intros Hp. assert (pool_inv (set_heap (<[r := t]> (pool_heap p)) p) {[r]}) as Hp2
    by (apply set_heap_inv; [done|set_solver]).
  pose proof (pool_step_inv _ _ (pool_step_release _ {[r]} r (elem_of_singleton_2 _ _ eq_refl)) Hp2) as Hp3.
  simpl in Hp3. by rewrite difference_diag_L in Hp3.
Qed.

Lemma create_and_send_inv create q t q' :
  seq_inv q -> (forall tid t, create tid = Some t -> req_tid t = wrap HPDCACHE_REQ_TRANS_ID_WIDTH tid) ->
  create_and_send create q = Some (t, q') ->
  seq_inv q' /\ req_tid t ∉ q_ids q /\ q_ids q' = q_ids q ++ [req_tid t].
Proof.
  intros Hq Hcr Hs. destruct (is_available_id (q_ids q)) eqn:Hav.
  - destruct (create_and_send_steps create q Hq Hav)
      as (r & p & tid & g & _ & Hp & _ & Hfresh & Hwf & _ & Hw & E). rewrite E in Hs.
    apply bind_Some in Hs as (t' & Ht & [= -> <-]). simpl. rewrite (Hcr _ _ Ht), Hw.
    split_and!; [|done..]. constructor; simpl; [done|by apply sent_pool_inv].
  - unfold create_and_send, allocate_id in Hs. rewrite Hav in Hs.
    by destruct (acquire_transaction (q_pool q)) as [[]|].
Qed.

Lemma create_and_send_ok create q :
  seq_inv q -> is_available_id (q_ids q) = true ->
  (forall tid, 0 <= tid < HPDCACHE_REQ_MAX_TRANS_ID ->
     exists t, create tid = Some t /\ req_tid t = wrap HPDCACHE_REQ_TRANS_ID_WIDTH tid) ->
  exists t q', create_and_send create q = Some (t, q') /\ seq_inv q'
    /\ req_tid t ∉ q_ids q /\ q_ids q' = q_ids q ++ [req_tid t].
Proof.
  intros Hq Hav Hcr. destruct (create_and_send_steps create q Hq Hav)
    as (r & p & tid & g & _ & Hp & _ & Hfresh & Hwf & Hr & Hw & E).
  destruct (Hcr tid Hr) as (t & Ht & Htid). rewrite Ht in E. rewrite Hw in Htid. subst tid.
  eexists t, _. split; [exact E|]. split_and!; [|done..].
  constructor; simpl; [done|by apply sent_pool_inv].
Qed.

End Creation.

Section Requests.
Context {cfg : HpdConfig} {wf : ConfigWf cfg} {fcfg : FaultConfig}.

(** Requests of up to 32 bytes. *)
Context (lg : Z) (Hlg : 2 <= lg <= 5) (Hbytes : REQ_DATA_BYTES = 2 ^ lg).

Lemma log2_bytes : LOG2_REQ_DATA_BYTES = lg.
Proof using Hlg Hbytes. unfold LOG2_REQ_DATA_BYTES. rewrite Hbytes. apply LOG2_pow2. lia. Qed.

(** What the cache and the scoreboard expect of a request. *)
Record request_ok (segs : list memory_segment) (t : transaction_req) : Prop := {
  rk_segment : exists seg, seg ∈ segs /\ ms_base seg <= req_addr t < ms_base seg + ms_length seg;
  rk_op : is_Some (req_op_of_value (req_op t));
  rk_size : 0 <= req_size t <= lg;
  rk_aligned : is_cmo t = false -> (2 ^ req_size t | req_addr t);
  rk_fits : is_cmo t = false -> req_addr t mod REQ_DATA_BYTES + 2 ^ req_size t <= REQ_DATA_BYTES;
  rk_be : is_cmo t = false -> forall k, 0 <= k ->
    Z.testbit (req_be t) k = (req_addr t mod REQ_DATA_BYTES <=? k)
                             && (k <? req_addr t mod REQ_DATA_BYTES + 2 ^ req_size t);
  rk_cmo : is_cmo t = true -> req_be t = 0 /\ req_size t = 0 /\ req_uncacheable t = false;
  rk_atomic : is_amo t || is_amo_sc t || is_amo_lr t = true ->
    (req_size t = 2 \/ req_size t = 3) /\ req_need_rsp t = true;
}.

(** A segment whose bounds are multiples of the size of a request. *)
Record segment_ok (seg : memory_segment) : Prop := {
  sg_base : 0 <= ms_base seg;
  sg_length : 0 < ms_length seg;
  sg_end : ms_base seg + ms_length seg <= 2 ^ 32;
  sg_base_aligned : (2 ^ 14 | ms_base seg);
  sg_length_aligned : (2 ^ 14 | ms_length seg);
}.

Lemma segment_address_spec seg addr sz :
  segment_ok seg -> 0 <= sz <= 5 ->
  exists a, segment_address seg addr (2 ^ sz) = Some a
    /\ ms_base seg <= a < ms_base seg + ms_length seg /\ (2 ^ sz | a).
Proof.
  intros [Hb Hl He Hba Hla] Hsz. unfold segment_address.
  rewrite (proj2 (Z.eqb_neq _ _)) by lia. eexists. split; [done|].
  pose proof (Z.mod_pos_bound addr (ms_length seg) ltac:(lia)) as Hm.
  remember (ms_base seg + addr mod ms_length seg) as x eqn:Hx.
  assert (0 < 2 ^ sz) as Hp by (apply Z.pow_pos_nonneg; lia).
  rewrite (wrap_small 64 x) by (unfold is_word; lia).
  pose proof (Z.div_mod x (2 ^ sz) ltac:(lia)) as Hdm.
  pose proof (Z.mod_pos_bound x (2 ^ sz) Hp) as Hmx.
  assert (0 <= x / 2 ^ sz * 2 ^ sz) by (apply Z.mul_nonneg_nonneg; [apply Z.div_pos|]; lia).
  rewrite wrap_small by (unfold is_word; lia).
  assert ((2 ^ sz | ms_base seg)) as [k Hk].
  { transitivity (2 ^ 14); [|done]. exists (2 ^ (14 - sz)). rewrite <-Z.pow_add_r by lia. f_equal. lia. }
  split; [|by exists (x / 2 ^ sz)]. split; [|lia].
  rewrite Hk. apply Z.mul_le_mono_nonneg_r; [lia|]. apply Z.div_le_lower_bound; [done|]. lia.
Qed.

Lemma request_be_spec sz offset :
  0 <= sz <= 5 -> 0 <= offset -> offset + 2 ^ sz <= REQ_DATA_BYTES ->
  exists be, request_be (2 ^ sz) offset = Some be /\
    forall k, 0 <= k -> Z.testbit be k = (offset <=? k) && (k <? offset + 2 ^ sz).
Proof using Hlg Hbytes.
  intros Hsz Ho Hle. assert (2 ^ sz <= 2 ^ 5) by (apply Z.pow_le_mono_r; lia).
  assert (2 ^ lg <= 2 ^ 5) by (apply Z.pow_le_mono_r; lia). change (2 ^ 5) with 32 in *.
  assert (0 < 2 ^ sz) by (apply Z.pow_pos_nonneg; lia).
  unfold request_be. rewrite (proj2 (Z.ltb_lt (2 ^ sz) 64)), (proj2 (Z.ltb_lt offset 64)) by lia. simpl.
  eexists. split; [done|]. intros k Hk. fold REQ_DATA_BYTES.
  assert (u64 (u64 (Z.shiftl 1 (2 ^ sz)) - 1) = Z.ones (2 ^ sz)) as ->.
  { rewrite Z.ones_equiv, Z.shiftl_mul_pow2, Z.mul_1_l by lia.
    assert (2 ^ (2 ^ sz) <= 2 ^ 32) by (apply Z.pow_le_mono_r; lia).
    assert (0 < 2 ^ (2 ^ sz)) by (apply Z.pow_pos_nonneg; lia).
    rewrite (wrap_small 64 (2 ^ 2 ^ sz)) by (unfold is_word; lia).
    rewrite wrap_small; [lia|]. unfold is_word. lia. }
  rewrite !testbit_wrap, testbit_shiftl, testbit_ones by lia.
  split_cmps; simpl; rewrite ?andb_true_r, ?andb_false_r; done.
Qed.

(** The offset of an aligned access in a request. *)
Lemma aligned_in_request a sz :
  0 <= sz <= lg -> (2 ^ sz | a) ->
  0 <= a mod REQ_DATA_BYTES /\ a mod REQ_DATA_BYTES + 2 ^ sz <= REQ_DATA_BYTES.
Proof using Hlg Hbytes.
  intros Hsz [q ->]. rewrite Hbytes.
  assert (2 ^ lg = 2 ^ sz * 2 ^ (lg - sz)) as Hs by (rewrite <-Z.pow_add_r by lia; f_equal; lia).
  assert (0 < 2 ^ sz) by (apply Z.pow_pos_nonneg; lia).
  assert (0 < 2 ^ (lg - sz)) by (apply Z.pow_pos_nonneg; lia).
  rewrite Hs, (Z.mul_comm q), Zmult_mod_distr_l.
  pose proof (Z.mod_pos_bound q (2 ^ (lg - sz)) ltac:(lia)). nia.
Qed.

(** ** Drawn values *)
Definition draw_ok (su : setup) (d : draws) : Prop :=
  drawn (su_seg su) (d_seg d) /\ drawn (su_op su) (d_op d) /\ drawn (su_op_amo su) (d_op_amo d)
  /\ (su_size su).1 <= d_size d <= (su_size su).2.

Definition op_known (op : Z) : bool :=
  (0 <=? op) && (op <? 32) && bool_decide (is_Some (req_op_of_value op)).

Lemma drawn_forallb {A} (P : A -> bool) (b : bag A) x :
  forallb (fun p => P p.1) b = true -> drawn b x -> P x = true.
Proof.
  intros Hb (w & Hin & _). rewrite forallb_forall in Hb.
  apply (Hb (x, w)). by apply list_elem_of_In.
Qed.

Lemma create_size_bounds d is_amo :
  0 <= d_size d <= LOG2_REQ_DATA_BYTES ->
  0 <= create_random_size d is_amo <= lg
  /\ (is_amo = true -> create_random_size d is_amo = 2 \/ create_random_size d is_amo = 3).
Proof using Hlg Hbytes.
  rewrite log2_bytes. intros H. unfold create_random_size.
  rewrite wrap_small by (unfold is_word; lia).
  destruct is_amo; [|by split; [|]].
  destruct (Z.leb_spec 3 (d_size d)); split; lia || auto.
Qed.

(** An address space that holds the segments. *)
Context (Hpa : 32 <= HPDCACHE_PA_WIDTH).

Lemma wrap_op op : op_known op = true -> wrap HPDCACHE_REQ_OP_WIDTH op = op /\ is_Some (req_op_of_value op).
Proof.
  unfold op_known. rewrite !andb_true_iff, Z.leb_le, Z.ltb_lt, bool_decide_eq_true.
  intros [[]]. split; [|done]. apply wrap_small. unfold is_word, HPDCACHE_REQ_OP_WIDTH. lia.
Qed.

Lemma segments_ok segs :
  segs = random_segs \/ segs = unique_set_segs ->
  Forall segment_ok segs /\ length segs = 4%nat.
Proof using Hlg Hpa fcfg.
  assert (forall x, 0 <= x < 2 ^ 32 -> wrap HPDCACHE_PA_WIDTH x = x) as Hw.
  { intros x Hx. apply wrap_small. unfold is_word.
    assert (2 ^ 32 <= 2 ^ HPDCACHE_PA_WIDTH) by (apply Z.pow_le_mono_r; lia). lia. }
  intros [-> | ->]; (split; [|done]); cbv [random_segs unique_set_segs segs_init on_seg];
    simpl; cbv [set_base set_length set_uncached set_amo_supported set_wr_policy_hint memory_segment_init
      ms_base ms_length ms_uncached ms_amo_supported ms_wr_policy_hint]; rewrite !Hw by lia;
    repeat (apply list.Forall_cons; split; [|]); try apply list.Forall_nil_2;
    (constructor; cbn [ms_base ms_length]; [lia|lia|lia|..];
     apply Z.mod_divide; done).
Qed.

Lemma amo_not_cmo op : op_is_amo op = true -> op_is_cmo op = false.
Proof.
  unfold op_is_amo, op_is_cmo, is_amo, is_amo_sc, is_amo_lr, is_cmo. cbn [req_op build].
  generalize (wrap HPDCACHE_REQ_OP_WIDTH op). intros x Hx.
  rewrite !orb_true_iff, !Z.eqb_eq in Hx. rewrite !orb_false_iff, !Z.eqb_neq. cbn in *. lia.
Qed.

(** The transaction both random sequences finish, at an address of the segment. *)
Lemma finish_random_ok segs seg d op tid address :
  let sz := create_random_size d (op_is_amo op) in
  seg ∈ segs -> segment_ok seg -> op_known op = true -> 0 <= d_size d <= LOG2_REQ_DATA_BYTES ->
  ms_base seg <= address < ms_base seg + ms_length seg -> (2 ^ sz | address) ->
  exists t, finish_random seg d op tid sz address = Some t /\ request_ok segs t
    /\ req_addr t = address /\ req_op t = op.
Proof using Hlg Hbytes Hpa fcfg.
  intros sz Hseg Hok Hop Hd Ha Hdiv. destruct (wrap_op op Hop) as [Hwop Hsome].
  destruct (create_size_bounds d (op_is_amo op) Hd) as [Hsz Hamo]. fold sz in Hsz, Hamo.
  destruct Hok as [Hb Hl He _ _].
  assert (wrap HPDCACHE_PA_WIDTH address = address) as Hwa.
  { apply wrap_small. unfold is_word.
    assert (2 ^ 32 <= 2 ^ HPDCACHE_PA_WIDTH) by (apply Z.pow_le_mono_r; lia). lia. }
  assert (wrap HPDCACHE_REQ_SIZE_WIDTH sz = sz) as Hws.
  { apply wrap_small. unfold is_word, HPDCACHE_REQ_SIZE_WIDTH. lia. }
  unfold finish_random. rewrite Z.shiftl_mul_pow2, Z.mul_1_l by lia.
  destruct (aligned_in_request address sz Hsz Hdiv) as [Hf0 Hf].
  assert (forall w i b z n u h, is_cmo (build op w i address b z n u h) = op_is_cmo op) as Kc by done.
  assert (forall w i b z n u h, let t := build op w i address b z n u h in
            is_amo t || is_amo_sc t || is_amo_lr t = op_is_amo op) as Ka by done.
  destruct (op_is_cmo op) eqn:Hc.
  - eexists. split; [done|]. split; [|by simpl].
    constructor; rewrite ?Kc, ?Ka; try done;
      cbn [build req_addr req_op req_be req_size req_need_rsp req_uncacheable]; rewrite ?Hwa, ?Hwop.
    + eauto.
    + done.
    + change (wrap HPDCACHE_REQ_SIZE_WIDTH 0) with 0. lia.
    + intros Hx. by rewrite (amo_not_cmo op Hx) in Hc.
  - destruct (request_be_spec sz (address mod REQ_DATA_BYTES)) as (be & -> & Hbe); [lia|lia|lia|].
    simpl. eexists. split; [done|]. split; [|by simpl].
    constructor; rewrite ?Kc, ?Ka; try done;
      cbn [build req_addr req_op req_be req_size req_need_rsp req_uncacheable];
      rewrite ?Hwa, ?Hwop, ?Hws; auto; [by eauto|].
    intros Hx. rewrite Hx in *. split; [|done]. by apply Hamo.
Qed.

Lemma draw_segment su d :
  su = random_seq \/ su = unique_set_seq -> draw_ok su d ->
  exists seg, su_segs su !! Z.to_nat (d_seg d) = Some seg /\ segment_ok seg
    /\ op_known (draw_op seg d) = true /\ 0 <= d_size d <= LOG2_REQ_DATA_BYTES.
Proof using Hlg Hpa fcfg.
  intros Hsu (Hs & Ho & Ha & Hz).
  assert (su_segs su = random_segs \/ su_segs su = unique_set_segs) as Hsegs.
  { destruct Hsu as [-> | ->]; simpl; auto. }
  apply segments_ok in Hsegs as [Hok Hlen].
  assert ((0 <=? d_seg d) && (d_seg d <? 4) = true) as Hseg.
  { apply (drawn_forallb (fun n => (0 <=? n) && (n <? 4)) (su_seg su)); [|done].
    by destruct Hsu as [-> | ->]. }
  apply andb_true_iff in Hseg as [Hs0%Z.leb_le Hs4%Z.ltb_lt].
  destruct (lookup_lt_is_Some_2 (su_segs su) (Z.to_nat (d_seg d)) ltac:(lia)) as [seg Hseg].
  exists seg. split; [done|]. split; [by eapply list.Forall_lookup_1|].
  assert (op_known (d_op d) = true /\ op_known (d_op_amo d) = true) as [Ko Ka].
  { split; [apply (drawn_forallb op_known (su_op su))|apply (drawn_forallb op_known (su_op_amo su))];
      try done; by destruct Hsu as [-> | ->]. }
  split; [unfold draw_op; by destruct (ms_amo_supported seg)|]. by destruct Hsu as [-> | ->].
Qed.

Lemma request_ok_fault segs f t : request_ok segs t -> request_ok segs (with_fault f t).
Proof. by intros []. Qed.

Lemma random_ok d tid :
  draw_ok random_seq d ->
  exists t, create_random_transaction random_seq d tid = Some t /\ request_ok random_segs t.
Proof using Hlg Hbytes Hpa fcfg.
  intros Hd. destruct (draw_segment random_seq d (or_introl eq_refl) Hd) as (seg & Hseg & Hok & Hop & Hz).
  destruct (create_size_bounds d (op_is_amo (draw_op seg d)) Hz) as [Hsz _].
  destruct (segment_address_spec seg (d_addr d) _ Hok (conj (proj1 Hsz) (Z.le_trans _ _ _ (proj2 Hsz) (proj2 Hlg))))
    as (a & Ha & Hin & Hdiv).
  destruct (finish_random_ok random_segs seg d (draw_op seg d) tid a) as (t & Ht & Hrok & _); try done.
  { by eapply list_elem_of_lookup_2. }
  unfold create_random_transaction. rewrite Hseg. simpl.
  rewrite Z.shiftl_mul_pow2, Z.mul_1_l, Ha by lia. simpl. rewrite Ht. simpl.
  eexists. split; [done|]. by apply request_ok_fault.
Qed.

Lemma random_total d tid :
  draw_ok random_seq d -> exists t, create_random_transaction random_seq d tid = Some t.
Proof using Hlg Hbytes Hpa fcfg.
  intros Hd. destruct (random_ok d tid Hd) as (t & Ht & _). eauto.
Qed.

(** C24: Every transaction the random sequence creates is well formed: its address lies in one of the segments and is aligned on its size, it does not cross the bytes of a request, its byte enable is exactly the bytes it accesses, its operation is a defined one, an atomic operation is 4 or 8 bytes and wants a response, and a cache management operation carries no bytes. *)
Theorem random_request_ok d tid :
  draw_ok random_seq d ->
  exists t, create_random_transaction random_seq d tid = Some t /\ request_ok random_segs t.
Proof using Hlg Hbytes Hpa fcfg. apply random_ok. Qed.

(** The address of the unique-set sequence: the block of [2^14] bytes and the offset
    in the line are kept, the set is replaced. *)
Lemma create_random_addr_spec set seg addr sz :
  segment_ok seg -> 0 <= sz <= lg -> lg <= HPDCACHE_CL_OFFSET_WIDTH -> is_word HPDCACHE_SET_WIDTH set ->
  HPDCACHE_SET_WIDTH + HPDCACHE_CL_OFFSET_WIDTH <= 14 ->
  exists a, create_random_addr set seg addr (2 ^ sz) = Some a
    /\ ms_base seg <= a < ms_base seg + ms_length seg /\ (2 ^ sz | a)
    /\ Z.land (Z.shiftr a HPDCACHE_CL_OFFSET_WIDTH) (Z.shiftl 1 HPDCACHE_SET_WIDTH - 1) = set.
Proof using Hlg.
  intros Hok Hsz Hline Hset Hgeo. unfold create_random_addr.
  assert (0 <= HPDCACHE_SET_WIDTH) as Hw by apply LOG2_nonneg.
  destruct (segment_address_spec seg addr sz Hok ltac:(lia)) as (a & -> & Hin & Hdiv). simpl.
  assert (Z.shiftl 1 HPDCACHE_SET_WIDTH - 1 = Z.ones HPDCACHE_SET_WIDTH) as ->.
  { rewrite Z.ones_equiv, Z.shiftl_mul_pow2; lia. }
  set (off := HPDCACHE_CL_OFFSET_WIDTH) in *. set (sw := HPDCACHE_SET_WIDTH) in *.
  eexists. split; [done|].
  set (a' := Z.lor _ _).
  assert (forall i, 0 <= i -> Z.testbit a' i = if (off <=? i) && (i <? off + sw) then Z.testbit set (i - off)
                                     else Z.testbit a i) as Hbit.
  { intros i Hi. unfold a'.
    rewrite Z.lor_spec, Z.ldiff_spec, !testbit_wrap, !testbit_shiftl, testbit_ones by lia.
    destruct (Z.testbit set (i - off)) eqn:Es.
    - assert (off <= i < off + sw).
      { split; [destruct (Z.lt_ge_cases i off); [by rewrite Z.testbit_neg_r in Es by lia|done]|].
        destruct (Z.lt_ge_cases i (off + sw)); [done|]. by rewrite (testbit_word sw) in Es by (done || lia). }
      split_cmps; simpl; by rewrite ?orb_true_r.
    - split_cmps; simpl; rewrite ?andb_true_r, ?andb_false_r, ?orb_false_r; done. }
  assert (a' / 2 ^ 14 = a / 2 ^ 14) as Hblk.
  { rewrite <-!Z.shiftr_div_pow2 by lia. apply Z.bits_inj'. intros i Hi.
    rewrite !Z.shiftr_spec, Hbit by lia. split_cmps; done. }
  split.
  { destruct Hok as [Hb Hl He [b Hb'] [l Hl']]. change (2 ^ 14) with 16384 in *.
    assert (0 <= a') by (apply Z.lor_nonneg; split; [apply Z.ldiff_nonneg; lia|apply wrap_word; lia]).
    Z.to_euclidean_division_equations. lia. }
  split.
  - apply Z.mod_divide; [apply Z.pow_nonzero; lia|].
    apply Z.mod_divide in Hdiv; [|apply Z.pow_nonzero; lia].
    rewrite <-Hdiv. apply Z.bits_inj'. intros i Hi.
    destruct (Z.lt_ge_cases i sz).
    + rewrite !Z.mod_pow2_bits_low, Hbit by lia. split_cmps; done.
    + by rewrite !Z.mod_pow2_bits_high by lia.
  - apply Z.bits_inj'. intros i Hi. rewrite Z.land_spec, testbit_shiftr, testbit_ones, Hbit by lia.
    destruct (Z.lt_ge_cases i sw).
    + split_cmps; simpl. replace (i + off - off) with i by lia. by rewrite andb_true_r.
    + rewrite (testbit_word sw set i) by done. split_cmps; by rewrite ?andb_false_r.
Qed.

(** All the requests of the unique-set sequence fall in the set it drew, whatever their segment, and are as well formed as those of the random sequence. *)
Theorem unique_set_request_ok set d tid :
  draw_ok unique_set_seq d -> is_word HPDCACHE_SET_WIDTH set ->
  lg <= HPDCACHE_CL_OFFSET_WIDTH -> HPDCACHE_SET_WIDTH + HPDCACHE_CL_OFFSET_WIDTH <= 14 ->
  exists t, create_unique_set_transaction unique_set_seq set d tid = Some t
    /\ request_ok unique_set_segs t /\ get_cache_set t = set.
Proof using Hlg Hbytes Hpa fcfg.
  intros Hd Hset Hline Hgeo.
  destruct (draw_segment unique_set_seq d (or_intror eq_refl) Hd) as (seg & Hseg & Hok & Hop & Hz).
  destruct (create_size_bounds d (op_is_amo (draw_op seg d)) Hz) as [Hsz _].
  destruct (create_random_addr_spec set seg (d_addr d) _ Hok Hsz Hline Hset Hgeo) as (a & Ha & Hin & Hdiv & Hrange).
  destruct (finish_random_ok unique_set_segs seg d (draw_op seg d) tid a) as (t & Ht & Hrok & Hta & _); try done.
  { by eapply list_elem_of_lookup_2. }
  unfold create_unique_set_transaction. rewrite Hseg. simpl.
  rewrite Z.shiftl_mul_pow2, Z.mul_1_l, Ha by lia. simpl.
  exists t. split; [done|]. split; [done|]. unfold get_cache_set. rewrite Hta. exact Hrange.
Qed.

(** ** The run *)

(** The phases follow each other as [phase_next] says. *)
Lemma seq_run_phases max between create tus : forall ph q l phn q',
  seq_run max between create tus ph q = Some (l, phn, q') ->
  length l = length tus /\
  (forall p, l !! 0%nat = Some p -> p.1.1 = ph) /\
  (forall i p tu, l !! i = Some p -> tus !! i = Some tu ->
     phase_next max between (tu_sc_do tu) p.1.1 p.1.2 =
     match l !! S i with Some p' => p'.1.1 | None => phn end) /\
  (forall i p tu, l !! i = Some p -> tus !! i = Some tu ->
     match p.1.1 with
     | Main _ | Between _ _ _ => exists tid, create (tu_draws tu) tid = Some p.1.2
     | Sc _ lr => exists tid, create_sc_transaction (tu_draws tu) (req_addr lr) (req_uncacheable lr) tid
                              = Some p.1.2
     | Stop => False
     end).
Proof.
  induction tus as [|tu tus IH]; intros ph q l phn q' H; cbn [seq_run] in H.
  { injection H as <- <- <-. split_and!; try done. }
  apply bind_Some in H as ([[t ph'] q1] & H1 & H).
  apply bind_Some in H as ([[l' phn'] q2] & H2 & [= <- <- <-]).
  destruct (IH _ _ _ _ _ H2) as (Hlen & H0 & Hnext & Hcr). clear IH.
  unfold seq_turn in H1. apply bind_Some in H1 as (c & Hc & H1).
  apply bind_Some in H1 as ([t' q3] & Hs & [= <- <- <-]).
  assert (exists tid, c tid = Some t') as [tid Htid].
  { unfold create_and_send in Hs. apply bind_Some in Hs as ([r p] & _ & Hs).
    apply bind_Some in Hs as ([[tid ids] g] & _ & Hs).
    apply bind_Some in Hs as (t & Ht & [= <- _]). eauto. }
  split; [simpl; lia|]. split; [by intros p [= <-]|]. split.
  - intros [|i] p tu' Hp Htu; simpl in Hp, Htu.
    + injection Hp as <-. injection Htu as <-. simpl. destruct l' as [|p' l'']; simpl.
      * destruct tus; [|done]. simpl in H2. by injection H2 as <- _.
      * symmetry. by apply (H0 p').
    + by apply (Hnext i p tu').
  - intros [|i] p tu' Hp Htu; simpl in Hp, Htu; [|by apply (Hcr i p tu')].
    injection Hp as <-. injection Htu as <-. simpl.
    destruct ph; try done; injection Hc as <-; eauto.
Qed.

(** The SC of a reservation accesses its 8-byte word. *)
Lemma create_sc_spec d addr u tid t :
  create_sc_transaction d addr u tid = Some t -> is_word HPDCACHE_PA_WIDTH addr ->
  is_amo_sc t = true /\ req_uncacheable t = u /\ req_need_rsp t = true /\ req_addr t / 8 = addr / 8
  /\ req_tid t = wrap HPDCACHE_REQ_TRANS_ID_WIDTH tid.
Proof.
  intros H [Ha0 Ha]. unfold create_sc_transaction in H. apply bind_Some in H as (be & _ & [= <-]).
  split; [done|]. split; [done|]. split; [done|]. split; [|done]. cbn [build req_addr].
  set (x := addr / _ * _).
  assert (0 <= x <= addr /\ x / 8 = addr / 8) as [Hx Hx8].
  { unfold x, create_random_size. destruct (3 <=? u32 (d_size d));
      [change (Z.shiftl 1 3) with 8|change (Z.shiftl 1 2) with 4];
      Z.to_euclidean_division_equations; lia. }
  rewrite wrap_small; [done|]. unfold is_word. lia.
Qed.

Lemma create_sc_total d addr u tid :
  exists t, create_sc_transaction d addr u tid = Some t /\ req_tid t = wrap HPDCACHE_REQ_TRANS_ID_WIDTH tid.
Proof using Hlg Hbytes.
  unfold create_sc_transaction, request_be.
  assert (REQ_DATA_BYTES <= 32 /\ 0 < REQ_DATA_BYTES) as [Hle Hpos].
  { rewrite Hbytes. split; [change 32 with (2 ^ 5); apply Z.pow_le_mono_r; lia|apply Z.pow_pos_nonneg; lia]. }
  assert (Z.shiftl 1 (create_random_size d true) < 64) as Hb.
  { unfold create_random_size. by destruct (3 <=? u32 (d_size d)). }
  rewrite (proj2 (Z.ltb_lt _ 64) Hb). simpl.
  rewrite (proj2 (Z.ltb_lt _ 64)); [simpl; eauto|].
  eapply Z.lt_le_trans; [apply Z.mod_pos_bound; done|lia].
Qed.

Lemma finish_random_fields seg d op tid sz a t :
  finish_random seg d op tid sz a = Some t ->
  is_word HPDCACHE_PA_WIDTH (req_addr t) /\ req_tid t = wrap HPDCACHE_REQ_TRANS_ID_WIDTH tid.
Proof using All.
  unfold finish_random. destruct (op_is_cmo _).
  - intros [= <-]. simpl. split; [apply wrap_word; lia|done].
  - intros H. apply bind_Some in H as (be & _ & [= <-]). simpl. split; [apply wrap_word; lia|done].
Qed.

Lemma create_random_fields d tid t :
  create_random_transaction random_seq d tid = Some t ->
  is_word HPDCACHE_PA_WIDTH (req_addr t) /\ req_tid t = wrap HPDCACHE_REQ_TRANS_ID_WIDTH tid.
Proof using All.
  intros H. unfold create_random_transaction in H. apply bind_Some in H as (seg & _ & H).
  apply bind_Some in H as (a & _ & H). apply bind_Some in H as (t' & Ht & [= <-]). simpl.
  by eapply finish_random_fields.
Qed.

Lemma create_unique_set_fields set d tid t :
  create_unique_set_transaction unique_set_seq set d tid = Some t ->
  is_word HPDCACHE_PA_WIDTH (req_addr t) /\ req_tid t = wrap HPDCACHE_REQ_TRANS_ID_WIDTH tid.
Proof using All.
  intros H. unfold create_unique_set_transaction in H. apply bind_Some in H as (seg & _ & H).
  apply bind_Some in H as (a & _ & H). by eapply finish_random_fields.
Qed.

(** The phases of the turns after an LR whose SC will be sent. *)
Lemma lr_phases max between tus q l phn q' ph i n t dl tu :
  seq_run max between (create_random_transaction random_seq) tus ph q = Some (l, phn, q') ->
  l !! i = Some (Main n, t, dl) -> tus !! i = Some tu -> is_amo_lr t = true -> tu_sc_do tu = true ->
  forall j p, (j <= between)%nat -> l !! (i + S j)%nat = Some p ->
  p.1.1 = (if decide (j = between) then Sc n t else Between n t (between - j)).
Proof.
  intros Hrun Hi Htu Hlr Hsc. destruct (seq_run_phases _ _ _ _ _ _ _ _ _ Hrun) as (Hlen & _ & Hnext & _).
  induction j as [|j IH]; intros p Hj Hp.
  - pose proof (Hnext i _ tu Hi Htu) as Hn. simpl in Hn.
    replace (i + 1)%nat with (S i) in Hp by lia. rewrite Hp, Hlr, Hsc in Hn. simpl in Hn. rewrite <-Hn.
    by destruct between.
  - assert (i + S j < length l)%nat as Hlt.
    { apply lookup_lt_Some in Hp. lia. }
    destruct (lookup_lt_is_Some_2 _ _ Hlt) as [p' Hp'].
    destruct (lookup_lt_is_Some_2 tus (i + S j) ltac:(lia)) as [tu' Htu'].
    pose proof (Hnext _ _ _ Hp' Htu') as Hn. rewrite (IH p' ltac:(lia) Hp') in Hn.
    rewrite decide_False in Hn by lia. replace (i + S (S j))%nat with (S (i + S j)) in Hp by lia.
    rewrite Hp in Hn. rewrite <-Hn. cbn [phase_next].
    destruct (between - j)%nat as [|[|k]] eqn:Ek; [lia| |].
    + rewrite decide_True by lia. done.
    + rewrite decide_False by lia. do 2 f_equal. lia.
Qed.

(** C36: When the random sequence decides to follow an LR with an SC, it sends the number of requests drawn for this purpose, then an SC with a response to the same 8-byte word, of the same cacheability: the one the scoreboard compares with the reservation. *)
Theorem sc_follows_lr max between tus q l phn q' i n t dl tu p :
  seq_run max between (create_random_transaction random_seq) tus (enter max 0) q = Some (l, phn, q') ->
  l !! i = Some (Main n, t, dl) -> tus !! i = Some tu -> is_amo_lr t = true -> tu_sc_do tu = true ->
  l !! (i + S between)%nat = Some p ->
  is_amo_sc p.1.2 = true /\ req_need_rsp p.1.2 = true /\ req_addr p.1.2 / 8 = req_addr t / 8
  /\ req_uncacheable p.1.2 = req_uncacheable t.
Proof using All.
  intros Hrun Hi Htu Hlr Hsc Hp.
  pose proof (lr_phases _ _ _ _ _ _ _ _ _ _ _ _ _ Hrun Hi Htu Hlr Hsc between p ltac:(lia) Hp) as Hph.
  rewrite decide_True in Hph by done.
  destruct (seq_run_phases _ _ _ _ _ _ _ _ _ Hrun) as (Hlen & _ & _ & Hcr).
  destruct (lookup_lt_is_Some_2 tus (i + S between)) as [tu' Htu'].
  { apply lookup_lt_Some in Hp. lia. }
  pose proof (Hcr _ _ _ Hp Htu') as H1. rewrite Hph in H1. destruct H1 as [tid H1].
  pose proof (Hcr _ _ _ Hi Htu) as H2. simpl in H2. destruct H2 as [tid' H2].
  apply create_random_fields in H2 as [Hw _].
  destruct (create_sc_spec _ _ _ _ _ H1 Hw) as (A & B & Cc & D & _). done.
Qed.

(** A bound on the turns left. *)
Definition phase_left (max between : nat) (ph : run_phase) : nat :=
  match ph with
  | Main n => (max - n) * (between + 2)
  | Between n _ k => (max - S n) * (between + 2) + k + 1
  | Sc n _ => (max - S n) * (between + 2) + 1
  | Stop => 0
  end.
Definition phase_ok (max between : nat) (ph : run_phase) : Prop :=
  match ph with
  | Main n | Sc n _ => (n < max)%nat
  | Between n _ k => (n < max /\ 1 <= k <= between)%nat
  | Stop => True
  end.

Lemma phase_next_left max between sc_do ph t :
  phase_ok max between ph -> ph <> Stop ->
  phase_ok max between (phase_next max between sc_do ph t)
  /\ (phase_left max between (phase_next max between sc_do ph t) < phase_left max between ph)%nat.
Proof.
  intros Hok Hns.
  assert (forall n, n < max -> phase_ok max between (enter max (S n))
            /\ phase_left max between (enter max (S n)) <= (max - S n) * (between + 2))%nat as He.
  { intros n Hn. unfold enter. destruct (Nat.ltb_spec (S n) max); simpl; lia. }
  assert (forall n, n < max -> (max - n) * (between + 2) = (max - S n) * (between + 2) + (between + 2))%nat as Hm.
  { intros n Hn. replace (max - n)%nat with (S (max - S n)) by lia. lia. }
  destruct ph as [n|n lr k|n lr|]; cbn [phase_next phase_ok phase_left] in *; [| | |done].
  - destruct (is_amo_lr t && sc_do).
    + destruct between; cbn [phase_ok phase_left]; rewrite (Hm n) by lia; lia.
    + destruct (He n Hok). split; [done|]. rewrite (Hm n) by lia. lia.
  - destruct Hok as [Hn Hk]. destruct k as [|[|k]]; cbn [phase_ok phase_left]; lia.
  - destruct (He n Hok). split; [done|lia].
Qed.

(** A turn of any sequence whose requests can be created. *)
Lemma seq_turn_steps max between create tu ph q :
  phase_ok max between ph -> ph <> Stop -> seq_inv q ->
  (forall tid, exists t, create (tu_draws tu) tid = Some t
                         /\ req_tid t = wrap HPDCACHE_REQ_TRANS_ID_WIDTH tid) ->
  is_available_id (release_all (q_ids q) (tu_released tu)) = true ->
  exists t ph' q', seq_turn max between create tu ph q = Some (t, ph', q')
    /\ ph' = phase_next max between (tu_sc_do tu) ph t
    /\ (match ph with
        | Sc _ lr => exists tid, create_sc_transaction (tu_draws tu) (req_addr lr) (req_uncacheable lr) tid = Some t
        | _ => exists tid, create (tu_draws tu) tid = Some t
        end)
    /\ seq_inv q' /\ req_tid t ∉ release_all (q_ids q) (tu_released tu)
    /\ q_ids q' = release_all (q_ids q) (tu_released tu) ++ [req_tid t]
    /\ phase_ok max between ph'
    /\ (phase_left max between ph' < phase_left max between ph)%nat.
Proof using Hlg Hbytes wf.
  intros Hok Hns [Hids Hpool] Hr Hav.
  set (q0 := {| q_ids := release_all (q_ids q) (tu_released tu); q_rng := q_rng q; q_pool := q_pool q |}).
  assert (seq_inv q0) as Hinv by (constructor; [by apply release_all_wf|done]).
  set (c := match ph with
      | Sc _ lr => create_sc_transaction (tu_draws tu) (req_addr lr) (req_uncacheable lr)
      | _ => create (tu_draws tu) end).
  assert (forall tid, exists t, c tid = Some t /\ req_tid t = wrap HPDCACHE_REQ_TRANS_ID_WIDTH tid) as Hct.
  { unfold c. destruct ph; [done|done|intros; apply create_sc_total|done]. }
  destruct (create_and_send_ok c q0 Hinv Hav (fun tid _ => Hct tid)) as (t & q' & Hs & Hq' & Hfresh & Hq'ids).
  destruct (phase_next_left max between (tu_sc_do tu) ph t Hok Hns) as [Hok' Hleft].
  exists t, (phase_next max between (tu_sc_do tu) ph t), q'.
  split; [|split_and!; try done].
  - unfold seq_turn. fold q0. destruct ph; try done; simpl; fold c; by rewrite Hs.
  - unfold create_and_send in Hs. apply bind_Some in Hs as ([r p] & _ & Hs).
    apply bind_Some in Hs as ([[tid ids] g] & _ & Hs). apply bind_Some in Hs as (t' & Ht & [= -> _]).
    unfold c in Ht. destruct ph; eauto.
Qed.

(** The random sequence makes progress: as long as it has not stopped and an identifier is free, a turn sends one transaction, under an identifier nobody used, and keeps its lists of identifiers and objects consistent; and at most [max_transactions * (between + 2)] turns are left when it starts, one less after each, so it stops. *)
Theorem seq_turn_progress max between tu ph q :
  phase_ok max between ph -> ph <> Stop -> seq_inv q -> draw_ok random_seq (tu_draws tu) ->
  is_available_id (release_all (q_ids q) (tu_released tu)) = true ->
  (phase_left max between (enter max 0) <= max * (between + 2))%nat /\
  exists t ph' q', seq_turn max between (create_random_transaction random_seq) tu ph q = Some (t, ph', q')
    /\ seq_inv q' /\ req_tid t ∉ release_all (q_ids q) (tu_released tu)
    /\ q_ids q' = release_all (q_ids q) (tu_released tu) ++ [req_tid t]
    /\ phase_ok max between ph'
    /\ (phase_left max between ph' < phase_left max between ph)%nat.
Proof using All.
  intros Hok Hns Hinv Hd Hav. split.
  { unfold enter. destruct (Nat.ltb_spec 0 max); simpl; lia. }
  assert (forall tid, exists t, create_random_transaction random_seq (tu_draws tu) tid = Some t
            /\ req_tid t = wrap HPDCACHE_REQ_TRANS_ID_WIDTH tid) as Hr.
  { intros tid. destruct (random_total (tu_draws tu) tid Hd) as [t Ht].
    exists t. split; [done|]. by apply create_random_fields in Ht as [_ Ht]. }
  destruct (seq_turn_steps max between _ tu ph q Hok Hns Hinv Hr Hav)
    as (t & ph' & q' & Hs & _ & _ & H). by exists t, ph', q'.
Qed.
End Requests.

(** ** Witnesses *)
#[local] Existing Instance default_config.
#[local] Instance ex_fault_config : FaultConfig :=
  {| CONF_HPDCACHE_TEST_FAULT_INJ := true; CONF_HPDCACHE_TEST_FAULT_INJ_DIR := false;
     CONF_HPDCACHE_TEST_DOUBLE_FAULT_INJ := false |}.

Definition ex_draws (op : hpdcache_req_op_e) (addr : Z) : draws :=
  {| d_seg := 1; d_addr := addr; d_op := op_v HPDCACHE_REQ_LOAD; d_op_amo := op_v op; d_data := 0x1234;
     d_size := 3; d_wr_policy := HPDCACHE_WR_POLICY_WB; d_need_rsp := true; d_fault := true;
     d_fault_way := 2; d_fault_domain := CACHE_DAT; d_fault_double := false |}.
Definition ex_turn (op : hpdcache_req_op_e) (addr : Z) : turn :=
  {| tu_released := []; tu_draws := ex_draws op addr; tu_delay := 0; tu_sc_do := true |}.
Definition ex_turns : list turn :=
  [ex_turn HPDCACHE_REQ_AMO_LR 0x2f8; ex_turn HPDCACHE_REQ_STORE 0x10; ex_turn HPDCACHE_REQ_LOAD 0x20].
Definition ex_state : seq_state :=
  {| q_ids := [4]; q_rng := ex_seq_rng; q_pool := mk_pool 10 |}.

Lemma ex_draw_ok su op :
  su = random_seq \/ su = unique_set_seq -> op = HPDCACHE_REQ_AMO_LR \/ op = HPDCACHE_REQ_LOAD ->
  draw_ok su (ex_draws op 0x2f8).
Proof.
  intros Hsu Hop. assert (forall A (EqA : EqDecision A) (b : bag A) x,
    existsb (fun p => bool_decide (p.1 = x) && (0 <? p.2)) b = true -> drawn b x) as Hd.
  { intros A ? b x H. apply existsb_exists in H as ([y w] & Hin & Hw).
    apply andb_true_iff in Hw as [Hy%bool_decide_eq_true Hw%Z.ltb_lt]. simpl in Hy. subst y. exists w.
    split; [by apply list_elem_of_In|done]. }
  destruct Hsu as [-> | ->], Hop as [-> | ->];
    (split; [by apply (Hd Z _)|split; [by apply (Hd Z _)|split; [by apply (Hd Z _)|split; vm_compute; discriminate]]]).
Qed.

Lemma ex_ids_wf : ids_wf [4].
Proof.
  split; [apply (bool_decide_eq_true_1 _); by vm_compute|].
  repeat constructor; vm_compute; discriminate || done.
Qed.

Lemma ex_pool_inv : pool_inv (mk_pool 10) ∅.
Proof. apply (pool_reachable_inv 10); [lia|apply rtc_refl]. Qed.

Lemma random_request_ok_witness :
  exists t, create_random_transaction random_seq (ex_draws HPDCACHE_REQ_AMO_LR 0x2f8) 5 = Some t
    /\ request_ok 3 random_segs t.
Proof.
  apply (random_request_ok 3); [lia|reflexivity|vm_compute; discriminate|].
  apply ex_draw_ok; by left.
Defined.

Lemma unique_set_request_ok_witness :
  exists t, create_unique_set_transaction unique_set_seq 17 (ex_draws HPDCACHE_REQ_LOAD 0x2f8) 5 = Some t
    /\ request_ok 3 unique_set_segs t /\ get_cache_set t = 17.
Proof.
  apply (unique_set_request_ok 3); [lia|reflexivity|vm_compute; discriminate|apply ex_draw_ok; by right|..].
  - vm_compute. split; [discriminate|reflexivity].
  - vm_compute. discriminate.
  - vm_compute. discriminate.
Defined.

Definition ex_sent : list (run_phase * transaction_req * Z) :=
  match seq_run 1 1 (create_random_transaction random_seq) ex_turns (enter 1 0) ex_state with
  | Some (l, _, _) => l
  | None => []
  end.

Lemma ex_sent_values :
  exists t p, ex_sent !! 0%nat = Some (Main 0, t, 0) /\ ex_sent !! 2%nat = Some p /\ is_amo_lr t = true.
Proof. do 2 eexists. split_and!; vm_compute; reflexivity. Qed.

Lemma sc_follows_lr_witness :
  exists t p, ex_sent !! 0%nat = Some (Main 0, t, 0) /\ ex_sent !! 2%nat = Some p
    /\ is_amo_sc p.1.2 = true /\ req_addr p.1.2 / 8 = req_addr t / 8.
Proof.
  destruct ex_sent_values as (t & p & Ht & Hp & Hlr). exists t, p. split; [exact Ht|]. split; [exact Hp|].
  unfold ex_sent in Ht, Hp.
  destruct (seq_run 1 1 (create_random_transaction random_seq) ex_turns (enter 1 0) ex_state)
    as [[[l phn] q']|] eqn:E; [|discriminate Ht].
  destruct (@sc_follows_lr default_config _ ex_fault_config 3 ltac:(lia) ltac:(reflexivity) ltac:(vm_compute; discriminate)
              1 1 ex_turns ex_state l phn q' 0 0 t 0 (ex_turn HPDCACHE_REQ_AMO_LR 0x2f8) p
              E Ht ltac:(reflexivity) Hlr ltac:(reflexivity) Hp) as (A & _ & B & _).
  split; [exact A|exact B].
Defined.

Lemma seq_turn_progress_witness :
  exists t ph' q', seq_turn 1 1 (create_random_transaction random_seq)
      (ex_turn HPDCACHE_REQ_AMO_LR 0x2f8) (Main 0) ex_state = Some (t, ph', q')
    /\ req_tid t ∉ [4] /\ (phase_left 1 1 ph' < phase_left 1 1 (Main 0))%nat.
Proof.
  assert (seq_inv ex_state) as Hinv by (constructor; [exact ex_ids_wf|exact ex_pool_inv]).
  destruct (@seq_turn_progress default_config _ ex_fault_config 3 ltac:(lia) ltac:(reflexivity) ltac:(vm_compute; discriminate) 1 1
              (ex_turn HPDCACHE_REQ_AMO_LR 0x2f8) (Main 0) ex_state) as (_ & t & ph' & q' & H1 & _ & H2 & _ & _ & H3).
  - simpl. lia.
  - discriminate.
  - exact Hinv.
  - apply ex_draw_ok; by left.
  - reflexivity.
  - exists t, ph', q'. split; [exact H1|]. split; [exact H2|exact H3].
Defined.
