(* ===== verification/FromTrace.v ===== *)
(** * The sequence that replays a trace ([hpdcache_test_from_trace_seq.h])

    The loop of [run]: while the reader has not reached the end of the trace, take
    an object and an identifier, read one transaction into the object, send it. *)
From S2P Require Import Prelude Defs Transaction MemModel Sequence Codec QemuPlugin Trace.
From S2P Require Import TraceProps MemResp SeqGen SeqProps.

Section FromTrace.
Context {cfg : HpdConfig} {C : Codec}.

Definition set_req_tid (tid : Z) (t : transaction_req) : transaction_req :=
  {| req_id := req_id t; req_addr := req_addr t; req_wdata := req_wdata t; req_op := req_op t;
     req_be := req_be t; req_size := req_size t; req_sid := req_sid t;
     req_tid := wrap HPDCACHE_REQ_TRANS_ID_WIDTH tid; req_need_rsp := req_need_rsp t;
     req_phys_indexed := req_phys_indexed t; req_uncacheable := req_uncacheable t;
     req_io := req_io t; req_wr_policy_hint := req_wr_policy_hint t; req_abort := req_abort t;
     req_fault := req_fault t |}.

(** One iteration, once an identifier is free: the delay and the transaction sent. *)
Definition from_trace_turn (fuel : nat) (junk : Z) (q : seq_state) (s : trace_reader)
    : exec (Z * transaction_req * seq_state * trace_reader) :=
  '(r, p) ← fault_if_none (acquire_transaction (q_pool q));
  t ← fault_if_none (pool_heap p !! r);
  '(tid, ids, g) ← fault_if_none (allocate_id (q_ids q) (q_rng q));
  let t := set_req_tid tid t in
  '(delay, t, s) ← read_transaction fuel junk t s;
  Ret (delay, t, {| q_ids := ids; q_rng := g;
                    q_pool := pool_release r (set_heap (<[r := t]> (pool_heap p)) p) |}, s).

(** The loop, for at most [max] transactions; [released] gives the identifiers the
    scoreboard released before each iteration. *)
Fixpoint from_trace_run (fuel : nat) (junk : Z) (max : nat) (released : list (list Z)) (q : seq_state)
    (s : trace_reader) : exec (list (Z * transaction_req)) :=
  match max with
  | O => Ret []
  | S max =>
      if is_finish s then Ret []
      else
        let q := {| q_ids := release_all (q_ids q) (default [] (head released)); q_rng := q_rng q;
                    q_pool := q_pool q |} in
        '(delay, t, q, s) ← from_trace_turn fuel junk q s;
        l ← from_trace_run fuel junk max (tail released) q s;
        Ret ((delay, t) :: l)
  end.

Section Turn.
Context {wf : ConfigWf cfg} {L : CodecLaws C}.
Context (st0 : dstream) (i o : list Z) (Hc : deflated st0 i o Ended).
Context (Ho : Z.of_nat (length o) <= MAX_SIZE_BUFFER)
        (Hi : Z.of_nat (length i) <= MAX_SIZE_BUFFER * 20).

(** An iteration replays the next record of the trace under an identifier nobody used; but nothing sets the byte enable of the transaction, so a replayed store enables no byte. *)
Theorem from_trace_turn_spec r rest junk q s :
  record_ok r -> reader_at i o (encode 8 r ++ rest) s ->
  seq_inv q -> is_available_id (q_ids q) = true ->
  eventually (fun fuel => from_trace_turn fuel junk q s)
    (fun '(delay, t, q', s') => delay = tr_delay r
       /\ t = traced r (set_req_tid (req_tid t) transaction_req_init)
       /\ req_be t = 0 /\ is_load t = negb (tr_store r) /\ is_store t = tr_store r
       /\ req_tid t ∉ q_ids q /\ q_ids q' = q_ids q ++ [req_tid t] /\ reader_at i o rest s').
Proof using All.
  intros Hr Hs [Hids Hpool] Hav. unfold from_trace_turn.
  destruct (pool_acquire_inv (q_pool q) ∅ Hpool) as (ref & p & Hacq & _).
  destruct (allocate_id_ok (q_ids q) (q_rng q) Hids Hav) as (tid & g & Ha & Htid & Hwf & _).
  assert (wrap HPDCACHE_REQ_TRANS_ID_WIDTH tid = tid) as Hw.
  { destruct Hwf as [_ Hrange]. apply Forall_app in Hrange as [_ Hrange].
    apply list.Forall_cons in Hrange as [Hrange _]. unfold HPDCACHE_REQ_MAX_TRANS_ID in Hrange.
    pose proof cfg_ids as [_ Hid]. rewrite Z.shiftl_mul_pow2, Z.mul_1_l in Hrange by lia.
    apply wrap_small. done. }
  unfold acquire_transaction. rewrite Hacq, Ha. simpl. rewrite lookup_insert_eq. simpl.
  eapply (eventually_bind _ (fun _ '(d, t, s) => _));
    [by apply (read_transaction_at st0 i o Hc Ho Hi r junk _ rest s)|].
  intros [[d t] s'] (-> & -> & Hs'). eapply eventually_ret; [done|].
  unfold is_load, is_store. simpl. rewrite Hw. split_and!; try done.
  - by destruct (tr_store r).
  - by destruct (tr_store r).
Qed.
End Turn.
End FromTrace.

(** ** Witness *)
#[local] Existing Instance Stored.stored_codec.
#[local] Existing Instance Stored.stored_laws.
#[local] Existing Instance default_config.
Definition ex_record : trace_record :=
  {| tr_delay := 3; tr_addr := 0x1004; tr_size := 2; tr_store := true; tr_uncacheable := 0;
     tr_value := ex_value VALUE_U32 0xcafe |}.
Definition ex_stored : list Z := Stored.enc (encode 8 ex_record) ++ [0].
Definition ex_end : Stored.dstate := {| Stored.pending := []; Stored.finishing := true |}.

Lemma from_trace_turn_spec_witness :
  eventually (fun fuel => from_trace_turn fuel 0 ex_state (mk_reader ex_stored))
    (fun '(delay, t, _, _) => delay = 3 /\ is_store t = true /\ req_be t = 0).
Proof.
  assert (@deflated _ Stored.stored_laws ex_end (encode 8 ex_record) ex_stored Ended) as Hd.
  { split; [vm_compute; reflexivity|reflexivity]. }
  assert (length ex_stored = 31%nat /\ length (encode 8 ex_record) = 15%nat) as [Ho Hi]
    by (split; vm_compute; reflexivity).
  destruct (@from_trace_turn_spec default_config Stored.stored_codec _ Stored.stored_laws ex_end (encode 8 ex_record) ex_stored Hd
              ltac:(rewrite Ho; unfold MAX_SIZE_BUFFER; lia)
              ltac:(rewrite Hi; unfold MAX_SIZE_BUFFER; lia) ex_record [] 0 ex_state (mk_reader ex_stored))
    as (n & [[[delay t] q'] s'] & Hn & H1 & H2 & H3 & _ & H4 & _).
  - constructor; simpl; [split; lia|lia|by left|discriminate].
  - exists 0%nat. split; [apply mk_reader_inv|]. by rewrite app_nil_r.
  - constructor; [exact ex_ids_wf|exact ex_pool_inv].
  - reflexivity.
  - exists n, (delay, t, q', s'). split; [exact Hn|]. split; [exact H1|]. split; [exact H4|exact H3].
Defined.
