(* ===== verification/Driver.v ===== *)
(** * The driver ([hpdcache_test_driver.h])

    The packing of requests into the bit vector of the core interface, the unpacking
    of responses, and the two processes as machines stepped by the clock. The
    driver's output FIFOs (acknowledgements and scoreboard) are always drained, so
    writing to them does not block. *)
From S2P Require Import Prelude Defs Transaction.

Section Driver.
Context {cfg : HpdConfig}.

(** ** Packing *)
Definition core_get_req_tag (t : transaction_req) : Z :=
  range (HPDCACHE_PA_WIDTH - 1) HPDCACHE_ADDR_OFFSET_WIDTH (req_addr t).

Definition core_get_req_pma (t : transaction_req) : Z :=
  let ret := 0 in
  let ret := if is_wr_policy_auto t then Z.lor ret (Z.shiftl 1 0) else ret in
  let ret := if is_wr_policy_wb t then Z.lor ret (Z.shiftl 1 1) else ret in
  let ret := if is_wr_policy_wt t then Z.lor ret (Z.shiftl 1 2) else ret in
  let ret := if req_io t then Z.lor ret (Z.shiftl 1 3) else ret in
  if req_uncacheable t then Z.lor ret (Z.shiftl 1 4) else ret.

Definition PMA_POS : Z := 0.
Definition TAG_POS : Z := PMA_POS + HPDCACHE_REQ_PMA_WIDTH.
Definition PHYS_INDEXED_POS : Z := TAG_POS + HPDCACHE_TAG_WIDTH.
Definition NEED_RSP_POS : Z := PHYS_INDEXED_POS + HPDCACHE_REQ_PHYS_INDEXED_WIDTH.
Definition TRANS_ID_POS : Z := NEED_RSP_POS + HPDCACHE_REQ_NEED_RSP_WIDTH.
Definition SRC_ID_POS : Z := TRANS_ID_POS + HPDCACHE_REQ_TRANS_ID_WIDTH.
Definition SIZE_POS : Z := SRC_ID_POS + HPDCACHE_REQ_SRC_ID_WIDTH.
Definition BE_POS : Z := SIZE_POS + HPDCACHE_REQ_SIZE_WIDTH.
Definition OP_POS : Z := BE_POS + HPDCACHE_REQ_DATA_WIDTH / 8.
Definition WDATA_POS : Z := OP_POS + HPDCACHE_REQ_OP_WIDTH.
Definition ADDR_POS : Z := WDATA_POS + HPDCACHE_REQ_DATA_WIDTH.

(** [ret.range(POS + WIDTH - 1, POS) = v], cut to the width. *)
Definition set_field (pos width v ret : Z) : Z := set_range (pos + width - 1) pos ret v.
Definition get_field (pos width bv : Z) : Z := range (pos + width - 1) pos bv.

Definition core_req_to_bv (t : transaction_req) : Z :=
  let ret := 0 in
  let ret := set_field PMA_POS HPDCACHE_REQ_PMA_WIDTH (core_get_req_pma t) ret in
  let ret := set_field TAG_POS HPDCACHE_TAG_WIDTH (core_get_req_tag t) ret in
  let ret := set_field PHYS_INDEXED_POS HPDCACHE_REQ_PHYS_INDEXED_WIDTH (Z.b2z (req_phys_indexed t)) ret in
  let ret := set_field NEED_RSP_POS HPDCACHE_REQ_NEED_RSP_WIDTH (Z.b2z (req_need_rsp t)) ret in
  let ret := set_field TRANS_ID_POS HPDCACHE_REQ_TRANS_ID_WIDTH (req_tid t) ret in
  let ret := set_field SRC_ID_POS HPDCACHE_REQ_SRC_ID_WIDTH (req_sid t) ret in
  let ret := set_field SIZE_POS HPDCACHE_REQ_SIZE_WIDTH (req_size t) ret in
  let ret := set_field BE_POS (HPDCACHE_REQ_DATA_WIDTH / 8) (req_be t) ret in
  let ret := set_field OP_POS HPDCACHE_REQ_OP_WIDTH (req_op t) ret in
  let ret := set_field WDATA_POS HPDCACHE_REQ_DATA_WIDTH (req_wdata t) ret in
  set_field ADDR_POS HPDCACHE_ADDR_OFFSET_WIDTH (range HPDCACHE_ADDR_OFFSET_WIDTH 0 (req_addr t)) ret.

(** [core_resp_to_struct] *)
Definition RSP_ABORTED_POS : Z := 0.
Definition RSP_ERROR_POS : Z := RSP_ABORTED_POS + HPDCACHE_RSP_ABORTED_WIDTH.
Definition RSP_TRANS_ID_POS : Z := RSP_ERROR_POS + HPDCACHE_RSP_ERROR_WIDTH.
Definition RSP_SRC_ID_POS : Z := RSP_TRANS_ID_POS + HPDCACHE_REQ_TRANS_ID_WIDTH.
Definition RSP_RDATA_POS : Z := RSP_SRC_ID_POS + HPDCACHE_REQ_SRC_ID_WIDTH.

Definition core_resp_to_struct (bv : Z) : transaction_resp :=
  {| rsp_rdata := get_field RSP_RDATA_POS HPDCACHE_REQ_DATA_WIDTH bv;
     rsp_sid := get_field RSP_SRC_ID_POS HPDCACHE_REQ_SRC_ID_WIDTH bv;
     rsp_tid := get_field RSP_TRANS_ID_POS HPDCACHE_REQ_TRANS_ID_WIDTH bv;
     rsp_error := 0 <? get_field RSP_ERROR_POS HPDCACHE_RSP_ERROR_WIDTH bv;
     rsp_aborted := 0 <? get_field RSP_ABORTED_POS HPDCACHE_RSP_ABORTED_WIDTH bv |}.

(** ** The processes *)

(** The calls of the fault injector. *)
Inductive fault_call :=
  | InjectDirFault (set way mask : Z)
  | InjectDatFault (set way word mask : Z).

Definition fault_call_of (f : hpdcache_fault_injection_req) : list fault_call :=
  if fault_valid f then
    match fault_dom f with
    | CACHE_DIR => [InjectDirFault (fault_set f) (fault_way f) (range 63 0 (fault_mask f))]
    | CACHE_DAT => [InjectDatFault (fault_set f) (fault_way f) (fault_word f) (range 71 0 (fault_mask f))]
    end
  else [].

(** The signals of the core interface. *)
Record core_signals := {
  core_req_valid_o : bool; core_req_o : Z; core_req_tag_o : Z; core_req_pma_o : Z; core_req_abort_o : bool;
}.

(** Where [drive_request] waits: for an object in the FIFO, for [ready] with a
    request on the interface, for the end of the requests in flight; or finished. *)
Inductive drive_pc := Fetching | Requesting (t : transaction_req) | Draining | Finished.

Record driver := {
  dr_pc : drive_pc;
  dr_fifo : list (option transaction_req);   (* None is the null pointer that asks to stop *)
  dr_out : core_signals;
  dr_faults : list fault_call;
  dr_ret : list Z;                           (* [transaction_ret_o] *)
  dr_sb : list transaction_req;              (* [sb_core_req_o] *)
}.

(** The loop from its top to the first wait. *)
Definition drive_top (d : driver) : driver :=
  match dr_fifo d with
  | [] => {| dr_pc := Fetching; dr_fifo := []; dr_out := dr_out d; dr_faults := dr_faults d;
             dr_ret := dr_ret d; dr_sb := dr_sb d |}
  | None :: fifo => {| dr_pc := Draining; dr_fifo := fifo; dr_out := dr_out d;
                       dr_faults := dr_faults d; dr_ret := dr_ret d; dr_sb := dr_sb d |}
  | Some t :: fifo =>
      {| dr_pc := Requesting t; dr_fifo := fifo;
         dr_out := {| core_req_valid_o := true; core_req_o := core_req_to_bv t;
                      core_req_tag_o := core_req_tag_o (dr_out d);
                      core_req_pma_o := core_req_pma_o (dr_out d);
                      core_req_abort_o := core_req_abort_o (dr_out d) |};
         dr_faults := dr_faults d ++ fault_call_of (req_fault t);
         dr_ret := dr_ret d; dr_sb := dr_sb d |}
  end.

(** The request was accepted: the tag, the acknowledgement, the scoreboard. *)
Definition drive_accept (t : transaction_req) (d : driver) : driver :=
  {| dr_pc := dr_pc d; dr_fifo := dr_fifo d;
     dr_out := {| core_req_valid_o := false; core_req_o := core_req_o (dr_out d);
                  core_req_tag_o := core_get_req_tag t; core_req_pma_o := core_get_req_pma t;
                  core_req_abort_o := req_abort t |};
     dr_faults := dr_faults d; dr_ret := dr_ret d ++ [req_id t]; dr_sb := dr_sb d ++ [t] |}.

Inductive drive_input := Push (x : option transaction_req) | Edge (ready no_inflight : bool).

Definition drive_request (i : drive_input) (d : driver) : driver :=
  match i with
  | Push x =>
      let d' := {| dr_pc := dr_pc d; dr_fifo := dr_fifo d ++ [x]; dr_out := dr_out d;
                   dr_faults := dr_faults d; dr_ret := dr_ret d; dr_sb := dr_sb d |} in
      match dr_pc d with Fetching => drive_top d' | _ => d' end
  | Edge ready no_inflight =>
      match dr_pc d with
      | Requesting t => if ready then drive_top (drive_accept t d) else d
      | Draining =>
          if no_inflight then
            {| dr_pc := Finished; dr_fifo := dr_fifo d; dr_out := dr_out d; dr_faults := dr_faults d;
               dr_ret := dr_ret d; dr_sb := dr_sb d |}
          else d
      | Fetching | Finished => d
      end
  end.

Definition driver_init : driver :=
  {| dr_pc := Fetching; dr_fifo := [];
     dr_out := {| core_req_valid_o := false; core_req_o := 0; core_req_tag_o := 0;
                  core_req_pma_o := 0; core_req_abort_o := false |};
     dr_faults := []; dr_ret := []; dr_sb := [] |}.

(** [monitor_response] at a falling edge: what it sends to the scoreboard. *)
Definition monitor_response (core_rsp_valid_i : bool) (core_rsp_i : Z) : list transaction_resp :=
  if core_rsp_valid_i then [core_resp_to_struct core_rsp_i] else [].

(** ** What the environment sees

    The bit vectors the device takes: those on the interface at an edge where both
    [valid] and [ready] are set. *)
Fixpoint handshakes (d : driver) (ins : list drive_input) : list Z :=
  match ins with
  | [] => []
  | i :: ins =>
      match i with
      | Edge true _ => if core_req_valid_o (dr_out d) then [core_req_o (dr_out d)] else []
      | _ => []
      end ++ handshakes (drive_request i d) ins
  end.

Definition run_driver (d : driver) (ins : list drive_input) : driver :=
  foldl (fun d i => drive_request i d) d ins.

Definition pushed (ins : list drive_input) : list (option transaction_req) :=
  omap (fun i => match i with Push x => Some x | Edge _ _ => None end) ins.

(** What the process took from the FIFO and has not sent on. *)
Definition held (d : driver) : list (option transaction_req) :=
  match dr_pc d with
  | Fetching => [] | Requesting t => [Some t] | Draining | Finished => [None]
  end.

(** The response vector with given fields, the device's side of [core_resp_to_struct]. *)
Definition core_resp_of_struct (r : transaction_resp) : Z :=
  set_field RSP_ABORTED_POS HPDCACHE_RSP_ABORTED_WIDTH (Z.b2z (rsp_aborted r))
    (set_field RSP_ERROR_POS HPDCACHE_RSP_ERROR_WIDTH (Z.b2z (rsp_error r))
       (set_field RSP_TRANS_ID_POS HPDCACHE_REQ_TRANS_ID_WIDTH (rsp_tid r)
          (set_field RSP_SRC_ID_POS HPDCACHE_REQ_SRC_ID_WIDTH (rsp_sid r)
             (set_field RSP_RDATA_POS HPDCACHE_REQ_DATA_WIDTH (rsp_rdata r) 0)))).

(** ** Fields *)
Lemma get_set_same p w v r :
  0 <= p -> 0 <= w -> get_field p w (set_field p w v r) = wrap w v.
Proof.
  intros. unfold get_field, set_field. rewrite range_set_range_same by lia.
  f_equal; lia.
Qed.

Lemma get_set_other p w p' w' v r :
  0 <= p -> 0 <= w -> 0 <= p' -> 0 <= w' -> p + w <= p' \/ p' + w' <= p ->
  get_field p' w' (set_field p w v r) = get_field p' w' r.
Proof. intros. unfold get_field, set_field. rewrite range_set_range_other by lia. done. Qed.

Lemma set_field_word p w v r n :
  0 <= p -> 0 <= w -> p + w <= n -> is_word n r -> is_word n (set_field p w v r).
Proof.
  intros Hp Hw Hn Hr. unfold set_field, set_range.
  assert (is_word (p + w - 1 - p + 1) (Z.land v (Z.ones (p + w - 1 - p + 1)))) as Hv.
  { apply land_word_r; [lia|]. rewrite Z.ones_equiv. unfold is_word.
    pose proof (Z.pow_pos_nonneg 2 (p + w - 1 - p + 1)). lia. }
  apply lor_word; [lia|by apply ldiff_word; [lia|]|].
  apply is_word_bits; [lia|apply Z.shiftl_nonneg, Hv|].
  intros i Hi. rewrite Z.shiftl_spec by lia. apply (testbit_word _ _ _ Hv). lia.
Qed.

Context {wf : ConfigWf cfg}.

Lemma widths_nonneg :
  0 < HPDCACHE_TAG_WIDTH /\ 0 <= HPDCACHE_ADDR_OFFSET_WIDTH /\ 32 <= HPDCACHE_REQ_DATA_WIDTH
  /\ 0 <= HPDCACHE_REQ_DATA_WIDTH / 8
  /\ 0 <= HPDCACHE_REQ_SRC_ID_WIDTH /\ 0 <= HPDCACHE_REQ_TRANS_ID_WIDTH
  /\ HPDCACHE_TAG_WIDTH + HPDCACHE_ADDR_OFFSET_WIDTH = HPDCACHE_PA_WIDTH.
Proof using All.
  pose proof cfg_pa. pose proof cfg_ids. pose proof cfg_req_words.
  pose proof (LOG2_nonneg HPDCACHE_SETS).
  pose proof (LOG2_nonneg ((HPDCACHE_CL_WORDS * HPDCACHE_WORD_WIDTH) / 8)).
  assert (32 <= HPDCACHE_REQ_DATA_WIDTH).
  { unfold HPDCACHE_REQ_DATA_WIDTH. destruct cfg_word as [-> | ->]; lia. }
  pose proof (Z.div_pos HPDCACHE_REQ_DATA_WIDTH 8).
  unfold HPDCACHE_ADDR_OFFSET_WIDTH, HPDCACHE_TAG_WIDTH, HPDCACHE_NLINE_WIDTH in *.
  unfold HPDCACHE_SET_WIDTH, HPDCACHE_CL_OFFSET_WIDTH in *. lia.
Qed.
Ltac positions :=
  unfold ADDR_POS, WDATA_POS, OP_POS, BE_POS, SIZE_POS, SRC_ID_POS, TRANS_ID_POS,
    NEED_RSP_POS, PHYS_INDEXED_POS, TAG_POS, PMA_POS, RSP_RDATA_POS, RSP_SRC_ID_POS,
    RSP_TRANS_ID_POS, RSP_ERROR_POS, RSP_ABORTED_POS, HPDCACHE_CORE_REQ_WIDTH,
    HPDCACHE_CORE_RSP_WIDTH, HPDCACHE_REQ_OP_WIDTH, HPDCACHE_REQ_SIZE_WIDTH,
    HPDCACHE_REQ_PMA_WIDTH, HPDCACHE_REQ_NEED_RSP_WIDTH, HPDCACHE_REQ_PHYS_INDEXED_WIDTH,
    HPDCACHE_RSP_ERROR_WIDTH, HPDCACHE_RSP_ABORTED_WIDTH in *; lia.

(** Reads a field through the fields assigned around it. *)
Ltac field :=
  repeat (rewrite get_set_other by positions); rewrite get_set_same by positions.

Lemma core_get_req_pma_word t : is_word HPDCACHE_REQ_PMA_WIDTH (core_get_req_pma t).
Proof using All.
  unfold core_get_req_pma.
  destruct (is_wr_policy_auto t), (is_wr_policy_wb t), (is_wr_policy_wt t), (req_io t),
    (req_uncacheable t); vm_compute; intuition discriminate.
Qed.

(** The tag and the offset make up the physical address. *)
Lemma tag_offset_address t :
  Z.shiftl (core_get_req_tag t) HPDCACHE_ADDR_OFFSET_WIDTH
    + wrap HPDCACHE_ADDR_OFFSET_WIDTH (req_addr t)
  = wrap HPDCACHE_PA_WIDTH (req_addr t).
Proof using All.
  pose proof widths_nonneg as W. unfold core_get_req_tag.
  assert (Z.land (Z.shiftl (range (HPDCACHE_PA_WIDTH - 1) HPDCACHE_ADDR_OFFSET_WIDTH (req_addr t))
                    HPDCACHE_ADDR_OFFSET_WIDTH)
            (wrap HPDCACHE_ADDR_OFFSET_WIDTH (req_addr t)) = 0) as H0.
  { bitwise. }
  rewrite Z.add_nocarry_lxor, Z.lxor_lor by done. bitwise. f_equal. lia.
Qed.
(** The request vector holds every field of the transaction in the slice the interface gives it, cut to its width; the slices do not overlap and fill the vector, and its tag and offset slices make up the physical address. *)
Theorem core_req_to_bv_fields t :
  let bv := core_req_to_bv t in
  is_word HPDCACHE_CORE_REQ_WIDTH bv
  /\ get_field PMA_POS HPDCACHE_REQ_PMA_WIDTH bv = core_get_req_pma t
  /\ get_field PHYS_INDEXED_POS HPDCACHE_REQ_PHYS_INDEXED_WIDTH bv = Z.b2z (req_phys_indexed t)
  /\ get_field NEED_RSP_POS HPDCACHE_REQ_NEED_RSP_WIDTH bv = Z.b2z (req_need_rsp t)
  /\ get_field TRANS_ID_POS HPDCACHE_REQ_TRANS_ID_WIDTH bv = wrap HPDCACHE_REQ_TRANS_ID_WIDTH (req_tid t)
  /\ get_field SRC_ID_POS HPDCACHE_REQ_SRC_ID_WIDTH bv = wrap HPDCACHE_REQ_SRC_ID_WIDTH (req_sid t)
  /\ get_field SIZE_POS HPDCACHE_REQ_SIZE_WIDTH bv = wrap HPDCACHE_REQ_SIZE_WIDTH (req_size t)
  /\ get_field BE_POS (HPDCACHE_REQ_DATA_WIDTH / 8) bv = wrap (HPDCACHE_REQ_DATA_WIDTH / 8) (req_be t)
  /\ get_field OP_POS HPDCACHE_REQ_OP_WIDTH bv = wrap HPDCACHE_REQ_OP_WIDTH (req_op t)
  /\ get_field WDATA_POS HPDCACHE_REQ_DATA_WIDTH bv = wrap HPDCACHE_REQ_DATA_WIDTH (req_wdata t)
  /\ Z.shiftl (get_field TAG_POS HPDCACHE_TAG_WIDTH bv) HPDCACHE_ADDR_OFFSET_WIDTH
       + get_field ADDR_POS HPDCACHE_ADDR_OFFSET_WIDTH bv = wrap HPDCACHE_PA_WIDTH (req_addr t).
Proof using All.
  pose proof widths_nonneg as W. intros bv. subst bv. unfold core_req_to_bv.
  split; [repeat apply set_field_word; try positions;
          unfold is_word; pose proof (Z.pow_pos_nonneg 2 HPDCACHE_CORE_REQ_WIDTH); positions|].
  assert (forall b, wrap 1 (Z.b2z b) = Z.b2z b) as Hb by (by intros []).
  split_and!; try (field; auto; fail).
  - field. apply wrap_small, core_get_req_pma_word.
  - rewrite <- (tag_offset_address t). f_equal.
    + field. f_equal. apply wrap_small. unfold core_get_req_tag.
      replace HPDCACHE_TAG_WIDTH with (HPDCACHE_PA_WIDTH - 1 - HPDCACHE_ADDR_OFFSET_WIDTH + 1)
        by lia. apply range_word. lia.
    + field. bitwise. f_equal. lia.
Qed.

(** Unpacking a response vector loses nothing: the fields repacked in their slices give the vector back, and every response whose fields fit their widths is read back from its vector. *)
Theorem core_resp_roundtrip :
  (forall bv, is_word HPDCACHE_CORE_RSP_WIDTH bv -> core_resp_of_struct (core_resp_to_struct bv) = bv)
  /\ (forall r, is_word HPDCACHE_REQ_DATA_WIDTH (rsp_rdata r) ->
        is_word HPDCACHE_REQ_SRC_ID_WIDTH (rsp_sid r) ->
        is_word HPDCACHE_REQ_TRANS_ID_WIDTH (rsp_tid r) ->
        core_resp_to_struct (core_resp_of_struct r) = r).
Proof using All.
  pose proof widths_nonneg as W. split.
  - intros bv Hbv. unfold core_resp_of_struct, core_resp_to_struct. simpl.
    assert (forall p, 0 <= p -> Z.b2z (0 <? get_field p 1 bv) = get_field p 1 bv) as Hb.
    { intros p Hp. pose proof (range_word (p + 1 - 1) p bv ltac:(lia)) as Hr.
      unfold get_field, is_word in *. replace (p + 1 - 1 - p + 1) with 1 in Hr by lia.
      destruct (Z.ltb_spec 0 (range (p + 1 - 1) p bv)); simpl; lia. }
    rewrite !Hb by positions.
    apply Z.bits_inj'. intros i Hi. unfold set_field, get_field.
    rewrite !testbit_set_range by positions. rewrite Z.bits_0.
    rewrite !testbit_range by positions.
    destruct (Z.lt_ge_cases i HPDCACHE_CORE_RSP_WIDTH) as [Hlt|Hge];
      [|rewrite (testbit_word _ _ _ Hbv Hge)]; split_cmps; simpl; try (f_equal; lia); positions.
  - intros r Hd Hs Ht. unfold core_resp_of_struct, core_resp_to_struct.
    assert (forall b, 0 <? wrap 1 (Z.b2z b) = b) as Hb by (by intros []).
    destruct r as [d s t e a]; simpl in *. f_equal; field; try by apply wrap_small. all: apply Hb.
Qed.
End Driver.

(** ** Runs

    The invariant of the process: requests leave in the order of the FIFO, the
    acknowledgements and the faults follow them, and [valid] is set exactly while
    a request waits on the interface. *)
Section Runs.
Context {cfg : HpdConfig}.

Definition requesting (d : driver) : bool :=
  match dr_pc d with Requesting _ => true | _ => false end.

Definition faults_of (ts : list transaction_req) : list fault_call :=
  ts ≫= (fun t => fault_call_of (req_fault t)).

Record driver_inv (pushes : list (option transaction_req)) (hs : list Z) (d : driver) : Prop := {
  di_order : pushes = (Some <$> dr_sb d) ++ held d ++ dr_fifo d;
  di_handshakes : hs = core_req_to_bv <$> dr_sb d;
  di_ret : dr_ret d = req_id <$> dr_sb d;
  di_faults : dr_faults d = faults_of (dr_sb d ++ omap id (held d));
  di_valid : core_req_valid_o (dr_out d) = requesting d;
  di_fetching : dr_pc d = Fetching -> dr_fifo d = [];
  di_req : forall t, dr_pc d = Requesting t -> core_req_o (dr_out d) = core_req_to_bv t;
}.

Lemma faults_of_app l k : faults_of (l ++ k) = faults_of l ++ faults_of k.
Proof. apply bind_app. Qed.

(** The loop's top, entered with nothing on the interface. *)
Lemma drive_top_inv pushes hs d :
  pushes = (Some <$> dr_sb d) ++ dr_fifo d -> hs = core_req_to_bv <$> dr_sb d ->
  dr_ret d = req_id <$> dr_sb d -> dr_faults d = faults_of (dr_sb d) ->
  core_req_valid_o (dr_out d) = false ->
  driver_inv pushes hs (drive_top d).
Proof.
  intros -> -> Hr Hf Hv. unfold drive_top.
  destruct (dr_fifo d) as [|[t|] fifo] eqn:Hq; constructor; simpl;
    rewrite ?app_nil_r, ?faults_of_app, ?Hf; try done.
  - unfold faults_of. simpl. by rewrite app_nil_r.
  - by intros ? [= ->].
Qed.

Lemma drive_request_inv pushes hs d i :
  driver_inv pushes hs d ->
  driver_inv (pushes ++ pushed [i])
    (hs ++ match i with
           | Edge true _ => if requesting d then [core_req_o (dr_out d)] else []
           | _ => []
           end) (drive_request i d).
Proof.
  intros [Ho Hh Hr Hf Hv Hfe Hq]. unfold drive_request, requesting, held in *.
  destruct i as [x|[] inf]; destruct (dr_pc d) as [|t| |] eqn:Hpc; simpl in *;
    rewrite ?app_nil_r in *;
    try (constructor; unfold requesting, held; simpl; rewrite ?Hpc, ?app_nil_r; simpl;
         rewrite ?app_nil_r; try done; by rewrite Ho, <- ?app_assoc).
  - apply drive_top_inv; simpl; try done. by rewrite Ho, (Hfe eq_refl), app_nil_r.
  - apply drive_top_inv; simpl; rewrite ?fmap_app; simpl; try done.
    + by rewrite Ho, <- app_assoc.
    + by rewrite Hh, (Hq t eq_refl).
    + by rewrite Hr.
  - destruct inf; constructor; unfold requesting, held; simpl; rewrite ?Hpc; simpl;
      rewrite ?app_nil_r; done.
  - destruct inf; constructor; unfold requesting, held; simpl; rewrite ?Hpc; simpl;
      rewrite ?app_nil_r; done.
Qed.

Lemma driver_init_inv : driver_inv [] [] driver_init.
Proof. by constructor. Qed.

Lemma run_driver_inv ins pushes hs d :
  driver_inv pushes hs d ->
  driver_inv (pushes ++ pushed ins) (hs ++ handshakes d ins) (run_driver d ins).
Proof.
  revert pushes hs d. induction ins as [|i ins IH]; intros pushes hs d H; simpl.
  - by rewrite !app_nil_r.
  - pose proof (IH _ _ _ (drive_request_inv _ _ _ i H)) as IH'.
    rewrite <- !app_assoc, <- (di_valid _ _ _ H) in IH'.
    unfold pushed in *. simpl in *. destruct i; exact IH'.
Qed.

(** C21: Whatever the order of pushes and clock edges, the requests reach the device, the scoreboard and the acknowledgement port in the order of the FIFO, each exactly once and packed by [core_req_to_bv]; the faults they carry are injected in the same order, and [valid] is set exactly while a request waits, with its vector held stable. *)
Theorem driver_in_order ins :
  let d := run_driver driver_init ins in
  pushed ins = (Some <$> dr_sb d) ++ held d ++ dr_fifo d
  /\ handshakes driver_init ins = core_req_to_bv <$> dr_sb d
  /\ dr_ret d = req_id <$> dr_sb d
  /\ dr_faults d = faults_of (dr_sb d ++ omap id (held d))
  /\ core_req_valid_o (dr_out d) = requesting d
  /\ (forall t, dr_pc d = Requesting t -> core_req_o (dr_out d) = core_req_to_bv t).
Proof.
  destruct (run_driver_inv ins [] [] driver_init driver_init_inv). by split_and!.
Qed.

(** *** Progress *)
Lemma stop_marker_split (ts sb : list transaction_req) rest :
  (Some <$> ts) ++ [None] = (Some <$> sb) ++ None :: rest -> sb = ts.
Proof.
  revert sb. induction ts as [|t ts IH]; intros [|t' sb] H; simplify_eq/=; try done.
  by rewrite (IH sb).
Qed.

Lemma idle_when_done ts hs d :
  driver_inv ((Some <$> ts) ++ [None]) hs d -> requesting d = false ->
  dr_sb d = ts /\ (dr_pc d = Draining \/ dr_pc d = Finished).
Proof.
  intros [Ho _ _ _ _ Hfe _]. unfold requesting, held in *.
  destruct (dr_pc d); try done; simpl in *; [|by eauto using stop_marker_split..].
  rewrite (Hfe eq_refl), app_nil_r in Ho. exfalso.
  assert (None ∈ (Some <$> dr_sb d)) as Hin by (rewrite <- Ho; set_solver).
  apply list_elem_of_fmap in Hin as (? & ? & _). done.
Qed.

Lemma requesting_left ts hs d :
  driver_inv ((Some <$> ts) ++ [None]) hs d -> requesting d = true ->
  (length (dr_sb d) < length ts)%nat.
Proof.
  intros [Ho _ _ _ _ _ _] Hr. unfold requesting, held in *.
  destruct (dr_pc d) as [|t| |]; try done. simpl in Ho.
  apply (f_equal (fun l => length (omap id l))) in Ho.
  rewrite !omap_app, !length_app in Ho. simpl in Ho.
  assert (forall l : list transaction_req, omap id (Some <$> l) = l) as Hid
    by (intros l; induction l as [|x l IH]; [done|exact (f_equal (cons x) IH)]).
  rewrite !Hid in Ho. simpl in Ho. lia.
Qed.

Lemma drive_top_sb d : dr_sb (drive_top d) = dr_sb d.
Proof. unfold drive_top. by destruct (dr_fifo d) as [|[]]. Qed.

Lemma edge_sb r b d :
  length (dr_sb (drive_request (Edge r b) d))
  = (length (dr_sb d) + if r && requesting d then 1 else 0)%nat.
Proof.
  unfold drive_request, requesting. destruct (dr_pc d), r, b; simpl;
    rewrite ?drive_top_sb; simpl; rewrite ?length_app; simpl; lia.
Qed.

Definition edges (es : list (bool * bool)) : list drive_input :=
  (fun '(r, b) => Edge r b) <$> es.
Definition ready_edges (es : list (bool * bool)) : nat := length (filter (fun e => e.1 = true) es).

Lemma edges_progress ts es hs d :
  driver_inv ((Some <$> ts) ++ [None]) hs d ->
  (length ts <= length (dr_sb d) + ready_edges es)%nat ->
  exists hs', driver_inv ((Some <$> ts) ++ [None]) hs' (run_driver d (edges es))
    /\ requesting (run_driver d (edges es)) = false.
Proof.
  revert hs d. induction es as [|[r b] es IH]; intros hs d H Hn.
  - exists hs. split; [done|]. simpl. destruct (requesting d) eqn:Hr; [|done].
    pose proof (requesting_left _ _ _ H Hr). unfold ready_edges in Hn. simpl in Hn. lia.
  - pose proof (drive_request_inv _ _ _ (Edge r b) H) as H'.
    unfold pushed in H'. simpl in H'. rewrite app_nil_r in H'.
    apply (IH _ _ H'). pose proof (edge_sb r b d) as Hsb. simpl in Hsb. rewrite Hsb.
    unfold ready_edges in *. rewrite filter_cons in Hn. destruct r; simpl in *; [|lia].
    destruct (requesting d) eqn:Hr; simpl in *; [lia|].
    destruct (idle_when_done _ _ _ H Hr) as [-> _]. lia.
Qed.

(** Once the stop marker follows the requests in the FIFO, enough edges with [ready] set deliver every request, with any number of stalls between them, and the run finishes at the next edge where nothing is in flight. *)
Theorem driver_finishes ins ts es r :
  pushed ins = (Some <$> ts) ++ [None] ->
  (length ts <= ready_edges es)%nat ->
  let d := run_driver driver_init (ins ++ edges es ++ [Edge r true]) in
  dr_pc d = Finished /\ dr_sb d = ts.
Proof.
  intros Hp Hn. unfold run_driver. rewrite !foldl_app. cbv zeta.
  pose proof (run_driver_inv ins [] [] driver_init driver_init_inv) as H. simpl in H.
  rewrite Hp in H. destruct (edges_progress ts es _ _ H) as (hs & H' & Hr); [lia|].
  unfold run_driver in *. destruct (idle_when_done _ _ _ H' Hr) as [Hsb Hpc].
  cbn [foldl]. set (d1 := foldl _ _ (edges es)) in *. unfold drive_request.
  by destruct Hpc as [E | E]; rewrite E; split.
Qed.
End Runs.

(** ** Witnesses *)
#[local] Existing Instance default_config.
Definition ex_req : transaction_req :=
  {| req_id := 1; req_addr := 0x80001234; req_wdata := 42; req_op := 1; req_be := 255; req_size := 3;
     req_sid := 2; req_tid := 5; req_need_rsp := true; req_phys_indexed := true;
     req_uncacheable := false; req_io := false; req_wr_policy_hint := HPDCACHE_WR_POLICY_WB;
     req_abort := false; req_fault := fault_req_init |}.

Lemma core_req_to_bv_fields_witness :
  get_field TRANS_ID_POS 6 (core_req_to_bv ex_req) = 5 /\ TRANS_ID_POS = 44.
Proof.
  split; [|reflexivity].
  pose proof (@core_req_to_bv_fields default_config default_config_wf ex_req) as (_&_&_&_&H&_).
  exact H.
Defined.

Lemma core_resp_roundtrip_witness :
  core_resp_to_struct (core_resp_of_struct {| rsp_rdata := 77; rsp_sid := 1; rsp_tid := 9;
                                              rsp_error := true; rsp_aborted := false |})
  = {| rsp_rdata := 77; rsp_sid := 1; rsp_tid := 9; rsp_error := true; rsp_aborted := false |}.
Proof.
  apply (proj2 (@core_resp_roundtrip default_config default_config_wf));
    apply (bool_decide_unpack _); vm_compute; exact I.
Defined.

Lemma driver_finishes_witness :
  dr_pc (run_driver driver_init
           ([Push (Some ex_req); Push None] ++ edges [(false, false); (true, false)]
            ++ [Edge false true])) = Finished.
Proof.
  apply (driver_finishes [Push (Some ex_req); Push None] [ex_req]
           [(false, false); (true, false)] false); [reflexivity|].
  vm_compute. constructor.
Defined.
