(* ===== verification/System.v ===== *)
(** * The closed loop: sequence, driver and scoreboard

    The three components as the test bench connects them. The sequence takes an
    identifier and hands a transaction to the driver; the driver presents it to the
    device, acknowledges it and copies it to the scoreboard; the scoreboard tracks
    it, and gives the identifier back to the sequence's list ([seq->ids] is shared)
    when the response arrives. The device is the environment: when it is ready and
    what it answers is free.

    A run is any interleaving of the steps of the processes. *)
From S2P Require Import Prelude Defs Transaction MemModel Sequence MemResp.
From S2P Require Import Scoreboard ScoreboardProps ScoreboardData.
From S2P Require Import SeqGen SeqProps Driver.

#[local] Arguments drive_request : simpl never.

Section System.
Context {cfg : HpdConfig} {wf : ConfigWf cfg}.

(** The sequence: how many transactions it creates, between an LR and its SC, and
    the function that creates one from drawn values and an identifier. *)
Context (max between : nat) (create : draws -> Z -> option transaction_req).

(** ** State *)
Record system := {
  sy_phase : run_phase;           (* the sequence's loop *)
  sy_rng : rng;
  sy_pool : Transaction_pool;
  sy_wait : bool;                 (* blocked in [transaction_ret_i.read()] *)
  sy_done : bool;                 (* the null transaction is sent *)
  sy_acks : nat;                  (* acknowledgements read *)
  sy_driver : driver;
  sy_taken : nat;                 (* requests the scoreboard read from its FIFO *)
  sy_no_inflight : bool;          (* the signal [no_inflight_requests] *)
  sy_sb : scoreboard;             (* with the shared list of identifiers *)
}.

Definition set_seq (ph : run_phase) (g : rng) (p : Transaction_pool) (w d : bool) (a : nat) (y : system) : system :=
  Build_system ph g p w d a (sy_driver y) (sy_taken y) (sy_no_inflight y) (sy_sb y).
Definition set_driver (d : driver) (y : system) : system :=
  Build_system (sy_phase y) (sy_rng y) (sy_pool y) (sy_wait y) (sy_done y) (sy_acks y) d
    (sy_taken y) (sy_no_inflight y) (sy_sb y).
Definition set_sb (n : nat) (s : scoreboard) (y : system) : system :=
  Build_system (sy_phase y) (sy_rng y) (sy_pool y) (sy_wait y) (sy_done y) (sy_acks y) (sy_driver y)
    n (sy_no_inflight y) s.
Definition set_no_inflight (b : bool) (y : system) : system :=
  Build_system (sy_phase y) (sy_rng y) (sy_pool y) (sy_wait y) (sy_done y) (sy_acks y) (sy_driver y)
    (sy_taken y) b (sy_sb y).

(** The sequence's view of its state. *)
Definition seq_of (y : system) : seq_state :=
  {| q_ids := sb_seq_ids (sy_sb y); q_rng := sy_rng y; q_pool := sy_pool y |}.

(** ** Steps *)

(** The events of the device and of the clock; core requests come from the driver,
    identifiers from the sequence. *)
Definition device_event (ev : sb_event) : bool :=
  match ev with EvAllocate _ | EvCoreReq _ _ => false | _ => true end.

Inductive sys_step : system -> system -> Prop :=
  | sys_send y d dl sc t ph q :                      (* [send_transaction], up to the read *)
      sy_wait y = false -> sy_done y = false ->
      seq_turn max between create {| tu_released := []; tu_draws := d; tu_delay := dl; tu_sc_do := sc |}
        (sy_phase y) (seq_of y) = Some (t, ph, q) ->
      sys_step y
        (set_sb (sy_taken y) (set_ids (q_ids q) (sy_sb y))
           (set_driver (drive_request (Push (Some t)) (sy_driver y))
              (set_seq ph (q_rng q) (q_pool q) true false (sy_acks y) y)))
  | sys_ack y :                                      (* the acknowledgement is read *)
      sy_wait y = true -> (sy_acks y < length (dr_ret (sy_driver y)))%nat ->
      sys_step y (set_seq (sy_phase y) (sy_rng y) (sy_pool y) false (sy_done y) (S (sy_acks y)) y)
  | sys_stop y :                                     (* [transaction_fifo_o->write(nullptr)] *)
      sy_wait y = false -> sy_done y = false -> sy_phase y = Stop ->
      sys_step y
        (set_driver (drive_request (Push None) (sy_driver y))
           (set_seq Stop (sy_rng y) (sy_pool y) false true (sy_acks y) y))
  | sys_edge y ready :                               (* a clock edge of the driver *)
      sys_step y (set_driver (drive_request (Edge ready (sy_no_inflight y)) (sy_driver y)) y)
  | sys_inflight y :                                 (* [check_inflight_requests] *)
      sys_step y (set_no_inflight (check_inflight_requests (sy_sb y)) y)
  | sys_core_req y junk t s :                        (* [core_req_process] *)
      dr_sb (sy_driver y) !! sy_taken y = Some t ->
      core_req_process junk t (sy_sb y) = Done tt s ->
      sys_step y (set_sb (S (sy_taken y)) s y)
  | sys_device y ev s :                              (* the other processes *)
      device_event ev = true -> handle ev (sy_sb y) = Done tt s ->
      sys_step y (set_sb (sy_taken y) s y).

(** The steps as a function of the choices the environment makes. *)
Inductive action :=
  | Send (d : draws) (delay : Z) (sc_do : bool) | Ack | StopDriver | ClockEdge (ready : bool)
  | Sample | CoreReq (junk : inflight_entry_t) | Device (ev : sb_event).

Definition sb_result (m : SB unit) (s : scoreboard) : option scoreboard :=
  match m s with Done _ s' => Some s' | _ => None end.

Definition exec (a : action) (y : system) : option system :=
  match a with
  | Send d dl sc =>
      if sy_wait y || sy_done y then None else
      '(t, ph, q) ← seq_turn max between create
          {| tu_released := []; tu_draws := d; tu_delay := dl; tu_sc_do := sc |} (sy_phase y) (seq_of y);
      Some (set_sb (sy_taken y) (set_ids (q_ids q) (sy_sb y))
              (set_driver (drive_request (Push (Some t)) (sy_driver y))
                 (set_seq ph (q_rng q) (q_pool q) true false (sy_acks y) y)))
  | Ack =>
      if sy_wait y && (sy_acks y <? length (dr_ret (sy_driver y)))%nat then
        Some (set_seq (sy_phase y) (sy_rng y) (sy_pool y) false (sy_done y) (S (sy_acks y)) y)
      else None
  | StopDriver =>
      if sy_wait y || sy_done y then None else
      match sy_phase y with
      | Stop =>
          Some (set_driver (drive_request (Push None) (sy_driver y))
                  (set_seq Stop (sy_rng y) (sy_pool y) false true (sy_acks y) y))
      | _ => None
      end
  | ClockEdge ready =>
      Some (set_driver (drive_request (Edge ready (sy_no_inflight y)) (sy_driver y)) y)
  | Sample => Some (set_no_inflight (check_inflight_requests (sy_sb y)) y)
  | CoreReq junk =>
      t ← dr_sb (sy_driver y) !! sy_taken y;
      s ← sb_result (core_req_process junk t) (sy_sb y);
      Some (set_sb (S (sy_taken y)) s y)
  | Device ev =>
      if device_event ev then
        s ← sb_result (handle ev) (sy_sb y); Some (set_sb (sy_taken y) s y)
      else None
  end.

Lemma sb_result_done m s s' : sb_result m s = Some s' -> m s = Done tt s'.
Proof. unfold sb_result. destruct (m s) as [[] s1| |]; [by intros [= ->]|done..]. Qed.

Lemma exec_step a y y' : exec a y = Some y' -> sys_step y y'.
Proof.
  destruct a as [d dl sc| | |ready| |junk|ev]; simpl; intros H.
  - destruct (sy_wait y) eqn:Hw, (sy_done y) eqn:Hd; try done. simpl in H.
    apply bind_Some in H as ([[t ph] q] & Ht & [= <-]). by eapply sys_send.
  - destruct (sy_wait y) eqn:Hw; [|done]. simpl in H.
    destruct (Nat.ltb_spec (sy_acks y) (length (dr_ret (sy_driver y)))); [|done].
    injection H as <-. by apply sys_ack.
  - destruct (sy_wait y) eqn:Hw, (sy_done y) eqn:Hd; try done. simpl in H.
    destruct (sy_phase y) eqn:Hp; try done. injection H as <-. by apply sys_stop.
  - injection H as <-. apply sys_edge.
  - injection H as <-. apply sys_inflight.
  - apply bind_Some in H as (t & Ht & H). apply bind_Some in H as (s & Hs & [= <-]).
    eapply sys_core_req; [done|by apply sb_result_done].
  - destruct (device_event ev) eqn:He; [|done]. apply bind_Some in H as (s & Hs & [= <-]).
    eapply sys_device; [done|by apply sb_result_done].
Qed.

Definition execs (l : list action) (y : system) : option system :=
  foldl (fun o a => y ← o; exec a y) (Some y) l.

Lemma execs_none l : foldl (fun o a => y ← o; exec a y) None l = None.
Proof. by induction l. Qed.

Lemma execs_steps l y y' : execs l y = Some y' -> rtc sys_step y y'.
Proof.
  unfold execs. revert y. induction l as [|a l IH]; intros y H; simpl in H.
  - injection H as <-. apply rtc_refl.
  - destruct (exec a y) as [y1|] eqn:E; simpl in H; [|by rewrite execs_none in H].
    eapply rtc_l; [by eapply exec_step|by apply IH].
Qed.

Definition sys_init (g : rng) (bundle : nat) (s : scoreboard) : system :=
  Build_system (enter max 0) g (mk_pool bundle) false false 0 driver_init 0 false s.

(** ** What is where *)

(** The requests the driver has been given, in order. *)
Definition given (d : driver) : list transaction_req := dr_sb d ++ omap id (held d ++ dr_fifo d).
(** Those the scoreboard has not seen. *)
Definition unseen (y : system) : list transaction_req := drop (sy_taken y) (given (sy_driver y)).
(** The identifiers of the requests in flight. *)
Definition tracked (s : scoreboard) : list Z := (map_to_list (inflight_m s)).*1.

(** The identifiers are those of the requests on their way to the scoreboard and
    those in flight; the others are [lost], which needs an error. *)
Definition ids_split (unseen tracked ids : list Z) (log : list sb_error) : Prop :=
  exists lost, ids ≡ₚ unseen ++ tracked ++ lost /\ (log = [] -> lost = []).

Definition stop_marker (b : bool) : list (option transaction_req) := if b then [None] else [].

(** The scoreboard's side, for the identifiers [u] of the unseen requests. *)
Record sb_inv (u : list Z) (s : scoreboard) : Prop := {
  sv_wf : ids_wf (sb_seq_ids s);
  sv_split : ids_split u (tracked s) (sb_seq_ids s) (sb_log s);
  sv_dup : no_dup (sb_log s);
  sv_resp : is_word 64 (nb_core_resp (sb_count s));
}.

Record sys_inv (y : system) : Prop := {
  sv_pool : pool_inv (sy_pool y) ∅;
  sv_accounts : accounts_inv (sy_sb y);
  sv_sb : sb_inv (req_tid <$> unseen y) (sy_sb y);
  sv_driver : exists sent hs,
    driver_inv ((Some <$> sent) ++ stop_marker (sy_done y)) hs (sy_driver y) /\
    length sent = (sy_acks y + if sy_wait y then 1 else 0)%nat;
  sv_acks : (sy_acks y <= length (dr_sb (sy_driver y)))%nat;
  sv_taken : (sy_taken y <= length (dr_sb (sy_driver y)))%nat;
  sv_done : sy_done y = true -> sy_phase y = Stop /\ sy_wait y = false;
}.

(** ** The driver's part *)
Lemma omap_id_some {A} (l : list A) : omap id (Some <$> l) = l.
Proof. induction l as [|x l IH]; [done|exact (f_equal (cons x) IH)]. Qed.

Lemma given_sent sent b hs d :
  driver_inv ((Some <$> sent) ++ stop_marker b) hs d -> given d = sent.
Proof.
  intros [Ho _ _ _ _ _ _]. unfold given. apply (f_equal (omap id)) in Ho.
  rewrite !omap_app, !omap_id_some in Ho. rewrite omap_app, <-Ho. by destruct b; rewrite app_nil_r.
Qed.

Lemma dr_sb_grows i d : dr_sb d `prefix_of` dr_sb (drive_request i d).
Proof.
  unfold drive_request. destruct i as [x|r b]; destruct (dr_pc d); simpl; rewrite ?drive_top_sb; try done.
  - destruct r; rewrite ?drive_top_sb; [|done]. by eexists.
  - by destruct b.
Qed.

Lemma push_given x sent b hs d :
  driver_inv ((Some <$> sent) ++ stop_marker b) hs d ->
  driver_inv ((Some <$> sent) ++ stop_marker b ++ [x]) hs (drive_request (Push x) d).
Proof.
  intros H. pose proof (drive_request_inv _ _ _ (Push x) H) as H'. unfold pushed in H'. simpl in H'.
  by rewrite app_nil_r, <-app_assoc in H'.
Qed.

Lemma edge_given r b l hs d :
  driver_inv l hs d -> exists hs', driver_inv l hs' (drive_request (Edge r b) d).
Proof.
  intros H. pose proof (drive_request_inv _ _ _ (Edge r b) H) as H'. unfold pushed in H'. simpl in H'.
  rewrite app_nil_r in H'. by eexists.
Qed.

Lemma grown_length i d : (length (dr_sb d) <= length (dr_sb (drive_request i d)))%nat.
Proof. apply prefix_length, dr_sb_grows. Qed.

(** ** The identifiers' part *)
Lemma post_done {A} (m : SB A) s a s' (Q : A -> scoreboard -> Prop) :
  post m s Q -> m s = Done a s' -> Q a s'.
Proof. unfold post. intros H E. by rewrite E in H. Qed.

Lemma deallocate_perm x ids l : ids ≡ₚ x :: l -> (deallocate_id x ids).1 ≡ₚ l.
Proof.
  intros Hp. unfold deallocate_id. pose proof (erase_id_spec x ids) as He.
  destruct (erase_id x ids) as [ids'|].
  - simpl. destruct He as [_ He]. rewrite He in Hp. by apply Permutation_cons_inv in Hp.
  - exfalso. apply He. rewrite Hp. apply list_elem_of_here.
Qed.

Lemma split_send x u k ids log : ids_split u k ids log -> ids_split (u ++ [x]) k (ids ++ [x]) log.
Proof.
  intros (lost & Hp & Hl). exists lost. split; [|done]. rewrite Hp.
  rewrite <-!app_assoc. apply Permutation_app_head. rewrite app_assoc. apply Permutation_app_comm.
Qed.

(** What the end of a request or a response does to the split. *)
Lemma split_log u k ids log more : ids_split u k ids log -> ids_split u k ids (log ++ more).
Proof. intros (lost & Hp & Hl). exists lost. split; [done|]. intros [Hn _]%app_nil. by apply Hl. Qed.
Lemma split_lost x u k ids log more :
  more <> [] -> ids_split (x :: u) k ids log -> ids_split u k ids (log ++ more).
Proof.
  intros Hm (lost & Hp & _). exists (x :: lost). split; [|by intros [_ Hn]%app_nil].
  rewrite Hp. simpl. by rewrite !app_assoc, <-Permutation_middle.
Qed.
Lemma split_track x u k k' ids log :
  k' ≡ₚ x :: k -> ids_split (x :: u) k ids log -> ids_split u k' ids log.
Proof.
  intros Hk (lost & Hp & Hl). exists lost. split; [|done]. rewrite Hp, Hk. apply Permutation_middle.
Qed.
Lemma split_release x u k ids log :
  ids_split (x :: u) k ids log -> ids_split u k (deallocate_id x ids).1 log.
Proof. intros (lost & Hp & Hl). exists lost. split; [|done]. by apply deallocate_perm. Qed.
Lemma split_answer x u k k' ids log :
  k ≡ₚ x :: k' -> ids_split u k ids log -> ids_split u k' (deallocate_id x ids).1 log.
Proof.
  intros Hk (lost & Hp & Hl). exists lost. split; [|done]. apply deallocate_perm.
  rewrite Hp, Hk. symmetry. apply Permutation_middle.
Qed.

Lemma tracked_insert x e s s' :
  inflight_m s !! x = None -> inflight_m s' = <[x := e]> (inflight_m s) -> tracked s' ≡ₚ x :: tracked s.
Proof. intros Hn E. unfold tracked. by rewrite E, map_to_list_insert. Qed.
Lemma tracked_delete x s s' :
  is_Some (inflight_m s !! x) -> inflight_m s' = delete x (inflight_m s) -> tracked s ≡ₚ x :: tracked s'.
Proof. intros [e He] E. unfold tracked. by rewrite E, <-(map_to_list_delete _ _ _ He). Qed.
Lemma tracked_same s s' : inflight_m s' = inflight_m s -> tracked s' = tracked s.
Proof. unfold tracked. by intros ->. Qed.

(** A request the scoreboard has not seen is not in flight. *)
Lemma unseen_not_tracked x u s ids log :
  NoDup ids -> ids_split (x :: u) (tracked s) ids log -> inflight_m s !! x = None.
Proof.
  intros Hn (lost & Hp & _). destruct (inflight_m s !! x) as [e|] eqn:E; [|done]. exfalso.
  rewrite Hp in Hn. simpl in Hn. apply list.NoDup_cons in Hn as [Hn _]. apply Hn.
  apply elem_of_app. right. apply elem_of_app. left. unfold tracked.
  apply list_elem_of_fmap. exists (x, e). split; [done|]. by apply elem_of_map_to_list.
Qed.

(** The processes of the scoreboard but the one that reads core requests. *)
Lemma device_effect ev s s' :
  device_event ev = true -> handle ev s = Done tt s' ->
  same_accounts s s' \/ exists resp k, resp_effect resp k s s'.
Proof.
  intros Hd He.
  assert (frames (handle ev) -> same_accounts s s') as Hf by (intros H; exact (post_done _ _ _ _ _ (H s) He)).
  destruct ev as [|?|resp| | | | |]; try done; simpl in Hf;
    try by (left; apply Hf; auto using frames_mem_read_req, frames_mem_read_resp,
              frames_mem_write_req, frames_mem_write_resp, frames_perf).
  right. exists resp. exact (post_done _ _ _ _ _ (core_resp_effect resp s) He).
Qed.

(** *** Each effect keeps the scoreboard's side *)
Lemma no_dup_log k s s' : log_extends k s s' -> no_dup k -> no_dup (sb_log s) -> no_dup (sb_log s').
Proof. intros -> H1 H2. by apply Forall_app_2. Qed.

Lemma sb_inv_frame u s s' : same_accounts s s' -> sb_inv u s -> sb_inv u s'.
Proof.
  intros (E1 & E2 & _ & E4 & k & Hk & Hd) [H1 H2 H3 H4].
  constructor; rewrite ?E2, ?E4; [done| |by eapply no_dup_log|done].
  rewrite (tracked_same _ _ E1), Hk. by apply split_log.
Qed.

Lemma sb_inv_resp u resp k s s' : resp_effect resp k s s' -> sb_inv u s -> sb_inv u s'.
Proof.
  intros [_ E4 Hk Hd Hend] [H1 H2 H3 H4].
  assert (is_word 64 (nb_core_resp (sb_count s'))) as Hw by (rewrite E4; by apply wrap_word).
  destruct Hend as [(_ & E1 & E2)|(He & E1 & E2)]; constructor; rewrite ?E2; try done;
    try by eapply no_dup_log.
  - rewrite (tracked_same _ _ E1), Hk. by apply split_log.
  - by apply deallocate_wf.
  - rewrite Hk. apply split_log. eapply split_answer; [by apply tracked_delete|done].
Qed.

Lemma sb_inv_req u req k s s' :
  req_effect req k s s' -> sb_inv (req_tid req :: u) s -> sb_inv u s'.
Proof.
  intros [_ E4 Hk Hd Hend] [H1 H2 H3 H4]. rewrite <-E4 in H4.
  assert (inflight_m s !! req_tid req = None) as Hn by (eapply unseen_not_tracked, H2; apply H1).
  destruct Hend as [(Hne & E1 & E2)|[_ Hend]].
  { constructor; rewrite ?E2; [done| |eauto using no_dup_log|done].
    rewrite (tracked_same _ _ E1), Hk. by eapply split_lost. }
  destruct (req_need_rsp req).
  - destruct Hend as [[e E1] E2]. constructor; rewrite ?E2; [done| |eauto using no_dup_log|done].
    rewrite Hk. apply split_log. eapply split_track; [by eapply tracked_insert|done].
  - destruct Hend as [E1 E2].
    constructor; rewrite ?E2; [by apply deallocate_wf| |eauto using no_dup_log|done].
    rewrite Hk, (tracked_same _ _ E1). apply split_log. by apply split_release.
Qed.

Lemma sb_inv_send u x s :
  ids_wf (sb_seq_ids s ++ [x]) -> sb_inv u s -> sb_inv (u ++ [x]) (set_ids (sb_seq_ids s ++ [x]) s).
Proof. intros Hwf [H1 H2 H3 H4]. constructor; try done. by apply split_send. Qed.

(** A request the scoreboard has not seen holds its identifier. *)
Lemma unseen_allocated x u s : sb_inv (x :: u) s -> x ∈ sb_seq_ids s.
Proof. intros [_ (lost & Hp & _) _ _]. rewrite Hp. apply list_elem_of_here. Qed.

(** ** Every step keeps the invariant *)
Hypothesis create_tid : forall d tid t,
  create d tid = Some t -> req_tid t = wrap HPDCACHE_REQ_TRANS_ID_WIDTH tid.

Lemma create_sc_tid d addr u tid t :
  create_sc_transaction d addr u tid = Some t -> req_tid t = wrap HPDCACHE_REQ_TRANS_ID_WIDTH tid.
Proof. intros H. unfold create_sc_transaction in H. by apply bind_Some in H as (be & _ & [= <-]). Qed.

Lemma seq_turn_sent d dl sc ph q t ph' q' :
  seq_inv q ->
  seq_turn max between create {| tu_released := []; tu_draws := d; tu_delay := dl; tu_sc_do := sc |} ph q
    = Some (t, ph', q') ->
  seq_inv q' /\ q_ids q' = q_ids q ++ [req_tid t] /\ req_tid t ∉ q_ids q.
Proof using create_tid wf.
  intros Hq H. unfold seq_turn in H. simpl in H.
  apply bind_Some in H as (c & Hc & H). apply bind_Some in H as ([t' q1] & Hs & [= <- _ <-]).
  assert (forall tid t, c tid = Some t -> req_tid t = wrap HPDCACHE_REQ_TRANS_ID_WIDTH tid) as Hct.
  { destruct ph; simplify_eq; eauto using create_sc_tid. }
  destruct (create_and_send_inv c _ _ _ Hq Hct Hs) as (H1 & H2 & H3). by split_and!.
Qed.

Lemma sys_send_inv y d dl sc t ph q :
  sy_wait y = false -> sy_done y = false -> sys_inv y ->
  seq_turn max between create {| tu_released := []; tu_draws := d; tu_delay := dl; tu_sc_do := sc |}
    (sy_phase y) (seq_of y) = Some (t, ph, q) ->
  sys_inv (set_sb (sy_taken y) (set_ids (q_ids q) (sy_sb y))
             (set_driver (drive_request (Push (Some t)) (sy_driver y))
                (set_seq ph (q_rng q) (q_pool q) true false (sy_acks y) y))).
Proof using create_tid wf.
  intros Hw Hdn [Hp Ha Hsb (sent & hs & Hd & Hlen) Hak Htk Hdone] Hs.
  destruct (seq_turn_sent _ _ _ _ _ _ _ _ (Build_seq_inv (seq_of y) (sv_wf _ _ Hsb) Hp) Hs) as ([Hwf Hp'] & Hids & Hfresh).
  simpl in Hids, Hfresh. rewrite Hids in Hwf.
  rewrite Hdn in Hd. pose proof (push_given (Some t) _ _ _ _ Hd) as Hd'. cbn [stop_marker app] in Hd'.
  assert ((Some <$> sent) ++ [Some t] = (Some <$> (sent ++ [t])) ++ stop_marker false) as El
    by (by rewrite fmap_app, app_nil_r).
  rewrite El in Hd'.
  constructor; simpl; try done.
  - rewrite Hids.
    exact (post_done _ _ _ _ (fun _ s => accounts_inv s)
             (handle_accounts (EvAllocate (req_tid t)) _ Ha Hfresh) eq_refl).
  - assert (unseen y = drop (sy_taken y) sent) as Hu by (unfold unseen; by rewrite (given_sent _ _ _ _ Hd)).
    unfold unseen. simpl. rewrite (given_sent _ _ _ _ Hd'), drop_app_le, fmap_app, Hids, <-Hu.
    + by apply sb_inv_send.
    + etrans; [exact Htk|]. rewrite <-(given_sent _ _ _ _ Hd). unfold given. rewrite length_app. lia.
  - exists (sent ++ [t]), hs. split; [done|]. rewrite length_app, Hlen, Hw. simpl. lia.
  - etrans; [exact Hak|apply grown_length].
  - etrans; [exact Htk|apply grown_length].
Qed.

Lemma sys_driver_inv y sent hs b d ph g p (w dn : bool) a :
  sys_inv y -> given d = given (sy_driver y) -> (length (dr_sb (sy_driver y)) <= length (dr_sb d))%nat ->
  driver_inv ((Some <$> sent) ++ stop_marker dn) hs d ->
  length sent = (a + if w then 1 else 0)%nat -> (a <= length (dr_sb d))%nat ->
  pool_inv p ∅ -> (dn = true -> ph = Stop /\ w = false) ->
  sys_inv (set_no_inflight b (set_driver d (set_seq ph g p w dn a y))).
Proof.
  intros [Hp Ha Hsb _ Hak Htk Hdone] Hg Hl Hd Hlen Hak' Hp' Hdone'.
  constructor; simpl; eauto; [|lia]. unfold unseen. simpl. by rewrite Hg.
Qed.

Lemma sys_core_req_inv y junk t s :
  sys_inv y -> dr_sb (sy_driver y) !! sy_taken y = Some t ->
  core_req_process junk t (sy_sb y) = Done tt s -> sys_inv (set_sb (S (sy_taken y)) s y).
Proof.
  intros [Hp Ha Hsb Hd Hak Htk Hdone] Ht Hs.
  assert (unseen y = t :: drop (S (sy_taken y)) (given (sy_driver y))) as Hu.
  { unfold unseen. apply drop_S. unfold given. by apply lookup_app_l_Some. }
  rewrite Hu in Hsb. simpl in Hsb.
  constructor; simpl; try done.
  - refine (post_done _ _ _ _ (fun _ s => accounts_inv s) (core_req_accounts junk t _ Ha _) Hs).
    intros _. by apply unseen_allocated in Hsb.
  - destruct (post_done _ _ _ _ _ (core_req_effect junk t (sy_sb y)) Hs) as [k Hk].
    unfold unseen. simpl. by eapply sb_inv_req.
  - apply lookup_lt_Some in Ht. lia.
Qed.

Lemma sys_device_inv y ev s :
  sys_inv y -> device_event ev = true -> handle ev (sy_sb y) = Done tt s ->
  sys_inv (set_sb (sy_taken y) s y).
Proof.
  intros [Hp Ha Hsb Hd Hak Htk Hdone] Hev Hs. constructor; simpl; try done.
  - refine (post_done _ _ _ _ (fun _ s => accounts_inv s) (handle_accounts ev _ Ha _) Hs). by destruct ev.
  - change (unseen _) with (unseen y).
    destruct (device_effect _ _ _ Hev Hs) as [H|(resp & k & H)]; eauto using sb_inv_frame, sb_inv_resp.
Qed.

Lemma sys_step_inv y y' : sys_step y y' -> sys_inv y -> sys_inv y'.
Proof using create_tid wf.
  intros Hs Hy. pose proof Hy as [Hp Ha Hsb (sent & hs & Hd & Hlen) Hak Htk Hdone].
  destruct Hs as [y d dl sc t ph q Hw Hdn Ht|y Hw Hac|y Hw Hdn Hph|y ready|y|y junk t s Ht Hs|y ev s Hev Hs].
  - by eapply sys_send_inv.
  - apply (sys_driver_inv y sent hs (sy_no_inflight y) (sy_driver y)); try done.
    + rewrite Hlen, Hw. lia.
    + pose proof (di_ret _ _ _ Hd) as Hr. apply (f_equal length) in Hr. rewrite length_fmap in Hr. lia.
    + intros H. by destruct (Hdone H) as [_ ?]; congruence.
  - rewrite Hdn in Hd. pose proof (push_given None _ _ _ _ Hd) as Hd'.
    apply (sys_driver_inv y sent hs (sy_no_inflight y) (drive_request (Push None) (sy_driver y))); try done.
    + by rewrite (given_sent _ true _ _ Hd'), (given_sent _ _ _ _ Hd).
    + apply grown_length.
    + by rewrite Hlen, Hw.
    + etrans; [exact Hak|apply grown_length].
  - destruct (edge_given ready (sy_no_inflight y) _ _ _ Hd) as [hs' Hd'].
    apply (sys_driver_inv y sent hs' (sy_no_inflight y) (drive_request (Edge ready (sy_no_inflight y)) (sy_driver y)));
      try done.
    + by rewrite (given_sent _ _ _ _ Hd'), (given_sent _ _ _ _ Hd).
    + apply grown_length.
    + etrans; [exact Hak|apply grown_length].
  - by apply (sys_driver_inv y sent hs (check_inflight_requests (sy_sb y)) (sy_driver y)).
  - by eapply sys_core_req_inv.
  - by eapply sys_device_inv.
Qed.

Lemma sys_init_inv g bundle s : (0 < bundle)%nat -> fresh s -> sys_inv (sys_init g bundle s).
Proof.
  intros Hb Hf. pose proof (fresh_accounts s Hf) as Ha. destruct Hf as (H1 & H2 & H3 & H4 & H5 & H6 & _).
  constructor; simpl; try done; try lia.
  - apply (pool_reachable_inv bundle); [done|apply rtc_refl].
  - constructor; rewrite ?H1, ?H3, ?H6; try done.
    + split; constructor.
    + exists []. split; [|done]. unfold tracked. by rewrite H4, map_to_list_empty.
    + constructor.
  - exists [], []. split; [apply driver_init_inv|done].
Qed.

Lemma sys_reachable_inv g bundle s y :
  (0 < bundle)%nat -> fresh s -> rtc sys_step (sys_init g bundle s) y -> sys_inv y.
Proof using create_tid wf.
  intros Hb Hf H. apply (rtc_ind_r sys_inv) in H; eauto using sys_step_inv. by apply sys_init_inv.
Qed.

(** C4: In every run of the sequence, the driver and the scoreboard together, whatever the device answers, identifiers do their work: those in use are distinct, every request on its way to the scoreboard holds one that no request in flight has, so the scoreboard never finds a request whose identifier is in flight; and as long as no error was reported none is lost: there are as many in use as requests on their way and in flight. *)
Theorem closed_loop_ids g bundle s0 y :
  (0 < bundle)%nat -> fresh s0 -> rtc sys_step (sys_init g bundle s0) y ->
  NoDup (sb_seq_ids (sy_sb y)) /\ NoDup (req_tid <$> unseen y)
  /\ (forall t, t ∈ unseen y -> req_tid t ∈ sb_seq_ids (sy_sb y)
                               /\ inflight_m (sy_sb y) !! req_tid t = None)
  /\ (forall id, E_core_id_inflight id ∉ sb_log (sy_sb y))
  /\ (sb_log (sy_sb y) = [] ->
      length (sb_seq_ids (sy_sb y)) = (length (unseen y) + size (inflight_m (sy_sb y)))%nat).
Proof using create_tid wf.
  intros Hb Hf Hr. destruct (sys_reachable_inv _ _ _ _ Hb Hf Hr) as [_ _ [[Hn _] Hs Hd _] _ _ _ _].
  pose proof Hs as (lost & Hp & Hl).
  assert (NoDup (req_tid <$> unseen y)) as Hu by (rewrite Hp in Hn; by apply list.NoDup_app in Hn as [? _]).
  split_and!; [done|done|..].
  - intros t Ht. apply (list_elem_of_fmap_2 req_tid) in Ht.
    split; [rewrite Hp; apply elem_of_app; by left|].
    apply elem_of_Permutation in Ht as [u Hu']. apply (unseen_not_tracked _ u _ _ (sb_log (sy_sb y)) Hn).
    exists lost. split; [by rewrite <-Hu'|done].
  - intros id Hin. unfold no_dup in Hd. rewrite list.Forall_forall in Hd. by specialize (Hd _ Hin).
  - intros Hlog. rewrite Hp, (Hl Hlog), app_nil_r, length_app, length_fmap. unfold tracked.
    by rewrite length_fmap, length_map_to_list.
Qed.

(** C11: The sequence and the driver go in step: there is at most one request between them, handed over and not yet taken by the device, and none when the sequence creates the next one; so neither the FIFO of transactions nor that of acknowledgements ever holds more than one element, and the acknowledgements read are those of the first requests, in order. *)
Theorem one_request_at_a_time g bundle s0 y :
  (0 < bundle)%nat -> fresh s0 -> rtc sys_step (sys_init g bundle s0) y ->
  (length (omap id (held (sy_driver y) ++ dr_fifo (sy_driver y))) <= if sy_wait y then 1 else 0)%nat
  /\ (length (dr_fifo (sy_driver y)) <= 1)%nat
  /\ (sy_acks y <= length (dr_ret (sy_driver y)) <= sy_acks y + 1)%nat
  /\ dr_ret (sy_driver y) = req_id <$> dr_sb (sy_driver y).
Proof using create_tid wf.
  intros Hb Hf Hr. destruct (sys_reachable_inv _ _ _ _ Hb Hf Hr) as [_ _ _ (sent & hs & Hd & Hl) Hak _ Hdone].
  pose proof (given_sent _ _ _ _ Hd) as Hg. pose proof (di_ret _ _ _ Hd) as Hret.
  pose proof (f_equal length (di_order _ _ _ Hd)) as Ho. pose proof (f_equal length Hret) as Hlr.
  unfold given in Hg. apply (f_equal length) in Hg.
  rewrite !length_app, !length_fmap in *.
  destruct (sy_done y); simpl in *; [destruct (Hdone eq_refl) as [_ Hw]; rewrite Hw in *|];
    destruct (sy_wait y); split_and!; done || lia.
Qed.

Lemma finished_clean y :
  sys_inv y -> dr_pc (sy_driver y) = Finished -> sy_taken y = length (dr_sb (sy_driver y)) ->
  inflight_m (sy_sb y) = ∅ -> sb_log (sy_sb y) = [] ->
  evt_cache_write_miss (sb_events (sy_sb y)) <= evt_write_req (sb_events (sy_sb y)) ->
  evt_cache_read_miss (sb_events (sy_sb y)) <= evt_read_req (sb_events (sy_sb y)) ->
  unseen y = [] /\ sb_seq_ids (sy_sb y) = [] /\ final_checks (sy_sb y) = Done tt (sy_sb y).
Proof.
  intros [_ [_ _ Hbal] [_ (lost & Hp & Hl) _ Hres] (sent & hs & Hd & _) _ _ _] Hpc Htk Hif Hlog Hw Hrd.
  assert (given (sy_driver y) = dr_sb (sy_driver y)) as Hg.
  { rewrite (given_sent _ _ _ _ Hd). destruct Hd as [Ho _ _ _ _ _ _]. unfold held in Ho. rewrite Hpc in Ho.
    destruct (sy_done y); [by apply stop_marker_split in Ho|]. exfalso.
    rewrite app_nil_r in Ho. assert (None ∈ Some <$> sent) as Hin by (rewrite Ho; set_solver).
    apply list_elem_of_fmap in Hin as (? & ? & _). done. }
  assert (unseen y = []) as Hu by (unfold unseen; rewrite Hg, Htk; apply drop_all).
  assert (sb_seq_ids (sy_sb y) = []) as Hids.
  { rewrite Hu, (Hl Hlog) in Hp. unfold tracked in Hp. rewrite Hif, map_to_list_empty in Hp.
    symmetry in Hp. by apply Permutation_nil in Hp. }
  split_and!; [done|done|]. unfold final_checks. rewrite bind_get, Hids.
  rewrite Hbal, Hif, map_size_empty, Z.add_0_r, (wrap_small 64 _ Hres), Z.eqb_refl by done.
  rewrite (proj2 (Z.ltb_ge _ _) Hw), (proj2 (Z.ltb_ge _ _) Hrd). done.
Qed.

(** C22: When the driver has finished, every transaction the sequence sent was taken by the device; and if the scoreboard has read its FIFO, nothing is in flight and no error was reported, every identifier is free again and the final checks of requests against responses report nothing. *)
Theorem closed_loop_end g bundle s0 y :
  (0 < bundle)%nat -> fresh s0 -> rtc sys_step (sys_init g bundle s0) y ->
  dr_pc (sy_driver y) = Finished -> sy_taken y = length (dr_sb (sy_driver y)) ->
  inflight_m (sy_sb y) = ∅ -> sb_log (sy_sb y) = [] ->
  evt_cache_write_miss (sb_events (sy_sb y)) <= evt_write_req (sb_events (sy_sb y)) ->
  evt_cache_read_miss (sb_events (sy_sb y)) <= evt_read_req (sb_events (sy_sb y)) ->
  unseen y = [] /\ sb_seq_ids (sy_sb y) = [] /\ final_checks (sy_sb y) = Done tt (sy_sb y).
Proof using create_tid wf.
  intros Hb Hf Hr. apply finished_clean. by apply (sys_reachable_inv g bundle s0).
Qed.
End System.

(** ** Witnesses: the random sequence sends one load, which is answered *)
#[local] Existing Instance default_config.
#[local] Existing Instance ex_fault_config.
Definition ex_create : draws -> Z -> option transaction_req := create_random_transaction random_seq.
Definition ex_init : system := sys_init 1 ex_seq_rng 10 (ex_sb 1).
Definition ex_answer : transaction_resp :=
  {| rsp_rdata := 5; rsp_sid := 0; rsp_tid := 62; rsp_error := false; rsp_aborted := false |}.
Definition ex_actions : list action :=
  [Send (ex_draws HPDCACHE_REQ_LOAD 0x2f8) 0 false; ClockEdge true; CoreReq ex_stale; Ack; StopDriver;
   Device (EvCoreResp ex_answer); Sample; ClockEdge false].

Lemma ex_create_tid d tid t :
  ex_create d tid = Some t -> req_tid t = wrap HPDCACHE_REQ_TRANS_ID_WIDTH tid.
Proof.
  intros H. apply (@create_random_fields default_config _ ex_fault_config 3) in H as [_ H]; [done|..].
  - lia.
  - reflexivity.
  - vm_compute. discriminate.
Qed.

(** The state after [n] of the actions, and what is true of it. *)
Definition ex_state_after (n : nat) : option system := execs 1 0 ex_create (take n ex_actions) ex_init.

Lemma ex_reachable n y :
  ex_state_after n = Some y ->
  rtc (sys_step 1 0 ex_create) (sys_init 1 ex_seq_rng 10 (ex_sb 1)) y.
Proof. apply execs_steps. Qed.

(** What the theorems ask of it. *)
Definition ex_view (y : system) : list Z * list sb_error * bool :=
  (req_tid <$> unseen y, sb_log (sy_sb y),
   match dr_pc (sy_driver y) with Finished => true | _ => false end
   && (sy_taken y =? length (dr_sb (sy_driver y)))%nat && bool_decide (inflight_m (sy_sb y) = ∅)
   && (evt_cache_write_miss (sb_events (sy_sb y)) <=? evt_write_req (sb_events (sy_sb y)))
   && (evt_cache_read_miss (sb_events (sy_sb y)) <=? evt_read_req (sb_events (sy_sb y)))).

Lemma ex_views :
  (ex_view <$> ex_state_after 1 = Some ([62], [], false)) /\
  (ex_view <$> ex_state_after 2 = Some ([62], [], false)) /\
  (ex_view <$> ex_state_after 8 = Some ([], [], true)).
Proof. split_and!; vm_compute; reflexivity. Qed.

Lemma closed_loop_ids_witness :
  exists y t, ex_state_after 2 = Some y /\ t ∈ unseen y /\ req_tid t ∈ sb_seq_ids (sy_sb y)
    /\ inflight_m (sy_sb y) !! req_tid t = None.
Proof.
  destruct ex_views as (_ & V & _). destruct (ex_state_after 2) as [y|] eqn:E; [|discriminate V].
  pose proof (closed_loop_ids 1 0 ex_create ex_create_tid ex_seq_rng 10 (ex_sb 1) y
    ltac:(repeat constructor) ex_sb_fresh (ex_reachable _ _ E)) as (_ & _ & H & _ & _).
  injection V as Hu _ _. destruct (unseen y) as [|t l] eqn:Eu; [discriminate Hu|].
  pose proof (H t (list_elem_of_here _ _)) as [H1 H2].
  exists y, t. split; [reflexivity|]. split; [rewrite Eu; apply list_elem_of_here|]. split; [exact H1|exact H2].
Defined.

Lemma one_request_at_a_time_witness :
  exists y, ex_state_after 1 = Some y /\ (length (dr_fifo (sy_driver y)) <= 1)%nat.
Proof.
  destruct ex_views as (V & _). destruct (ex_state_after 1) as [y|] eqn:E; [|discriminate V].
  pose proof (one_request_at_a_time 1 0 ex_create ex_create_tid ex_seq_rng 10 (ex_sb 1) y
    ltac:(repeat constructor) ex_sb_fresh (ex_reachable _ _ E)) as (_ & H & _).
  exists y. split; [reflexivity|exact H].
Defined.

Lemma closed_loop_end_witness :
  exists y, ex_state_after 8 = Some y /\ final_checks (sy_sb y) = Done tt (sy_sb y).
Proof.
  destruct ex_views as (_ & _ & V). destruct (ex_state_after 8) as [y|] eqn:E; [|discriminate V].
  exists y. split; [reflexivity|]. injection V as _ Hl Hb.
  apply andb_true_iff in Hb as [Hb Hr%Z.leb_le]. apply andb_true_iff in Hb as [Hb Hw%Z.leb_le].
  apply andb_true_iff in Hb as [Hb Hi%bool_decide_eq_true]. apply andb_true_iff in Hb as [Hp Ht%Nat.eqb_eq].
  apply (closed_loop_end 1 0 ex_create ex_create_tid ex_seq_rng 10 (ex_sb 1) y
    ltac:(repeat constructor) ex_sb_fresh (ex_reachable _ _ E)); try assumption.
  destruct (dr_pc (sy_driver y)); [discriminate Hp|discriminate Hp|discriminate Hp|reflexivity].
Defined.
