(* ===== verification/SystemLive.v ===== *)
(** * The closed loop is defined and makes progress

    For the loop of [System]: no process of the core side of the scoreboard is ever
    undefined, and the sequence, the driver and the scoreboard only stop when the run
    is over or the device owes them something. *)
From S2P Require Import Prelude Defs Transaction MemModel Sequence MemResp.
From S2P Require Import Scoreboard ScoreboardProps ScoreboardData ScoreboardSafe.
From S2P Require Import SeqGen SeqProps Driver System.

#[local] Open Scope Z_scope.
#[local] Arguments drive_request : simpl never.
#[local] Arguments phase_ok : simpl never.
#[local] Arguments phase_left : simpl never.

Lemma delete_size {A} (m : gmap Z A) k x : m !! k = Some x -> (size (delete k m) < size m)%nat.
Proof.
  intros Hk. rewrite map_size_delete_Some by eauto.
  assert (size m <> 0%nat) by (intros E; apply map_size_empty_inv in E; by rewrite E, lookup_empty in Hk). lia.
Qed.

Section Live.
Context {cfg : HpdConfig} {wf : ConfigWf cfg}.
Hypothesis Hword : HPDCACHE_WORD_WIDTH = 64.
Hypothesis Hwords : 1 <= HPDCACHE_REQ_WORDS.
Hypothesis Hdiv : (CORE_REQ_BYTES | SCOREBOARD_RAM_SIZE).
Context (lg : Z) (Hlg : 2 <= lg <= 5) (Hbytes : REQ_DATA_BYTES = 2 ^ lg).

(** A sequence whose requests fit, and that can always create one. *)
Context (max between : nat) (create : draws -> Z -> option transaction_req).
Hypothesis create_tid : forall d tid t,
  create d tid = Some t -> req_tid t = wrap HPDCACHE_REQ_TRANS_ID_WIDTH tid.
Hypothesis create_fits : forall d tid t, create d tid = Some t -> req_fits t.
Hypothesis create_total : exists d, forall tid, is_Some (create d tid).

Abbreviation step := (sys_step max between create).

(** ** Definedness *)

Record live_inv (y : system) : Prop := {
  lv_sys : sys_inv y;
  lv_phase : phase_ok max between (sy_phase y);
  lv_fits : Forall req_fits (given (sy_driver y));
  lv_entries : entries_defined (sy_sb y);
}.

Lemma sc_fits d addr u tid t : create_sc_transaction d addr u tid = Some t -> req_fits t.
Proof.
  intros H. unfold create_sc_transaction in H. apply bind_Some in H as (be & _ & [= <-]).
  intros Hx. exfalso. revert Hx. by vm_compute.
Qed.

(** What a turn sends, and where it leaves the sequence. *)
Lemma turn_sent d dl sc ph q t ph' q' :
  seq_turn max between create {| tu_released := []; tu_draws := d; tu_delay := dl; tu_sc_do := sc |} ph q
    = Some (t, ph', q') ->
  ph <> Stop /\ req_fits t /\ ph' = phase_next max between sc ph t.
Proof using create_fits.
  intros H. unfold seq_turn in H. simpl in H.
  apply bind_Some in H as (c & Hc & H). apply bind_Some in H as ([t' q1] & Hs & [= <- <- <-]).
  assert (exists tid, c tid = Some t') as [tid Ht].
  { unfold create_and_send in Hs. apply bind_Some in Hs as ([r p] & _ & Hs).
    apply bind_Some in Hs as ([[tid ids] g] & _ & Hs). apply bind_Some in Hs as (t0 & Ht & [= <- _]). eauto. }
  destruct ph; simplify_eq; split_and!; try done; eauto using sc_fits.
Qed.

Lemma given_send x y :
  sys_inv y -> sy_done y = false -> given (drive_request (Push (Some x)) (sy_driver y)) = given (sy_driver y) ++ [x].
Proof.
  intros [_ _ _ (sent & hs & Hd & _) _ _ _] Hdn. rewrite Hdn in Hd.
  pose proof (push_given (Some x) _ _ _ _ Hd) as Hd'. simpl in Hd'.
  rewrite (given_sent _ false _ _ Hd). apply (given_sent _ false hs). simpl.
  by rewrite app_nil_r, fmap_app.
Qed.

Lemma given_stop y :
  sys_inv y -> sy_done y = false -> given (drive_request (Push None) (sy_driver y)) = given (sy_driver y).
Proof.
  intros [_ _ _ (sent & hs & Hd & _) _ _ _] Hdn. rewrite Hdn in Hd.
  pose proof (push_given None _ _ _ _ Hd) as Hd'. simpl in Hd'.
  by rewrite (given_sent _ false _ _ Hd), (given_sent _ true _ _ Hd').
Qed.

Lemma given_edge y r b : sys_inv y -> given (drive_request (Edge r b) (sy_driver y)) = given (sy_driver y).
Proof.
  intros [_ _ _ (sent & hs & Hd & _) _ _ _]. destruct (edge_given r b _ _ _ Hd) as [hs' Hd'].
  by rewrite (given_sent _ _ _ _ Hd), (given_sent _ _ _ _ Hd').
Qed.

Lemma runs_done {A} (m : SB A) s (Q : A -> scoreboard -> Prop) a s' : runs m s Q -> m s = Done a s' -> Q a s'.
Proof. unfold runs. intros H E. by rewrite E in H. Qed.

Lemma device_entries ev s s' :
  device_event ev = true -> handle ev s = Done tt s' -> entries_defined s -> entries_defined s'.
Proof.
  intros Hev H Hs. unfold entries_defined.
  destruct (device_effect ev s s' Hev H) as [(E & _)|(resp & k & [_ _ _ _ Hend])]; [by rewrite E|].
  destruct Hend as [(_ & E & _)|(_ & E & _)]; rewrite E; [done|by apply map_Forall_delete].
Qed.

Lemma unseen_fits y t :
  live_inv y -> dr_sb (sy_driver y) !! sy_taken y = Some t -> req_fits t.
Proof.
  intros [_ _ Hf _] Ht. rewrite list.Forall_forall in Hf. apply Hf. unfold given.
  apply elem_of_app. left. by eapply list_elem_of_lookup_2.
Qed.

Lemma live_step y y' : step y y' -> live_inv y -> live_inv y'.
Proof using Hword Hwords Hdiv Hlg create_tid create_fits wf.
  intros Hst Hy. pose proof Hy as [Hs Hph Hf He].
  assert (sys_inv y') as Hs' by (by eapply sys_step_inv).
  destruct Hst as [y d dl sc t ph q Hw Hdn Ht|y Hw Hac|y Hw Hdn Hp|y ready|y|y junk t s Ht Hr|y ev s Hev Hr];
    constructor; try done; simpl in *.
  - destruct (turn_sent _ _ _ _ _ _ _ _ Ht) as (Hns & _ & ->).
    exact (proj1 (phase_next_left lg Hlg max between sc (sy_phase y) t Hph Hns)).
  - destruct (turn_sent _ _ _ _ _ _ _ _ Ht) as (_ & Hfit & _). rewrite given_send by done.
    apply list.Forall_app. split; [done|]. by apply list.Forall_singleton.
  - by rewrite given_stop.
  - by rewrite given_edge.
  - refine (runs_done _ _ (fun _ => entries_defined) _ _ _ Hr). apply (core_req_runs Hword Hwords Hdiv); [by eapply unseen_fits|done].
  - by eapply device_entries.
Qed.

Lemma live_reachable g bundle s y :
  (0 < bundle)%nat -> fresh s -> rtc step (sys_init max g bundle s) y -> live_inv y.
Proof using Hword Hwords Hdiv Hlg create_tid create_fits wf.
  intros Hb Hf H. apply (rtc_ind_r live_inv) in H; eauto using live_step.
  constructor; simpl.
  - by apply sys_init_inv.
  - unfold enter. destruct (Nat.ltb_spec 0 max); [|done]. by simpl.
  - done.
  - destruct Hf as (_ & _ & _ & E & _). unfold entries_defined. simpl. rewrite E. apply map_Forall_empty.
Qed.

(** C23: No undefined behaviour on the core side. In every run of the sequence, the driver and the scoreboard together, whatever the device answers and whatever the uninitialised entry on the stack holds, the scoreboard handles the next request of the driver and any response of the device without reading or writing outside an array: the entries, the words of the response and the reference memory. *)
Theorem closed_loop_defined g bundle s0 y :
  (0 < bundle)%nat -> fresh s0 -> rtc step (sys_init max g bundle s0) y ->
  (forall junk t, dr_sb (sy_driver y) !! sy_taken y = Some t -> core_req_process junk t (sy_sb y) <> Undef)
  /\ (forall resp, core_resp_process resp (sy_sb y) <> Undef).
Proof using Hword Hwords Hdiv Hlg create_tid create_fits wf.
  intros Hb Hf Hr. pose proof (live_reachable _ _ _ _ Hb Hf Hr) as Hy. split.
  - intros junk t Ht E. pose proof (core_req_runs Hword Hwords Hdiv junk t (sy_sb y)) as H.
    unfold runs in H. rewrite E in H. apply H; [by eapply unseen_fits|apply Hy].
  - intros resp E. pose proof (core_resp_runs Hword Hwords Hdiv resp (sy_sb y) (lv_entries _ Hy)) as H.
    unfold runs in H. by rewrite E in H.
Qed.

(** ** Progress *)

(** The steps of the loop itself, with the device ready: all but the answers of the
    device and the edges at which it is not ready. *)
Definition own (a : action) : bool :=
  match a with Device _ => false | ClockEdge ready => ready | _ => true end.
Definition own_step (y y' : system) : Prop := exists a, own a = true /\ exec max between create a y = Some y'.

(** What is left to do: turns of the sequence, the acknowledgement it waits for,
    requests the device and then the scoreboard have not taken, the stop marker and
    the end of the driver. *)
Definition unfinished (d : driver) : nat := match dr_pc d with Finished => 0 | _ => 1 end.
Definition work (y : system) : nat :=
  (4 * phase_left max between (sy_phase y) + (if sy_wait y then 1 else 0)
   + 2 * (length (given (sy_driver y)) - length (dr_sb (sy_driver y)))
   + (length (dr_sb (sy_driver y)) - sy_taken y)
   + (if sy_done y then 0 else 2) + unfinished (sy_driver y))%nat.

(** The states the loop cannot leave by its own steps: the run is over; every identifier
    is in flight and the sequence needs one; the driver waits for the requests in flight;
    or, after an error, identifiers were lost or the scoreboard ends the program. *)
Inductive halted (y : system) : Prop :=
  | halted_over : dr_pc (sy_driver y) = Finished -> sy_taken y = length (dr_sb (sy_driver y)) -> halted y
  | halted_in_flight :
      unseen y = [] -> is_available_id (sb_seq_ids (sy_sb y)) = false -> inflight_m (sy_sb y) <> ∅ -> halted y
  | halted_draining :
      sy_done y = true -> unseen y = [] -> check_inflight_requests (sy_sb y) = false -> halted y
  | halted_lost : sb_log (sy_sb y) <> [] -> is_available_id (sb_seq_ids (sy_sb y)) = false -> halted y
  | halted_exit junk t s :
      dr_sb (sy_driver y) !! sy_taken y = Some t -> core_req_process junk t (sy_sb y) = Exit s -> halted y.

Lemma push_sb x d : dr_sb (drive_request (Push x) d) = dr_sb d.
Proof. unfold drive_request. destruct (dr_pc d); simpl; by rewrite ?drive_top_sb. Qed.

Lemma unfinished_le i d : (unfinished (drive_request i d) <= unfinished d)%nat.
Proof.
  assert (forall d', unfinished (drive_top d') = 1%nat) as Ht.
  { intros d'. unfold unfinished, drive_top. by destruct (dr_fifo d') as [|[]]. }
  assert (forall d', unfinished d' <= 1)%nat as H1 by (intros d'; unfold unfinished; destruct (dr_pc d'); lia).
  unfold drive_request. destruct i as [x|r b]; destruct (dr_pc d) eqn:E;
    unfold unfinished at 2; rewrite E; try apply H1; unfold unfinished; simpl; by rewrite ?E.
Qed.

Lemma given_length d : (length (dr_sb d) <= length (given d))%nat.
Proof. unfold given. rewrite length_app. lia. Qed.

Lemma step_work y y' : step y y' -> live_inv y -> (work y' <= work y)%nat.
Proof using Hlg create_fits.
  intros Hst [Hs Hph _ _]. pose proof (given_length (sy_driver y)) as Hg.
  destruct Hst as [y d dl sc t ph q Hw Hdn Ht|y Hw Hac|y Hw Hdn Hp|y ready|y|y junk t s Ht Hr|y ev s Hev Hr];
    unfold work; simpl; try lia.
  - destruct (turn_sent _ _ _ _ _ _ _ _ Ht) as (Hns & _ & ->).
    destruct (phase_next_left lg Hlg max between sc (sy_phase y) t Hph Hns) as [_ Hl].
    rewrite given_send, length_app, push_sb, Hw, Hdn by done. simpl.
    pose proof (unfinished_le (Push (Some t)) (sy_driver y)). lia.
  - rewrite given_stop, push_sb, Hw, Hdn, Hp by done. pose proof (unfinished_le (Push None) (sy_driver y)). lia.
  - rewrite given_edge by done. pose proof (unfinished_le (Edge ready (sy_no_inflight y)) (sy_driver y)).
    pose proof (given_length (drive_request (Edge ready (sy_no_inflight y)) (sy_driver y))) as Hg'.
    rewrite given_edge in Hg' by done. rewrite edge_sb in *. destruct (ready && requesting (sy_driver y)); lia.
Qed.

(** When no request is on the interface the driver has sent on all it was given. *)
Lemma idle_given y :
  sys_inv y -> requesting (sy_driver y) = false ->
  given (sy_driver y) = dr_sb (sy_driver y)
  /\ if sy_done y then dr_pc (sy_driver y) = Draining \/ dr_pc (sy_driver y) = Finished
     else dr_pc (sy_driver y) = Fetching.
Proof.
  intros [_ _ _ (sent & hs & Hd & _) _ _ _] Hr. destruct (sy_done y).
  - rewrite (given_sent _ true _ _ Hd). by destruct (idle_when_done _ _ _ Hd Hr) as [-> ?].
  - pose proof (di_order _ _ _ Hd) as Ho. pose proof (di_fetching _ _ _ Hd) as Hfe.
    unfold given, held, requesting in *. rewrite app_nil_r in Ho.
    destruct (dr_pc (sy_driver y)); [|done|exfalso..].
    + split; [|done]. rewrite (Hfe eq_refl). apply app_nil_r.
    + assert (None ∈ Some <$> sent) as Hin by (rewrite Ho; set_solver).
      apply list_elem_of_fmap in Hin as (? & ? & _). done.
    + assert (None ∈ Some <$> sent) as Hin by (rewrite Ho; set_solver).
      apply list_elem_of_fmap in Hin as (? & ? & _). done.
Qed.

(** The next step, while something is left to do. *)
Definition advances (y : system) : Prop := exists y', own_step y y' /\ (work y' < work y)%nat.

Lemma take_request y : live_inv y -> (sy_taken y < length (dr_sb (sy_driver y)))%nat -> halted y \/ advances y.
Proof using All.
  intros Hy Hlt. apply lookup_lt_is_Some in Hlt as [t Ht]. pose proof (unseen_fits y t Hy Ht) as Hf.
  pose proof (core_req_runs Hword Hwords Hdiv ScoreboardProps.ex_stale t (sy_sb y) Hf (lv_entries _ Hy)) as Hr.
  unfold runs in Hr. destruct (core_req_process ScoreboardProps.ex_stale t (sy_sb y)) as [[] s|s|] eqn:E; [|left|done].
  - right. exists (set_sb (S (sy_taken y)) s y). split.
    + exists (CoreReq ScoreboardProps.ex_stale). split; [done|]. simpl. rewrite Ht. simpl. unfold sb_result. by rewrite E.
    + apply lookup_lt_Some in Ht. unfold work. simpl. lia.
  - by eapply halted_exit.
Qed.

Lemma take_grant y : live_inv y -> requesting (sy_driver y) = true -> advances y.
Proof using All.
  intros Hy Hr. pose proof Hy as [Hs _ _ _].
  exists (set_driver (drive_request (Edge true (sy_no_inflight y)) (sy_driver y)) y). split; [by exists (ClockEdge true)|].
  pose proof (edge_sb true (sy_no_inflight y) (sy_driver y)) as Hsb. rewrite Hr in Hsb. simpl in Hsb.
  pose proof (unfinished_le (Edge true (sy_no_inflight y)) (sy_driver y)).
  pose proof (given_length (drive_request (Edge true (sy_no_inflight y)) (sy_driver y))) as Hg'.
  pose proof (sv_taken _ Hs). unfold work. simpl. rewrite given_edge in * by done. lia.
Qed.

(** With no identifier free and nothing on its way, the identifiers are in flight or lost. *)
Lemma starved y :
  sys_inv y -> unseen y = [] -> is_available_id (sb_seq_ids (sy_sb y)) = false -> halted y.
Proof.
  intros [_ _ [_ (lost & Hp & Hl) _ _] _ _ _ _] Hu Hav.
  destruct (decide (inflight_m (sy_sb y) = ∅)) as [He|He]; [|by apply halted_in_flight].
  apply halted_lost; [|done]. intros Hlog. rewrite Hu, (Hl Hlog) in Hp. unfold tracked in Hp.
  rewrite He, map_to_list_empty in Hp. symmetry in Hp. apply Permutation_nil in Hp.
  unfold is_available_id in Hav. rewrite Hp in Hav. apply Z.ltb_ge in Hav. simpl in Hav.
  pose proof MAX_TRANS_ID_pos. lia.
Qed.

Lemma send_next y :
  live_inv y -> sy_wait y = false -> sy_done y = false -> sy_phase y <> Stop ->
  is_available_id (sb_seq_ids (sy_sb y)) = true -> advances y.
Proof using All.
  intros [Hs Hph _ _] Hw Hdn Hns Hav. destruct create_total as [d Hd].
  assert (forall tid, exists t, create d tid = Some t /\ req_tid t = wrap HPDCACHE_REQ_TRANS_ID_WIDTH tid) as Hc.
  { intros tid. destruct (Hd tid) as [t Ht]. eauto. }
  pose proof (Build_seq_inv (seq_of y) (sv_wf _ _ (sv_sb _ Hs)) (sv_pool _ Hs)) as Hq.
  destruct (seq_turn_steps lg Hlg Hbytes max between create
      {| tu_released := []; tu_draws := d; tu_delay := 0; tu_sc_do := false |} (sy_phase y) (seq_of y) Hph Hns Hq Hc Hav)
    as (t & ph & q & Ht & _ & _ & _ & _ & _ & _ & Hl).
  eexists. split.
  - exists (Send d 0 false). split; [done|]. simpl. rewrite Hw, Hdn. simpl. by rewrite Ht.
  - pose proof (unfinished_le (Push (Some t)) (sy_driver y)). pose proof (given_length (sy_driver y)).
    unfold work. simpl. rewrite given_send, length_app, push_sb, Hw, Hdn by done. simpl. lia.
Qed.

(** All is sent and nothing in flight: at the next edge the driver finishes. *)
Definition may_finish (y : system) : Prop :=
  sy_done y = true /\ dr_pc (sy_driver y) = Draining /\ check_inflight_requests (sy_sb y) = true.

Lemma finish_edge y :
  live_inv y -> may_finish y ->
  (work (set_driver (drive_request (Edge true true) (sy_driver y)) (set_no_inflight true y)) < work y)%nat.
Proof using All.
  intros [Hs _ _ _] (Hdn & Hpc & Hin). unfold work. simpl. rewrite given_edge by done.
  rewrite edge_sb. unfold requesting. rewrite Hpc. unfold unfinished, drive_request. rewrite Hpc. simpl. lia.
Qed.

(** When the scoreboard has taken all that was granted. *)
Lemma next_step y :
  live_inv y -> sy_taken y = length (dr_sb (sy_driver y)) -> halted y \/ advances y \/ may_finish y.
Proof using All.
  intros Hy Htk. pose proof Hy as [Hs _ _ _].
  destruct (requesting (sy_driver y)) eqn:Hr; [right; left; by apply take_grant|].
  destruct (idle_given y Hs Hr) as [Hg Hpc].
  assert (unseen y = []) as Hu by (unfold unseen; rewrite Hg, Htk; apply drop_all).
  destruct (sy_wait y) eqn:Hw.
  - right. left. destruct (sv_driver _ Hs) as (sent & hs & Hd & Hlen).
    rewrite <-(given_sent _ _ _ _ Hd), Hg, Hw in Hlen.
    pose proof (f_equal length (di_ret _ _ _ Hd)) as Hret. rewrite length_fmap in Hret.
    eexists. split.
    + exists Ack. split; [done|]. simpl. rewrite Hw. simpl. by rewrite (proj2 (Nat.ltb_lt _ _)) by lia.
    + unfold work. simpl. rewrite Hw. lia.
  - destruct (sy_done y) eqn:Hdn.
    { destruct Hpc as [Hpc|Hpc]; [|left; by apply halted_over].
      destruct (check_inflight_requests (sy_sb y)) eqn:Hin; [by do 2 right|left; by apply halted_draining]. }
    assert (sy_phase y = Stop \/ sy_phase y <> Stop) as [Hp|Hp] by (destruct (sy_phase y); (by left) || (by right)).
    + right. left. eexists. split; [exists StopDriver; split; [done|]; simpl; by rewrite Hw, Hdn, Hp|].
      pose proof (unfinished_le (Push None) (sy_driver y)).
      unfold work. simpl. rewrite given_stop, push_sb, Hw, Hdn, Hp by done. lia.
    + destruct (is_available_id (sb_seq_ids (sy_sb y))) eqn:Hav; [right; left; by apply send_next|].
      left. by apply starved.
Qed.

Lemma progress y :
  live_inv y -> halted y \/ exists y', rtc own_step y y' /\ (work y' < work y)%nat.
Proof using All.
  intros Hy. pose proof (sv_taken _ (lv_sys _ Hy)) as Htk.
  assert (advances y -> halted y \/ exists y', rtc own_step y y' /\ (work y' < work y)%nat) as Hadv.
  { intros (y' & Hst & Hl). right. exists y'. split; [by apply rtc_once|done]. }
  destruct (decide (sy_taken y < length (dr_sb (sy_driver y)))%nat) as [Hlt|Hge].
  { destruct (take_request y Hy Hlt); auto. }
  destruct (next_step y Hy ltac:(lia)) as [Hh|[Ha|Hf]]; [by left|by apply Hadv|right].
  eexists. split; [|by apply (finish_edge y)]. apply (rtc_l _ _ (set_no_inflight true y)).
  - exists Sample. split; [done|]. simpl. by destruct Hf as (_ & _ & ->).
  - apply rtc_once. by exists (ClockEdge true).
Qed.

Lemma own_step_step y y' : own_step y y' -> step y y'.
Proof. intros (a & _ & H). by eapply exec_step. Qed.

Lemma live_steps y y' : rtc step y y' -> live_inv y -> live_inv y'.
Proof using Hword Hwords Hdiv Hlg create_tid create_fits wf. induction 1; eauto using live_step. Qed.

Lemma halts y : live_inv y -> exists y', rtc own_step y y' /\ halted y'.
Proof using All.
  intros Hy. remember (work y) as n eqn:Hn. revert y Hy Hn.
  induction n as [n IH] using lt_wf_ind. intros y Hy ->.
  destruct (progress y Hy) as [Hh|(y1 & Hr & Hl)]; [by exists y|].
  destruct (IH _ Hl y1) as (y2 & Hr2 & Hh); [|done|exists y2; split; [by etrans|done]].
  eapply live_steps, Hy. eapply rtc_subrel, Hr. intros. by apply own_step_step.
Qed.

(** ** The device answers *)

(** What is in flight at the scoreboard. *)
Definition inflights (s : scoreboard) : nat :=
  (size (inflight_m s) + size (inflight_mem_read_m s) + size (inflight_mem_write_m s))%nat.

(** The run is over with nothing in flight; or, after an error, identifiers were lost
    or a process of the scoreboard ends the program. *)
Inductive ended (y : system) : Prop :=
  | ended_over : dr_pc (sy_driver y) = Finished -> sy_taken y = length (dr_sb (sy_driver y)) ->
      check_inflight_requests (sy_sb y) = true -> ended y
  | ended_lost : sb_log (sy_sb y) <> [] -> is_available_id (sb_seq_ids (sy_sb y)) = false -> ended y
  | ended_exit m s : m (sy_sb y) = Exit (A := unit) s ->
      (exists junk t, m = core_req_process junk t /\ dr_sb (sy_driver y) !! sy_taken y = Some t)
      \/ (exists resp, m = core_resp_process resp) -> ended y.

(** One answer: the response of a request in flight, or of a memory transaction. *)
Lemma answer s :
  entries_defined s -> check_inflight_requests s = false ->
  (exists resp s', core_resp_process resp s = Exit s')
  \/ exists ev s', device_event ev = true /\ handle ev s = Done tt s' /\ (inflights s' < inflights s)%nat.
Proof using Hdiv Hlg Hword Hwords.
  intros Hs Hc. unfold inflights.
  destruct (decide (inflight_m s = ∅)) as [H1|H1].
  2: { apply map_choose in H1 as (tid & e & He).
       set (resp := {| rsp_rdata := 0; rsp_sid := 0; rsp_tid := tid; rsp_error := e_is_error e; rsp_aborted := false |}).
       pose proof (core_resp_runs_answered Hword Hwords Hdiv resp s Hs) as Hr. unfold runs in Hr.
       destruct (core_resp_process resp s) as [[] s'|s'|] eqn:E; [|left; eauto|done]. right.
       destruct Hr as [_ Hr]. destruct (Hr e He eq_refl) as (E1 & E2 & E3).
       exists (EvCoreResp resp), s'. split; [done|]. split; [done|]. rewrite E1, E2, E3. simpl.
       pose proof (delete_size _ _ _ He). lia. }
  right. destruct (decide (inflight_mem_read_m s = ∅)) as [H2|H2].
  2: { apply map_choose in H2 as (id & e & He).
       set (resp := {| rresp_error := 1; rresp_id := id; rresp_data := 0; rresp_last := true |}).
       exists (EvMemReadResp resp). eexists. split; [done|]. simpl. unfold mem_read_resp_process. simpl.
       split; [unfold mbind, SB_bind, upd_count, modify, get; simpl; rewrite He; reflexivity|].
       simpl. pose proof (delete_size _ _ _ He). lia. }
  destruct (decide (inflight_mem_write_m s = ∅)) as [H3|H3].
  2: { apply map_choose in H3 as (id & e & He).
       set (resp := {| wresp_error := 0; wresp_id := id; wresp_is_atomic := false |}).
       exists (EvMemWriteResp resp). eexists. split; [done|]. simpl. unfold mem_write_resp_process. simpl.
       split; [unfold mbind, SB_bind, upd_count, modify, get; simpl; rewrite He; reflexivity|].
       simpl. pose proof (delete_size _ _ _ He). lia. }
  exfalso. revert Hc. unfold check_inflight_requests. by rewrite H1, H2, H3.
Qed.

(** The device can answer all that is in flight, while the loop does nothing. *)
Lemma drain y :
  live_inv y -> exists y', rtc step y y' /\ (ended y' \/ check_inflight_requests (sy_sb y') = true) /\ work y' = work y.
Proof using All.
  remember (inflights (sy_sb y)) as n eqn:Hn. revert y Hn.
  induction n as [n IH] using lt_wf_ind. intros y -> Hy.
  destruct (check_inflight_requests (sy_sb y)) eqn:Hc; [exists y; by split_and!; [|right|]|].
  destruct (answer (sy_sb y) (lv_entries _ Hy) Hc) as [(resp & s' & E)|(ev & s' & Hev & E & Hlt)].
  { exists y. split_and!; [done|left|done]. eapply ended_exit; [exact E|eauto]. }
  assert (step y (set_sb (sy_taken y) s' y)) as Hst by (by eapply sys_device).
  destruct (IH _ Hlt (set_sb (sy_taken y) s' y)) as (y2 & Hr & He & Hw); [done|by eapply live_step|].
  exists y2. split_and!; [by eapply rtc_l|done|exact Hw].
Qed.

Lemma finishes y : live_inv y -> exists y', rtc step y y' /\ ended y'.
Proof using All.
  intros Hy. remember (work y) as n eqn:Hn. revert y Hy Hn.
  induction n as [n IH] using lt_wf_ind. intros y Hy ->.
  destruct (drain y Hy) as (y1 & Hr1 & [He|Hc] & Hw); [by exists y1|].
  pose proof (live_steps _ _ Hr1 Hy) as Hy1.
  destruct (progress y1 Hy1) as [Hh|(y2 & Hr2 & Hl)].
  - exists y1. split; [done|]. destruct Hh as [| _ _ Hf|_ _ Hf| |junk t s' Ht E]; [by apply ended_over| | |by apply ended_lost|].
    + exfalso. unfold check_inflight_requests in Hc. rewrite !andb_true_iff, !bool_decide_eq_true in Hc. tauto.
    + congruence.
    + eapply ended_exit; [exact E|eauto].
  - assert (rtc step y1 y2) as Hr2' by (eapply rtc_subrel, Hr2; intros; by apply own_step_step).
    rewrite Hw in Hl. destruct (IH _ Hl y2) as (y3 & Hr3 & He); [by eapply live_steps|done|].
    exists y3. split; [|done]. by do 2 (etrans; [done|]).
Qed.

(** C5: The loop makes progress. From every state that the sequence, the driver and the scoreboard can reach, with a device that answers nothing but is ready for requests, they can run on by their own steps to a state where the run is over or where they wait for the device: every identifier is in flight, or the driver waits for the requests in flight; only after an error can they stop otherwise, with identifiers lost or the program ended. If the device answers what is in flight, they can run on to the end: all transactions sent, taken and answered. No step of any process undoes work done: what is left, bounded by the transactions to send, never grows. *)
Theorem closed_loop_lives g bundle s0 y :
  (0 < bundle)%nat -> fresh s0 -> rtc step (sys_init max g bundle s0) y ->
  (exists y', rtc own_step y y' /\ halted y')
  /\ (exists y', rtc step y y' /\ ended y')
  /\ (forall y', step y y' -> (work y' <= work y)%nat).
Proof using All.
  intros Hb Hf Hr. pose proof (live_reachable _ _ _ _ Hb Hf Hr) as Hy.
  split_and!; [by apply halts|by apply finishes|]. intros y' Hst. by apply step_work.
Qed.
End Live.

(** ** Witnesses: the random sequence, with the values it can draw *)
#[local] Existing Instance default_config.
#[local] Existing Instance ex_fault_config.

Definition drawnb {A} `{EqDecision A} (b : bag A) (x : A) : bool :=
  existsb (fun p => bool_decide (p.1 = x) && (0 <? p.2)) b.
Definition draw_okb (su : setup) (d : draws) : bool :=
  drawnb (su_seg su) (d_seg d) && drawnb (su_op su) (d_op d) && drawnb (su_op_amo su) (d_op_amo d)
  && ((su_size su).1 <=? d_size d) && (d_size d <=? (su_size su).2).

Lemma drawnb_drawn {A} `{EqDecision A} (b : bag A) x : drawnb b x = true -> drawn b x.
Proof.
  intros H. apply existsb_exists in H as ([y w] & Hin & Hw).
  apply andb_true_iff in Hw as [Hy%bool_decide_eq_true Hw%Z.ltb_lt]. simpl in Hy. subst y. exists w.
  split; [by apply list_elem_of_In|done].
Qed.
Lemma draw_okb_ok su d : draw_okb su d = true -> draw_ok su d.
Proof.
  unfold draw_okb. rewrite !andb_true_iff, !Z.leb_le. intros ((((? & ?) & ?) & ?) & ?).
  unfold draw_ok. split_and!; try done; by apply drawnb_drawn.
Qed.

Definition ex_drawn_create (d : draws) (tid : Z) : option transaction_req :=
  if draw_okb random_seq d then ex_create d tid else None.

Lemma ex_drawn_tid d tid t :
  ex_drawn_create d tid = Some t -> req_tid t = wrap HPDCACHE_REQ_TRANS_ID_WIDTH tid.
Proof. unfold ex_drawn_create. destruct (draw_okb random_seq d); [apply ex_create_tid|done]. Qed.

Lemma ex_drawn_fits d tid t : ex_drawn_create d tid = Some t -> req_fits t.
Proof.
  unfold ex_drawn_create. destruct (draw_okb random_seq d) eqn:E; [|done].
  apply draw_okb_ok in E. intros Ht.
  destruct (@random_ok default_config ex_fault_config 3 ltac:(lia) ltac:(reflexivity) ltac:(vm_compute; discriminate) d tid E)
    as (t' & Ht' & H).
  unfold ex_create in Ht. rewrite Ht in Ht'. injection Ht' as <-. intros Hk.
  pose proof (rk_size _ _ _ H) as Hsz.
  assert (is_cmo t = false) as Hc.
  { revert Hk. unfold is_load, is_amo, is_amo_lr, is_cmo.
    intros Hk. repeat (apply orb_true_iff in Hk as [Hk|Hk]); apply Z.eqb_eq in Hk; by rewrite Hk. }
  pose proof (rk_fits _ _ _ H Hc) as Hf. rewrite Z.shiftl_mul_pow2, Z.mul_1_l by lia.
  change CORE_REQ_BYTES with 8. change REQ_DATA_BYTES with 8 in Hf.
  pose proof (Z.mod_pos_bound (req_addr t) 8 ltac:(lia)). pose proof (Z.pow_pos_nonneg 2 (req_size t)).
  rewrite wrap_small; [done|]. unfold is_word. lia.
Qed.

Lemma ex_drawn_total : exists d, forall tid, is_Some (ex_drawn_create d tid).
Proof.
  exists (ex_draws HPDCACHE_REQ_LOAD 0x2f8). intros tid. unfold ex_drawn_create.
  replace (draw_okb random_seq (ex_draws HPDCACHE_REQ_LOAD 0x2f8)) with true by (by vm_compute).
  destruct (@random_ok default_config ex_fault_config 3 ltac:(lia) ltac:(reflexivity)
    ltac:(vm_compute; discriminate) (ex_draws HPDCACHE_REQ_LOAD 0x2f8) tid (ex_draw_ok _ _ (or_introl eq_refl) (or_intror eq_refl)))
    as (t & Ht & _). by exists t.
Qed.

(** The request is sent and accepted, and the scoreboard has not read it. *)
Definition ex_sent : option system := execs 1 0 ex_drawn_create (take 2 ex_actions) ex_init.
Lemma ex_sent_view : (fun y => req_op <$> dr_sb (sy_driver y) !! sy_taken y) <$> ex_sent = Some (Some 0).
Proof. vm_compute. reflexivity. Qed.
Lemma ex_sent_reachable y :
  ex_sent = Some y -> rtc (sys_step 1 0 ex_drawn_create) (sys_init 1 ex_seq_rng 10 (ex_sb 1)) y.
Proof. apply execs_steps. Qed.

Lemma closed_loop_defined_witness :
  exists y t, ex_sent = Some y /\ dr_sb (sy_driver y) !! sy_taken y = Some t
    /\ core_req_process ex_stale t (sy_sb y) <> Undef /\ core_resp_process ex_answer (sy_sb y) <> Undef.
Proof.
  pose proof ex_sent_view as V. destruct ex_sent as [y|] eqn:E; [|discriminate V].
  destruct (@closed_loop_defined default_config _ eq_refl ltac:(vm_compute; discriminate) default_div 3 ltac:(lia)
    1 0 ex_drawn_create ex_drawn_tid ex_drawn_fits ex_seq_rng 10 (ex_sb 1) y
    ltac:(repeat constructor) ex_sb_fresh (ex_sent_reachable _ E)) as [H1 H2].
  injection V as V. destruct (dr_sb (sy_driver y) !! sy_taken y) as [t|] eqn:Et; [|discriminate V].
  exists y, t. split; [reflexivity|]. split; [exact Et|]. split; [apply H1; reflexivity|apply H2].
Defined.

Lemma closed_loop_lives_witness :
  exists y y', ex_sent = Some y /\ rtc (sys_step 1 0 ex_drawn_create) y y' /\ ended y'.
Proof.
  pose proof ex_sent_view as V. destruct ex_sent as [y|] eqn:E; [|discriminate V].
  destruct (@closed_loop_lives default_config _ eq_refl ltac:(vm_compute; discriminate) default_div 3 ltac:(lia) eq_refl
    1 0 ex_drawn_create ex_drawn_tid ex_drawn_fits ex_drawn_total ex_seq_rng 10 (ex_sb 1) y
    ltac:(repeat constructor) ex_sb_fresh (ex_sent_reachable _ E)) as (_ & (y' & H) & _).
  exists y, y'. split; [reflexivity|exact H].
Defined.
