(* ===== verification/FaultInj.v ===== *)
(** * Fault injection ([hpdcache_fault_injection.h])

    The injector turns the faults of the transactions into masks of bits to flip
    in the RAMs of the device: which RAM (its scope), which of its words, and which
    bits of that word. The device is behind the DPI functions [publicSramSetMask]
    and [publicSramBeSetMask]; the model returns the call that is made. It is the
    build with [HPDCACHE_DPI_ON]; without it the functions do nothing. *)
From S2P Require Import Prelude Defs Transaction Sequence MemResp SeqGen SeqProps Driver.

(** The geometry of the data RAMs. *)
Class RamConfig := {
  CONF_HPDCACHE_DATA_WAYS_PER_RAM_WORD : Z;
  CONF_HPDCACHE_ACCESS_WORDS : Z;
}.

Section FaultInj.
Context {cfg : HpdConfig} {ram : RamConfig}.

(** [SV_PACKED_DATA_NELEMS] of [svdpi.h]: the 32-bit elements of a packed vector. *)
Context (SV_PACKED_DATA_NELEMS : Z -> Z).

Definition DATA_ROWS : Z := HPDCACHE_WAYS / CONF_HPDCACHE_DATA_WAYS_PER_RAM_WORD.
Definition DATA_COLS : Z := CONF_HPDCACHE_ACCESS_WORDS.

(** The scopes, by their coordinates in [dirScopes] and [datScopes]. *)
Inductive scope := DirScope (way : Z) | DatScope (row col : Z).

Definition getDir (way : Z) : Z := way.
Definition getDatRow (way : Z) : Z := way / CONF_HPDCACHE_DATA_WAYS_PER_RAM_WORD.
Definition getDatCol (word : Z) : Z := word mod CONF_HPDCACHE_ACCESS_WORDS.
Definition getParBits (wordWidth : Z) : Z := if wordWidth <? 64 then 7 else 8.

(** [getScope]; None is an access outside the arrays. *)
Definition getScope (domain : fault_domain_e) (way word : Z) : option scope :=
  match domain with
  | CACHE_DIR =>
      let x := getDir way in
      if (0 <=? x) && (x <? HPDCACHE_WAYS) then Some (DirScope x) else None
  | CACHE_DAT =>
      let x := getDatRow way in
      let y := getDatCol word in
      if (0 <=? x) && (x <? DATA_ROWS) && (0 <=? y) && (y <? DATA_COLS) then Some (DatScope x y)
      else None
  end.

(** The DPI calls: the scope set before, the index of the word and the [aval]s of
    the mask. *)
Inductive sram_call :=
  | SramSetMask (s : scope) (idx : Z) (lv : list Z)
  | SramBeSetMask (s : scope) (idx : Z) (lv : list Z).

(** [mask.range(hi, lo).to_uint()] of an [sc_bv<w>]; None is SystemC's error. *)
Definition mask_range (w mask hi lo : Z) : option Z :=
  if hi <? w then Some (u32 (range hi lo mask)) else None.
(** [lv[b].aval = v] *)
Definition set_aval (lv : list Z) (b v : Z) : option (list Z) :=
  if (0 <=? b) && (b <? Z.of_nat (length lv)) then Some (<[Z.to_nat b := v]> lv) else None.
Definition lv_zero (bits : Z) : list Z := replicate (Z.to_nat (SV_PACKED_DATA_NELEMS bits)) 0.

(** ** [injectDirFault] *)
Definition DirBits : Z := HPDCACHE_TAG_WIDTH + 4.
Definition DirWordBits : Z := DirBits + getParBits DirBits.

(** The loop, from index [b], [n] elements left. *)
Fixpoint dir_loop (n : nat) (b mask : Z) (lv : list Z) : option (list Z) :=
  match n with
  | O => Some lv
  | S n =>
      let loIdx := Z.shiftl b 5 in
      let hiIdx := Z.shiftl (b + 1) 5 in
      let hiIdx := if DirWordBits <? hiIdx then DirWordBits else hiIdx in
      lv ← (if loIdx <? DirWordBits then
              v ← mask_range 64 mask (hiIdx - 1) loIdx; set_aval lv b v
            else Some lv);
      dir_loop n (b + 1) mask lv
  end.

Definition injectDirFault (set way mask : Z) : option sram_call :=
  scope ← getScope CACHE_DIR way 0;
  lv ← dir_loop (Z.to_nat (SV_PACKED_DATA_NELEMS DirWordBits)) 0 mask (lv_zero DirWordBits);
  Some (SramSetMask scope set lv).

(** ** [injectDatFault] *)
Definition DatWordBits : Z := HPDCACHE_WORD_WIDTH + getParBits HPDCACHE_WORD_WIDTH.
Definition RamBits : Z := DatWordBits * CONF_HPDCACHE_DATA_WAYS_PER_RAM_WORD.

(** The loop of the middle bits: the vector, [b], [hiIdx] and [bits] at its end. The
    72 bits of a mask are less than four iterations. *)
Fixpoint middle_loop (fuel : nat) (mask b hiIdx bits : Z) (lv : list Z)
    : option (list Z * Z * Z * Z) :=
  if bits <? 32 then Some (lv, b, hiIdx, bits) else
  match fuel with
  | O => None
  | S fuel =>
      let loIdx := hiIdx in
      let hiIdx := loIdx + 32 in
      v ← mask_range 72 mask (hiIdx - 1) loIdx;
      lv ← set_aval lv b v;
      middle_loop fuel mask (b + 1) hiIdx (bits - 32) lv
  end.

Definition injectDatFault (set way word mask : Z) : option sram_call :=
  scope ← getScope CACHE_DAT way word;
  let ramWord := way mod CONF_HPDCACHE_DATA_WAYS_PER_RAM_WORD in
  let ramOffset := ramWord * DatWordBits in
  let wordOffset := Z.land ramOffset 0x1f in
  let bits := DatWordBits in
  let lv := lv_zero RamBits in
  (* head bits *)
  let b := Z.shiftr ramOffset 5 in
  let hiIdx := if 32 <=? bits then 32 - wordOffset else bits in
  v ← mask_range 72 mask (hiIdx - 1) 0;
  lv ← set_aval lv b (u32 (Z.shiftl v wordOffset));
  (* middle bits *)
  '(lv, b, hiIdx, bits) ← middle_loop 4 mask (b + 1) hiIdx (bits - hiIdx) lv;
  (* tail bits *)
  lv ← (if bits =? 0 then Some lv
        else v ← mask_range 72 mask (hiIdx + bits - 1) hiIdx; set_aval lv b v);
  let cacheIdx := (set * HPDCACHE_CL_WORDS + word) / CONF_HPDCACHE_ACCESS_WORDS in
  Some (SramBeSetMask scope cacheIdx lv).

(** The calls [drive_request] makes. *)
Definition inject (c : fault_call) : option sram_call :=
  match c with
  | InjectDirFault set way mask => injectDirFault set way mask
  | InjectDatFault set way word mask => injectDatFault set way word mask
  end.

(** ** What the device sees *)

(** Bit [i] of the packed vector. *)
Definition lv_bit (lv : list Z) (i : Z) : bool :=
  Z.testbit (default 0 (lv !! Z.to_nat (i / 32))) (i mod 32).

(** The first [n] bits of the mask are in the vector, from bit [off] on, and
    nothing else is. *)
Definition filled (off n mask : Z) (lv : list Z) : Prop :=
  forall i, 0 <= i -> lv_bit lv i = (off <=? i) && (i <? off + n) && Z.testbit mask (i - off).

Lemma set_aval_bit lv b v lv' i :
  set_aval lv b v = Some lv' -> 0 <= i ->
  lv_bit lv' i = (if i / 32 =? b then Z.testbit v (i mod 32) else lv_bit lv i)
  /\ length lv' = length lv.
Proof.
  unfold set_aval. destruct (Z.leb_spec 0 b), (Z.ltb_spec b (Z.of_nat (length lv))); try done.
  intros [= <-] Hi. unfold lv_bit. rewrite length_insert. split; [|done].
  pose proof (Z.div_pos i 32). destruct (Z.eqb_spec (i / 32) b) as [->|Hne].
  - by rewrite list_lookup_insert_eq by lia.
  - by rewrite list_lookup_insert_ne by lia.
Qed.

Lemma set_aval_ok lv b v :
  0 <= b < Z.of_nat (length lv) -> exists lv', set_aval lv b v = Some lv' /\ length lv' = length lv.
Proof.
  intros Hb. unfold set_aval. rewrite (proj2 (Z.leb_le 0 b)), (proj2 (Z.ltb_lt b _)) by lia.
  eexists. split; [done|]. apply length_insert.
Qed.

Lemma lv_zero_bit bits i : lv_bit (lv_zero bits) i = false.
Proof.
  unfold lv_bit, lv_zero. destruct (replicate _ _ !! _) as [x|] eqn:E.
  - apply lookup_replicate in E as [-> _]. apply Z.bits_0.
  - apply Z.bits_0.
Qed.

(** The division of a bit's index in an element. *)
Lemma element_of i b : 0 <= i -> (i / 32 =? b) = (32 * b <=? i) && (i <? 32 * b + 32).
Proof.
  intros Hi. pose proof (Z.div_mod i 32 ltac:(lia)). pose proof (Z.mod_pos_bound i 32 ltac:(lia)).
  destruct (Z.eqb_spec (i / 32) b), (Z.leb_spec (32 * b) i), (Z.ltb_spec i (32 * b + 32)); simpl; lia.
Qed.
Lemma element_mod i b : 32 * b <= i < 32 * b + 32 -> i mod 32 = i - 32 * b.
Proof. intros H. symmetry. apply (Z.mod_unique _ _ b); lia. Qed.

(** Appending up to 32 bits at an element's boundary. *)
Lemma filled_append off k n mask lv b w :
  filled off k mask lv -> off + k = 32 * b -> 0 <= off -> 0 <= k -> 1 <= n <= 32 -> k + n <= w ->
  0 <= b < Z.of_nat (length lv) ->
  exists v lv', mask_range w mask (k + n - 1) k = Some v /\ set_aval lv b v = Some lv'
    /\ filled off (k + n) mask lv' /\ length lv' = length lv.
Proof.
  intros Hf Hb Ho Hk Hn Hw Hl. unfold mask_range. rewrite (proj2 (Z.ltb_lt (k + n - 1) w)) by lia.
  destruct (set_aval_ok lv b (u32 (range (k + n - 1) k mask)) Hl) as (lv' & E & El).
  eexists _, lv'. split; [done|]. split; [done|]. split; [|done].
  intros i Hi. destruct (set_aval_bit _ _ _ _ i E Hi) as [-> _]. rewrite element_of, (Hf i Hi) by done.
  destruct (Z.leb_spec (32 * b) i), (Z.ltb_spec i (32 * b + 32)); simpl; try (split_cmps; done).
  rewrite (element_mod i b), testbit_wrap, testbit_range by lia.
  replace (i - 32 * b + k) with (i - off) by lia.
  split_cmps; simpl; rewrite ?andb_true_r; done.
Qed.

(** ** Correctness

    What the shipped geometries satisfy, and what the macro of [svdpi.h] is for. *)
Class RamWf := {
  ram_ways : 0 < CONF_HPDCACHE_DATA_WAYS_PER_RAM_WORD
             /\ (CONF_HPDCACHE_DATA_WAYS_PER_RAM_WORD | HPDCACHE_WAYS);
  ram_words : 0 < CONF_HPDCACHE_ACCESS_WORDS /\ (CONF_HPDCACHE_ACCESS_WORDS | HPDCACHE_CL_WORDS);
}.
Context {wf : ConfigWf cfg} {rwf : RamWf}.
Hypothesis nelems_covers : forall bits, 0 < bits -> bits <= 32 * SV_PACKED_DATA_NELEMS bits.

Lemma word_bits : 39 <= DatWordBits <= 72.
Proof.
  unfold DatWordBits, getParBits. destruct cfg_word as [-> | ->]; simpl; lia.
Qed.

Lemma middle_loop_fills fuel off mask : forall b hi bits lv,
  filled off hi mask lv -> off + hi = 32 * b -> 0 <= off -> 0 <= hi -> hi + bits = DatWordBits ->
  0 <= bits < 32 * (Z.of_nat fuel + 1) -> off + DatWordBits <= 32 * Z.of_nat (length lv) ->
  exists lv' b' hi' bits', middle_loop fuel mask b hi bits lv = Some (lv', b', hi', bits')
    /\ filled off hi' mask lv' /\ off + hi' = 32 * b' /\ 0 <= hi' /\ hi' + bits' = DatWordBits
    /\ 0 <= bits' < 32 /\ length lv' = length lv.
Proof using wf.
  pose proof word_bits as Hw.
  induction fuel as [|fuel IH]; intros b hi bits lv Hf Hb Ho Hh Hsum Hbits Hl; cbn [middle_loop];
    destruct (Z.ltb_spec bits 32).
  1,3: exists lv, b, hi, bits; split_and!; done || lia.
  { lia. }
  destruct (filled_append off hi 32 mask lv b 72 Hf) as (v & lv1 & Ev & El & Hf1 & Hl1); [lia..|].
  rewrite Ev. cbn [mbind option_bind]. rewrite El. cbn [mbind option_bind].
  destruct (IH (b + 1) (hi + 32) (bits - 32) lv1 Hf1) as (lv' & b' & hi' & bits' & H'); [lia..|].
  exists lv', b', hi', bits'. rewrite Hl1 in H'. exact H'.
Qed.

(** The first element: the bits from [off mod 32] on. *)
Lemma head_fills off mask lv :
  0 <= off -> (forall i, lv_bit lv i = false) -> off + 32 <= 32 * Z.of_nat (length lv) ->
  exists v lv', mask_range 72 mask (32 - Z.land off 0x1f - 1) 0 = Some v
    /\ set_aval lv (Z.shiftr off 5) (u32 (Z.shiftl v (Z.land off 0x1f))) = Some lv'
    /\ filled off (32 - off mod 32) mask lv' /\ length lv' = length lv.
Proof.
  intros Ho Hz Hl. change 0x1f with (Z.ones 5). rewrite Z.land_ones, Z.shiftr_div_pow2 by lia.
  change (2 ^ 5) with 32. pose proof (Z.mod_pos_bound off 32 ltac:(lia)) as Hm.
  pose proof (Z.div_mod off 32 ltac:(lia)) as Hd. pose proof (Z.div_pos off 32).
  unfold mask_range. rewrite (proj2 (Z.ltb_lt _ 72)) by lia.
  set (v := u32 (range _ _ _)).
  destruct (set_aval_ok lv (off / 32) (u32 (Z.shiftl v (off mod 32)))) as (lv' & E & El); [lia|].
  eexists _, lv'. split; [done|]. split; [done|]. split; [|done].
  intros i Hi. destruct (set_aval_bit _ _ _ _ i E Hi) as [-> _]. rewrite Hz, element_of by done.
  destruct (Z.leb_spec (32 * (off / 32)) i), (Z.ltb_spec i (32 * (off / 32) + 32)); simpl;
    try (split_cmps; done).
  rewrite (element_mod i (off / 32)), testbit_wrap, testbit_shiftl by lia.
  unfold v. rewrite testbit_wrap, testbit_range by lia.
  replace (i - 32 * (off / 32) - off mod 32 + 0) with (i - off) by lia.
  split_cmps; simpl; rewrite ?andb_true_r, ?andb_false_r; done.
Qed.

Lemma getScope_dat way word :
  0 <= way < HPDCACHE_WAYS ->
  getScope CACHE_DAT way word =
    Some (DatScope (way / CONF_HPDCACHE_DATA_WAYS_PER_RAM_WORD) (word mod CONF_HPDCACHE_ACCESS_WORDS)).
Proof using rwf.
  intros Hway. destruct ram_ways as [Hw [rows Hrows]]. destruct ram_words as [Ha _].
  unfold getScope, getDatRow, getDatCol, DATA_ROWS, DATA_COLS.
  pose proof (Z.mod_pos_bound word CONF_HPDCACHE_ACCESS_WORDS Ha) as Hc.
  rewrite (proj2 (Z.leb_le 0 (way / _))), (proj2 (Z.leb_le 0 (word mod _))),
    (proj2 (Z.ltb_lt (word mod _) _)) by (try apply Z.div_pos; lia).
  by rewrite (proj2 (Z.ltb_lt (way / _) (HPDCACHE_WAYS / _)))
    by (rewrite Hrows, Z.div_mul by lia; apply Z.div_lt_upper_bound; lia).
Qed.

(** The place of a way in its RAM word. *)
Lemma ram_place way :
  let off := (way mod CONF_HPDCACHE_DATA_WAYS_PER_RAM_WORD) * DatWordBits in
  0 <= off /\ off + DatWordBits <= 32 * Z.of_nat (length (lv_zero RamBits)).
Proof using All.
  destruct ram_ways as [Hw _]. pose proof word_bits as Hwb. cbv zeta.
  pose proof (Z.mod_pos_bound way _ Hw) as Hm. unfold lv_zero. rewrite length_replicate.
  pose proof (nelems_covers RamBits). unfold RamBits in *. split; nia.
Qed.

(** C27: A fault in the data array flips the bits of the mask it was given, all of them (data and parity) and nothing else, at the place of the way in its RAM word, whatever the alignment of this place on the 32-bit elements of the vector; no element outside the vector is written and no bit outside the mask is read. *)
Theorem dat_fault_bits set way word mask :
  0 <= way < HPDCACHE_WAYS ->
  exists lv, injectDatFault set way word mask =
      Some (SramBeSetMask (DatScope (way / CONF_HPDCACHE_DATA_WAYS_PER_RAM_WORD)
                             (word mod CONF_HPDCACHE_ACCESS_WORDS))
              ((set * HPDCACHE_CL_WORDS + word) / CONF_HPDCACHE_ACCESS_WORDS) lv)
    /\ filled ((way mod CONF_HPDCACHE_DATA_WAYS_PER_RAM_WORD) * DatWordBits) DatWordBits mask lv
    /\ length lv = Z.to_nat (SV_PACKED_DATA_NELEMS RamBits).
Proof using All.
  intros Hway. pose proof word_bits as Hwb. pose proof (ram_place way) as [Ho Hfit].
  assert (length (lv_zero RamBits) = Z.to_nat (SV_PACKED_DATA_NELEMS RamBits)) as Hlz
    by apply length_replicate.
  unfold injectDatFault. rewrite (getScope_dat way word Hway). set (off := _ * DatWordBits) in *.
  cbn [mbind option_bind]. rewrite (proj2 (Z.leb_le 32 DatWordBits)) by lia.
  destruct (head_fills off mask (lv_zero RamBits) Ho) as (v & lv1 & Ev & E1 & F1 & L1);
    [intros i; apply lv_zero_bit|lia|].
  rewrite Ev. cbn [mbind option_bind]. rewrite E1. cbn [mbind option_bind].
  pose proof (Z.mod_pos_bound off 32 ltac:(lia)) as Hom. pose proof (Z.div_mod off 32 ltac:(lia)) as Hod.
  assert (Z.land off 0x1f = off mod 32 /\ Z.shiftr off 5 = off / 32) as [-> ->].
  { change 0x1f with (Z.ones 5). by rewrite Z.land_ones, Z.shiftr_div_pow2 by lia. }
  destruct (middle_loop_fills 4 off mask (off / 32 + 1) (32 - off mod 32)
              (DatWordBits - (32 - off mod 32)) lv1 F1) as (lv2 & b & hi & bits & E2 & F2 & Hb & Hh & Hs & Hbits & L2);
    [lia..|].
  rewrite E2. cbn [mbind option_bind]. destruct (Z.eqb_spec bits 0) as [->|Hne]; cbn [mbind option_bind].
  { exists lv2. split; [done|]. split; [|congruence]. replace DatWordBits with hi by lia. done. }
  destruct (filled_append off hi bits mask lv2 b 72 F2) as (w & lv3 & Ew & E3 & F3 & L3); [lia..|].
  rewrite Ew. cbn [mbind option_bind]. rewrite E3. cbn [mbind option_bind].
  exists lv3. split; [done|]. split; [|congruence]. replace DatWordBits with (hi + bits) by lia. done.
Qed.

(** The place a data fault is injected in. *)
Definition dat_place (set way word : Z) : scope * Z * Z :=
  (DatScope (way / CONF_HPDCACHE_DATA_WAYS_PER_RAM_WORD) (word mod CONF_HPDCACHE_ACCESS_WORDS),
   (set * HPDCACHE_CL_WORDS + word) / CONF_HPDCACHE_ACCESS_WORDS,
   (way mod CONF_HPDCACHE_DATA_WAYS_PER_RAM_WORD) * DatWordBits).

(** Two different words of the cache are never flipped at the same place: the RAM, the word of the RAM and the position in it determine the set, the way and the word of the line. *)
Theorem dat_place_injective set way word set' way' word' :
  0 <= word < HPDCACHE_CL_WORDS -> 0 <= word' < HPDCACHE_CL_WORDS ->
  dat_place set way word = dat_place set' way' word' ->
  set = set' /\ way = way' /\ word = word'.
Proof using wf rwf.
  intros Hwd Hwd' H. pose proof word_bits as Hwb. unfold dat_place in H. injection H as Hrow Hcol Hidx Hoff.
  destruct ram_ways as [Hw _]. destruct ram_words as [Ha [q Hq]].
  set (W := CONF_HPDCACHE_DATA_WAYS_PER_RAM_WORD) in *. set (A := CONF_HPDCACHE_ACCESS_WORDS) in *.
  assert (way = way') as ->.
  { apply Z.mul_reg_r in Hoff; [|lia]. rewrite (Z.div_mod way W), (Z.div_mod way' W) by lia. congruence. }
  rewrite Hq in Hidx, Hwd, Hwd'. rewrite !Z.mul_assoc, !Z.div_add_l in Hidx by lia.
  pose proof (Z.div_pos word A). pose proof (Z.div_pos word' A).
  assert (word / A < q) by (apply Z.div_lt_upper_bound; lia).
  assert (word' / A < q) by (apply Z.div_lt_upper_bound; lia).
  assert (set = set' /\ word / A = word' / A) as [-> Hdiv].
  { apply (Z.div_mod_unique q); [lia|lia|]. lia. }
  split_and!; [done|done|]. rewrite (Z.div_mod word A), (Z.div_mod word' A) by lia. congruence.
Qed.

(** ** Directory faults *)
Lemma dir_loop_fills n mask : forall b lv,
  filled 0 (Z.min (32 * b) DirWordBits) mask lv -> 0 <= b ->
  0 <= DirWordBits <= 64 -> Z.of_nat n + b = Z.of_nat (length lv) ->
  exists lv', dir_loop n b mask lv = Some lv' /\ length lv' = length lv
    /\ filled 0 (Z.min (32 * Z.of_nat (length lv)) DirWordBits) mask lv'.
Proof using Type.
  induction n as [|n IH]; intros b lv Hf Hb Hw Hn; cbn [dir_loop].
  { exists lv. split_and!; try done. by replace (Z.of_nat (length lv)) with b by lia. }
  assert (Z.shiftl b 5 = 32 * b /\ Z.shiftl (b + 1) 5 = 32 * b + 32) as [-> ->]
    by (rewrite !Z.shiftl_mul_pow2 by lia; change (2 ^ 5) with 32; lia).
  destruct (Z.ltb_spec (32 * b) DirWordBits).
  - rewrite Z.min_l in Hf by lia.
    set (k := Z.min 32 (DirWordBits - 32 * b)).
    destruct (filled_append 0 (32 * b) k mask lv b 64 Hf) as (v & lv1 & Ev & E1 & F1 & L1); [lia..|].
    replace ((if DirWordBits <? 32 * b + 32 then DirWordBits else 32 * b + 32) - 1) with (32 * b + k - 1)
      by (destruct (Z.ltb_spec DirWordBits (32 * b + 32)); lia).
    rewrite Ev. cbn [mbind option_bind]. rewrite E1. cbn [mbind option_bind].
    destruct (IH (b + 1) lv1) as (lv' & E & L & F); [|lia..|].
    { by replace (Z.min (32 * (b + 1)) DirWordBits) with (32 * b + k) by lia. }
    exists lv'. rewrite L1 in *. split_and!; done.
  - cbn [mbind option_bind]. destruct (IH (b + 1) lv) as (lv' & E & L & F); [|lia..|eauto].
    by replace (Z.min (32 * (b + 1)) DirWordBits) with (Z.min (32 * b) DirWordBits) by lia.
Qed.

Lemma dir_bits : 12 <= DirWordBits.
Proof using wf.
  pose proof widths_nonneg as (Ht & _). unfold DirWordBits, DirBits, getParBits. destruct (_ <? 64); lia.
Qed.

(** A fault in the directory flips the bits of the mask that are in a directory entry (tag, four state bits and parity), as long as an entry fits the 64 bits of the mask, and nothing else. *)
Theorem dir_fault_bits set way mask :
  0 <= way < HPDCACHE_WAYS -> DirWordBits <= 64 ->
  exists lv, injectDirFault set way mask = Some (SramSetMask (DirScope way) set lv)
    /\ filled 0 DirWordBits mask lv /\ length lv = Z.to_nat (SV_PACKED_DATA_NELEMS DirWordBits).
Proof using All.
  intros Hway Hfit. unfold injectDirFault, getScope, getDir.
  rewrite (proj2 (Z.leb_le 0 way)), (proj2 (Z.ltb_lt way _)) by lia. cbn [andb mbind option_bind].
  pose proof dir_bits as Hpos. pose proof (nelems_covers DirWordBits ltac:(lia)) as Hn.
  assert (length (lv_zero DirWordBits) = Z.to_nat (SV_PACKED_DATA_NELEMS DirWordBits)) as Hl
    by apply length_replicate.
  destruct (dir_loop_fills (Z.to_nat (SV_PACKED_DATA_NELEMS DirWordBits)) mask 0 (lv_zero DirWordBits))
    as (lv & E & L & F); [|lia|lia|rewrite Hl; lia|].
  { intros i Hi. rewrite lv_zero_bit. split_cmps; done. }
  rewrite E. cbn [mbind option_bind]. exists lv. split; [done|]. split; [|congruence].
  rewrite Hl, Z2Nat.id, Z.min_r in F by lia. done.
Qed.

(** ** The faults of the random sequence *)
Context {fcfg : FaultConfig}.

(** The bits a transaction's fault flips: one, or two for a double fault. *)
Definition flipped (d : draws) (i : Z) : bool := (i =? 5) || (d_fault_double d && (i =? 7)).

Lemma fault_mask_bits d f t i :
  d_fault d = true -> fault_of d t = f -> 0 <= i ->
  Z.testbit (range 71 0 (fault_mask f)) i = flipped d i
  /\ Z.testbit (range 63 0 (fault_mask f)) i = flipped d i.
Proof using Type.
  intros Hd <- Hi. unfold fault_of, flipped. rewrite Hd. cbn [fault_mask].
  assert (forall i, 0 <= i -> Z.testbit 0xA0 i = (i =? 5) || (i =? 7)) as H2.
  { intros j Hj. change 0xA0 with (Z.lor (2 ^ 5) (2 ^ 7)). rewrite Z.lor_spec, !Z.pow2_bits_eqb by lia.
    by rewrite (Z.eqb_sym 5), (Z.eqb_sym 7). }
  assert (forall i, 0 <= i -> Z.testbit 0x20 i = (i =? 5)) as H1.
  { intros j Hj. change 0x20 with (2 ^ 5). rewrite Z.pow2_bits_eqb by lia. apply Z.eqb_sym. }
  rewrite !testbit_range by lia. rewrite Z.add_0_r.
  destruct (d_fault_double d); rewrite ?H1, ?H2 by lia; split_cmps; done.
Qed.

(** A fault of a transaction of the random sequence is injected without error, in the data word its address designates (or in the directory entry of its set), in a way that exists: exactly one bit of the word is flipped for a single fault and two for a double one. *)
Theorem random_fault_injected d tid t :
  create_random_transaction random_seq d tid = Some t -> d_fault d = true ->
  drawn_range (su_fault_way random_seq) (d_fault_way d) -> DirWordBits <= 64 ->
  let way := d_fault_way d in
  exists lv,
    (inject <$> fault_call_of (req_fault t) =
       match d_fault_domain d with
       | CACHE_DIR => [Some (SramSetMask (DirScope way) (get_cache_set t) lv)]
       | CACHE_DAT =>
           let '(s, idx, _) := dat_place (get_cache_set t) way (get_cache_word t) in
           [Some (SramBeSetMask s idx lv)]
       end)
    /\ forall i, 0 <= i -> lv_bit lv i =
         match d_fault_domain d with
         | CACHE_DIR => flipped d i
         | CACHE_DAT => flipped d (i - (dat_place (get_cache_set t) way (get_cache_word t)).2)
         end.
Proof using All.
  intros Ht Hd (lo & hi & w & Hin & _ & Hway) Hfit way.
  pose proof dir_bits as H7.
  assert (0 <= way < HPDCACHE_WAYS) as Hw.
  { simpl in Hin. apply list_elem_of_singleton in Hin. simplify_eq. subst way. lia. }
  unfold create_random_transaction in Ht. apply bind_Some in Ht as (seg & _ & Ht).
  apply bind_Some in Ht as (a & _ & Ht). apply bind_Some in Ht as (t0 & _ & [= <-]).
  change (get_cache_set (with_fault _ t0)) with (get_cache_set t0).
  change (get_cache_word (with_fault _ t0)) with (get_cache_word t0). simpl req_fault.
  pose proof (fun i => fault_mask_bits d _ t0 i Hd eq_refl) as Hm. revert Hm.
  unfold fault_of, fault_call_of. rewrite Hd.
  cbn [fault_valid fault_dom fault_set fault_way fault_word fault_mask]. intros Hm.
  destruct (d_fault_domain d).
  - destruct (dir_fault_bits (get_cache_set t0) way (range 63 0 (if d_fault_double d then 0xA0 else 0x20)) Hw Hfit)
      as (lv & E & F & _). exists lv. split; [exact (f_equal (fun x => [x]) E)|].
    intros i Hi. rewrite (F i Hi). rewrite Z.sub_0_r. destruct (Hm i Hi) as [_ ->]. unfold flipped.
    split_cmps; simpl; rewrite ?andb_false_r; done.
  - destruct (dat_fault_bits (get_cache_set t0) way (get_cache_word t0)
      (range 71 0 (if d_fault_double d then 0xA0 else 0x20)) Hw) as (lv & E & F & _).
    exists lv. split; [exact (f_equal (fun x => [x]) E)|]. pose proof word_bits as Hwb.
    intros i Hi. rewrite (F i Hi). unfold dat_place. cbn [snd].
    set (off := _ * DatWordBits).
    destruct (Z.leb_spec off i); [|unfold flipped; split_cmps; simpl; by rewrite ?andb_false_r].
    destruct (Hm (i - off) ltac:(lia)) as [-> _]. unfold flipped.
    split_cmps; simpl; rewrite ?andb_false_r; done.
Qed.
End FaultInj.

(** ** Witnesses: two ways per RAM word, four words per access *)
#[local] Existing Instance default_config.
#[local] Existing Instance ex_fault_config.
Definition ex_ram : RamConfig :=
  {| CONF_HPDCACHE_DATA_WAYS_PER_RAM_WORD := 2; CONF_HPDCACHE_ACCESS_WORDS := 4 |}.
#[local] Existing Instance ex_ram.
Definition ex_nelems (bits : Z) : Z := Z.shiftr (bits + 31) 5.

Lemma ex_nelems_covers bits : 0 < bits -> bits <= 32 * ex_nelems bits.
Proof.
  intros H. unfold ex_nelems. rewrite Z.shiftr_div_pow2 by lia. change (2 ^ 5) with 32.
  pose proof (Z.div_mod (bits + 31) 32). pose proof (Z.mod_pos_bound (bits + 31) 32). lia.
Qed.

#[local] Instance ex_ram_wf : RamWf.
Proof. split; (split; [reflexivity|]); [exists 4|exists 2]; reflexivity. Qed.

Lemma dat_fault_bits_witness :
  exists lv, injectDatFault ex_nelems 3 5 6 0x20 = Some (SramBeSetMask (DatScope 2 2) 7 lv)
    /\ lv_bit lv 77 = true.
Proof.
  destruct (dat_fault_bits ex_nelems ex_nelems_covers 3 5 6 0x20) as (lv & E & F & _).
  { split; [discriminate|reflexivity]. }
  exists lv. split; [exact E|]. rewrite (F 77) by discriminate. reflexivity.
Defined.

Lemma dat_place_injective_witness :
  dat_place 3 5 6 = (DatScope 2 2, 7, 72) /\ (dat_place 3 5 6 = dat_place 3 5 6 -> 3 = 3 /\ 5 = 5 /\ 6 = 6).
Proof.
  split; [reflexivity|]. apply dat_place_injective; (split; [discriminate|reflexivity]).
Defined.

Lemma dir_fault_bits_witness :
  exists lv, injectDirFault ex_nelems 3 5 0x20 = Some (SramSetMask (DirScope 5) 3 lv) /\ lv_bit lv 5 = true.
Proof.
  destruct (dir_fault_bits ex_nelems ex_nelems_covers 3 5 0x20) as (lv & E & F & _).
  { split; [discriminate|reflexivity]. }
  { vm_compute. discriminate. }
  exists lv. split; [exact E|]. rewrite (F 5) by discriminate. reflexivity.
Defined.

Lemma random_fault_injected_witness :
  exists t lv, create_random_transaction random_seq (ex_draws HPDCACHE_REQ_LOAD 0x2f8) 5 = Some t
    /\ inject ex_nelems <$> fault_call_of (req_fault t) = [Some (SramBeSetMask (DatScope 1 3) 23 lv)].
Proof.
  destruct (create_random_transaction random_seq (ex_draws HPDCACHE_REQ_LOAD 0x2f8) 5) as [t|] eqn:E;
    [|vm_compute in E; discriminate E].
  destruct (random_fault_injected ex_nelems ex_nelems_covers _ _ _ E) as (lv & H & _).
  - reflexivity.
  - exists 0, 7, 100. split; [apply list_elem_of_here|]. split; [reflexivity|split; discriminate].
  - vm_compute. discriminate.
  - exists t, lv. split; [reflexivity|]. vm_compute in E. injection E as <-. exact H.
Defined.
