(* ===== verification/Interrupt.v ===== *)
(** * The interrupt firmware ([src/example_tb/core/interrupt])

    [interrupt.c] with [isr.h], [matrix.h] and the vector table: the handlers, the
    [mstatus] helpers, the matrix multiplication and the tests of [main], over the
    globals of the file, the CSRs they touch and the registers of the test bench
    they write. What the hardware does with an interrupt is translated from
    [cv32e40p_int_controller.sv] (the arbiter), [cv32e40p_cs_registers.sv] (entry and
    [mret]) and [cv32e40p_random_interrupt_generator.sv] (the lines); the arbiter is
    an argument of the tests, so that they can be run against another one. Lines
    are taken to be settled when interrupts are next enabled. *)
From S2P Require Import Prelude.

(** ** Constants *)
Definition ERR_CODE_TEST_2 : Z := 2.
Definition ERR_CODE_TEST_3 : Z := 3.
Definition ERR_CODE_TEST_5 : Z := 5.
Definition RND_STALL_REG_10 : Z := 0x16000028.
Definition RND_STALL_REG_11 : Z := 0x1600002C.
Definition RND_STALL_REG_12 : Z := 0x16000030.
Definition RND_STALL_REG_14 : Z := 0x16000038.
Definition IRQ_MODE_STD : Z := 1.
Definition IRQ_MODE_RND : Z := 2.
Definition IRQ_MODE_SD : Z := 4.
Definition MSTATUS_MIE_BIT : Z := 3.
Definition MSTATUS_MPIE_BIT : Z := 7.
Definition STD_IRQ_MASK : Z := 0xFFFF0888.
Definition SOFTWARE_IRQ_ID : Z := 3.
Definition TIMER_IRQ_ID : Z := 7.
Definition EXTERNAL_IRQ_ID : Z := 11.
Definition FAST_IRQ_ID (n : Z) : Z := 16 + n.
Definition RND_IRQ_NUM : nat := 50.
Definition RND_IE_NUM : nat := 50.
Definition RND_IRQ_MIN_CYCLES : Z := 100.
Definition RND_IRQ_MAX_CYCLES : Z := 200.

Definition IRQ_ID_PRIORITY : list Z :=
  [FAST_IRQ_ID 15; FAST_IRQ_ID 14; FAST_IRQ_ID 13; FAST_IRQ_ID 12; FAST_IRQ_ID 11; FAST_IRQ_ID 10;
   FAST_IRQ_ID 9; FAST_IRQ_ID 8; FAST_IRQ_ID 7; FAST_IRQ_ID 6; FAST_IRQ_ID 5; FAST_IRQ_ID 4;
   FAST_IRQ_ID 3; FAST_IRQ_ID 2; FAST_IRQ_ID 1; FAST_IRQ_ID 0;
   EXTERNAL_IRQ_ID; SOFTWARE_IRQ_ID; TIMER_IRQ_ID].
Definition IRQ_NUM : nat := 19.

(** ** The matrices *)
Abbreviation matrix := (list (list Z)).
Definition MAT_DIM : nat := 10.
Definition mat1 : matrix :=
  [[82; 16; 66; 71; 44; 28; 76; 85; 36; 8];
   [91; 98; 4; 4; 39; 68; 26; 26; 84; 6];
   [13; 96; 85; 28; 77; 66; 51; 82; 59; 54];
   [92; 49; 94; 5; 80; 17; 70; 25; 55; 78];
   [64; 81; 68; 10; 19; 12; 90; 93; 92; 94];
   [10; 15; 76; 83; 49; 50; 96; 35; 29; 13];
   [28; 43; 75; 70; 45; 96; 55; 20; 76; 57];
   [55; 92; 40; 32; 65; 35; 14; 26; 76; 47];
   [96; 80; 66; 96; 71; 59; 15; 62; 39; 2];
   [97; 96; 18; 4; 76; 23; 26; 48; 57; 34]].
Definition mat2 : matrix :=
  [[17; 46; 11; 44; 86; 42; 79; 24; 55; 93];
   [80; 9; 97; 92; 63; 5; 39; 36; 30; 78];
   [32; 23; 1; 19; 36; 91; 25; 83; 75; 49];
   [53; 92; 78; 27; 52; 95; 41; 2; 19; 44];
   [17; 16; 82; 15; 41; 50; 10; 5; 69; 45];
   [61; 83; 87; 14; 8; 49; 14; 17; 19; 31];
   [27; 54; 9; 87; 24; 34; 95; 65; 37; 51];
   [66; 100; 40; 58; 13; 91; 96; 74; 63; 52];
   [69; 8; 26; 55; 19; 37; 58; 65; 79; 82];
   [75; 45; 81; 15; 24; 12; 6; 46; 9; 80]].
Definition res_expected : matrix :=
  [[21751; 28246; 19770; 22945; 19961; 31594; 30011; 22798; 25940; 29968];
   [23202; 16742; 23881; 23221; 19197; 16768; 22491; 16753; 21594; 30388];
   [32350; 26559; 33427; 27102; 20074; 30532; 26201; 28088; 29269; 35628];
   [24339; 20216; 23666; 23650; 22981; 25597; 25480; 26036; 28730; 36951];
   [33295; 26583; 26547; 31977; 21823; 27824; 34061; 33451; 30082; 41759];
   [19962; 24414; 20554; 19112; 14888; 27874; 22108; 19662; 20773; 23365];
   [28971; 26671; 29944; 21502; 18462; 29006; 22323; 23059; 24526; 32351];
   [25374; 17246; 27389; 21584; 19821; 20633; 19901; 18872; 23126; 31727];
   [27376; 28931; 31116; 24397; 26002; 33618; 27477; 20402; 28034; 34997];
   [23165; 17423; 25332; 23703; 21693; 19268; 23691; 18568; 24117; 32916]].

Definition get (m : matrix) (i j : nat) : Z := default 0 (m !! i ≫= (.!! j)).
Definition put (i j : nat) (x : Z) (m : matrix) : matrix := alter (insert j x) i m.

(** The assignments of [mat_mult], in order: the points where an interrupt can come. *)
Inductive mat_op := Clear (i j : nat) | Accumulate (i j k : nat).
Definition mat_mult_ops : list mat_op :=
  i ← seq 0 MAT_DIM; j ← seq 0 MAT_DIM; Clear i j :: (Accumulate i j <$> seq 0 MAT_DIM).
Definition mat_step (m1 m2 : matrix) (res : matrix) (o : mat_op) : matrix :=
  match o with
  | Clear i j => put i j 0 res
  | Accumulate i j k => put i j (u32 (get res i j + u32 (get m1 i k * get m2 k j))) res
  end.
Definition mat_mult (m1 m2 res : matrix) : matrix := foldl (mat_step m1 m2) res mat_mult_ops.

(** ** State *)

(** The globals; all are [uint32_t]. *)
Record vars := {
  irq_processed : Z; irq_id : Z; irq_pending32_std : Z; irq_to_test32_std : Z;
  prev_irq_pending32_std : Z; first_irq_pending32_std : Z; ie_mask32_std : Z; mmstatus : Z;
  bit_to_set : Z; irq_mode : Z; irq_served : Z;
}.
(** The core and the test bench: [mie] and [mstatus], the registers written, and
    the lines the generator drives in the software-defined mode; and in memory, [res]
    of [matrix.h]. *)
Record state := {
  st_vars : vars; mie : Z; mstatus : Z; dev : gmap Z Z; sd_lines : Z; mat_res : matrix;
}.

Definition on_vars (f : vars -> vars) (s : state) : state :=
  {| st_vars := f (st_vars s); mie := mie s; mstatus := mstatus s; dev := dev s; sd_lines := sd_lines s;
     mat_res := mat_res s |}.
Definition set_irq_id (x : Z) (v : vars) : vars :=
  Build_vars (irq_processed v) x (irq_pending32_std v) (irq_to_test32_std v) (prev_irq_pending32_std v)
    (first_irq_pending32_std v) (ie_mask32_std v) (mmstatus v) (bit_to_set v) (irq_mode v) (irq_served v).
Definition set_pending (x : Z) (v : vars) : vars :=
  Build_vars (irq_processed v) (irq_id v) x (irq_to_test32_std v) (prev_irq_pending32_std v)
    (first_irq_pending32_std v) (ie_mask32_std v) (mmstatus v) (bit_to_set v) (irq_mode v) (irq_served v).
Definition set_to_test (x : Z) (v : vars) : vars :=
  Build_vars (irq_processed v) (irq_id v) (irq_pending32_std v) x (prev_irq_pending32_std v)
    (first_irq_pending32_std v) (ie_mask32_std v) (mmstatus v) (bit_to_set v) (irq_mode v) (irq_served v).
Definition set_prev (x : Z) (v : vars) : vars :=
  Build_vars (irq_processed v) (irq_id v) (irq_pending32_std v) (irq_to_test32_std v) x
    (first_irq_pending32_std v) (ie_mask32_std v) (mmstatus v) (bit_to_set v) (irq_mode v) (irq_served v).
Definition set_first (x : Z) (v : vars) : vars :=
  Build_vars (irq_processed v) (irq_id v) (irq_pending32_std v) (irq_to_test32_std v)
    (prev_irq_pending32_std v) x (ie_mask32_std v) (mmstatus v) (bit_to_set v) (irq_mode v) (irq_served v).
Definition set_ie_mask (x : Z) (v : vars) : vars :=
  Build_vars (irq_processed v) (irq_id v) (irq_pending32_std v) (irq_to_test32_std v)
    (prev_irq_pending32_std v) (first_irq_pending32_std v) x (mmstatus v) (bit_to_set v) (irq_mode v) (irq_served v).
Definition set_mmstatus (x : Z) (v : vars) : vars :=
  Build_vars (irq_processed v) (irq_id v) (irq_pending32_std v) (irq_to_test32_std v)
    (prev_irq_pending32_std v) (first_irq_pending32_std v) (ie_mask32_std v) x (bit_to_set v) (irq_mode v) (irq_served v).
Definition set_bit_to_set (x : Z) (v : vars) : vars :=
  Build_vars (irq_processed v) (irq_id v) (irq_pending32_std v) (irq_to_test32_std v)
    (prev_irq_pending32_std v) (first_irq_pending32_std v) (ie_mask32_std v) (mmstatus v) x (irq_mode v) (irq_served v).
Definition set_irq_mode (x : Z) (v : vars) : vars :=
  Build_vars (irq_processed v) (irq_id v) (irq_pending32_std v) (irq_to_test32_std v)
    (prev_irq_pending32_std v) (first_irq_pending32_std v) (ie_mask32_std v) (mmstatus v) (bit_to_set v) x (irq_served v).
Definition set_served (x : Z) (v : vars) : vars :=
  Build_vars (irq_processed v) (irq_id v) (irq_pending32_std v) (irq_to_test32_std v)
    (prev_irq_pending32_std v) (first_irq_pending32_std v) (ie_mask32_std v) (mmstatus v) (bit_to_set v) (irq_mode v) x.

Definition csrw_mie (x : Z) (s : state) : state :=
  {| st_vars := st_vars s; mie := Z.land x STD_IRQ_MASK; mstatus := mstatus s; dev := dev s; sd_lines := sd_lines s;
     mat_res := mat_res s |}.
Definition csrw_mstatus (x : Z) (s : state) : state :=
  {| st_vars := st_vars s; mie := mie s; mstatus := x; dev := dev s; sd_lines := sd_lines s;
     mat_res := mat_res s |}.

Definition reg (a : Z) (s : state) : Z := default 0 (dev s !! a).

(** [writew(val, addr)], and what the interrupt generator makes of it: in the
    software-defined mode it follows the lines as long as they are not all zero. *)
Definition writew (val addr : Z) (s : state) : state :=
  let d := <[addr := val]> (dev s) in
  let lines := default 0 (d !! RND_STALL_REG_14) in
  let mode := default 0 (d !! RND_STALL_REG_10) in
  {| st_vars := st_vars s; mie := mie s; mstatus := mstatus s; dev := d;
     sd_lines := if (mode =? IRQ_MODE_SD) && negb (lines =? 0) then Z.land lines STD_IRQ_MASK
                 else sd_lines s;
     mat_res := mat_res s |}.

Definition set_mat_res (m : matrix) (s : state) : state :=
  {| st_vars := st_vars s; mie := mie s; mstatus := mstatus s; dev := dev s; sd_lines := sd_lines s;
     mat_res := m |}.

(** The lines, for the word [rnd] of the random generator, and the [mip] CSR. *)
Definition irq_lines (rnd : Z) (s : state) : Z :=
  let mode := reg RND_STALL_REG_10 s in
  if mode =? IRQ_MODE_RND then rnd else if mode =? IRQ_MODE_SD then sd_lines s else 0.
Definition mip (rnd : Z) (s : state) : Z := Z.land (irq_lines rnd s) STD_IRQ_MASK.

(** ** The arbiter of the core *)
Fixpoint arbiter_chain (q : Z) (l : list Z) (last : Z) : Z :=
  match l with [] => last | i :: l => if Z.testbit q i then i else arbiter_chain q l last end.
Definition irq_id_ctrl_o (irq_local_qual : Z) : Z :=
  arbiter_chain irq_local_qual
    [31; 30; 29; 28; 27; 26; 25; 24; 23; 22; 21; 20; 19; 18; 17; 16; 15; 14; 13; 12;
     11; 3; 7; 10; 2; 6; 9; 1; 5; 8; 0; 4] 7.

(** ** Handlers *)
Definition lnot32 (x : Z) : Z := u32 (Z.lnot x).
Definition bit32 (n : Z) : Z := u32 (Z.shiftl 1 n).

(** [FAST_IRQ_GENERIC(id)]: the request is cleared, and the test bench told; *)
Definition clear_request (id rnd : Z) (s : state) : state :=
  let s := on_vars (set_irq_id id) s in
  let s := if irq_mode (st_vars s) =? IRQ_MODE_RND then on_vars (set_pending (mip rnd s)) s else s in
  let s := on_vars (set_pending (Z.land (irq_pending32_std (st_vars s)) (lnot32 (bit32 (irq_id (st_vars s)))))) s in
  writew (irq_pending32_std (st_vars s)) RND_STALL_REG_14 s.
(** in the random mode the service is counted and the generator restarted; *)
Definition restart_generator (s : state) : state :=
  let s := on_vars (set_served (u32 (irq_served (st_vars s) + 1))) s in
  let s := on_vars (set_irq_mode IRQ_MODE_STD) s in
  let s := writew (irq_mode (st_vars s)) RND_STALL_REG_10 s in
  let s := on_vars (set_irq_mode IRQ_MODE_RND) s in
  writew (irq_mode (st_vars s)) RND_STALL_REG_10 s.
(** otherwise [mret] is made to leave interrupts disabled. *)
Definition clear_mpie (s : state) : state :=
  let s := on_vars (set_mmstatus (mstatus s)) s in
  let s := on_vars (set_mmstatus (Z.land (mmstatus (st_vars s)) (lnot32 (bit32 7)))) s in
  csrw_mstatus (mmstatus (st_vars s)) s.
Definition FAST_IRQ_GENERIC (id rnd : Z) (s : state) : state :=
  let s := clear_request id rnd s in
  if irq_mode (st_vars s) =? IRQ_MODE_RND then restart_generator s else clear_mpie s.

Definition software_irq_handler := FAST_IRQ_GENERIC SOFTWARE_IRQ_ID.
Definition timer_irq_handler := FAST_IRQ_GENERIC TIMER_IRQ_ID.
Definition external_irq_handler := FAST_IRQ_GENERIC EXTERNAL_IRQ_ID.
Definition fast0_irq_handler := FAST_IRQ_GENERIC (FAST_IRQ_ID 0).
Definition fast1_irq_handler := FAST_IRQ_GENERIC (FAST_IRQ_ID 1).
Definition fast2_irq_handler := FAST_IRQ_GENERIC (FAST_IRQ_ID 2).
Definition fast3_irq_handler := FAST_IRQ_GENERIC (FAST_IRQ_ID 3).
Definition fast4_irq_handler := FAST_IRQ_GENERIC (FAST_IRQ_ID 4).
Definition fast5_irq_handler := FAST_IRQ_GENERIC (FAST_IRQ_ID 5).
Definition fast6_irq_handler := FAST_IRQ_GENERIC (FAST_IRQ_ID 6).
Definition fast7_irq_handler := FAST_IRQ_GENERIC (FAST_IRQ_ID 7).
Definition fast8_irq_handler := FAST_IRQ_GENERIC (FAST_IRQ_ID 8).
Definition fast9_irq_handler := FAST_IRQ_GENERIC (FAST_IRQ_ID 9).
Definition fast10_irq_handler := FAST_IRQ_GENERIC (FAST_IRQ_ID 10).
Definition fast11_irq_handler := FAST_IRQ_GENERIC (FAST_IRQ_ID 11).
Definition fast12_irq_handler := FAST_IRQ_GENERIC (FAST_IRQ_ID 12).
Definition fast13_irq_handler := FAST_IRQ_GENERIC (FAST_IRQ_ID 13).
Definition fast14_irq_handler := FAST_IRQ_GENERIC (FAST_IRQ_ID 14).
Definition fast15_irq_handler := FAST_IRQ_GENERIC (FAST_IRQ_ID 15).

(** [vector_table]; None is an entry whose handler loops for ever or is not modelled. *)
Definition vector_table : list (option (Z -> state -> state)) :=
  [None; None; None; Some software_irq_handler; None; None; None; Some timer_irq_handler;
   None; None; None; Some external_irq_handler; None; None; None; None;
   Some fast0_irq_handler; Some fast1_irq_handler; Some fast2_irq_handler; Some fast3_irq_handler;
   Some fast4_irq_handler; Some fast5_irq_handler; Some fast6_irq_handler; Some fast7_irq_handler;
   Some fast8_irq_handler; Some fast9_irq_handler; Some fast10_irq_handler; Some fast11_irq_handler;
   Some fast12_irq_handler; Some fast13_irq_handler; Some fast14_irq_handler; Some fast15_irq_handler].

(** ** Interrupts *)
Definition set_bit (b : bool) (n x : Z) : Z :=
  if b then Z.lor x (Z.shiftl 1 n) else Z.ldiff x (Z.shiftl 1 n).

(** Entry, the handler, and [mret]. *)
Definition take_irq (id rnd : Z) (s : state) : option state :=
  match vector_table !! Z.to_nat id with
  | Some (Some handler) =>
      let ms := mstatus s in
      let s := csrw_mstatus (set_bit false MSTATUS_MIE_BIT
                               (set_bit (Z.testbit ms MSTATUS_MIE_BIT) MSTATUS_MPIE_BIT ms)) s in
      let s := handler rnd s in
      let ms := mstatus s in
      Some (csrw_mstatus (set_bit true MSTATUS_MPIE_BIT
                            (set_bit (Z.testbit ms MSTATUS_MPIE_BIT) MSTATUS_MIE_BIT ms)) s)
  | _ => None
  end.

Definition mstatus_enable (bit_enabled : Z) (s : state) : state :=
  let s := on_vars (set_mmstatus (mstatus s)) s in
  let s := on_vars (set_mmstatus (Z.lor (mmstatus (st_vars s)) (bit32 bit_enabled))) s in
  csrw_mstatus (mmstatus (st_vars s)) s.
Definition mstatus_disable (bit_disabled : Z) (s : state) : state :=
  let s := on_vars (set_mmstatus (mstatus s)) s in
  let s := on_vars (set_mmstatus (Z.land (mmstatus (st_vars s)) (lnot32 (bit32 bit_disabled)))) s in
  csrw_mstatus (mmstatus (st_vars s)) s.

(** [random_num(upper_bound, lower_bound)], for the word read at [0x15001000]. *)
Definition random_num (word upper_bound lower_bound : Z) : Z :=
  u32 (u32 word mod u32 (upper_bound - lower_bound + 1) + lower_bound).

Section Arbiter.
Context (arbiter : Z -> Z).

(** The interrupt the core takes, if any. *)
Definition irq_request (rnd : Z) (s : state) : option Z :=
  let q := Z.land (mip rnd s) (mie s) in
  if Z.testbit (mstatus s) MSTATUS_MIE_BIT && negb (q =? 0) then Some (arbiter q) else None.

(** Interrupts taken one after the other until none is requested. *)
Fixpoint serve (fuel : nat) (rnd : Z) (s : state) : option state :=
  match irq_request rnd s with
  | None => Some s
  | Some id =>
      match fuel with
      | O => None
      | S fuel => s ← take_irq id rnd s; serve fuel rnd s
      end
  end.

(** What a test ends with: it goes on, returns a code, or waits for ever. *)
Inductive verdict := Pass (s : state) | Return (code : Z) (s : state) | Hang.

(** [while (prev_irq_pending32_std == irq_pending32_std);] with interrupts enabled: in
    this mode at most 32 interrupts can be served. *)
Definition wait_served (s : state) : option state :=
  s ← serve 32 0 s;
  if prev_irq_pending32_std (st_vars s) =? irq_pending32_std (st_vars s) then None else Some s.

(** The body both tests share: one interrupt is let in and compared with [id]. *)
Definition expect_irq (id code : Z) (s : state) (k : state -> verdict) : verdict :=
  let s := on_vars (set_prev (irq_pending32_std (st_vars s))) s in
  let s := mstatus_enable MSTATUS_MIE_BIT s in
  match wait_served s with
  | None => Hang
  | Some s => if negb (id =? irq_id (st_vars s)) then Return code s else k s
  end.

(** ** The tests of [main] *)
Definition test1 (s : state) : state :=
  let s := on_vars (set_ie_mask 0xFFFFFFFF) s in
  let s := csrw_mie (ie_mask32_std (st_vars s)) s in
  let s := writew IRQ_MODE_SD RND_STALL_REG_10 s in
  mstatus_disable MSTATUS_MIE_BIT s.

Fixpoint test2_loop (ids : list Z) (s : state) : verdict :=
  match ids with
  | [] => Pass s
  | id :: ids => expect_irq id ERR_CODE_TEST_2 s (test2_loop ids)
  end.
Definition test2_setup (s : state) : state :=
  let s := on_vars (set_ie_mask 0xFFFFFFFF) s in
  let s := csrw_mie (ie_mask32_std (st_vars s)) s in
  let s := on_vars (set_pending 0xFFFFFFFF) s in
  let s := mstatus_disable MSTATUS_MIE_BIT s in
  writew (irq_pending32_std (st_vars s)) RND_STALL_REG_14 s.
Definition test2 (s : state) : verdict := test2_loop (take IRQ_NUM IRQ_ID_PRIORITY) (test2_setup s).

(** The loops of test 3 that set random bits, for the words read. *)
Definition rnd_ie (words : list Z) (s : state) : state :=
  foldl (fun s w =>
    let s := on_vars (set_bit_to_set (random_num w 31 0)) s in
    on_vars (set_ie_mask (Z.lor (ie_mask32_std (st_vars s)) (bit32 (bit_to_set (st_vars s))))) s) s words.
Definition rnd_irq (words : list Z) (s : state) : state :=
  foldl (fun s w =>
    let s := on_vars (set_bit_to_set (random_num w 31 0)) s in
    on_vars (set_pending (Z.lor (irq_pending32_std (st_vars s)) (bit32 (bit_to_set (st_vars s))))) s) s words.
Definition build_to_test (s : state) : state :=
  foldl (fun s i =>
    let v := st_vars s in
    if negb (Z.land (Z.land (bit32 i) (first_irq_pending32_std v)) (ie_mask32_std v) =? 0)
    then on_vars (set_to_test (Z.lor (irq_to_test32_std v) (bit32 i))) s else s) s (seqZ 0 32).
Definition test3_draw (words : nat -> Z) (s : state) : state :=
  let s := on_vars (fun v => set_pending 0 (set_ie_mask 0 (set_irq_id 0
             (Build_vars 1 (irq_id v) (irq_pending32_std v) (irq_to_test32_std v) (prev_irq_pending32_std v)
                (first_irq_pending32_std v) (ie_mask32_std v) (mmstatus v) (bit_to_set v) (irq_mode v)
                (irq_served v))))) s in
  let s := rnd_ie (words <$> seq 0 RND_IE_NUM) s in
  let s := on_vars (set_ie_mask (Z.land (ie_mask32_std (st_vars s)) STD_IRQ_MASK)) s in
  let s := csrw_mie (ie_mask32_std (st_vars s)) s in
  let s := rnd_irq (words <$> seq RND_IE_NUM RND_IRQ_NUM) s in
  let s := on_vars (set_pending (Z.land (irq_pending32_std (st_vars s)) STD_IRQ_MASK)) s in
  on_vars (set_first (irq_pending32_std (st_vars s))) s.
Definition test3_setup (words : nat -> Z) (s : state) : state :=
  let s := build_to_test (test3_draw words s) in
  let s := mstatus_disable MSTATUS_MIE_BIT s in
  writew (irq_pending32_std (st_vars s)) RND_STALL_REG_14 s.
Fixpoint test3_loop (ids : list Z) (s : state) : verdict :=
  match ids with
  | [] =>
      let v := st_vars s in
      if negb (irq_pending32_std v =? Z.land (lnot32 (ie_mask32_std v)) (first_irq_pending32_std v))
      then Return ERR_CODE_TEST_3 s else Pass s
  | id :: ids =>
      if (id <=? 31) && negb (Z.land (bit32 id) (irq_to_test32_std (st_vars s)) =? 0)
      then expect_irq id ERR_CODE_TEST_3 s (test3_loop ids)
      else test3_loop ids s
  end.
Definition test3 (words : nat -> Z) (s : state) : verdict :=
  test3_loop (take IRQ_NUM IRQ_ID_PRIORITY) (test3_setup words s).

(** Test 5: random interrupts arrive while [mat_mult] runs, [irqs n] before its
    assignment [n]; each is a word of the random generator. *)
Definition test5_setup (s : state) : state :=
  let s := mstatus_disable MSTATUS_MIE_BIT s in
  let s := on_vars (set_ie_mask 0xFFFFFFFF) s in
  let s := csrw_mie (ie_mask32_std (st_vars s)) s in
  let s := writew RND_IRQ_MIN_CYCLES RND_STALL_REG_11 s in
  let s := writew RND_IRQ_MAX_CYCLES RND_STALL_REG_12 s in
  let s := on_vars (set_irq_mode IRQ_MODE_RND) s in
  let s := writew (irq_mode (st_vars s)) RND_STALL_REG_10 s in
  let s := on_vars (set_served 0) s in
  mstatus_enable MSTATUS_MIE_BIT s.
Definition irq_arrives (o : option state) (word : Z) : option state :=
  s ← o; match irq_request word s with None => Some s | Some id => take_irq id word s end.
Fixpoint run_interrupted (m1 m2 : matrix) (irqs : nat -> list Z) (n : nat) (ops : list mat_op)
    (s : state) : option state :=
  match ops with
  | [] => Some s
  | o :: ops =>
      s ← foldl irq_arrives (Some s) (irqs n);
      run_interrupted m1 m2 irqs (S n) ops (set_mat_res (mat_step m1 m2 (mat_res s) o) s)
  end.
Definition same_matrix (m1 m2 : matrix) : bool :=
  forallb (fun i => forallb (fun j => get m1 i j =? get m2 i j) (seq 0 MAT_DIM)) (seq 0 MAT_DIM).
Definition test5 (irqs : nat -> list Z) (s : state) : verdict :=
  match run_interrupted mat1 mat2 irqs 0 mat_mult_ops (test5_setup s) with
  | None => Hang
  | Some s =>
      let s := mstatus_disable MSTATUS_MIE_BIT s in
      let s := on_vars (set_served 0) s in
      if same_matrix (mat_res s) res_expected then Pass s else Return ERR_CODE_TEST_5 s
  end.

(** [main]; [Pass] is its [EXIT_SUCCESS]. *)
Definition main (words : nat -> Z) (irqs : nat -> list Z) (s : state) : verdict :=
  match test2 (test1 s) with
  | Pass s =>
      match test3 words s with
      | Pass s => test5 irqs s
      | v => v
      end
  | v => v
  end.
End Arbiter.

(** The globals and the matrix at the start of the program. *)
Definition vars_init : vars := Build_vars 1 0 0 0 0 0 0 0 0 0 0.
Definition res_init : matrix := replicate MAT_DIM (replicate MAT_DIM 0).
