(* ===== verification/InterruptProps.v ===== *)
(** * Properties of the interrupt firmware

    One interrupt is served each time interrupts are enabled, in the order of
    [IRQ_ID_PRIORITY] with the arbiter of the core; so the tests of [main] pass, and
    test 2 fails with any other order. The matrix product is that of the table,
    whatever interrupts arrive. *)
From S2P Require Import Prelude Interrupt.

(** ** Bits *)
Lemma testbit_bit32 n i : 0 <= n < 32 -> Z.testbit (bit32 n) i = (i =? n).
Proof.
  intros Hn. unfold bit32. rewrite testbit_wrap, testbit_shiftl, testbit_1 by lia. split_cmps; done.
Qed.
Lemma testbit_lnot32 x i : Z.testbit (lnot32 x) i = (0 <=? i) && (i <? 32) && negb (Z.testbit x i).
Proof.
  unfold lnot32. rewrite testbit_wrap, testbit_lnot by lia. split_cmps; simpl; by rewrite ?andb_true_r, ?andb_false_r.
Qed.
Lemma testbit_set_bit b n x i :
  0 <= n -> Z.testbit (set_bit b n x) i = if i =? n then b else Z.testbit x i.
Proof.
  intros Hn. unfold set_bit. destruct b; autorewrite with bits; split_cmps; simpl;
    rewrite ?orb_true_r, ?orb_false_r, ?andb_true_r, ?andb_false_r; done.
Qed.

(** The clearing of a served interrupt. *)
Lemma testbit_clear p id i :
  is_word 32 p -> 0 <= id < 32 ->
  Z.testbit (Z.land p (lnot32 (bit32 id))) i = Z.testbit p i && negb (i =? id).
Proof.
  intros Hp Hid. rewrite Z.land_spec, testbit_lnot32, testbit_bit32 by done.
  destruct (Z.leb_spec 0 i); [|by rewrite (Z.testbit_neg_r p) by lia].
  destruct (Z.ltb_spec i 32); [done|]. by rewrite (testbit_word 32 p) by (done || lia).
Qed.

(** The implemented interrupts. *)
Lemma priority_range id : id ∈ IRQ_ID_PRIORITY -> 0 <= id < 32.
Proof.
  assert (Forall (fun id => 0 <= id < 32) IRQ_ID_PRIORITY) as H
    by (apply (bool_decide_unpack _); vm_compute; exact I).
  rewrite list.Forall_forall in H. apply H.
Qed.

Lemma priority_nodup : NoDup IRQ_ID_PRIORITY.
Proof. apply (bool_decide_unpack _). vm_compute. exact I. Qed.

Lemma mask_priority i : 0 <= i -> Z.testbit STD_IRQ_MASK i = bool_decide (i ∈ IRQ_ID_PRIORITY).
Proof.
  intros Hi. destruct (Z.lt_ge_cases i 32).
  - apply eqb_prop. revert i H Hi.
    assert (forall i, 0 <= i < 32 ->
      (fun i => Bool.eqb (Z.testbit STD_IRQ_MASK i) (bool_decide (i ∈ IRQ_ID_PRIORITY))) i = true) as Hb
      by (apply forallb_interval; vm_compute; reflexivity).
    intros i H1 H0. exact (Hb i (conj H0 H1)).
  - rewrite (testbit_word 32) by (done || (vm_compute; intuition discriminate)).
    symmetry. apply bool_decide_eq_false. intros Hin%priority_range. lia.
Qed.

Lemma vector_priority id :
  id ∈ IRQ_ID_PRIORITY -> vector_table !! Z.to_nat id = Some (Some (FAST_IRQ_GENERIC id)).
Proof.
  assert (Forall (fun id => vector_table !! Z.to_nat id = Some (Some (FAST_IRQ_GENERIC id))) IRQ_ID_PRIORITY) as H
    by (repeat (apply list.Forall_cons; split; [reflexivity|]); constructor).
  rewrite list.Forall_forall in H. apply H.
Qed.

(** ** Serving one interrupt in the software-defined mode *)

(** The state between two services. *)
Record armed (s : state) : Prop := {
  ar_mode : reg RND_STALL_REG_10 s = IRQ_MODE_SD;
  ar_irq_mode : irq_mode (st_vars s) <> IRQ_MODE_RND;
  ar_word : is_word 32 (irq_pending32_std (st_vars s));
  ar_lines : irq_pending32_std (st_vars s) <> 0 ->
    sd_lines s = Z.land (irq_pending32_std (st_vars s)) STD_IRQ_MASK;
}.

(** The interrupts the core sees, pending and enabled. *)
Definition qualified (s : state) : Z :=
  Z.land (Z.land (irq_pending32_std (st_vars s)) STD_IRQ_MASK) (mie s).

(** What serving [id] changes. *)
Record served_one (id : Z) (s s' : state) : Prop := {
  so_id : irq_id (st_vars s') = id;
  so_pending : irq_pending32_std (st_vars s') = Z.land (irq_pending32_std (st_vars s)) (lnot32 (bit32 id));
  so_mie : mie s' = mie s;
  so_ie : ie_mask32_std (st_vars s') = ie_mask32_std (st_vars s);
  so_first : first_irq_pending32_std (st_vars s') = first_irq_pending32_std (st_vars s);
  so_to_test : irq_to_test32_std (st_vars s') = irq_to_test32_std (st_vars s);
}.

(** The handler out of the random mode. *)
Lemma clear_request_sd id rnd s :
  irq_mode (st_vars s) <> IRQ_MODE_RND ->
  let p := Z.land (irq_pending32_std (st_vars s)) (lnot32 (bit32 id)) in
  clear_request id rnd s = on_vars (fun v => set_pending p (set_irq_id id v)) (writew p RND_STALL_REG_14 s).
Proof.
  intros H%Z.eqb_neq. unfold clear_request.
  change (irq_mode (st_vars (on_vars (set_irq_id id) s))) with (irq_mode (st_vars s)). by rewrite H.
Qed.
Lemma handler_sd_eq id rnd s :
  irq_mode (st_vars s) <> IRQ_MODE_RND ->
  let p := Z.land (irq_pending32_std (st_vars s)) (lnot32 (bit32 id)) in
  FAST_IRQ_GENERIC id rnd s =
  clear_mpie (on_vars (fun v => set_pending p (set_irq_id id v)) (writew p RND_STALL_REG_14 s)).
Proof.
  intros H. unfold FAST_IRQ_GENERIC. rewrite clear_request_sd by done. apply Z.eqb_neq in H.
  set (s1 := on_vars _ _). change (irq_mode (st_vars s1)) with (irq_mode (st_vars s)). by rewrite H.
Qed.

Lemma writew_lines p s :
  reg RND_STALL_REG_10 s = IRQ_MODE_SD ->
  reg RND_STALL_REG_10 (writew p RND_STALL_REG_14 s) = IRQ_MODE_SD
  /\ (p <> 0 -> sd_lines (writew p RND_STALL_REG_14 s) = Z.land p STD_IRQ_MASK).
Proof.
  intros H. unfold reg, writew in *. cbn [dev sd_lines].
  assert (RND_STALL_REG_14 <> RND_STALL_REG_10) as Hne by discriminate.
  rewrite lookup_insert_eq, lookup_insert_ne, H, Z.eqb_refl by done. split; [done|].
  intros Hp. simpl. by rewrite (proj2 (Z.eqb_neq _ _) Hp).
Qed.

(** It clears the interrupt, tells the test bench, and has [mret] leave interrupts
    disabled. *)
Lemma handler_sd id rnd s :
  armed s -> 0 <= id < 32 ->
  armed (FAST_IRQ_GENERIC id rnd s) /\ served_one id s (FAST_IRQ_GENERIC id rnd s)
  /\ prev_irq_pending32_std (st_vars (FAST_IRQ_GENERIC id rnd s)) = prev_irq_pending32_std (st_vars s)
  /\ Z.testbit (mstatus (FAST_IRQ_GENERIC id rnd s)) MSTATUS_MPIE_BIT = false.
Proof.
  intros [H1 H2 H3 H4] Hid. rewrite handler_sd_eq by done. cbv zeta.
  destruct (writew_lines (Z.land (irq_pending32_std (st_vars s)) (lnot32 (bit32 id))) s H1) as [W1 W2].
  split_and!; [constructor|constructor|..]; try done.
  - simpl. apply land_word_l; [lia|done].
  - unfold clear_mpie, MSTATUS_MPIE_BIT. cbn [mstatus csrw_mstatus st_vars on_vars mmstatus set_mmstatus].
    rewrite Z.land_spec, testbit_lnot32, testbit_bit32 by lia. by rewrite andb_false_r.
Qed.

(** ** One service *)
Lemma testbit_qualified s i :
  Z.testbit (qualified s) i
  = Z.testbit (irq_pending32_std (st_vars s)) i && Z.testbit STD_IRQ_MASK i && Z.testbit (mie s) i.
Proof. unfold qualified. by rewrite !Z.land_spec. Qed.

Lemma qualified_priority s i :
  0 <= i -> Z.testbit (qualified s) i = true -> i ∈ IRQ_ID_PRIORITY.
Proof.
  intros Hi. rewrite testbit_qualified, mask_priority by done.
  intros [[_ H%bool_decide_eq_true]%andb_true_iff _]%andb_true_iff. done.
Qed.

Section Service.
Context (arbiter : Z -> Z).

Lemma request_sd rnd s :
  armed s -> qualified s <> 0 -> Z.testbit (mstatus s) MSTATUS_MIE_BIT = true ->
  irq_request arbiter rnd s = Some (arbiter (qualified s)).
Proof.
  intros [H1 _ _ H4] Hq Hm. unfold irq_request, mip, irq_lines. rewrite H1, Hm. simpl.
  rewrite H4.
  - rewrite <-(Z.land_assoc _ STD_IRQ_MASK STD_IRQ_MASK), Z.land_diag. fold (qualified s). by rewrite (proj2 (Z.eqb_neq _ _) Hq).
  - intros E. apply Hq. unfold qualified. by rewrite E.
Qed.

Lemma request_disabled rnd s :
  Z.testbit (mstatus s) MSTATUS_MIE_BIT = false -> irq_request arbiter rnd s = None.
Proof. intros H. unfold irq_request. by rewrite H. Qed.

(** With interrupts enabled, exactly one is served, and they are disabled again. *)
Lemma serve_sd fuel rnd s :
  armed s -> Z.testbit (qualified s) (arbiter (qualified s)) = true -> 0 <= arbiter (qualified s) ->
  Z.testbit (mstatus s) MSTATUS_MIE_BIT = true ->
  exists s', serve arbiter (S fuel) rnd s = Some s' /\ armed s' /\ served_one (arbiter (qualified s)) s s'
    /\ prev_irq_pending32_std (st_vars s') = prev_irq_pending32_std (st_vars s).
Proof.
  intros Ha Hbit Hid Hm. cbn [serve]. rewrite (request_sd rnd s Ha) by
    (try done; intros E; rewrite E in Hbit; by rewrite Z.bits_0 in Hbit).
  set (id := arbiter (qualified s)) in *.
  pose proof (qualified_priority s id Hid Hbit) as Hp. pose proof (priority_range id Hp) as Hr.
  unfold take_irq. rewrite (vector_priority id Hp).
  set (s1 := csrw_mstatus _ s). assert (armed s1) as Ha1 by (by destruct Ha).
  destruct (handler_sd id rnd s1 Ha1 Hr) as (Ha2 & [E1 E2 E3 E4 E5 E6] & Ep & Em). cbn [mbind option_bind].
  rewrite Em. set (s2 := csrw_mstatus _ _).
  assert (irq_request arbiter rnd s2 = None) as Hnone.
  { apply request_disabled. unfold s2. cbn [mstatus csrw_mstatus]. rewrite !testbit_set_bit by (unfold MSTATUS_MPIE_BIT, MSTATUS_MIE_BIT; lia).
    done. }
  exists s2. split; [destruct fuel; simpl; by rewrite Hnone|]. split; [by destruct Ha2|]. split; [|done].
  by constructor.
Qed.

(** The body of the tests' loops. *)
Lemma expect_irq_served id code s k :
  armed s -> Z.testbit (qualified s) (arbiter (qualified s)) = true -> 0 <= arbiter (qualified s) ->
  exists s', armed s' /\ served_one (arbiter (qualified s)) s s' /\
    expect_irq arbiter id code s k = if id =? arbiter (qualified s) then k s' else Return code s'.
Proof.
  intros Ha Hbit Hid. unfold expect_irq.
  set (s1 := mstatus_enable _ _).
  assert (armed s1) as Ha1 by (by destruct Ha).
  assert (Z.testbit (mstatus s1) MSTATUS_MIE_BIT = true) as Hm.
  { unfold s1. cbn [mstatus mstatus_enable csrw_mstatus on_vars st_vars mmstatus set_mmstatus].
    rewrite Z.lor_spec, testbit_bit32 by (unfold MSTATUS_MIE_BIT; lia).
    rewrite Z.eqb_refl. apply orb_true_r. }
  destruct (serve_sd 31 0 s1 Ha1 Hbit Hid Hm) as (s' & Es & Ha' & [E1 E2 E3 E4 E5 E6] & Ep).
  unfold wait_served. rewrite Es. cbn [mbind option_bind]. rewrite Ep.
  change (prev_irq_pending32_std (st_vars s1)) with (irq_pending32_std (st_vars s)).
  change (qualified s1) with (qualified s) in *. set (a := arbiter (qualified s)) in *.
  pose proof (priority_range a (qualified_priority s a Hid Hbit)) as Hr.
  destruct (Z.eqb_spec (irq_pending32_std (st_vars s)) (irq_pending32_std (st_vars s'))) as [E|_].
  { exfalso. rewrite E2 in E. apply (f_equal (fun x => Z.testbit x a)) in E.
    change (irq_pending32_std (st_vars s1)) with (irq_pending32_std (st_vars s)) in E.
    rewrite testbit_clear, Z.eqb_refl, andb_false_r in E by (done || apply Ha).
    rewrite testbit_qualified, E in Hbit. done. }
  exists s'. split; [done|]. split; [by constructor|]. rewrite E1. by destruct (id =? a).
Qed.
End Service.

(** ** Test 2 *)

(** The order in which an arbiter serves [n] interrupts of [q], each cleared once
    served. *)
Fixpoint served_order (arbiter : Z -> Z) (n : nat) (q : Z) : list Z :=
  match n with
  | O => []
  | S n => arbiter q :: served_order arbiter n (Z.land q (lnot32 (bit32 (arbiter q))))
  end.

(** An arbiter that picks one of the interrupts it is shown. *)
Definition arbiter_sound (arbiter : Z -> Z) : Prop := forall q,
  Z.land q STD_IRQ_MASK = q -> q <> 0 -> 0 <= arbiter q /\ Z.testbit q (arbiter q) = true.

Lemma qualified_mask s : Z.land (qualified s) STD_IRQ_MASK = qualified s.
Proof.
  unfold qualified. rewrite <-!Z.land_assoc, (Z.land_comm (mie s)), (Z.land_assoc STD_IRQ_MASK).
  by rewrite Z.land_diag.
Qed.

Lemma qualified_served id s s' :
  served_one id s s' -> qualified s' = Z.land (qualified s) (lnot32 (bit32 id)).
Proof.
  intros [_ E2 E3 _ _ _]. unfold qualified. rewrite E2, E3.
  apply Z.bits_inj'. intros i Hi. rewrite !Z.land_spec. btauto.
Qed.

Lemma not_zero_bit q i : Z.testbit q i = true -> q <> 0.
Proof. intros H ->. by rewrite Z.bits_0 in H. Qed.

Section Test2.
Context (arbiter : Z -> Z) (Hsound : arbiter_sound arbiter).

Lemma test2_loop_spec ids : forall s,
  armed s -> NoDup ids -> (forall id, id ∈ ids -> 0 <= id /\ Z.testbit (qualified s) id = true) ->
  match test2_loop arbiter ids s with
  | Pass s' => armed s' /\ irq_to_test32_std (st_vars s') = irq_to_test32_std (st_vars s)
               /\ served_order arbiter (length ids) (qualified s) = ids
  | Return code _ => code = ERR_CODE_TEST_2 /\ served_order arbiter (length ids) (qualified s) <> ids
  | Hang => False
  end.
Proof using Hsound.
  induction ids as [|id ids IH]; intros s Ha Hn Hin; [done|].
  cbn [test2_loop length served_order]. apply list.NoDup_cons in Hn as [Hni Hn].
  destruct (Hin id (list_elem_of_here _ _)) as [Hid Hbit].
  destruct (Hsound (qualified s) (qualified_mask s) (not_zero_bit _ _ Hbit)) as [H0 H1].
  destruct (expect_irq_served arbiter id ERR_CODE_TEST_2 s (test2_loop arbiter ids) Ha H1 H0)
    as (s' & Ha' & Hs & ->).
  destruct (Z.eqb_spec id (arbiter (qualified s))) as [E|Hne].
  - rewrite <-E in *. pose proof (qualified_served _ _ _ Hs) as Hq. rewrite <-Hq.
    assert (forall x, x ∈ ids -> 0 <= x /\ Z.testbit (qualified s') x = true) as Hin'.
    { intros x Hx. destruct (Hin x (list_elem_of_further _ _ _ Hx)) as [Hx0 Hxb]. split; [done|].
      pose proof (qualified_priority s x Hx0 Hxb) as Hxr%priority_range.
      rewrite Hq, Z.land_spec, Hxb, testbit_lnot32, testbit_bit32
        by (apply priority_range, (qualified_priority s); done).
      destruct (Z.eqb_spec x id) as [->|]; [done|]. split_cmps; done. }
    specialize (IH s' Ha' Hn Hin'). destruct (test2_loop arbiter ids s'); [| |done].
    + destruct IH as (? & -> & ->). split_and!; [done|apply Hs|done].
    + destruct IH as [-> H]. split; [done|]. intros [= E']. by apply H.
  - split; [done|]. intros [= E _]. by rewrite E in Hne.
Qed.

Lemma test2_start s :
  irq_mode (st_vars s) <> IRQ_MODE_RND ->
  armed (test2_setup (test1 s)) /\ qualified (test2_setup (test1 s)) = STD_IRQ_MASK.
Proof.
  intros H. assert (RND_STALL_REG_14 <> RND_STALL_REG_10) as Hne by discriminate.
  assert (reg RND_STALL_REG_10 (test1 s) = IRQ_MODE_SD) as H1.
  { unfold test1, reg. cbn [dev writew csrw_mstatus on_vars mstatus_disable]. by rewrite lookup_insert_eq. }
  set (s1 := test1 s) in *.
  destruct (writew_lines 0xFFFFFFFF (mstatus_disable MSTATUS_MIE_BIT
     (on_vars (set_pending 0xFFFFFFFF) (csrw_mie 0xFFFFFFFF (on_vars (set_ie_mask 0xFFFFFFFF) s1)))) H1) as [W1 W2].
  split; [constructor; done|]. reflexivity.
Qed.

Lemma test2_spec s :
  irq_mode (st_vars s) <> IRQ_MODE_RND ->
  match test2 arbiter (test1 s) with
  | Pass s' => armed s' /\ irq_to_test32_std (st_vars s') = irq_to_test32_std (st_vars s)
               /\ served_order arbiter IRQ_NUM STD_IRQ_MASK = IRQ_ID_PRIORITY
  | Return code _ => code = ERR_CODE_TEST_2 /\ served_order arbiter IRQ_NUM STD_IRQ_MASK <> IRQ_ID_PRIORITY
  | Hang => False
  end.
Proof using Hsound.
  intros H. destruct (test2_start s H) as [Ha Hq]. unfold test2. change (take IRQ_NUM IRQ_ID_PRIORITY) with IRQ_ID_PRIORITY.
  pose proof (test2_loop_spec IRQ_ID_PRIORITY (test2_setup (test1 s)) Ha priority_nodup) as Hl. rewrite Hq in Hl.
  apply Hl. intros id Hid. split; [by apply priority_range|].
  rewrite mask_priority by (by apply priority_range). by apply bool_decide_eq_true.
Qed.

(** C33: Test 2 tells the priority order of the core: with any arbiter that picks one of the pending interrupts, it always ends; it passes if the order in which the nineteen interrupts are served, one each time interrupts are enabled, is that of [IRQ_ID_PRIORITY], and returns its error code if it is another. *)
Theorem test2_checks_order s :
  irq_mode (st_vars s) <> IRQ_MODE_RND ->
  match test2 arbiter (test1 s) with
  | Pass _ => served_order arbiter IRQ_NUM STD_IRQ_MASK = IRQ_ID_PRIORITY
  | Return code _ => code = ERR_CODE_TEST_2 /\ served_order arbiter IRQ_NUM STD_IRQ_MASK <> IRQ_ID_PRIORITY
  | Hang => False
  end.
Proof using Hsound.
  intros H. pose proof (test2_spec s H) as Hs. destruct (test2 arbiter (test1 s)); [apply Hs|exact Hs|exact Hs].
Qed.
End Test2.

(** ** The arbiter of the core *)
Lemma chain_skip q done_ ids last :
  (forall x, x ∈ done_ -> Z.testbit q x = false) ->
  arbiter_chain q (done_ ++ ids) last = arbiter_chain q ids last.
Proof.
  induction done_ as [|x l IH]; intros H; [done|]. simpl. rewrite H by apply list_elem_of_here.
  apply IH. intros y Hy. apply H. by apply list_elem_of_further.
Qed.

Lemma chain_find q ids last :
  (exists x, x ∈ ids /\ Z.testbit q x = true) ->
  arbiter_chain q ids last ∈ ids /\ Z.testbit q (arbiter_chain q ids last) = true.
Proof.
  induction ids as [|y l IH]; intros (x & Hx & Hb); [by apply not_elem_of_nil in Hx|]. simpl.
  destruct (Z.testbit q y) eqn:E; [split; [apply list_elem_of_here|done]|].
  apply elem_of_cons in Hx as [->|Hx]; [by rewrite E in Hb|].
  destruct IH as [H1 H2]; [eauto|]. split; [by apply list_elem_of_further|done].
Qed.

(** Among implemented interrupts the chain is [IRQ_ID_PRIORITY]. *)
Lemma ctrl_chain q :
  Z.land q STD_IRQ_MASK = q -> irq_id_ctrl_o q = arbiter_chain q IRQ_ID_PRIORITY 7.
Proof.
  intros Hq.
  assert (forall l, arbiter_chain q l 7 = arbiter_chain q (filter (fun i => Z.testbit STD_IRQ_MASK i = true) l) 7) as H.
  { induction l as [|i l IH]; [done|]. rewrite filter_cons. simpl.
    destruct (decide (Z.testbit STD_IRQ_MASK i = true)) as [E|E].
    - simpl. by rewrite IH.
    - apply not_true_is_false in E. rewrite <-Hq at 1. by rewrite Z.land_spec, E, andb_false_r. }
  unfold irq_id_ctrl_o. rewrite H. f_equal.
Qed.

Lemma ctrl_sound : arbiter_sound irq_id_ctrl_o.
Proof.
  intros q Hq Hne. rewrite ctrl_chain by done.
  assert (exists x, x ∈ IRQ_ID_PRIORITY /\ Z.testbit q x = true) as Hex.
  { destruct (decide (Exists (fun x => Z.testbit q x = true) IRQ_ID_PRIORITY)) as [H|H].
    - by apply list.Exists_exists in H.
    - exfalso. apply Hne. apply Z.bits_inj'. intros i Hi. rewrite Z.bits_0, <-Hq, Z.land_spec.
      rewrite mask_priority by done. case_bool_decide as Hin; [|apply andb_false_r].
      rewrite andb_true_r. apply not_true_is_false. intros Hb. apply H. apply list.Exists_exists. eauto. }
  destruct (chain_find q IRQ_ID_PRIORITY 7 Hex) as [H1 H2]. split; [by apply priority_range|done].
Qed.

(** ** Test 3 *)

(** After the interrupts of [done_] were considered: those of them that are enabled
    are served, nothing else is. *)
Record t3_inv (done_ : list Z) (s : state) : Prop := {
  t3_armed : armed s;
  t3_pending i : 0 <= i -> Z.testbit (irq_pending32_std (st_vars s)) i =
    Z.testbit (first_irq_pending32_std (st_vars s)) i
    && negb (Z.testbit (ie_mask32_std (st_vars s)) i && bool_decide (i ∈ done_));
  t3_to_test i : 0 <= i -> Z.testbit (irq_to_test32_std (st_vars s)) i =
    Z.testbit (first_irq_pending32_std (st_vars s)) i && Z.testbit (ie_mask32_std (st_vars s)) i;
  t3_mie : mie s = ie_mask32_std (st_vars s);
  t3_ie : Z.land (ie_mask32_std (st_vars s)) STD_IRQ_MASK = ie_mask32_std (st_vars s);
  t3_first : Z.land (first_irq_pending32_std (st_vars s)) STD_IRQ_MASK = first_irq_pending32_std (st_vars s);
}.

Lemma masked_bit x i : Z.land x STD_IRQ_MASK = x -> Z.testbit x i = true -> Z.testbit STD_IRQ_MASK i = true.
Proof. intros E H. rewrite <-E, Z.land_spec in H. by apply andb_true_iff in H as [_ H]. Qed.

(** The interrupts the core sees are those to test that were not considered. *)
Lemma t3_qualified done_ s i :
  t3_inv done_ s -> 0 <= i ->
  Z.testbit (qualified s) i = Z.testbit (irq_to_test32_std (st_vars s)) i && negb (bool_decide (i ∈ done_)).
Proof.
  intros [_ H2 H3 H4 H5 _] Hi. rewrite testbit_qualified, H4, H2, H3 by done.
  destruct (Z.testbit (ie_mask32_std (st_vars s)) i) eqn:E; [|by rewrite !andb_false_r].
  rewrite (masked_bit _ i H5 E). btauto.
Qed.

Lemma t3_tested s id :
  0 <= id < 32 ->
  (id <=? 31) && negb (Z.land (bit32 id) (irq_to_test32_std (st_vars s)) =? 0)
  = Z.testbit (irq_to_test32_std (st_vars s)) id.
Proof.
  intros Hid. rewrite (proj2 (Z.leb_le id 31)) by lia. simpl.
  destruct (Z.testbit (irq_to_test32_std (st_vars s)) id) eqn:E.
  - apply negb_true_iff, Z.eqb_neq. apply (not_zero_bit _ id).
    by rewrite Z.land_spec, testbit_bit32, Z.eqb_refl, E by done.
  - apply negb_false_iff, Z.eqb_eq. apply Z.bits_inj'. intros i Hi.
    rewrite Z.land_spec, testbit_bit32, Z.bits_0 by done. destruct (Z.eqb_spec i id) as [->|]; [by rewrite E|done].
Qed.

Lemma bool_decide_snoc (i id : Z) l :
  bool_decide (i ∈ l ++ [id]) = bool_decide (i ∈ l) || (i =? id).
Proof.
  apply eq_true_iff_eq. rewrite orb_true_iff, !bool_decide_eq_true, Z.eqb_eq, elem_of_app.
  by rewrite list_elem_of_singleton.
Qed.

Lemma t3_served done_ id s s' :
  t3_inv done_ s -> Z.testbit (irq_to_test32_std (st_vars s)) id = true -> 0 <= id < 32 ->
  armed s' -> served_one id s s' -> t3_inv (done_ ++ [id]) s'.
Proof.
  intros [H1 H2 H3 H4 H5 H6] Ht Hid Ha [E1 E2 E3 E4 E5 E6].
  constructor; rewrite ?E2, ?E3, ?E4, ?E5, ?E6; try done.
  intros i Hi. rewrite testbit_clear by (done || apply H1). rewrite H2, bool_decide_snoc by done.
  rewrite H3 in Ht by lia. apply andb_true_iff in Ht as [_ Hie].
  destruct (Z.eqb_spec i id) as [->|]; [|by rewrite andb_true_r, orb_false_r].
  rewrite Hie, orb_true_r. simpl. by rewrite !andb_false_r.
Qed.

Lemma t3_skipped done_ id s :
  t3_inv done_ s -> Z.testbit (irq_to_test32_std (st_vars s)) id = false -> 0 <= id ->
  t3_inv (done_ ++ [id]) s.
Proof.
  intros [H1 H2 H3 H4 H5 H6] Ht Hid. constructor; try done. intros i Hi.
  rewrite H2, bool_decide_snoc by done. destruct (Z.eqb_spec i id) as [->|]; [|by rewrite orb_false_r].
  rewrite H3 in Ht by done. destruct (Z.testbit (first_irq_pending32_std (st_vars s)) id); [|done].
  simpl in Ht. rewrite Ht. done.
Qed.

(** The core then picks the next interrupt to test. *)
Lemma t3_next done_ id ids s :
  IRQ_ID_PRIORITY = done_ ++ id :: ids -> t3_inv done_ s ->
  Z.testbit (irq_to_test32_std (st_vars s)) id = true ->
  irq_id_ctrl_o (qualified s) = id /\ Z.testbit (qualified s) id = true.
Proof.
  intros Hp Hs Ht.
  assert (0 <= id) as Hid by (apply priority_range; rewrite Hp; set_solver).
  pose proof priority_nodup as Hn. rewrite Hp in Hn. apply list.NoDup_app in Hn as (_ & Hn & _).
  assert (Z.testbit (qualified s) id = true) as Hb.
  { rewrite (t3_qualified done_), Ht, bool_decide_eq_false_2 by (done || (intros Hx; apply (Hn id Hx), list_elem_of_here)).
    done. }
  split; [|done]. rewrite ctrl_chain, Hp by apply qualified_mask. rewrite chain_skip; [simpl; by rewrite Hb|].
  intros x Hx. rewrite (t3_qualified done_) by (done || (apply priority_range; rewrite Hp; set_solver)).
  rewrite bool_decide_eq_true_2 by done. apply andb_false_r.
Qed.

Lemma t3_final s :
  t3_inv IRQ_ID_PRIORITY s ->
  irq_pending32_std (st_vars s) = Z.land (lnot32 (ie_mask32_std (st_vars s))) (first_irq_pending32_std (st_vars s)).
Proof.
  intros [H1 H2 H3 H4 H5 H6]. apply Z.bits_inj'. intros i Hi.
  rewrite H2, Z.land_spec, testbit_lnot32 by done.
  destruct (Z.testbit (first_irq_pending32_std (st_vars s)) i) eqn:Ef; [|by rewrite andb_false_r].
  pose proof (masked_bit _ i H6 Ef) as Hm. rewrite mask_priority in Hm by done. rewrite Hm.
  apply bool_decide_eq_true in Hm as Hr%priority_range. split_cmps. simpl. by rewrite !andb_true_r.
Qed.

Lemma test3_loop_spec ids : forall done_ s,
  IRQ_ID_PRIORITY = done_ ++ ids -> t3_inv done_ s ->
  exists s', test3_loop irq_id_ctrl_o ids s = Pass s' /\ t3_inv IRQ_ID_PRIORITY s'.
Proof.
  induction ids as [|id ids IH]; intros done_ s Hp Hs; cbn [test3_loop].
  - rewrite app_nil_r in Hp. subst done_. exists s. split; [|done].
    by rewrite (t3_final s Hs), Z.eqb_refl.
  - assert (0 <= id < 32) as Hr by (apply priority_range; rewrite Hp; set_solver).
    rewrite t3_tested by done.
    destruct (Z.testbit (irq_to_test32_std (st_vars s)) id) eqn:Ht.
    + destruct (t3_next _ _ _ _ Hp Hs Ht) as [Hq Hb].
      destruct (expect_irq_served irq_id_ctrl_o id ERR_CODE_TEST_3 s (test3_loop irq_id_ctrl_o ids))
        as (s' & Ha & Hso & ->); [by destruct Hs|by rewrite Hq|rewrite Hq; lia|].
      rewrite Hq, Z.eqb_refl in *. apply (IH (done_ ++ [id])); [by rewrite <-app_assoc|].
      by apply (t3_served _ _ s).
    + apply (IH (done_ ++ [id])); [by rewrite <-app_assoc|]. apply t3_skipped; [done|done|lia].
Qed.

(** *** The setup *)
Lemma rnd_bit_range w : 0 <= random_num w 31 0 < 32.
Proof.
  unfold random_num. change (u32 (31 - 0 + 1)) with 32. pose proof (Z.mod_pos_bound (u32 w) 32 ltac:(lia)).
  rewrite wrap_small by (unfold is_word; lia). lia.
Qed.

(** What the loops that draw bits keep. *)
Definition same_env (s s' : state) : Prop :=
  mie s' = mie s /\ mstatus s' = mstatus s /\ dev s' = dev s /\ sd_lines s' = sd_lines s
  /\ irq_mode (st_vars s') = irq_mode (st_vars s) /\ irq_to_test32_std (st_vars s') = irq_to_test32_std (st_vars s).

#[local] Instance same_env_preorder : PreOrder same_env.
Proof.
  split; [by intros s|]. intros a b c (?&?&?&?&?&?) (?&?&?&?&?&?). split_and!; congruence.
Qed.

Lemma foldl_keeps {A B} (R : relation A) {HR : PreOrder R} (f : A -> B -> A) l s :
  (forall s x, R s (f s x)) -> R s (foldl f s l).
Proof.
  intros Hf. revert s. induction l as [|x l IH]; intros s; simpl; [reflexivity|]. etrans; [apply Hf|apply IH].
Qed.
#[local] Instance same_field_preorder {A B} (g : A -> B) : PreOrder (fun s s' => g s' = g s).
Proof. split; [by intros s|]. intros a b c. congruence. Qed.

Lemma rnd_ie_env words s :
  same_env s (rnd_ie words s) /\ irq_pending32_std (st_vars (rnd_ie words s)) = irq_pending32_std (st_vars s).
Proof.
  split; [by apply (foldl_keeps same_env)|].
  by apply (foldl_keeps (fun s s' => irq_pending32_std (st_vars s') = irq_pending32_std (st_vars s))).
Qed.
Lemma rnd_irq_env words s :
  same_env s (rnd_irq words s) /\ ie_mask32_std (st_vars (rnd_irq words s)) = ie_mask32_std (st_vars s).
Proof.
  split; [by apply (foldl_keeps same_env)|].
  by apply (foldl_keeps (fun s s' => ie_mask32_std (st_vars s') = ie_mask32_std (st_vars s))).
Qed.

(** The word to test. *)
Lemma build_to_test_spec s :
  irq_to_test32_std (st_vars s) = 0 ->
  let s' := build_to_test s in
  st_vars s' = set_to_test (irq_to_test32_std (st_vars s')) (st_vars s)
  /\ mie s' = mie s /\ mstatus s' = mstatus s /\ dev s' = dev s /\ sd_lines s' = sd_lines s
  /\ forall i, 0 <= i -> Z.testbit (irq_to_test32_std (st_vars s')) i =
       (i <? 32) && Z.testbit (first_irq_pending32_std (st_vars s)) i && Z.testbit (ie_mask32_std (st_vars s)) i.
Proof.
  intros H0. unfold build_to_test.
  assert (forall n, (n <= 32)%nat ->
    let s' := foldl (fun s i => let v := st_vars s in
      if negb (Z.land (Z.land (bit32 i) (first_irq_pending32_std v)) (ie_mask32_std v) =? 0)
      then on_vars (set_to_test (Z.lor (irq_to_test32_std v) (bit32 i))) s else s) s (seqZ 0 (Z.of_nat n)) in
    st_vars s' = set_to_test (irq_to_test32_std (st_vars s')) (st_vars s)
    /\ mie s' = mie s /\ mstatus s' = mstatus s /\ dev s' = dev s /\ sd_lines s' = sd_lines s
    /\ forall i, 0 <= i -> Z.testbit (irq_to_test32_std (st_vars s')) i =
       (i <? Z.of_nat n) && Z.testbit (first_irq_pending32_std (st_vars s)) i && Z.testbit (ie_mask32_std (st_vars s)) i) as H;
    [|exact (H 32%nat ltac:(lia))].
  induction n as [|n IH]; intros Hn; cbv zeta.
  - simpl. split_and!; try done; [by destruct (st_vars s)|]. intros i Hi. rewrite H0, Z.bits_0. by split_cmps.
  - rewrite seqZ_S, foldl_app. cbn [foldl]. rewrite Z.add_0_l.
    destruct (IH ltac:(lia)) as (E1 & E2 & E3 & E4 & E5 & E6). set (s1 := foldl _ s _) in *.
    assert (first_irq_pending32_std (st_vars s1) = first_irq_pending32_std (st_vars s)
            /\ ie_mask32_std (st_vars s1) = ie_mask32_std (st_vars s)) as [-> ->] by (by rewrite E1).
    set (f := first_irq_pending32_std _) in *. set (m := ie_mask32_std _) in *.
    assert (forall i, 0 <= i -> Z.testbit (Z.land (Z.land (bit32 (Z.of_nat n)) f) m) i
              = (i =? Z.of_nat n) && Z.testbit f i && Z.testbit m i) as Hb.
    { intros i Hi. by rewrite !Z.land_spec, testbit_bit32 by lia. }
    assert (negb (Z.land (Z.land (bit32 (Z.of_nat n)) f) m =? 0) = Z.testbit f (Z.of_nat n) && Z.testbit m (Z.of_nat n)) as ->.
    { pose proof (Hb (Z.of_nat n) ltac:(lia)) as Hbn. rewrite Z.eqb_refl in Hbn. simpl in Hbn. rewrite <-Hbn.
      destruct (Z.eqb_spec (Z.land (Z.land (bit32 (Z.of_nat n)) f) m) 0) as [->|Hne]; [by rewrite Z.bits_0|].
      simpl. symmetry. apply not_false_iff_true. intros E. apply Hne, Z.bits_inj'. intros i Hi.
      rewrite Hb, Z.bits_0 by done. destruct (Z.eqb_spec i (Z.of_nat n)) as [->|]; [by rewrite Hbn in E|done]. }
    destruct (Z.testbit f (Z.of_nat n) && Z.testbit m (Z.of_nat n)) eqn:Eb.
    + split_and!; try done; simpl; [by rewrite E1|]. intros i Hi.
      rewrite Z.lor_spec, E6, testbit_bit32 by lia.
      destruct (Z.eqb_spec i (Z.of_nat n)) as [->|]; split_cmps; simpl;
        rewrite <-?andb_assoc, ?Eb; simpl; rewrite ?orb_false_r; done.
    + split_and!; try done. intros i Hi. rewrite E6 by done.
      destruct (Z.eqb_spec i (Z.of_nat n)) as [->|]; split_cmps; simpl; rewrite <-?andb_assoc, ?Eb; done.
Qed.

(** The state once the words are drawn. *)
Record drawn_words (s : state) : Prop := {
  dw_mode : reg RND_STALL_REG_10 s = IRQ_MODE_SD;
  dw_irq_mode : irq_mode (st_vars s) <> IRQ_MODE_RND;
  dw_to_test : irq_to_test32_std (st_vars s) = 0;
  dw_first : first_irq_pending32_std (st_vars s) = irq_pending32_std (st_vars s);
  dw_pending : Z.land (irq_pending32_std (st_vars s)) STD_IRQ_MASK = irq_pending32_std (st_vars s);
  dw_mie : mie s = ie_mask32_std (st_vars s);
  dw_ie : Z.land (ie_mask32_std (st_vars s)) STD_IRQ_MASK = ie_mask32_std (st_vars s);
}.

Lemma mask_twice x : Z.land (Z.land x STD_IRQ_MASK) STD_IRQ_MASK = Z.land x STD_IRQ_MASK.
Proof. by rewrite <-Z.land_assoc, Z.land_diag. Qed.

(** The two loops, on any words. *)
Lemma draw_spec ws1 ws2 s1 :
  reg RND_STALL_REG_10 s1 = IRQ_MODE_SD -> irq_mode (st_vars s1) <> IRQ_MODE_RND ->
  irq_to_test32_std (st_vars s1) = 0 ->
  let s := rnd_ie ws1 s1 in
  let s := on_vars (set_ie_mask (Z.land (ie_mask32_std (st_vars s)) STD_IRQ_MASK)) s in
  let s := csrw_mie (ie_mask32_std (st_vars s)) s in
  let s := rnd_irq ws2 s in
  let s := on_vars (set_pending (Z.land (irq_pending32_std (st_vars s)) STD_IRQ_MASK)) s in
  drawn_words (on_vars (set_first (irq_pending32_std (st_vars s))) s).
Proof.
  intros H1 H2 H0. cbv zeta.
  destruct (rnd_ie_env ws1 s1) as [(_ & _ & E3 & _ & E5 & E6) _]. revert E3 E5 E6.
  generalize (rnd_ie ws1 s1). intros s2 E3 E5 E6. set (s3 := csrw_mie _ _).
  destruct (rnd_irq_env ws2 s3) as [(F1 & _ & F3 & _ & F5 & F6) Fie]. revert F1 F3 F5 F6 Fie.
  generalize (rnd_irq ws2 s3). intros s4 F1 F3 F5 F6 Fie. unfold reg in *.
  constructor; unfold reg; simpl in *; rewrite ?F1, ?F3, ?F5, ?F6, ?Fie, ?mask_twice; try done.
  - by rewrite E3.
  - by rewrite E5.
  - by rewrite E6.
Qed.

Lemma test3_draw_spec words s :
  armed s -> irq_to_test32_std (st_vars s) = 0 -> drawn_words (test3_draw words s).
Proof. intros [H1 H2 _ _] H0. by apply draw_spec. Qed.

Lemma drawn_start s :
  drawn_words s ->
  let s := mstatus_disable MSTATUS_MIE_BIT (build_to_test s) in
  t3_inv [] (writew (irq_pending32_std (st_vars s)) RND_STALL_REG_14 s).
Proof.
  intros [H1 H2 H3 H4 H5 H6 H7]. cbv zeta.
  destruct (build_to_test_spec s H3) as (B1 & B2 & _ & B4 & _ & B6). revert B1 B2 B4 B6.
  generalize (build_to_test s). intros s7 B1 B2 B4 B6.
  assert (irq_pending32_std (st_vars s7) = irq_pending32_std (st_vars s)
          /\ first_irq_pending32_std (st_vars s7) = irq_pending32_std (st_vars s)
          /\ ie_mask32_std (st_vars s7) = ie_mask32_std (st_vars s)
          /\ irq_mode (st_vars s7) = irq_mode (st_vars s)) as (V1 & V2 & V3 & V4) by (by rewrite B1).
  assert (reg RND_STALL_REG_10 (mstatus_disable MSTATUS_MIE_BIT s7) = IRQ_MODE_SD) as Hreg
    by (unfold reg in *; simpl; by rewrite B4).
  destruct (writew_lines (irq_pending32_std (st_vars (mstatus_disable MSTATUS_MIE_BIT s7))) _ Hreg) as [W1 W2].
  constructor; [constructor; [exact W1| | |exact W2]|..]; simpl; rewrite ?V1, ?V2, ?V3, ?V4; try done.
  - rewrite <-H5. apply land_word_r; [lia|done].
  - intros i Hi. by rewrite andb_false_r, andb_true_r.
  - intros i Hi. rewrite B6, H4 by done. destruct (Z.ltb_spec i 32); [done|]. simpl.
    rewrite (testbit_word 32 (irq_pending32_std _)); [done| |done]. rewrite <-H5. apply land_word_r; [lia|done].
  - by rewrite B2.
Qed.

Lemma test3_passes words s :
  armed s -> irq_to_test32_std (st_vars s) = 0 ->
  exists s', test3 irq_id_ctrl_o words s = Pass s' /\ t3_inv IRQ_ID_PRIORITY s'.
Proof.
  intros Ha H0. unfold test3. change (take IRQ_NUM IRQ_ID_PRIORITY) with IRQ_ID_PRIORITY.
  apply (test3_loop_spec IRQ_ID_PRIORITY [] (test3_setup words s)); [reflexivity|].
  unfold test3_setup. pose proof (test3_draw_spec words s Ha H0) as Hd. revert Hd.
  generalize (test3_draw words s). intros s1. apply drawn_start.
Qed.

(** ** The matrix product *)
Definition shaped (m : matrix) : Prop := length m = MAT_DIM /\ Forall (fun r => length r = MAT_DIM) m.

(** Entry [(i, j)] of the product. *)
Definition dot (m1 m2 : matrix) (i j : nat) (ks : list nat) (a : Z) : Z :=
  foldl (fun a k => a + get m1 i k * get m2 k j) a ks.

Lemma put_shaped i j x m : shaped m -> shaped (put i j x m).
Proof.
  intros [H1 H2]. split; unfold put; [by rewrite length_alter|].
  apply Forall_alter; [done|]. intros r _ Hr. by rewrite length_insert.
Qed.

Lemma get_put i j x m i' j' :
  shaped m -> (i < MAT_DIM)%nat -> (j < MAT_DIM)%nat ->
  get (put i j x m) i' j' = if decide (i' = i /\ j' = j) then x else get m i' j'.
Proof.
  intros [H1 H2] Hi Hj. unfold get, put.
  destruct (lookup_lt_is_Some_2 m i ltac:(lia)) as [r Hr].
  pose proof (list.Forall_lookup_1 _ _ _ _ H2 Hr) as Hlr. simpl in Hlr.
  destruct (decide (i' = i)) as [->|Hne].
  - rewrite list_lookup_alter_eq, Hr. simpl. destruct (decide (j' = j)) as [->|Hnj].
    + rewrite decide_True by done. rewrite list_lookup_insert_eq by lia. done.
    + rewrite decide_False by tauto. by rewrite list_lookup_insert_ne by done.
  - rewrite decide_False by tauto. by rewrite list_lookup_alter_ne by done.
Qed.

Section Product.
Context (m1 m2 : matrix).

Lemma accumulate_spec i j ks : forall res a,
  shaped res -> (i < MAT_DIM)%nat -> (j < MAT_DIM)%nat -> get res i j = u32 a ->
  let res' := foldl (mat_step m1 m2) res (Accumulate i j <$> ks) in
  shaped res' /\ forall i' j', get res' i' j' =
    if decide (i' = i /\ j' = j) then u32 (dot m1 m2 i j ks a) else get res i' j'.
Proof.
  induction ks as [|k ks IH]; intros res a Hs Hi Hj Ha; simpl.
  - split; [done|]. intros i' j'. by destruct (decide _) as [[-> ->]|].
  - set (res1 := put i j _ res). assert (shaped res1) as Hs1 by by apply put_shaped.
    destruct (IH res1 (a + get m1 i k * get m2 k j) Hs1 Hi Hj) as [H1 H2].
    { unfold res1. rewrite get_put, decide_True by done. rewrite Ha. unfold wrap.
      by rewrite <-Zplus_mod. }
    split; [done|]. intros i' j'. rewrite H2. unfold res1. rewrite get_put by done.
    by destruct (decide (i' = i /\ j' = j)).
Qed.

Lemma cell_spec i j res :
  shaped res -> (i < MAT_DIM)%nat -> (j < MAT_DIM)%nat ->
  let res' := foldl (mat_step m1 m2) res (Clear i j :: (Accumulate i j <$> seq 0 MAT_DIM)) in
  shaped res' /\ forall i' j', get res' i' j' =
    if decide (i' = i /\ j' = j) then u32 (dot m1 m2 i j (seq 0 MAT_DIM) 0) else get res i' j'.
Proof.
  intros Hs Hi Hj. cbn [foldl mat_step].
  destruct (accumulate_spec i j (seq 0 MAT_DIM) (put i j 0 res) 0) as [H1 H2]; [by apply put_shaped|done|done|..].
  { by rewrite get_put, decide_True by done. }
  split; [done|]. intros i' j'. rewrite H2, get_put by done. by destruct (decide (i' = i /\ j' = j)).
Qed.

Definition cell_ops (c : nat * nat) : list mat_op :=
  Clear c.1 c.2 :: (Accumulate c.1 c.2 <$> seq 0 MAT_DIM).

Lemma cells_spec cs : forall res,
  shaped res -> (forall c, c ∈ cs -> (c.1 < MAT_DIM /\ c.2 < MAT_DIM)%nat) ->
  let res' := foldl (mat_step m1 m2) res (cs ≫= cell_ops) in
  shaped res' /\ forall i j, get res' i j =
    if decide ((i, j) ∈ cs) then u32 (dot m1 m2 i j (seq 0 MAT_DIM) 0) else get res i j.
Proof.
  induction cs as [|[i j] cs IH]; intros res Hs Hc; cbv zeta.
  - cbn. split; [done|]. intros i j. by rewrite decide_False by apply not_elem_of_nil.
  - change (((i, j) :: cs) ≫= cell_ops) with (cell_ops (i, j) ++ (cs ≫= cell_ops)).
    rewrite foldl_app. destruct (Hc (i, j) (list_elem_of_here _ _)) as [Hi Hj].
    destruct (cell_spec i j res Hs Hi Hj) as [H1 H2].
    change (Clear i j :: (Accumulate i j <$> seq 0 MAT_DIM)) with (cell_ops (i, j)) in H1, H2.
    set (res1 := foldl _ res _) in *.
    destruct (IH res1 H1) as [H3 H4]; [intros c Hcin; apply Hc; by apply list_elem_of_further|].
    split; [exact H3|]. intros i' j'. rewrite H4, H2.
    destruct (decide ((i', j') ∈ cs)); destruct (decide ((i', j') ∈ (i, j) :: cs)) as [Hin|Hin]; try done.
    + exfalso. apply Hin. by apply list_elem_of_further.
    + apply elem_of_cons in Hin as [[= -> ->]|?]; [by rewrite decide_True|done].
    + rewrite decide_False; [done|]. intros [-> ->]. apply Hin, list_elem_of_here.
Qed.

(** The assignments are those of the cells, row by row. *)
Lemma mat_mult_cells :
  mat_mult_ops = (i ← seq 0 MAT_DIM; j ← seq 0 MAT_DIM; [(i, j)]) ≫= cell_ops.
Proof. reflexivity. Qed.

(** [mat_mult] is the product modulo [2^32], whatever the result matrix held. *)
Lemma mat_mult_spec res i j :
  shaped res -> (i < MAT_DIM)%nat -> (j < MAT_DIM)%nat ->
  shaped (mat_mult m1 m2 res) /\ get (mat_mult m1 m2 res) i j = u32 (dot m1 m2 i j (seq 0 MAT_DIM) 0).
Proof.
  intros Hs Hi Hj. unfold mat_mult. rewrite mat_mult_cells.
  set (cs := i ← seq 0 MAT_DIM; _).
  assert (forall c : nat * nat, c ∈ cs <-> (c.1 < MAT_DIM /\ c.2 < MAT_DIM)%nat) as Hcs.
  { intros [a b]. unfold cs. rewrite list_elem_of_bind. setoid_rewrite list_elem_of_bind.
    setoid_rewrite list_elem_of_singleton. setoid_rewrite elem_of_seq. cbn [fst snd]. split.
    - intros (x & (y & [= -> ->] & Hy) & Hx). lia.
    - intros [Ha Hb]. exists a. split; [exists b; split; [done|lia]|lia]. }
  destruct (cells_spec cs res Hs) as [H1 H2]; [intros c; apply Hcs|].
  split; [done|]. rewrite H2, decide_True; [done|]. by apply Hcs.
Qed.
End Product.

(** ** Test 5 *)
Lemma expected_entries i j :
  (i < MAT_DIM)%nat -> (j < MAT_DIM)%nat ->
  u32 (dot mat1 mat2 i j (seq 0 MAT_DIM) 0) = get res_expected i j.
Proof.
  assert (forallb (fun i => forallb (fun j => u32 (dot mat1 mat2 i j (seq 0 MAT_DIM) 0) =? get res_expected i j)
            (seq 0 MAT_DIM)) (seq 0 MAT_DIM) = true) as H by (vm_compute; reflexivity).
  intros Hi Hj. rewrite forallb_forall in H. specialize (H i). rewrite forallb_forall in H.
  apply Z.eqb_eq, H; apply list_elem_of_In, elem_of_seq; lia.
Qed.

Lemma product_expected res : shaped res -> same_matrix (mat_mult mat1 mat2 res) res_expected = true.
Proof.
  intros Hs. apply forallb_forall. intros i Hi%list_elem_of_In%elem_of_seq.
  apply forallb_forall. intros j Hj%list_elem_of_In%elem_of_seq.
  destruct (mat_mult_spec mat1 mat2 res i j Hs) as [_ ->]; [lia..|]. apply Z.eqb_eq, expected_entries; lia.
Qed.

(** ** Interrupts leave the result matrix alone *)
Lemma handler_matrix id rnd s : mat_res (FAST_IRQ_GENERIC id rnd s) = mat_res s.
Proof.
  assert (forall s0, mat_res s0 = mat_res s ->
    mat_res (if irq_mode (st_vars s0) =? IRQ_MODE_RND then restart_generator s0 else clear_mpie s0)
      = mat_res s) as H by (intros s0 <-; by case_match).
  unfold FAST_IRQ_GENERIC. apply H. unfold clear_request. by case_match.
Qed.

Lemma take_irq_matrix id rnd s s' : take_irq id rnd s = Some s' -> mat_res s' = mat_res s.
Proof.
  unfold take_irq. destruct (vector_table !! Z.to_nat id) as [[h|]|] eqn:E; try done.
  intros [= <-]. cbn [mat_res csrw_mstatus].
  assert (exists i, h = FAST_IRQ_GENERIC i) as [i ->]; [|by rewrite handler_matrix].
  apply list_elem_of_lookup_2 in E. repeat (apply elem_of_cons in E as [E|E]; [try done|]);
    try (injection E as ->; eexists; reflexivity). by apply elem_of_nil in E.
Qed.

Section Frame.
Context (arbiter : Z -> Z).

Lemma serve_matrix fuel rnd : forall s s',
  serve arbiter fuel rnd s = Some s' -> mat_res s' = mat_res s.
Proof.
  induction fuel as [|fuel IH]; intros s s'; simpl; (destruct (irq_request _ _ _) as [id|];
    [|by intros [= <-]]); [done|].
  intros (s1 & H1 & H2)%bind_Some. rewrite (IH _ _ H2). by apply take_irq_matrix in H1.
Qed.

Definition keeps_matrix (m : matrix) (v : verdict) : Prop :=
  match v with Pass s | Return _ s => mat_res s = m | Hang => True end.

Lemma expect_irq_matrix id code s k :
  (forall s', mat_res s' = mat_res s -> keeps_matrix (mat_res s) (k s')) ->
  keeps_matrix (mat_res s) (expect_irq arbiter id code s k).
Proof.
  intros Hk. unfold expect_irq. destruct (wait_served _ _) as [s'|] eqn:E; [|done].
  unfold wait_served in E. apply bind_Some in E as (s1 & Es & E). case_match; [done|]. injection E as ->.
  apply serve_matrix in Es. case_match; [exact Es|by apply Hk].
Qed.

Lemma test2_loop_matrix ids : forall s, keeps_matrix (mat_res s) (test2_loop arbiter ids s).
Proof.
  induction ids as [|id ids IH]; intros s; cbn [test2_loop]; [done|].
  apply expect_irq_matrix. intros s' <-. apply IH.
Qed.

Lemma test3_loop_matrix ids : forall s, keeps_matrix (mat_res s) (test3_loop arbiter ids s).
Proof.
  induction ids as [|id ids IH]; intros s; cbn [test3_loop]; [by case_match|].
  case_match; [|apply IH]. apply expect_irq_matrix. intros s' <-. apply IH.
Qed.

Lemma foldl_matrix {A} (f : state -> A -> state) l : forall s,
  (forall s x, mat_res (f s x) = mat_res s) -> mat_res (foldl f s l) = mat_res s.
Proof. induction l as [|x l IH]; intros s H; simpl; [done|]. by rewrite IH, H. Qed.

Lemma on_vars_matrix f s m : mat_res s = m -> mat_res (on_vars f s) = m.
Proof. done. Qed.
Lemma build_matrix s m : mat_res s = m -> mat_res (build_to_test s) = m.
Proof. intros <-. apply foldl_matrix. intros s' x. cbv zeta. by case_match. Qed.
Lemma rnd_ie_matrix words s m : mat_res s = m -> mat_res (rnd_ie words s) = m.
Proof. intros <-. apply foldl_matrix. done. Qed.
Lemma rnd_irq_matrix words s m : mat_res s = m -> mat_res (rnd_irq words s) = m.
Proof. intros <-. apply foldl_matrix. done. Qed.
Lemma csrw_mie_matrix x s m : mat_res s = m -> mat_res (csrw_mie x s) = m.
Proof. done. Qed.
Lemma disable_matrix x s m : mat_res s = m -> mat_res (mstatus_disable x s) = m.
Proof. done. Qed.
Lemma writew_matrix x y s m : mat_res s = m -> mat_res (writew x y s) = m.
Proof. done. Qed.

Ltac frame_step :=
  lazymatch goal with
  | |- mat_res (on_vars _ _) = _ => apply on_vars_matrix
  | |- mat_res (rnd_ie _ _) = _ => apply rnd_ie_matrix
  | |- mat_res (rnd_irq _ _) = _ => apply rnd_irq_matrix
  | |- mat_res (csrw_mie _ _) = _ => apply csrw_mie_matrix
  | |- mat_res (mstatus_disable _ _) = _ => apply disable_matrix
  | |- mat_res (build_to_test _) = _ => apply build_matrix
  | |- mat_res (writew _ _ _) = _ => apply writew_matrix
  end.
Lemma test3_draw_matrix words s : mat_res (test3_draw words s) = mat_res s.
Proof. unfold test3_draw. by repeat frame_step. Qed.
Lemma test3_setup_matrix words s : mat_res (test3_setup words s) = mat_res s.
Proof.
  rewrite <- (test3_draw_matrix words s). unfold test3_setup. generalize (test3_draw words s). intros s1.
  by repeat frame_step.
Qed.

Lemma tests_matrix words s :
  keeps_matrix (mat_res s) (test2 arbiter (test1 s)) /\ keeps_matrix (mat_res s) (test3 arbiter words s).
Proof.
  split; [apply (test2_loop_matrix _ (test2_setup (test1 s)))|].
  rewrite <- (test3_setup_matrix words s). apply test3_loop_matrix.
Qed.

Lemma irqs_arrive_matrix words : forall s s',
  foldl (irq_arrives arbiter) (Some s) words = Some s' -> mat_res s' = mat_res s.
Proof.
  induction words as [|w words IH]; intros s s'; cbn [foldl]; [by intros [= ->]|].
  destruct (irq_arrives arbiter (Some s) w) as [s1|] eqn:E.
  - intros H. rewrite (IH _ _ H). unfold irq_arrives in E. cbn [mbind option_bind] in E.
    destruct (irq_request _ _ _); [by apply take_irq_matrix in E|by injection E as ->].
  - assert (foldl (irq_arrives arbiter) None words = None) as -> by (clear; induction words; done). done.
Qed.
End Frame.

Section Test5.
Context (arbiter : Z -> Z) (Hsound : arbiter_sound arbiter).

Lemma irq_arrives_total word s : exists s', irq_arrives arbiter (Some s) word = Some s'.
Proof using Hsound.
  unfold irq_arrives. cbn [mbind option_bind]. unfold irq_request.
  destruct (_ && _) eqn:E; [|eauto]. apply andb_true_iff in E as [_ E%negb_true_iff%Z.eqb_neq].
  set (q := Z.land (mip word s) (mie s)) in *.
  assert (Z.land q STD_IRQ_MASK = q) as Hq.
  { unfold q, mip. rewrite <-!Z.land_assoc, (Z.land_comm (mie s)), (Z.land_assoc STD_IRQ_MASK).
    by rewrite Z.land_diag. }
  destruct (Hsound q Hq E) as [H0 Hb]. unfold take_irq. rewrite vector_priority; [eauto|].
  apply (bool_decide_eq_true_1 _). rewrite <-mask_priority by done. by apply (masked_bit q).
Qed.

Lemma irqs_arrive_total words : forall s, exists s', foldl (irq_arrives arbiter) (Some s) words = Some s'.
Proof using Hsound.
  induction words as [|w words IH]; intros s; cbn [foldl]; [eauto|].
  destruct (irq_arrives_total w s) as [s1 ->]. apply IH.
Qed.

Lemma run_interrupted_result m1 m2 irqs ops : forall n s, exists s',
  run_interrupted arbiter m1 m2 irqs n ops s = Some s'
  /\ mat_res s' = foldl (mat_step m1 m2) (mat_res s) ops.
Proof using Hsound.
  induction ops as [|o ops IH]; intros n s; cbn [run_interrupted foldl]; [eauto|].
  destruct (irqs_arrive_total (irqs n) s) as [s1 E]. rewrite E. cbn [mbind option_bind].
  apply irqs_arrive_matrix in E. rewrite <- E. apply IH.
Qed.

Lemma interrupted_mat_mult m1 m2 irqs s : exists s',
  run_interrupted arbiter m1 m2 irqs 0 mat_mult_ops s = Some s'
  /\ mat_res s' = mat_mult m1 m2 (mat_res s).
Proof using Hsound. apply run_interrupted_result. Qed.

(** Whatever interrupts arrive before each assignment of [mat_mult], and with whatever arbiter of pending interrupts, the multiplication ends and its result in memory is the product of the matrices modulo [2^32]. *)
Lemma interrupted_product m1 m2 irqs s i j :
  shaped (mat_res s) -> (i < MAT_DIM)%nat -> (j < MAT_DIM)%nat ->
  exists s', run_interrupted arbiter m1 m2 irqs 0 mat_mult_ops s = Some s'
    /\ get (mat_res s') i j = u32 (dot m1 m2 i j (seq 0 MAT_DIM) 0).
Proof using Hsound.
  intros Hs Hi Hj. destruct (interrupted_mat_mult m1 m2 irqs s) as (s' & H & E).
  exists s'. split; [exact H|]. rewrite E. by apply mat_mult_spec.
Qed.

Lemma test5_passes irqs s : shaped (mat_res s) -> exists s', test5 arbiter irqs s = Pass s'.
Proof using Hsound.
  intros Hs. unfold test5.
  destruct (interrupted_mat_mult mat1 mat2 irqs (test5_setup s)) as (s' & -> & E).
  set (s1 := on_vars _ _). assert (mat_res s1 = mat_mult mat1 mat2 (mat_res s)) as -> by done.
  rewrite product_expected by done. eauto.
Qed.
End Test5.

(** ** The program *)
Lemma ctrl_order : served_order irq_id_ctrl_o IRQ_NUM STD_IRQ_MASK = IRQ_ID_PRIORITY.
Proof. vm_compute. reflexivity. Qed.

Lemma test2_passes s :
  irq_mode (st_vars s) <> IRQ_MODE_RND -> exists s', test2 irq_id_ctrl_o (test1 s) = Pass s'
    /\ armed s' /\ irq_to_test32_std (st_vars s') = irq_to_test32_std (st_vars s).
Proof.
  intros H. pose proof (test2_spec irq_id_ctrl_o ctrl_sound s H) as Hs.
  destruct (test2 irq_id_ctrl_o (test1 s)) as [s'|code s'|]; [|by destruct Hs as [_ []]; apply ctrl_order|done].
  exists s'. by destruct Hs as (? & ? & _).
Qed.

(** C34: In test 3, whatever words the random generator gives, each interrupt that is pending and enabled is served, one each time interrupts are enabled and in priority order, and at the end exactly the pending interrupts that are not enabled are left. *)
Theorem test3_serves_enabled words s :
  irq_mode (st_vars s) <> IRQ_MODE_RND -> irq_to_test32_std (st_vars s) = 0 ->
  exists s2 s3, test2 irq_id_ctrl_o (test1 s) = Pass s2 /\ test3 irq_id_ctrl_o words s2 = Pass s3
    /\ irq_pending32_std (st_vars s3)
       = Z.land (lnot32 (ie_mask32_std (st_vars s3))) (first_irq_pending32_std (st_vars s3))
    /\ irq_to_test32_std (st_vars s3) = Z.land (first_irq_pending32_std (st_vars s3)) (ie_mask32_std (st_vars s3)).
Proof.
  intros H H0. destruct (test2_passes s H) as (s2 & E2 & Ha & Ht). rewrite H0 in Ht.
  destruct (test3_passes words s2 Ha Ht) as (s3 & E3 & Hs3). exists s2, s3.
  split_and!; [done|done|by apply t3_final|]. apply Z.bits_inj'. intros i Hi.
  by rewrite (t3_to_test _ _ Hs3), Z.land_spec by done.
Qed.

(** C32: The program succeeds on the core: with the arbiter of [cv32e40p_int_controller.sv], whatever the random words and the interrupts of test 5, none of the tests waits for ever and [main] returns [EXIT_SUCCESS]. *)
Theorem main_succeeds words irqs s :
  irq_mode (st_vars s) <> IRQ_MODE_RND -> irq_to_test32_std (st_vars s) = 0 -> shaped (mat_res s) ->
  exists s', main irq_id_ctrl_o words irqs s = Pass s'.
Proof.
  intros H H0 Hr. unfold main.
  destruct (tests_matrix irq_id_ctrl_o words s) as [M2 _].
  destruct (test2_passes s H) as (s2 & E2 & Ha & Ht). rewrite E2 in *. rewrite H0 in Ht. simpl in M2.
  destruct (tests_matrix irq_id_ctrl_o words s2) as [_ M3].
  destruct (test3_passes words s2 Ha Ht) as (s3 & E3 & _). rewrite E3 in *. simpl in M3.
  apply test5_passes; [apply ctrl_sound|congruence].
Qed.

(** ** Witnesses *)
Definition ex_start : state :=
  {| st_vars := vars_init; mie := 0; mstatus := 0x1800; dev := ∅; sd_lines := 0; mat_res := res_init |}.

Lemma res_init_shaped : shaped res_init.
Proof. split; [reflexivity|]. by repeat constructor. Qed.

(** An arbiter with the timer before the software interrupt. *)
Definition ex_swapped (q : Z) : Z :=
  arbiter_chain q (take 17 IRQ_ID_PRIORITY ++ [TIMER_IRQ_ID; SOFTWARE_IRQ_ID]) 3.

Lemma test2_checks_order_witness :
  exists s, test2 irq_id_ctrl_o (test1 ex_start) = Pass s.
Proof.
  pose proof (test2_checks_order irq_id_ctrl_o ctrl_sound ex_start) as H.
  destruct (test2 irq_id_ctrl_o (test1 ex_start)) as [s|code s|].
  - exists s. reflexivity.
  - destruct H as [_ H]; [discriminate|]. destruct (H ctrl_order).
  - destruct H. discriminate.
Defined.

Lemma ex_swapped_found : exists s, test2 ex_swapped (test1 ex_start) = Return ERR_CODE_TEST_2 s.
Proof. eexists. vm_compute. reflexivity. Qed.

Lemma test3_serves_enabled_witness :
  exists s2 s3, test2 irq_id_ctrl_o (test1 ex_start) = Pass s2
    /\ test3 irq_id_ctrl_o (fun n => 7 * Z.of_nat n) s2 = Pass s3.
Proof.
  destruct (test3_serves_enabled (fun n => 7 * Z.of_nat n) ex_start) as (s2 & s3 & H2 & H3 & _).
  - discriminate.
  - reflexivity.
  - exists s2, s3. split; [exact H2|exact H3].
Defined.

Lemma main_succeeds_witness :
  exists s, main irq_id_ctrl_o (fun n => 7 * Z.of_nat n) (fun n => [Z.of_nat n]) ex_start = Pass s.
Proof.
  apply main_succeeds; [discriminate|reflexivity|exact res_init_shaped].
Defined.
