(* ===== verification/Firmware.v ===== *)
(** * The other C code of the firmware

    [firmware/stats.c], [custom/syscalls.c], the activation of memory stalls of
    [mem_stall/mem_stall.c] and [custom_fp/main.c], and the exception handler of the
    vector tables. Characters are their codes. *)
From Stdlib Require Import String.
From S2P Require Import Prelude.

(** ** Statistics ([stats.c]) *)
Module Stats.

Definition char_0 : Z := 48.
Definition space : Z := 32.
Definition dot : Z := 46.

(** The first loop of [stats_print_dec]: the characters written from [buffer] on.
    [val] loses a digit and [digits] one at each turn, so [32] turns fill the buffer;
    None is a write past its end. *)
Fixpoint fill (fuel : nat) (val digits : Z) (zero_pad : bool) : option (list Z) :=
  if (val =? 0) && (digits <=? 0) then Some [] else
  match fuel with
  | O => None
  | S fuel =>
      let c := if negb (val =? 0) then char_0 + val mod 10 else if zero_pad then char_0 else space in
      l ← fill fuel (val / 10) (digits - 1) zero_pad; Some (c :: l)
  end.

(** The second loop, on the characters before [p] from the last one down; None reads
    [p[-2]] before the start of the buffer. *)
Fixpoint emit (chars : list Z) : option (list Z) :=
  match chars with
  | [] => Some []
  | c :: rest =>
      c ← (if c =? space then
             match rest with [] => None | c' :: _ => Some (if c' =? space then dot else c) end
           else Some c);
      l ← emit rest; Some (c :: l)
  end.

Definition stats_print_dec (val digits : Z) (zero_pad : bool) : option (list Z) :=
  buffer ← fill 32 val digits zero_pad; emit (rev buffer).

(** [stats]: the four numbers it prints; None is a division by zero or one of the
    errors above. *)
Definition stats (num_cycles num_instr : Z) : option (list Z * list Z * list Z * list Z) :=
  if num_instr =? 0 then None else
  c ← stats_print_dec num_cycles 8 false;
  i ← stats_print_dec num_instr 8 false;
  q ← stats_print_dec (num_cycles / num_instr) 0 false;
  f ← stats_print_dec ((u32 (100 * num_cycles) / num_instr) mod 100) 2 true;
  Some (c, i, q, f).

(** [init_stats]: the writes to mcycle, minstret and mcountinhibit. *)
Definition init_stats (csr : gmap Z Z) : gmap Z Z :=
  <[0x320 := 0xfffffff8]> (<[0xb02 := 0]> (<[0xb00 := 0]> csr)).

(** *** Correctness *)

(** The digits of a number, the last one first. *)
Fixpoint digits_value (ds : list Z) : Z :=
  match ds with [] => 0 | d :: ds => d + 10 * digits_value ds end.
Definition is_digit (d : Z) : Prop := 0 <= d < 10.

(** Both counters start at zero, and neither is inhibited. *)
Lemma init_stats_enables csr :
  init_stats csr !! 0xb00 = Some 0 /\ init_stats csr !! 0xb02 = Some 0
  /\ exists inhibit, init_stats csr !! 0x320 = Some inhibit
     /\ Z.testbit inhibit 0 = false /\ Z.testbit inhibit 2 = false.
Proof. unfold init_stats. by split_and!; [..|eexists; split_and!]; simpl_map. Qed.

(** The buffer: the digits of the number, then the padding. *)
Lemma fill_spec fuel : forall val digits zero_pad,
  0 <= val < 10 ^ Z.of_nat fuel -> digits <= Z.of_nat fuel ->
  exists ds n, fill fuel val digits zero_pad
      = Some ((Z.add char_0 <$> ds) ++ replicate n (if zero_pad then char_0 else space))
    /\ Forall is_digit ds /\ digits_value ds = val /\ (0 < val -> list.last ds <> Some 0) /\ (val = 0 -> ds = [])
    /\ n = Z.to_nat (digits - Z.of_nat (length ds)).
Proof.
  induction fuel as [|fuel IH]; intros val digits zero_pad Hv Hd; cbn [fill].
  - assert (val = 0) as -> by lia. rewrite (proj2 (Z.leb_le digits 0)) by lia. simpl.
    exists [], 0%nat. split_and!; try done; try apply list.Forall_nil_2; simpl; lia.
  - destruct (Z.eqb_spec val 0) as [->|Hne].
    + destruct (Z.leb_spec digits 0); simpl.
      { exists [], 0%nat. split_and!; try done; try apply list.Forall_nil_2; simpl; lia. }
      rewrite Zdiv_0_l. destruct (IH 0 (digits - 1) zero_pad) as (ds & n & -> & _ & _ & _ & He & Hn);
        [split; [lia|apply Z.pow_pos_nonneg; lia]|lia|].
      rewrite He in * by done. simpl in *. exists [], (S n). split_and!; try done; try apply list.Forall_nil_2; simpl; lia.
    + simpl. rewrite Nat2Z.inj_succ, Z.pow_succ_r in Hv by lia.
      assert (0 <= val / 10 < 10 ^ Z.of_nat fuel) as Hq
        by (split; [apply Z.div_pos|apply Z.div_lt_upper_bound]; lia).
      destruct (IH (val / 10) (digits - 1) zero_pad Hq) as (ds & n & -> & Hds & Hval & Hlast & He & Hn); [lia|].
      pose proof (Z.mod_pos_bound val 10 ltac:(lia)). pose proof (Z.div_mod val 10 ltac:(lia)).
      exists (val mod 10 :: ds), n. simpl. split_and!; try done.
      * constructor; [done|exact Hds].
      * lia.
      * intros _. destruct ds as [|d ds].
        { simpl in *. intros [= E]. lia. }
        change (list.last (val mod 10 :: d :: ds)) with (list.last (d :: ds)). apply Hlast.
        destruct (Z.eq_dec (val / 10) 0) as [E|]; [by apply He in E|lia].
      * lia.
Qed.

Lemma rev_replicate {A} n (x : A) : rev (replicate n x) = replicate n x.
Proof.
  induction n as [|n IH]; [done|]. simpl. rewrite IH. symmetry. apply (replicate_cons_app n x).
Qed.

(** Emission of padding in front of a digit. *)
Lemma emit_digits ds : Forall is_digit ds -> emit (Z.add char_0 <$> ds) = Some (Z.add char_0 <$> ds).
Proof.
  induction 1 as [|d ds Hd _ IH]; [done|]. cbn [fmap list_fmap emit].
  rewrite (proj2 (Z.eqb_neq (char_0 + d) space)) by (unfold is_digit, char_0, space in *; lia).
  unfold fmap in *. rewrite IH. done.
Qed.

Lemma emit_spaces n d ds :
  Forall is_digit (d :: ds) ->
  emit (replicate n space ++ (Z.add char_0 <$> d :: ds))
  = Some (replicate (n - 1) dot ++ replicate (Nat.min n 1) space ++ (Z.add char_0 <$> d :: ds)).
Proof.
  intros Hd. induction n as [|n IH].
  { exact (emit_digits (d :: ds) Hd). }
  cbn [replicate app emit]. rewrite Z.eqb_refl. rewrite IH. destruct n as [|n].
  - simpl. rewrite (proj2 (Z.eqb_neq (char_0 + d) space)); [done|].
    apply list.Forall_cons in Hd as [Hd _]. unfold is_digit, char_0, space in *. lia.
  - simpl. by rewrite !Nat.sub_0_r, Nat.min_0_r.
Qed.

(** A positive number is printed in decimal without leading zeros, after dots and one space when it is shorter than the field; nothing is written or read outside the buffer. *)
Theorem print_dec_spec val digits :
  0 < val < 2 ^ 32 -> digits <= 32 ->
  exists ds, stats_print_dec val digits false
      = Some (replicate (Z.to_nat (digits - Z.of_nat (length ds)) - 1) dot
              ++ replicate (Nat.min (Z.to_nat (digits - Z.of_nat (length ds))) 1) space
              ++ (Z.add char_0 <$> rev ds))
    /\ Forall is_digit ds /\ digits_value ds = val /\ head (rev ds) <> Some 0.
Proof.
  intros Hv Hd. unfold stats_print_dec.
  destruct (fill_spec 32 val digits false) as (ds & n & -> & Hds & Hval & Hlast & _ & Hn); [|done|].
  { change (10 ^ Z.of_nat 32) with (10 ^ 32). assert (2 ^ 32 < 10 ^ 32) by reflexivity. lia. }
  exists ds. cbn [mbind option_bind]. rewrite rev_app_distr.
  rewrite rev_replicate. assert (rev (Z.add char_0 <$> ds) = Z.add char_0 <$> rev ds) as ->.
  { symmetry. apply map_rev. }
  assert (head (rev ds) <> Some 0) as Hhead.
  { assert (head (rev ds) = list.last ds) as ->; [|apply Hlast; lia].
    destruct ds as [|x l] using rev_ind; [done|]. by rewrite rev_unit, last_snoc. }
  assert (Forall is_digit (rev ds)) as Hrds by (by apply Forall_rev).
  destruct (rev ds) as [|d l] eqn:E.
  { apply (f_equal (@rev Z)) in E. rewrite rev_involutive in E. subst ds. simpl in Hval. lia. }
  rewrite emit_spaces by done. rewrite <-Hn. done.
Qed.

(** A zero that is padded with spaces is printed by reading before the buffer. *)
Lemma emit_blank n : emit (replicate (S n) space) = None.
Proof.
  induction n as [|n IH]; [done|].
  change (replicate (S (S n)) space) with (space :: replicate (S n) space). cbn [emit]. rewrite IH. done.
Qed.

Lemma print_dec_zero digits : 0 < digits <= 32 -> stats_print_dec 0 digits false = None.
Proof.
  intros Hd. unfold stats_print_dec.
  destruct (fill_spec 32 0 digits false) as (ds & n & -> & _ & _ & _ & He & Hn); [split; [lia|done]|lia|].
  rewrite He in * by done. simpl in Hn. cbn [mbind option_bind fmap list_fmap app].
  rewrite rev_replicate. destruct n as [|n]; [lia|]. apply emit_blank.
Qed.

(** The two parts of the ratio [stats] prints. *)
Definition cpi (num_cycles num_instr : Z) : Z * Z :=
  (num_cycles / num_instr, (u32 (100 * num_cycles) / num_instr) mod 100).

(** The cycles per instruction are printed to two decimals as long as a hundred times the number of cycles fits 32 bits; above, the product wraps around: 42949673 cycles for two instructions are printed 21474836.02, and not 21474836.50. *)
Theorem cpi_two_decimals num_cycles num_instr :
  0 < num_instr -> 0 <= num_cycles ->
  (100 * num_cycles < 2 ^ 32 ->
     let '(q, f) := cpi num_cycles num_instr in 100 * q + f = 100 * num_cycles / num_instr)
  /\ (cpi 42949673 2 = (21474836, 2) /\ 100 * 42949673 / 2 = 100 * 21474836 + 50).
Proof.
  intros Hi Hc. split.
  - intros Hlt. unfold cpi. rewrite wrap_small by (unfold is_word; lia).
    assert (100 * num_cycles / num_instr / 100 = num_cycles / num_instr) as <-.
    { rewrite Z.div_div, (Z.mul_comm num_instr), <-Z.div_div by lia. by rewrite (Z.mul_comm 100), Z.div_mul. }
    symmetry. apply Z.div_mod. lia.
  - split; reflexivity.
Qed.

Lemma print_dec_spec_witness : exists out, stats_print_dec 1234 8 false = Some out /\ length out = 8%nat.
Proof.
  destruct (print_dec_spec 1234 8) as (ds & H & _); [split; reflexivity|discriminate|].
  exists [46; 46; 46; 32; 49; 50; 51; 52]. split; [|reflexivity]. rewrite H, <-H. reflexivity.
Defined.

Lemma cpi_two_decimals_witness : 100 * (cpi 250 200).1 + (cpi 250 200).2 = 125.
Proof.
  destruct (cpi_two_decimals 250 200) as [H _]; [reflexivity|discriminate|].
  exact (H eq_refl).
Defined.
End Stats.

(** ** System calls ([syscalls.c]) *)
Module Syscalls.

(** The error codes; some calls store the opposite of one. *)
Inductive errno_t := ENOSYS | ENOMEM | EAGAIN | EINVAL | EMLINK | ENOENT | ECHILD.
Inductive errno_value := Err (e : errno_t) | Opposite (e : errno_t).

Definition STDOUT_REG : Z := 0x10000000.
Definition EXIT_REG : Z := 0x20000004.
Definition STDOUT_FILENO : Z := 1.

Section Heap.
(** The symbols of the linker script. *)
Context (heap_start heap_end : Z).

Record state := {
  errno : option errno_value;     (* None: never set *)
  brk : Z;
  bus : list (Z * Z);             (* the writes to the device registers *)
  halted : bool;                  (* [wfi] *)
}.
Definition set_errno (e : errno_value) (s : state) : state :=
  {| errno := Some e; brk := brk s; bus := bus s; halted := halted s |}.
Definition set_brk (a : Z) (s : state) : state :=
  {| errno := errno s; brk := a; bus := bus s; halted := halted s |}.
Definition bus_write (addr val : Z) (s : state) : state :=
  {| errno := errno s; brk := brk s; bus := bus s ++ [(addr, val)]; halted := halted s |}.
Definition halt (s : state) : state :=
  {| errno := errno s; brk := brk s; bus := bus s; halted := true |}.

(** The calls; those that only fail are told apart by their names, the arguments no
    code reads are left out. *)
Inductive syscall :=
  | unimplemented_syscall | nanosleep | _access | _chdir | _chmod | _chown | _close | _execve
  | _exit (exit_status : Z) | _faccessat | _fork | _fstat | _fstatat | _ftime | _getcwd | _getpid
  | _gettimeofday | _isatty (file : Z) | _kill | _link | _lseek | _lstat | _open | _openat | _read
  | _stat | _sysconf | _times | _unlink | _utime | _wait
  | _write (file : Z) (ptr : list Z) | _brk (addr : Z) | _sbrk (incr : Z).

(** What a call returns: nothing, a number, or a file type in [st->st_mode] with 0. *)
Inductive result := Void | Value (z : Z) | CharacterDevice.

Definition fails (e : errno_t) (s : state) : result * state := (Value (-1), set_errno (Err e) s).

Definition put_chars (chars : list Z) (s : state) : state :=
  foldl (fun s c => bus_write STDOUT_REG c s) s chars.

(** "Unimplemented system call called!\n" *)
Definition unimplemented_message : list Z :=
  [85; 110; 105; 109; 112; 108; 101; 109; 101; 110; 116; 101; 100; 32; 115; 121; 115; 116; 101; 109;
   32; 99; 97; 108; 108; 32; 99; 97; 108; 108; 101; 100; 33; 10].

Definition do_write (file : Z) (ptr : list Z) (s : state) : result * state :=
  if negb (file =? STDOUT_FILENO) then fails ENOSYS s
  else (Value (Z.of_nat (length ptr)), put_chars ptr s).

Definition do_brk (addr : Z) (s : state) : result * state := (Value 0, set_brk addr s).

Definition do_sbrk (incr : Z) (s : state) : result * state :=
  let old_brk := brk s in
  if heap_start =? heap_end then (Value 0, s)
  else
    let s := set_brk (brk s + incr) s in
    let s := if brk s <? heap_end then set_brk (brk s + incr) s else set_brk heap_end s in
    (Value old_brk, s).

Definition do_syscall (c : syscall) (s : state) : result * state :=
  match c with
  | unimplemented_syscall => (Void, put_chars unimplemented_message s)
  | nanosleep | _access | _chdir | _chmod | _chown | _faccessat | _fstatat | _ftime | _lstat
  | _openat | _utime => fails ENOSYS s
  | _close | _open | _sysconf | _times => (Value (-1), s)
  | _execve => fails ENOMEM s
  | _exit st => (Void, halt (bus_write EXIT_REG st s))
  | _fork => fails EAGAIN s
  | _fstat | _stat => (CharacterDevice, s)
  | _getcwd => (Value 0, set_errno (Opposite ENOSYS) s)
  | _getpid => (Value 1, s)
  | _gettimeofday => (Value (-1), set_errno (Opposite ENOSYS) s)
  | _isatty file => (Value (Z.b2z (file =? STDOUT_FILENO)), s)
  | _kill => fails EINVAL s
  | _link => fails EMLINK s
  | _lseek | _read => (Value 0, s)
  | _unlink => fails ENOENT s
  | _wait => fails ECHILD s
  | _write file ptr => do_write file ptr s
  | _brk addr => do_brk addr s
  | _sbrk incr => do_sbrk incr s
  end.

(** The calls of a program, until it halts. *)
Definition run (cs : list syscall) (s : state) : state :=
  foldl (fun s c => if halted s then s else (do_syscall c s).2) s cs.

(** What the program sent to the standard output. *)
Definition output (s : state) : list Z :=
  omap (fun w => if w.1 =? STDOUT_REG then Some w.2 else None) (bus s).

(** What it wrote by system calls before it exited. *)
Definition written (cs : list syscall) : list Z :=
  (fix go cs := match cs with
   | [] => []
   | _exit _ :: _ => []
   | _write file ptr :: cs => (if file =? STDOUT_FILENO then ptr else []) ++ go cs
   | unimplemented_syscall :: cs => unimplemented_message ++ go cs
   | _ :: cs => go cs
   end) cs.

Lemma put_chars_spec chars s :
  put_chars chars s = {| errno := errno s; brk := brk s; bus := bus s ++ (pair STDOUT_REG <$> chars);
                         halted := halted s |}.
Proof.
  revert s. induction chars as [|c chars IH]; intros s; simpl.
  - rewrite app_nil_r. by destruct s.
  - unfold put_chars in *. simpl. rewrite IH. simpl. by rewrite <-app_assoc.
Qed.

Lemma output_put chars s : output (put_chars chars s) = output s ++ chars.
Proof.
  rewrite put_chars_spec. unfold output. simpl. rewrite omap_app. f_equal.
  induction chars as [|c chars IH]; [done|]. simpl. exact (f_equal (cons c) IH).
Qed.

Lemma run_halted cs s : halted s = true -> run cs s = s.
Proof. unfold run. induction cs as [|c cs IH]; intros H; simpl; [done|]. rewrite H. by apply IH. Qed.

(** Only an exit halts, only the two calls that print reach the standard output. *)
Lemma do_syscall_output c s :
  halted s = false ->
  output (do_syscall c s).2 = output s ++ written [c]
  /\ halted (do_syscall c s).2 = match c with _exit _ => true | _ => false end.
Proof.
  intros H.
  destruct c as [| | | | | | | |st| | | | | | | | |f| | | | | | | | | | | | | |f p|a|i];
    cbn [do_syscall written snd fst]; try (by rewrite app_nil_r).
  - rewrite output_put, app_nil_r, put_chars_spec. done.
  - unfold output. cbn [bus bus_write halt]. by rewrite omap_app.
  - unfold do_write. destruct (f =? STDOUT_FILENO); simpl; [|by rewrite app_nil_r].
    by rewrite output_put, app_nil_r, put_chars_spec.
  - unfold do_sbrk. rewrite app_nil_r. destruct (_ =? _); [done|]. by destruct (_ <? _).
Qed.

(** The standard output of a program is, character for character and in order, what it wrote to the standard output by system calls before it exited: the other calls and other files print nothing, and nothing is printed after the exit. *)
Theorem output_written cs s :
  halted s = false -> output (run cs s) = output s ++ written cs.
Proof.
  revert s. induction cs as [|c cs IH]; intros s Hs; [symmetry; apply app_nil_r|].
  unfold run. cbn [foldl]. rewrite Hs. fold (run cs (do_syscall c s).2).
  destruct (do_syscall_output c s Hs) as [Ho Hh].
  assert ((exists st, c = _exit st) \/ (forall st, c <> _exit st)) as [[st ->]|Hc]
    by (destruct c; eauto; right; intros st; discriminate).
  - rewrite run_halted by done. exact Ho.
  - rewrite IH, Ho, <-app_assoc; [|rewrite Hh; by destruct c; try (by destruct (Hc exit_status))].
    f_equal. destruct c; cbn [written]; rewrite ?app_nil_r; try done. by destruct (Hc exit_status).
Qed.

(** [_sbrk] never fails and moves the break by twice the increment while the heap lasts; the blocks it returns that lie in the heap do not overlap, and once the increment reaches the end of the heap it still returns the old break, with the break set to the end, so the block it returns is not wholly in the heap. *)
Theorem sbrk_blocks incr s :
  heap_start <> heap_end -> 0 <= incr ->
  (do_sbrk incr s).1 = Value (brk s)
  /\ (brk s + incr < heap_end ->
        brk (do_sbrk incr s).2 = brk s + 2 * incr /\ brk s + incr <= brk (do_sbrk incr s).2)
  /\ (heap_end <= brk s + incr -> brk (do_sbrk incr s).2 = heap_end)
  /\ errno (do_sbrk incr s).2 = errno s.
Proof.
  intros Hne Hi. unfold do_sbrk. rewrite (proj2 (Z.eqb_neq _ _) Hne). simpl.
  destruct (Z.ltb_spec (brk s + incr) heap_end); simpl; split_and!; done || lia.
Qed.
End Heap.

Definition ex_state : state := {| errno := None; brk := 0x1000; bus := []; halted := false |}.
Lemma output_written_witness :
  output (run 0x1000 0x2000 [_write 1 [72; 105]; _write 2 [33]; _exit 0; _write 1 [10]] ex_state) = [72; 105].
Proof. apply (output_written 0x1000 0x2000 [_write 1 [72; 105]; _write 2 [33]; _exit 0; _write 1 [10]]). reflexivity. Defined.
Lemma sbrk_blocks_witness : brk (do_sbrk 0x1000 0x2000 0x100 ex_state).2 = 0x1000 + 2 * 0x100.
Proof. apply (sbrk_blocks 0x1000 0x2000 0x100 ex_state); [discriminate|discriminate|reflexivity]. Defined.
End Syscalls.

(** ** Memory stalls ([mem_stall.c], and its copy in [custom_fp/main.c]) *)
Module Stall.

(** The pointers: [p[i] = p[i - 1] + 1], on 4-byte integers. *)
Fixpoint rnd_stall_reg_ptr (i : nat) : Z :=
  match i with O => 0x16000000 | S i => rnd_stall_reg_ptr i + 4 end.

(** The writes of [activate_random_stall], in order; the second copy has other
    numbers of stalls. *)
Definition stall_writes (max_data gnt_data valid_data max_instr gnt_instr valid_instr : Z) : list (Z * Z) :=
  [(rnd_stall_reg_ptr 1, 0x01); (rnd_stall_reg_ptr 0, 0x01);
   (rnd_stall_reg_ptr 5, max_data); (rnd_stall_reg_ptr 7, gnt_data); (rnd_stall_reg_ptr 9, valid_data);
   (rnd_stall_reg_ptr 4, max_instr); (rnd_stall_reg_ptr 6, gnt_instr); (rnd_stall_reg_ptr 8, valid_instr);
   (rnd_stall_reg_ptr 3, 0x02); (rnd_stall_reg_ptr 2, 0x02)].
Definition activate_random_stall : list (Z * Z) := stall_writes 0x0a 0 0 0x0a 0 0.
Definition fp_activate_random_stall : list (Z * Z) := stall_writes 0x05 0x05 0x05 0x05 0x05 0x05.

(** The registers after writes, from reset. *)
Definition regs (ws : list (Z * Z)) : gmap Z Z := foldl (fun m w => <[w.1 := w.2]> m) ∅ ws.
Definition reg (ws : list (Z * Z)) (i : nat) : Z := default 0 (regs ws !! rnd_stall_reg_ptr i).

Definition RANDOM : Z := 2.

(** The order the comments ask for: at every moment of the activation, in both copies, stalls are on for a memory only when the generators are interposed on both memories and every number of stalls has its final value; and at the end both memories stall in the random mode. *)
Theorem stalls_activated_last ws n :
  ws = activate_random_stall \/ ws = fp_activate_random_stall ->
  (forall i, i = 2%nat \/ i = 3%nat -> reg (take n ws) i <> 0 ->
     reg (take n ws) 0 = 1 /\ reg (take n ws) 1 = 1 /\
     forall j, (4 <= j <= 9)%nat -> reg (take n ws) j = reg ws j)
  /\ reg ws 2 = RANDOM /\ reg ws 3 = RANDOM.
Proof.
  intros Hws.
  assert (length ws = 10%nat) as Hlen by (by destruct Hws as [-> | ->]).
  assert (forall k, (k <= 10)%nat -> forall i, i = 2%nat \/ i = 3%nat -> reg (take k ws) i <> 0 ->
     reg (take k ws) 0 = 1 /\ reg (take k ws) 1 = 1 /\
     forall j, (4 <= j <= 9)%nat -> reg (take k ws) j = reg ws j) as H.
  { intros k Hk i Hi Hne.
    do 9 (destruct k as [|k]; [exfalso; apply Hne; by destruct Hws as [-> | ->], Hi as [-> | ->]|]).
    destruct k as [|[|k]]; [| |lia]; (split; [by destruct Hws as [-> | ->]|]; split; [by destruct Hws as [-> | ->]|]);
      intros j Hj; do 10 (destruct j as [|j]; [try lia; by destruct Hws as [-> | ->]|]); lia. }
  split; [|by destruct Hws as [-> | ->]].
  destruct (Nat.le_gt_cases n 10) as [Hn|Hn]; [by apply H|].
  pose proof (H 10%nat (Nat.le_refl 10)) as H10. rewrite take_ge in H10 by lia. by rewrite take_ge by lia.
Qed.

Lemma stalls_activated_last_witness : reg (take 9 activate_random_stall) 0 = 1.
Proof.
  destruct (stalls_activated_last activate_random_stall 9 (or_introl eq_refl)) as [H _].
  destruct (H 3%nat (or_intror eq_refl)) as [H0 _]; [vm_compute; discriminate|exact H0].
Defined.
End Stall.

(** ** The exception handler of [custom/vectors.S] and [interrupt/vectors.S] *)
Module Vectors.
#[local] Open Scope string_scope.
#[local] Open Scope Z_scope.
#[local] Open Scope list_scope.

(** What it works on: the cause, the address of the instruction, [a0], and what [puts]
    was given. [puts] saves no register of its caller but the callee-saved ones. *)
Record machine := { mcause : Z; mepc : Z; a0 : Z; printed : list string }.

Definition line (s : string) : string := String.append s (String (Ascii.ascii_of_nat 10) EmptyString).
Definition illegal_insn_msg : string := line "illegal instruction exception handler entered".
Definition ecall_msg : string := line "ecall exception handler entered".
Definition ebreak_msg : string := line "ebreak exception handler entered".
Definition unknown_msg : string := line "unknown exception handler entered".

(** [la a0, msg; jal ra, puts] *)
Definition puts (msg : string) (m : machine) : machine :=
  {| mcause := mcause m; mepc := mepc m; a0 := a0 m; printed := printed m ++ [msg] |}.

Definition end_handler (m : machine) : machine :=
  let a0 := u32 (mepc m + 4) in
  {| mcause := mcause m; mepc := a0; a0 := a0; printed := printed m |}.

Definition sw_irq_handler (m : machine) : machine :=
  let t0 := u32 (Z.shiftl (mcause m) 1) in
  let t0 := Z.shiftr t0 1 in
  end_handler
    (if t0 =? 2 then puts illegal_insn_msg m
     else if t0 =? 11 then puts ecall_msg m
     else if t0 =? 3 then puts ebreak_msg m
     else puts unknown_msg m).

Definition cause_msg (code : Z) : string :=
  match code with 2 => illegal_insn_msg | 11 => ecall_msg | 3 => ebreak_msg | _ => unknown_msg end.

(** The two shifts drop the interrupt bit: the message is that of the code of the
    cause, and the program resumes four bytes further, whatever the instruction. *)
Lemma sw_irq_handler_resumes m :
  is_word 32 (mcause m) ->
  printed (sw_irq_handler m) = printed m ++ [cause_msg (mcause m mod 2 ^ 31)]
  /\ mepc (sw_irq_handler m) = u32 (mepc m + 4).
Proof.
  intros Hm. assert (Z.shiftr (u32 (Z.shiftl (mcause m) 1)) 1 = mcause m mod 2 ^ 31) as E.
  { rewrite <-Z.land_ones by lia. unfold wrap. rewrite <-Z.land_ones by lia.
    apply Z.bits_inj'. intros i Hi. rewrite Z.shiftr_spec, !Z.land_spec, Z.shiftl_spec by lia.
    rewrite !Z.testbit_ones by lia. replace (i + 1 - 1) with i by lia.
    f_equal. destruct (Z.ltb_spec i 31), (Z.ltb_spec (i + 1) 32), (Z.leb_spec 0 i), (Z.leb_spec 0 (i + 1)); done || lia. }
  unfold sw_irq_handler. rewrite E. set (c := mcause m mod 2 ^ 31). clearbody c. split; [|by repeat case_match].
  destruct (Z.eqb_spec c 2) as [-> |]; [done|]. destruct (Z.eqb_spec c 11) as [-> |]; [done|].
  destruct (Z.eqb_spec c 3) as [-> |]; [done|]. simpl. unfold cause_msg. by repeat case_match.
Qed.
End Vectors.
