(* ===== verification/MatMul.v ===== *)
(** * The floating-point test of the core

    [custom_fp/matmulNxN.c] and [main] of [custom_fp/main.c], and the greeting of
    [custom/hello_world.c]. Arithmetic is binary32, rounded to nearest even, by the
    functions of the Standard Library's [SpecFloat]; memory is in blocks, as in C: a
    pointer is a block and the index of a float in it. *)
From Stdlib Require Import Floats.SpecFloat.
From Stdlib Require Import String.
From S2P Require Import Prelude Firmware.
#[local] Open Scope Z_scope.

(** ** Arithmetic *)

Definition prec : Z := 24.
Definition emax : Z := 128.
Definition fadd : spec_float -> spec_float -> spec_float := SFadd prec emax.
Definition fsub : spec_float -> spec_float -> spec_float := SFsub prec emax.
Definition fmul : spec_float -> spec_float -> spec_float := SFmul prec emax.
Definition fzero : spec_float := S754_zero false.

(** [x != y], which holds of a NaN. *)
Definition fne (x y : spec_float) : bool := negb (SFeqb x y).

(** The fused multiply-add [x * y + z] of the core, rounded once. *)
Definition fmadd (x y z : spec_float) : spec_float :=
  match x, y, z with
  | S754_finite sx mx ex, S754_finite sy my ey, S754_finite sz mz ez =>
      let m := (mx * my)%positive in
      let e := Z.min (ex + ey) ez in
      binary_normalize prec emax
        (cond_Zopp (xorb sx sy) (Zpos (fst (shl_align m (ex + ey) e)))
         + cond_Zopp sz (Zpos (fst (shl_align mz ez e)))) e false
  | S754_finite _ _ _, S754_finite _ _ _, (S754_infinity _ | S754_nan) => z
  | _, _, _ => fadd (fmul x y) z
  end.

(** The float literal [p / q], a positive decimal. *)
Definition literal (p q : positive) : spec_float :=
  let '(m, e, l) := SFdiv_core_binary prec emax (Zpos p) 0 (Zpos q) 0 in
  binary_round_aux prec emax false m e l.

(** ** Memory and loops *)

Abbreviation pointer := (Z * Z)%type.
Abbreviation memory := (gmap pointer spec_float).

(** [p[i * N + j]], with the index an [int]; None is an overflow, or an access outside
    the object. *)
Definition at_ (p : pointer) (i N j : Z) : option pointer :=
  let x := i * N + j in if x <? 2 ^ 31 then Some (p.1, p.2 + x) else None.
Definition read (m : memory) (p : pointer) : option spec_float := m !! p.
Definition write (m : memory) (p : pointer) (v : spec_float) : option memory :=
  match m !! p with Some _ => Some (<[p := v]> m) | None => None end.

(** [for (int i = lo; i < hi; ++i)]. *)
Fixpoint each {S : Type} (body : Z -> S -> option S) (l : list Z) (s : S) : option S :=
  match l with [] => Some s | i :: l => s ← body i s; each body l s end.
Definition for_to {S : Type} (lo hi : Z) (body : Z -> S -> option S) (s : S) : option S :=
  each body (seqZ lo (hi - lo)) s.

Section Kernel.

(** Whether the compiler contracts [tot + a * b] to one fused instruction, as C allows
    it to and GCC does when it optimises. *)
Context (contract : bool).

Definition mac (tot a b : spec_float) : spec_float :=
  if contract then fmadd a b tot else fadd tot (fmul a b).

(** ** [matmulNxN] *)
Definition matmulNxN (matA matB matC : pointer) (N : Z) (m : memory) : option memory :=
  for_to 0 N (fun i m =>
    for_to 0 N (fun j m =>
      tot ← for_to 0 N (fun k tot =>
              pa ← at_ matA i N k; a ← read m pa;
              pb ← at_ matB k N j; b ← read m pb;
              Some (mac tot a b)) fzero;
      pc ← at_ matC i N j; write m pc tot) m) m.

(** ** [main] ([custom_fp/main.c]) *)

Definition N : Z := 5.
Definition matA : pointer := (0, 0).
Definition matB : pointer := (1, 0).
Definition matC : pointer := (2, 0).
Definition matC_ref : pointer := (3, 0).

(** The globals are zero. *)
Definition globals : memory :=
  list_to_map ((fun p => (p, fzero)) <$>
    (b ← [0; 1; 2; 3]; i ← seqZ 0 (N * N); [(b, i)])).

Definition fill_inputs (m : memory) : option memory :=
  let tmpA := literal 114 100 in
  let tmpB := literal 75 100 in
  let tmpC := literal 121 10 in
  '(m, _, _) ← for_to 0 N (fun i s =>
      let '(m, tmpA, tmpB) := s in
      m ← for_to 0 N (fun j m =>
            pa ← at_ matA i N j; m ← write m pa tmpA;
            pb ← at_ matB i N j; write m pb tmpB) m;
      Some (m, fsub tmpA tmpC, fadd tmpB tmpC)) (m, tmpA, tmpB);
  Some m.

(** The five loops that fill [matC_ref]. *)
Definition references : list spec_float :=
  [ literal 1422150115966796875 10000000000000000;
    SFopp (literal 1367260009765625 1000000000000);
    SFopp (literal 28767353515625 10000000000);
    SFopp (literal 43862109375 10000000);
    SFopp (literal 5895685546875 1000000000) ].
Definition fill_refs (m : memory) : option memory :=
  '(_, m) ← each (fun _ s =>
      let '(r, m) := s in
      v ← references !! Z.to_nat r;
      m ← for_to (r * N) ((r + 1) * N) (fun i m => write m (matC_ref.1, i) v) m;
      Some (r + 1, m)) (seqZ 0 5) (0, m);
  Some m.

Definition count_errors (m : memory) : option Z :=
  for_to 0 (N * N) (fun i error =>
    r ← read m (matC_ref.1, i); c ← read m (matC.1, i);
    Some (if fne r c then error + 1 else error)) 0.

(** The value [main] returns. *)
Definition main : option Z :=
  m ← fill_inputs globals; m ← fill_refs m; m ← matmulNxN matA matB matC N m; count_errors m.
End Kernel.

(** ** Greeting ([hello_world.c]) *)

(** What [main] writes to the stall registers and prints, and the value it returns. *)
Definition hello_main (random_mem_stall : bool) : list (Z * Z) * string * Z :=
  ((if random_mem_stall then Stall.activate_random_stall else []), "hello world!"%string, 0).

(** ** The product *)

Lemma for_to_ok {S} (P : Z -> S -> Prop) body lo hi s :
  lo <= hi -> P lo s ->
  (forall i s, lo <= i < hi -> P i s -> exists s', body i s = Some s' /\ P (i + 1) s') ->
  exists s', for_to lo hi body s = Some s' /\ P hi s'.
Proof.
  unfold for_to. intros Hle. remember (Z.to_nat (hi - lo)) as n eqn:Hn.
  revert lo s Hle Hn. induction n as [|n IH]; intros lo s Hle Hn HP Hb.
  - rewrite seqZ_nil by lia. exists s. split; [done|]. by replace hi with lo by lia.
  - rewrite seqZ_cons by lia. simpl. destruct (Hb lo s) as (s' & -> & HP'); [lia|done|]. simpl.
    replace (Z.pred (hi - lo)) with (hi - Z.succ lo) by lia.
    apply IH; [lia|lia|done|]. intros i s0 Hi. apply Hb. lia.
Qed.

Section Product.
Context (contract : bool).

(** The element of the product at row [i] and column [j], summed from the left. *)
Definition dot (A B : Z -> Z -> spec_float) (N i j : Z) : spec_float :=
  fold_left (fun tot k => mac contract tot (A i k) (B k j)) (seqZ 0 N) fzero.

(** Cell [x] of an object. *)
Definition cell (p : pointer) (x : Z) : pointer := (p.1, p.2 + x).
Definition holds (m : memory) (p : pointer) (N : Z) (A : Z -> Z -> spec_float) : Prop :=
  forall i j, 0 <= i < N -> 0 <= j < N -> m !! cell p (i * N + j) = Some (A i j).

Context (A B : Z -> Z -> spec_float) (pA pB pC : pointer) (N : Z) (m0 : memory).
Hypothesis HN : 0 <= N /\ N * N <= 2 ^ 31.
Hypothesis HA : holds m0 pA N A.
Hypothesis HB : holds m0 pB N B.
Hypothesis HC : forall x, 0 <= x < N * N -> is_Some (m0 !! cell pC x).
Hypothesis Hsep : forall x y, 0 <= x < N * N -> 0 <= y < N * N ->
  cell pC x <> cell pA y /\ cell pC x <> cell pB y.

(** The memory once the first [n] elements are written. *)
Definition written (n : Z) (m : memory) : Prop :=
  (forall x, 0 <= x < n -> m !! cell pC x = Some (dot A B N (x / N) (x mod N)))
  /\ forall p, (forall x, 0 <= x < n -> p <> cell pC x) -> m !! p = m0 !! p.

Lemma index_bounds i j : 0 <= i < N -> 0 <= j < N -> 0 <= i * N + j < N * N.
Proof using HN. nia. Qed.

Lemma at_ok p i j : 0 <= i < N -> 0 <= j < N -> at_ p i N j = Some (cell p (i * N + j)).
Proof using HN.
  intros Hi Hj. unfold at_. pose proof (index_bounds i j Hi Hj).
  by rewrite (proj2 (Z.ltb_lt _ _)) by lia.
Qed.

(** The operands are intact while the product is written. *)
Lemma written_operand n m x : written n m -> n <= N * N -> 0 <= x < N * N ->
  m !! cell pA x = m0 !! cell pA x /\ m !! cell pB x = m0 !! cell pB x.
Proof using Hsep.
  intros [_ H] Hn Hx. split; apply H; intros y Hy E; destruct (Hsep y x) as [H1 H2]; by eauto with lia.
Qed.

Lemma inner_ok i j m n : written n m -> n <= N * N -> 0 <= i < N -> 0 <= j < N ->
  for_to 0 N (fun k tot =>
    pa ← at_ pA i N k; a ← read m pa; pb ← at_ pB k N j; b ← read m pb;
    Some (mac contract tot a b)) fzero = Some (dot A B N i j).
Proof using HA HB HN Hsep.
  intros Hw Hn Hi Hj.
  destruct (for_to_ok (fun k tot => tot = fold_left (fun tot k => mac contract tot (A i k) (B k j)) (seqZ 0 k) fzero)
    (fun k tot => pa ← at_ pA i N k; a ← read m pa; pb ← at_ pB k N j; b ← read m pb;
                  Some (mac contract tot a b)) 0 N fzero) as (tot & -> & ->); [lia|done| |done].
  intros k tot Hk ->. rewrite !at_ok by done. unfold read. simpl.
  destruct (written_operand n m (i * N + k) Hw Hn) as [-> _]; [by apply index_bounds|].
  rewrite HA by done. simpl. destruct (written_operand n m (k * N + j) Hw Hn) as [_ ->]; [by apply index_bounds|].
  rewrite HB by done. simpl. eexists. split; [done|].
  rewrite seqZ_app by lia. rewrite fold_left_app. done.
Qed.

Lemma written_S n m v : 0 <= n < N * N -> written n m -> v = dot A B N (n / N) (n mod N) ->
  exists m', write m (cell pC n) v = Some m' /\ written (n + 1) m'.
Proof using HC.
  intros Hn [Hw Ho] ->. unfold write.
  rewrite Ho. 2: { intros x Hx E. injection E. lia. }
  destruct (HC n Hn) as [old ->]. eexists. split; [done|]. split.
  - intros x Hx. destruct (decide (x = n)) as [->|Hne]; [by rewrite lookup_insert_eq|].
    rewrite lookup_insert_ne by (intros E; injection E; lia). apply Hw. lia.
  - intros p Hp. rewrite lookup_insert_ne by (intros <-; apply (Hp n); [lia|done]).
    apply Ho. intros x Hx. apply Hp. lia.
Qed.

Lemma row_ok i m : 0 <= i < N -> written (i * N) m ->
  exists m', for_to 0 N (fun j m =>
      tot ← for_to 0 N (fun k tot =>
              pa ← at_ pA i N k; a ← read m pa; pb ← at_ pB k N j; b ← read m pb;
              Some (mac contract tot a b)) fzero;
      pc ← at_ pC i N j; write m pc tot) m = Some m' /\ written ((i + 1) * N) m'.
Proof using HA HB HN HC Hsep.
  intros Hi Hw. replace ((i + 1) * N) with (i * N + N) by lia.
  apply (for_to_ok (fun j => written (i * N + j))); [lia|by rewrite Z.add_0_r|].
  intros j m' Hj Hw'. pose proof (index_bounds i j Hi Hj).
  rewrite (inner_ok i j m' (i * N + j)) by (done || lia). simpl. rewrite at_ok by done. simpl.
  rewrite Z.add_assoc. apply written_S; [done|done|].
  by rewrite Z.div_add_l, Z.div_small, Z.add_0_r, Z.add_comm, Z.mod_add, Z.mod_small by lia.
Qed.

Lemma product_ok : exists m', matmulNxN contract pA pB pC N m0 = Some m' /\ written (N * N) m'.
Proof using HA HB HN HC Hsep.
  apply (for_to_ok (fun i => written (i * N))); [lia|by split; [lia|]|]. apply row_ok.
Qed.
End Product.

(** C25: matmulNxN computes the product. For every size whose indices fit an int and every placement in which the result overlaps neither operand, it ends, each element of the result is the left-to-right sum of the products of a row and a column, fused or not, and nothing else in memory changes. *)
Theorem matmul_product contract A B pA pB pC N m :
  0 <= N -> N * N <= 2 ^ 31 -> holds m pA N A -> holds m pB N B ->
  (forall x, 0 <= x < N * N -> is_Some (m !! cell pC x)) ->
  (forall x y, 0 <= x < N * N -> 0 <= y < N * N -> cell pC x <> cell pA y /\ cell pC x <> cell pB y) ->
  exists m', matmulNxN contract pA pB pC N m = Some m'
    /\ holds m' pC N (dot contract A B N)
    /\ forall p, (forall x, 0 <= x < N * N -> p <> cell pC x) -> m' !! p = m !! p.
Proof.
  intros HN0 HN HA HB HC Hsep.
  destruct (product_ok contract A B pA pB pC N m (conj HN0 HN) HA HB HC Hsep) as (m' & Hm & Hw & Ho).
  exists m'. split; [done|]. split; [|done]. intros i j Hi Hj.
  rewrite Hw by (apply index_bounds; lia).
  by rewrite Z.div_add_l, Z.div_small, Z.add_0_r, Z.add_comm, Z.mod_add, Z.mod_small by lia.
Qed.

(** The floating-point test depends on the compiler: main returns 0 when each product is rounded before it is added, and reports five errors, the whole fourth row, when the compiler fuses the two, as C lets it. *)
Theorem fp_main_result : main false = Some 0 /\ main true = Some 5.
Proof. split; vm_compute; reflexivity. Qed.

(** ** Witness *)

Definition ex_memory : memory :=
  list_to_map ((fun i => ((0, i), literal (Z.to_pos (i + 1)) 1)) <$> seqZ 0 4) ∪
  list_to_map ((fun i => ((1, i), fzero)) <$> seqZ 0 4).
Definition ex_matrix (i j : Z) : spec_float := literal (Z.to_pos (i * 2 + j + 1)) 1.

Lemma two_by_two (P : Z -> Z -> Prop) :
  P 0 0 -> P 0 1 -> P 1 0 -> P 1 1 -> forall i j, 0 <= i < 2 -> 0 <= j < 2 -> P i j.
Proof.
  intros H1 H2 H3 H4 i j Hi Hj.
  assert (i = 0 \/ i = 1) as [-> | ->] by lia; assert (j = 0 \/ j = 1) as [-> | ->] by lia; done.
Qed.

(** The square of the matrix of 1, 2, 3 and 4: its last element is 22. *)
Lemma matmul_product_witness :
  exists m', matmulNxN true (0, 0) (0, 0) (1, 0) 2 ex_memory = Some m' /\
    m' !! (1, 3) = Some (literal 22 1).
Proof.
  destruct (matmul_product true ex_matrix ex_matrix (0, 0) (0, 0) (1, 0) 2 ex_memory)
    as (m' & Hm & HC & _).
  - lia.
  - lia.
  - unfold holds. apply two_by_two; vm_compute; reflexivity.
  - unfold holds. apply two_by_two; vm_compute; reflexivity.
  - intros x Hx. assert (x = 0 \/ x = 1 \/ x = 2 \/ x = 3) as [-> | [-> | [-> | ->]]] by lia;
      vm_compute; eauto.
  - intros x y _ _. split; intros E; discriminate E.
  - exists m'. split; [exact Hm|].
    assert (m' !! cell (1, 0) (1 * 2 + 1) = Some (dot true ex_matrix ex_matrix 2 1 1)) as E by (apply HC; lia).
    transitivity (Some (dot true ex_matrix ex_matrix 2 1 1)); [exact E|]. vm_compute. reflexivity.
Defined.
