(* ===== verification/Hwlp.v ===== *)
(** * Hardware-loop programs of the firmware

    The assembly of [hwlp_test/hwlp.h], instruction by instruction, on a machine with
    the two hardware loops of the core: the registers the programs use, byte memory,
    [mcycle] and, for each loop, its start address, end address and counter
    ([cv32e40p_hwloop_regs.sv], [cv32e40p_controller.sv]). *)
From S2P Require Import Prelude.
#[local] Open Scope Z_scope.

(** ** Instructions *)

Inductive reg := X0 | T0 | T1 | T2 | SP | RES.
Inductive loop := L0 | L1.

Inductive insn :=
  | Addi (rd rs : reg) (imm : Z)
  | Add (rd rs1 rs2 : reg)
  | Mul (rd rs1 rs2 : reg)
  | Div (rd rs1 rs2 : reg)
  | Lw (rd : reg) (off : Z) (rs : reg)
  | Sw (rs : reg) (off : Z) (base : reg)
  | Mv (rd rs : reg)
  | Csrrw_mcycle (rd rs : reg)
  | Dret
  | LpSetupi (l : loop) (n len : Z)
  | LpSetup (l : loop) (rs : reg) (len : Z)
  | LpStarti (l : loop) (off : Z)
  | LpEndi (l : loop) (off : Z)
  | LpCounti (l : loop) (n : Z)
  | LpCount (l : loop) (rs : reg).

(** ** The programs ([hwlp.h]) *)

Definition HWLP_TEST0 : list insn :=
  [ LpSetupi L1 10 16; Addi T1 T1 1; Addi T1 T1 2; Addi T1 T1 3; Addi T2 T2 4; Mul T1 T1 T2 ].

Definition HWLP_TEST1 : list insn :=
  [ LpSetupi L1 10 44; Addi T1 T1 1; Addi T2 T1 2; Addi T1 T2 3; Addi T2 T2 4; LpSetupi L0 20 12;
    Addi T1 T1 5; Addi T2 T1 6; Addi T1 T2 7; Addi T2 T2 8; Addi T2 T2 9; Addi T2 T2 10;
    Mul T2 T1 T1 ].

Definition HWLP_TEST2 : list insn :=
  [ LpSetupi L1 100 44; Addi T1 T1 1; Addi T2 T1 2; Addi T1 T2 3; Addi T2 T2 4;
    LpSetupi L0 200 12; Addi T1 T1 5; Addi T2 T1 6; Addi T1 T2 7; Addi T2 T2 8; Addi T2 T2 9;
    Addi T2 T2 10; Mul T2 T1 T1 ].

Definition HWLP_TEST3 : list insn :=
  [ Addi T1 X0 0; Addi T2 X0 0; LpSetupi L1 102 60; Addi T1 X0 4; Addi T2 X0 8; Lw T1 24 T2;
    Addi T2 X0 12; Addi T1 X0 4; LpSetupi L0 21 20; Addi T2 X0 4; Addi T1 X0 4; Lw T2 8 T1;
    Addi T2 X0 4; Addi T2 X0 4; Addi T2 X0 4; Lw T1 0 T2; Sw T2 (-4) SP; Addi T2 X0 4;
    Addi T2 X0 4; Lw T2 8 T2; Addi T2 X0 4; Addi T2 X0 4; Sw T2 (-12) SP; Addi T2 X0 8;
    Addi T1 X0 12; Lw T2 4 T1 ].

Definition HWLP_TEST4 : list insn :=
  [ Addi T0 X0 0; LpSetup L1 T0 24; LpSetupi L0 21 12; Addi T2 X0 1; Addi T1 X0 2; Lw T2 24 T0;
    Add T1 X0 T2; Sw T1 (-28) SP; Mul T0 T0 T0 ].

Definition HWLP_TEST5 : list insn :=
  [ Addi T0 X0 0; Addi T1 X0 0; Addi T2 X0 0; LpStarti L1 16; LpCounti L1 12; LpEndi L1 100;
    LpStarti L0 52; Addi T0 X0 100; LpCount L0 T0; LpEndi L0 76; Addi T0 X0 1024; Addi T1 X0 4;
    Addi T2 X0 8; Add T1 T2 T2; Mul T2 T0 T1; Lw T2 128 T0; Sw T2 (-8) SP; Lw T2 256 T0;
    Addi T2 X0 4; Lw T1 0 T0; Lw T1 4 T0; Lw T2 8 T0; Lw T1 12 T0; Lw T2 16 T0; Sw T1 (-20) SP;
    Sw T2 (-24) SP; Sw T1 (-28) SP; Lw T1 32 T0; Sw T2 (-36) SP; Lw T1 0 T0; Sw T2 (-4) SP;
    Lw T2 8 T0; Addi T2 X0 4; Addi T2 X0 4; Sw T2 (-12) SP; Addi T1 X0 28; LpSetup L1 T0 24;
    LpSetupi L0 21 12; Addi T2 X0 8; Addi T1 X0 12; Sw T2 (-24) SP; Addi T1 X0 12;
    Sw T1 (-28) SP; Lw T1 32 T0; Addi T2 X0 8; Addi T1 X0 12; Lw T2 4 T0 ].

Definition HWLP_TEST6 : list insn :=
  [ Addi T0 X0 0; LpSetupi L1 10 24; LpSetupi L0 20 12; Addi T2 X0 1381; Addi T1 X0 17;
    Div T2 T2 T1; Lw T2 24 T0; Div T1 T1 T2; Sw T1 (-28) SP; Mul T0 T0 T0 ].

Definition HWLP_TEST_INTERRUPT0 : list insn :=
  [ Addi T0 X0 6; Sw T0 (-64) SP; Addi T2 X0 53; Sw T2 (-68) SP; LpSetupi L1 40 24;
    LpSetupi L0 40 12; Addi T2 T2 1; Addi T2 T2 2; Addi T2 T2 3; Addi T2 T2 13; Addi T2 T2 9;
    Sw T2 (-80) SP; LpSetupi L1 40 24; LpSetupi L0 40 12; Lw T1 (-80) SP; Addi T2 T1 1;
    Sw T2 (-80) SP; Addi T2 T2 15; Sw T2 (-80) SP; Mv RES T2 ].

Definition HWLP_TEST_INTERRUPT1 : list insn :=
  [ Addi T0 X0 6; Sw T0 (-64) SP; Addi T2 X0 53; Sw T2 (-68) SP; Addi T0 X0 7; LpSetupi L1 40 40;
    LpSetupi L0 40 28; Addi T2 T2 1; Addi T2 T2 2; Addi T2 T2 3; Csrrw_mcycle T2 T2;
    Addi T1 X0 0; Csrrw_mcycle T1 T1; Mv T2 T1; Addi T2 T2 13; Addi T2 T2 9; Sw T2 (-80) SP;
    LpSetupi L1 40 44; LpSetupi L0 40 32; Lw T1 (-80) SP; Addi T2 T1 1; Csrrw_mcycle T2 T2;
    Addi T1 X0 0; Csrrw_mcycle T1 T1; Mv T2 T1; Sw T2 (-80) SP; Csrrw_mcycle T1 T1;
    Addi T2 T2 15; Sw T2 (-80) SP; Mv RES T2 ].

Definition HWLP_TEST_INTERRUPT2 : list insn :=
  [ Addi T0 X0 6; Sw T0 (-64) SP; Addi T2 X0 53; Sw T2 (-68) SP; Addi T1 X0 7; LpSetupi L1 10 28;
    LpSetupi L0 10 16; Addi T2 T2 1; Addi T2 T2 2; Dret; Addi T2 T2 3; Addi T2 T2 13;
    Addi T2 T2 9; Sw T2 (-80) SP; LpSetupi L1 10 24; LpSetupi L0 10 12; Lw T1 (-80) SP;
    Addi T2 T1 1; Sw T2 (-80) SP; Addi T2 T2 15; Sw T2 (-80) SP; Mv RES T2 ].

Definition HWLP_TEST_INTERRUPT3 : list insn :=
  [ Addi T0 X0 6; Sw T0 (-64) SP; Addi T2 X0 53; Sw T2 (-68) SP; Addi T1 X0 7; LpSetupi L1 40 28;
    LpSetupi L0 40 16; Addi T2 T2 1; Addi T2 T2 2; Addi T2 T2 3; Dret; Addi T2 T2 13;
    Addi T2 T2 9; Sw T2 (-80) SP; LpSetupi L1 40 24; LpSetupi L0 40 12; Lw T1 (-80) SP;
    Addi T2 T1 1; Sw T2 (-80) SP; Addi T2 T2 15; Sw T2 (-80) SP; Mv RES T2 ].

Definition HWLP_TEST_INTERRUPT4 : list insn :=
  [ Addi T0 X0 3; Sw T0 (-80) SP; Addi T0 X0 85; Sw T0 (-84) SP; Addi T2 X0 53; Sw T2 (-68) SP;
    Addi T1 X0 3; LpSetupi L1 40 40; LpSetupi L0 40 16; Addi T0 T2 21; Addi T0 T0 10;
    Addi T2 T0 75; Div T2 T2 T1; Addi T1 X0 5; Addi T0 T2 41; Addi T2 T0 171; Div T2 T2 T1;
    Addi T1 X0 3; LpSetupi L1 40 44; LpSetupi L0 40 20; Addi T2 T2 21; Lw T1 (-84) SP;
    Add T2 T1 T1; Lw T1 (-80) SP; Div T2 T2 T1; Addi T1 X0 5; Addi T0 T2 41; Addi T2 T0 171;
    Div T2 T2 T1; Lw T1 (-80) SP; Mv RES T2 ].

(** What the comments of the interrupt programs expect in their result. *)
Definition RES_EXPECTED0 : Z := 12733.
Definition RES_EXPECTED1 : Z := 12733.
Definition RES_EXPECTED2 : Z := 1123.
Definition RES_EXPECTED4 : Z := 53.

(** ** The state *)

Record lpregs := LpRegs { lp_start : Z; lp_end : Z; lp_count : Z }.

Record mstate := MState {
  m_t0 : Z; m_t1 : Z; m_t2 : Z; m_sp : Z; m_res : Z;
  m_mem : gmap Z Z;
  m_mcycle : Z;
  m_lp0 : lpregs; m_lp1 : lpregs;
  m_now : nat
}.

Definition get_reg (st : mstate) (r : reg) : Z :=
  match r with
  | X0 => 0 | T0 => m_t0 st | T1 => m_t1 st | T2 => m_t2 st | SP => m_sp st | RES => m_res st
  end.
Definition set_reg (r : reg) (v : Z) (st : mstate) : mstate :=
  let '(MState t0 t1 t2 sp res m c l0 l1 n) := st in
  match r with
  | X0 => st
  | T0 => MState v t1 t2 sp res m c l0 l1 n
  | T1 => MState t0 v t2 sp res m c l0 l1 n
  | T2 => MState t0 t1 v sp res m c l0 l1 n
  | SP => MState t0 t1 t2 v res m c l0 l1 n
  | RES => MState t0 t1 t2 sp v m c l0 l1 n
  end.
Definition set_mem (m : gmap Z Z) (st : mstate) : mstate :=
  let '(MState t0 t1 t2 sp res _ c l0 l1 n) := st in MState t0 t1 t2 sp res m c l0 l1 n.
Definition set_mcycle (c : Z) (st : mstate) : mstate :=
  let '(MState t0 t1 t2 sp res m _ l0 l1 n) := st in MState t0 t1 t2 sp res m c l0 l1 n.
Definition lp (l : loop) (st : mstate) : lpregs :=
  match l with L0 => m_lp0 st | L1 => m_lp1 st end.
Definition set_lp (l : loop) (r : lpregs) (st : mstate) : mstate :=
  let '(MState t0 t1 t2 sp res m c l0 l1 n) := st in
  match l with
  | L0 => MState t0 t1 t2 sp res m c r l1 n
  | L1 => MState t0 t1 t2 sp res m c l0 r n
  end.

(** Byte memory, little endian; a byte never written reads 0. *)
Definition byte_at (m : gmap Z Z) (a : Z) : Z := default 0 (m !! u32 a).
Definition load_word (m : gmap Z Z) (a : Z) : Z :=
  byte_at m a + 256 * byte_at m (a + 1) + 65536 * byte_at m (a + 2) + 16777216 * byte_at m (a + 3).
Definition store_word (m : gmap Z Z) (a v : Z) : gmap Z Z :=
  <[u32 a := u8 v]> (<[u32 (a + 1) := u8 (v / 256)]>
    (<[u32 (a + 2) := u8 (v / 65536)]> (<[u32 (a + 3) := u8 (v / 16777216)]> m))).

(** Signed division of the M extension: -1 for a zero divisor, rounded towards zero. *)
Definition div32 (a b : Z) : Z :=
  if u32 b =? 0 then u32 (-1) else u32 (Z.quot (to_signed 32 a) (to_signed 32 b)).

(** A loop register holds word-aligned addresses. *)
Definition align (a : Z) : Z := u32 (4 * (a / 4)).

Section Machine.

(** [trap]: what the exception handler does to the state ([sw_irq_handler] of
    [custom/vectors.S] overwrites t0, t1 and a0 and calls [puts] of the C library before
    it returns to the next instruction). [env]: what the interrupts served after the
    [n]-th instruction do to the memory; their service restores the registers. *)
Context (trap : mstate -> mstate) (env : nat -> gmap Z Z -> gmap Z Z).

(** The effect of an instruction at address [pc], its loop registers written included: the
    end of a loop is the address of the instruction plus the immediate. [Dret] outside
    debug mode is illegal. *)
Definition exec (pc : Z) (i : insn) (st : mstate) : mstate :=
  let r := get_reg st in
  match i with
  | Addi rd rs imm => set_reg rd (u32 (r rs + imm)) st
  | Add rd rs1 rs2 => set_reg rd (u32 (r rs1 + r rs2)) st
  | Mul rd rs1 rs2 => set_reg rd (u32 (r rs1 * r rs2)) st
  | Div rd rs1 rs2 => set_reg rd (div32 (r rs1) (r rs2)) st
  | Lw rd off rs => set_reg rd (load_word (m_mem st) (r rs + off)) st
  | Sw rs off base => set_mem (store_word (m_mem st) (r base + off) (r rs)) st
  | Mv rd rs => set_reg rd (r rs) st
  | Csrrw_mcycle rd rs => set_reg rd (m_mcycle st) (set_mcycle (r rs) st)
  | Dret => trap st
  | LpSetupi l n len => set_lp l (LpRegs (align (pc + 4)) (align (pc + len)) (u32 n)) st
  | LpSetup l rs len => set_lp l (LpRegs (align (pc + 4)) (align (pc + len)) (u32 (r rs))) st
  | LpStarti l off =>
      let q := lp l st in set_lp l (LpRegs (align (pc + off)) (lp_end q) (lp_count q)) st
  | LpEndi l off =>
      let q := lp l st in set_lp l (LpRegs (lp_start q) (align (pc + off)) (lp_count q)) st
  | LpCounti l n => let q := lp l st in set_lp l (LpRegs (lp_start q) (lp_end q) (u32 n)) st
  | LpCount l rs => let q := lp l st in set_lp l (LpRegs (lp_start q) (lp_end q) (u32 (r rs))) st
  end.

(** Interrupts between two instructions. *)
Definition tick (st : mstate) : mstate :=
  let '(MState t0 t1 t2 sp res m c l0 l1 n) := st in
  MState t0 t1 t2 sp res (env n m) c l0 l1 (S n).

(** The instruction at [pc] is the last one of loop [l] ([hwlp_end0_eq_pc],
    [hwlp_end1_eq_pc]), and it jumps back to the start ([hwlp_counter0_gt_1] and
    [hwlp_counter1_gt_1]). *)
Definition end_eq_pc (l : loop) (pc : Z) (st : mstate) : bool := lp_end (lp l st) =? pc + 4.
Definition jumps (l : loop) (pc : Z) (st : mstate) : bool :=
  end_eq_pc l pc st && (1 <? lp_count (lp l st)).

(** The registers whose counter an instruction writes: its decrement is lost. *)
Definition writes_count (l : loop) (i : insn) : bool :=
  match i, l with
  | (LpSetupi L0 _ _ | LpSetup L0 _ _ | LpCounti L0 _ | LpCount L0 _), L0 => true
  | (LpSetupi L1 _ _ | LpSetup L1 _ _ | LpCounti L1 _ | LpCount L1 _), L1 => true
  | _, _ => false
  end.

Definition dec_count (l : loop) (st : mstate) : mstate :=
  let q := lp l st in set_lp l (LpRegs (lp_start q) (lp_end q) (lp_count q - 1)) st.

(** The counter of a loop whose last instruction was decoded in state [st]. *)
Definition count_loop (l : loop) (pc : Z) (i : insn) (st st' : mstate) : mstate :=
  if end_eq_pc l pc st && negb (lp_count (lp l st) =? 0) && negb (writes_count l i)
  then dec_count l st' else st'.

(** The next instruction: loop 0 has the last word on the target. *)
Definition next_pc (pc : Z) (st : mstate) : Z :=
  if jumps L0 pc st then lp_start (lp L0 st)
  else if jumps L1 pc st then lp_start (lp L1 st) else pc + 4.

(** One instruction of a program at address [base]. The handler of the exception that
    [Dret] raises returns to the next instruction, and no loop ends there. *)
Definition fetch (base : Z) (p : list insn) (pc : Z) : option insn :=
  if (base <=? pc) && ((pc - base) mod 4 =? 0) then p !! Z.to_nat ((pc - base) / 4) else None.

Definition step (base : Z) (p : list insn) (cfg : Z * mstate) : option (Z * mstate) :=
  let '(pc, st) := cfg in
  i ← fetch base p pc;
  match i with
  | Dret => Some (pc + 4, tick (exec pc Dret st))
  | _ => Some (next_pc pc st, tick (count_loop L1 pc i st (count_loop L0 pc i st (exec pc i st))))
  end.

(** A whole asm statement: from its first instruction to the one after its last;
    None out of fuel, or at an address outside the statement. *)
Fixpoint run (fuel : nat) (base : Z) (p : list insn) (cfg : Z * mstate) : option mstate :=
  if cfg.1 =? base + 4 * Z.of_nat (length p) then Some cfg.2 else
  match fuel with O => None | S fuel => cfg' ← step base p cfg; run fuel base p cfg' end.

Definition asm (fuel : nat) (base : Z) (p : list insn) (st : mstate) : option mstate :=
  run fuel base p (base, st).

End Machine.

(** ** [main] ([hwlp_test.c]) *)

Inductive main_item :=
  | Ecall | Ebreak | FenceI
  | Asm (p : list insn).

Definition main_items : list main_item :=
  [ Ecall; Asm HWLP_TEST0; Ebreak; Asm HWLP_TEST1; Ecall; Asm HWLP_TEST2; Ebreak; FenceI; Ebreak;
    Asm HWLP_TEST3; Ecall; Ecall; Asm HWLP_TEST4; Ecall; Asm HWLP_TEST5; FenceI; Asm HWLP_TEST6 ].
