(* ===== verification/HwlpLoops.v ===== *)
(** * Structured code for programs with hardware loops

    The loops of a program as structured code, whose execution repeats the body of a
    loop; a checker of programs; and the simulation: the machine of [Hwlp] executes the
    instructions of a checked program as its structured code does. *)
From S2P Require Import Prelude Hwlp.
#[local] Open Scope Z_scope.

(** ** Structured code *)

Inductive code :=
  | Nil
  | Cons (i : insn) (c : code)
  | Region (l : loop) (b c : code).

Fixpoint flatten (c : code) : list insn :=
  match c with
  | Nil => []
  | Cons i c => i :: flatten c
  | Region _ b c => flatten b ++ flatten c
  end.
Definition size (c : code) : Z := 4 * Z.of_nat (length (flatten c)).

(** A shape says how many instructions stand before, in and after each loop. *)
Inductive shape :=
  | Done
  | Take (n : nat) (s : shape)
  | Loop (l : loop) (b s : shape).

Fixpoint build (s : shape) (p : list insn) : code * list insn :=
  match s with
  | Done => (Nil, p)
  | Take n s => let '(c, q) := build s (drop n p) in (foldr Cons c (take n p), q)
  | Loop l b s =>
      let '(cb, q) := build b p in let '(c, r) := build s q in (Region l cb c, r)
  end.

Lemma flatten_ins p c : flatten (foldr Cons c p) = p ++ flatten c.
Proof. induction p; simpl; congruence. Qed.

Lemma flatten_build s : forall p, flatten (build s p).1 ++ (build s p).2 = p.
Proof.
  induction s as [|n s IH|l b IHb s IHs]; intros p; simpl; [done| |].
  - specialize (IH (drop n p)). destruct (build s (drop n p)) as [c q]. simpl in *.
    by rewrite flatten_ins, <- app_assoc, IH, take_drop.
  - specialize (IHb p). destruct (build b p) as [cb q]. specialize (IHs q).
    destruct (build s q) as [c r]. simpl in *. by rewrite <- app_assoc, IHs.
Qed.

(** At the end of a body the counter loses one, unless it is zero. *)
Definition settle (l : loop) (st : mstate) : mstate :=
  if lp_count (lp l st) =? 0 then st else dec_count l st.

Fixpoint iterate (n : nat) (f : mstate -> mstate) (st : mstate) : mstate :=
  match n with O => st | S n => iterate n f (f st) end.

Definition times (l : loop) (st : mstate) : nat := Nat.max 1 (Z.to_nat (lp_count (lp l st))).

(** ** The checker *)

(** What is known of the start and end of each loop, as offsets in the program. *)
Definition known : Type := (option Z * option Z) * (option Z * option Z).
Definition know (l : loop) (k : known) : option Z * option Z :=
  match l with L0 => k.1 | L1 => k.2 end.
Definition learn (l : loop) (v : option Z * option Z) (k : known) : known :=
  match l with L0 => (v, k.2) | L1 => (k.1, v) end.
Definition meet1 (x y : option Z) : option Z := if bool_decide (x = y) then x else None.
Definition meet (k k' : known) : known :=
  ((meet1 k.1.1 k'.1.1, meet1 k.1.2 k'.1.2), (meet1 k.2.1 k'.2.1, meet1 k.2.2 k'.2.2)).

#[export] Instance loop_eq_dec : EqDecision loop.
Proof. solve_decision. Defined.

Definition other (l : loop) : loop := match l with L0 => L1 | L1 => L0 end.

Section Check.

(** The end of loop [l] that the instruction at offset [a] sets. *)
Definition sets_end (l : loop) (a : Z) (i : insn) : option Z :=
  match i, l with
  | (LpSetupi L0 _ len | LpSetup L0 _ len | LpEndi L0 len), L0 => Some (a + len)
  | (LpSetupi L1 _ len | LpSetup L1 _ len | LpEndi L1 len), L1 => Some (a + len)
  | _, _ => None
  end.
Definition sets_start (l : loop) (a : Z) (i : insn) : option Z :=
  match i, l with
  | (LpSetupi L0 _ _ | LpSetup L0 _ _), L0 => Some (a + 4)
  | (LpSetupi L1 _ _ | LpSetup L1 _ _), L1 => Some (a + 4)
  | LpStarti L0 off, L0 => Some (a + off)
  | LpStarti L1 off, L1 => Some (a + off)
  | _, _ => None
  end.

Fixpoint ends (l : loop) (a : Z) (p : list insn) : list Z :=
  match p with
  | [] => []
  | i :: p => match sets_end l a i with Some e => [e] | None => [] end ++ ends l (a + 4) p
  end.

Definition update (v v' : option Z) : option Z := match v with Some _ => v | None => v' end.
Definition trans1 (l : loop) (a : Z) (i : insn) (k : known) : option Z * option Z :=
  (update (sets_start l a i) (know l k).1, update (sets_end l a i) (know l k).2).
Definition trans (a : Z) (i : insn) (k : known) : known := (trans1 L0 a i k, trans1 L1 a i k).

Definition is_dret (i : insn) : bool := match i with Dret => true | _ => false end.

(** No instruction of the code touches the counter of loop [l]. *)
Fixpoint keeps_count (l : loop) (c : code) : bool :=
  match c with
  | Nil => true
  | Cons i c => negb (writes_count l i) && negb (is_dret i) && keeps_count l c
  | Region l' b c => bool_decide (l' = other l) && keeps_count l b && keeps_count l c
  end.

Definition plain (i : insn) : bool :=
  match i with
  | Dret | LpSetupi _ _ _ | LpSetup _ _ _ | LpStarti _ _ | LpEndi _ _ | LpCounti _ _ | LpCount _ _ => false
  | _ => true
  end.

Section Within.
(** The length of the program in bytes, and the ends it may set. *)
Context (len : Z) (may_end : loop -> list Z).

Definition in_program (v : option Z) : bool :=
  match v with None => true | Some x => (0 <=? x) && (x <=? len) && (x mod 4 =? 0) end.
Definition no_end (l : loop) (a : Z) : bool := bool_decide (a ∉ may_end l).
Definition insn_ok (a : Z) (i : insn) : bool :=
  in_program (sets_start L0 a i) && in_program (sets_start L1 a i) &&
  in_program (sets_end L0 a i) && in_program (sets_end L1 a i) &&
  negb (is_dret i) && no_end L0 (a + 4) && no_end L1 (a + 4).

(** [check c a ex k]: from what [k] knows at offset [a], what is known after [c]; [ex] is
    the loop whose body [c] is the end of. None is a program whose loops are not those
    of the code. *)
Fixpoint check (c : code) (a : Z) (ex : option loop) (k : known) : option known :=
  match c with
  | Nil => match ex with None => Some k | Some _ => None end
  | Cons i c' =>
      match c', ex with
      | Nil, Some l =>
          if plain i && no_end (other l) (a + 4) && bool_decide ((know l k).2 = Some (a + 4))
          then Some k else None
      | _, _ => if insn_ok a i then check c' (a + 4) ex (trans a i k) else None
      end
  | Region l b c' =>
      if negb (bool_decide (know l k = (Some a, Some (a + size b)))) || negb (keeps_count l b)
      then None else
      k1 ← check b a (Some l) k;
      let k2 := meet k k1 in
      k3 ← check b a (Some l) k2;
      if bool_decide (meet k2 k3 = k2) && bool_decide (know l k3 = know l k)
      then check c' (a + size b) ex k3 else None
  end.
End Within.

(** A program whose loops are those of a shape. *)
Definition program_ok (s : shape) (p : list insn) : bool :=
  let '(c, r) := build s p in
  match r with
  | [] =>
      bool_decide (is_Some (check (4 * Z.of_nat (length p)) (fun l => ends l 0 p) c 0 None
        ((None, None), (None, None))))
  | _ => false
  end.
End Check.

(** ** Simulation *)

Section Simulation.
Context (trap : mstate -> mstate) (env : nat -> gmap Z Z -> gmap Z Z) (base : Z).

(** The structured execution of code at address [a]. *)
Fixpoint eval (c : code) (a : Z) (st : mstate) : mstate :=
  match c with
  | Nil => st
  | Cons i c => eval c (a + 4) (tick env (exec trap a i st))
  | Region l b c =>
      eval c (a + size b) (iterate (times l st) (fun s => settle l (eval b a s)) st)
  end.

Context (p : list insn).
Let len : Z := 4 * Z.of_nat (length p).
Hypothesis Hbase : 0 <= base /\ base mod 4 = 0 /\ base + len < 2 ^ 32.

Let next (cfg cfg' : Z * mstate) : Prop := step trap env base p cfg = Some cfg'.

(** The end of a loop is one the program may set, or outside the program. *)
Definition ends_ok (st : mstate) : Prop :=
  forall l, lp_end (lp l st) - base ∈ ends l 0 p \/ ~ base < lp_end (lp l st) <= base + len.

Definition holds (k : known) (st : mstate) : Prop :=
  forall l, (forall s, (know l k).1 = Some s -> lp_start (lp l st) = base + s) /\
            (forall e, (know l k).2 = Some e -> lp_end (lp l st) = base + e).

(** Registers that only differ in what the loops do not use. *)
Lemma lp_set_reg r v st l : lp l (set_reg r v st) = lp l st.
Proof. by destruct st, r, l. Qed.
Lemma lp_set_mem m st l : lp l (set_mem m st) = lp l st.
Proof. by destruct st, l. Qed.
Lemma lp_set_mcycle c st l : lp l (set_mcycle c st) = lp l st.
Proof. by destruct st, l. Qed.
Lemma lp_tick st l : lp l (tick env st) = lp l st.
Proof. by destruct st, l. Qed.
Lemma lp_set_lp l r st : lp l (set_lp l r st) = r.
Proof. by destruct st, l. Qed.
Lemma lp_set_lp_other l r st : lp (other l) (set_lp l r st) = lp (other l) st.
Proof. by destruct st, l. Qed.
#[local] Hint Rewrite lp_set_reg lp_set_mem lp_set_mcycle lp_tick lp_set_lp lp_set_lp_other : lps.

Lemma align_in x : 0 <= x <= len -> x mod 4 = 0 -> align (base + x) = base + x.
Proof.
  intros Hx Hm. unfold align, wrap. destruct Hbase as (Hb & Hb4 & Hlen).
  assert (4 * ((base + x) / 4) = base + x) as ->.
  { assert ((base + x) mod 4 = 0) by (rewrite Z.add_mod, Hb4, Hm by lia; done).
    pose proof (Z.div_mod (base + x) 4). lia. }
  apply Z.mod_small. lia.
Qed.

Lemma align_offset x : in_program len (Some x) = true -> align (base + x) = base + x.
Proof.
  unfold in_program. rewrite !andb_true_iff, !Z.leb_le, Z.eqb_eq. intros [[] ?]. by apply align_in.
Qed.

(** What an instruction does to the registers of a loop. *)
Lemma exec_lp a i st l :
  insn_ok len (fun l => ends l 0 p) a i = true ->
  lp_start (lp l (exec trap (base + a) i st)) =
    match sets_start l a i with Some x => base + x | None => lp_start (lp l st) end /\
  lp_end (lp l (exec trap (base + a) i st)) =
    match sets_end l a i with Some x => base + x | None => lp_end (lp l st) end /\
  (writes_count l i = false ->
   lp_count (lp l (exec trap (base + a) i st)) = lp_count (lp l st)).
Proof.
  unfold insn_ok. rewrite !andb_true_iff. intros ((((((Hs0 & Hs1) & He0) & He1) & Hd) & _) & _).
  assert (forall y z, base + a + y + z = base + (a + y + z)) as E3 by (intros; lia).
  assert (forall y, base + a + y = base + (a + y)) as E2 by (intros; lia).
  destruct st as [x0 x1 x2 x3 x4 x5 x6 [y0 y1 y2] [z0 z1 z2] x9], i as [| | | | | | | | |[] ? ?|[] ? ?|[] ?|[] ?|[] ?|[] ?], l;
    cbn [exec]; autorewrite with lps; try done; cbn [lp set_lp m_lp0 m_lp1 lp_start lp_end lp_count];
    try done; rewrite ?E3, ?E2, ?align_offset by assumption; done.
Qed.

Lemma plain_lp a i st l : plain i = true -> lp l (exec trap a i st) = lp l st.
Proof. destruct i; try done; intros _; cbn [exec]; autorewrite with lps; done. Qed.

Lemma settle_lp l st l' :
  lp_start (lp l' (settle l st)) = lp_start (lp l' st) /\ lp_end (lp l' (settle l st)) = lp_end (lp l' st).
Proof. unfold settle. case_match; [done|]. by destruct st, l, l'. Qed.

(** ** Invariants of the loop registers *)

Lemma ends_ok_lp st st' :
  (forall l, lp_end (lp l st') = lp_end (lp l st)) -> ends_ok st -> ends_ok st'.
Proof. intros He H l. rewrite He. apply H. Qed.

Lemma holds_lp k st st' :
  (forall l, lp_start (lp l st') = lp_start (lp l st) /\ lp_end (lp l st') = lp_end (lp l st)) ->
  holds k st -> holds k st'.
Proof. intros He H l. destruct (He l) as [-> ->]. apply H. Qed.

Lemma ends_elem l i (pre q : list insn) : forall a e,
  sets_end l (a + 4 * Z.of_nat (length pre)) i = Some e -> e ∈ ends l a (pre ++ i :: q).
Proof.
  induction pre as [|j pre IH]; intros a e He; simpl in *.
  - rewrite Z.add_0_r in He. rewrite He. set_solver.
  - apply elem_of_app. right. apply IH. rewrite <- He. f_equal. lia.
Qed.

Lemma ends_ok_exec a i st pre q :
  insn_ok len (fun l => ends l 0 p) a i = true ->
  p = pre ++ i :: q -> 4 * Z.of_nat (length pre) = a ->
  ends_ok st -> ends_ok (tick env (exec trap (base + a) i st)).
Proof.
  intros Hok Hp Ha H l. rewrite lp_tick. destruct (exec_lp a i st l Hok) as (_ & -> & _).
  destruct (sets_end l a i) as [e|] eqn:He; [|apply H].
  left. replace (base + e - base) with e by lia. rewrite Hp. apply ends_elem. by rewrite Ha.
Qed.

Lemma holds_exec a i k st :
  insn_ok len (fun l => ends l 0 p) a i = true ->
  holds k st -> holds (trans a i k) (tick env (exec trap (base + a) i st)).
Proof.
  intros Hok H l. rewrite lp_tick. destruct (exec_lp a i st l Hok) as (-> & -> & _).
  destruct (H l) as [Hs He].
  assert (know l (trans a i k) = trans1 l a i k) as -> by by destruct l.
  unfold trans1, update. simpl. split; intros x; case_match; intros [= <-] || intros Hx; auto.
Qed.

Lemma meet1_Some x y v : meet1 x y = Some v -> x = Some v.
Proof. unfold meet1. by case_bool_decide. Qed.

Lemma holds_meet_l k k' st : holds k st -> holds (meet k k') st.
Proof.
  intros H l. destruct (H l) as [Hs He]. split; intros x Hx; [apply Hs|apply He];
    destruct l; by apply meet1_Some in Hx.
Qed.

Lemma meet_comm k k' : meet k k' = meet k' k.
Proof.
  unfold meet, meet1. destruct k as [[] []], k' as [[] []]; simpl.
  repeat case_bool_decide; congruence.
Qed.

Lemma holds_meet_r k k' st : holds k' st -> holds (meet k k') st.
Proof. rewrite meet_comm. apply holds_meet_l. Qed.

(** ** The machine follows the structured execution *)

Lemma fetch_at pre i q a :
  p = pre ++ i :: q -> 4 * Z.of_nat (length pre) = a -> fetch base p (base + a) = Some i.
Proof using Type*.
  intros Hp Ha. unfold fetch. replace (base + a - base) with (4 * Z.of_nat (length pre)) by lia.
  rewrite (Z.mul_comm 4), Z_mod_mult, Z_div_mult, Nat2Z.id by lia.
  rewrite (proj2 (Z.leb_le _ _)) by lia. simpl. rewrite Hp. by apply list_lookup_middle.
Qed.

(** An address at which no loop of the program ends. *)
Lemma no_end_spec l a st :
  no_end (fun l => ends l 0 p) l (a + 4) = true -> 0 <= a -> a + 4 <= len -> ends_ok st ->
  end_eq_pc l (base + a) st = false.
Proof.
  unfold no_end, end_eq_pc. rewrite bool_decide_eq_true. intros Hn Ha Hl H. apply Z.eqb_neq. intros He.
  destruct (H l) as [Hin|Hout]; [|lia]. apply Hn. by replace (a + 4) with (lp_end (lp l st) - base) by lia.
Qed.

Lemma in_len pre i (q : list insn) a :
  p = pre ++ i :: q -> 4 * Z.of_nat (length pre) = a -> 0 <= a /\ a + 4 <= len.
Proof. intros -> <-. unfold len. rewrite length_app. simpl. lia. Qed.

Lemma step_inside a i st pre q :
  p = pre ++ i :: q -> 4 * Z.of_nat (length pre) = a ->
  insn_ok len (fun l => ends l 0 p) a i = true -> ends_ok st ->
  next (base + a, st) (base + (a + 4), tick env (exec trap (base + a) i st)).
Proof using Type*.
  intros Hp Ha Hok H. unfold next, step. rewrite (fetch_at pre i q a Hp Ha). simpl.
  destruct (in_len pre i q a Hp Ha) as [Ha0 Hal]. rewrite Z.add_assoc.
  unfold insn_ok in Hok. rewrite !andb_true_iff in Hok. destruct Hok as [[[_ Hd] Hn0] Hn1].
  unfold next_pc, jumps, count_loop.
  rewrite (no_end_spec L0 a st), (no_end_spec L1 a st) by done. simpl. by destruct i.
Qed.

(** The last instruction of a body: back to its start while the counter is above 1. *)
Definition leave (l : loop) (a : Z) (st : mstate) : Z * mstate :=
  (if 1 <? lp_count (lp l st) then lp_start (lp l st) else a, settle l st).

Lemma step_last l a i st pre q :
  p = pre ++ i :: q -> 4 * Z.of_nat (length pre) = a ->
  plain i = true -> no_end (fun l => ends l 0 p) (other l) (a + 4) = true ->
  lp_end (lp l st) = base + (a + 4) -> ends_ok st ->
  next (base + a, st) (leave l (base + (a + 4)) (tick env (exec trap (base + a) i st))).
Proof using Type*.
  intros Hp Ha Hpl Hn He H. unfold next, step. rewrite (fetch_at pre i q a Hp Ha). simpl.
  destruct (in_len pre i q a Hp Ha) as [Ha0 Hal].
  assert (end_eq_pc l (base + a) st = true) as Hl by (unfold end_eq_pc; rewrite Z.eqb_eq; lia).
  pose proof (no_end_spec (other l) a st Hn Ha0 Hal H) as Ho.
  assert (writes_count L0 i = false /\ writes_count L1 i = false) as [Hw0 Hw1] by by destruct i.
  unfold leave, settle. rewrite lp_tick, (plain_lp _ _ _ _ Hpl), Z.add_assoc.
  transitivity (Some (next_pc (base + a) st,
    tick env (count_loop L1 (base + a) i st (count_loop L0 (base + a) i st
      (exec trap (base + a) i st))))); [by destruct i|].
  f_equal. unfold next_pc, jumps, count_loop.
  destruct l; simpl in Ho; rewrite Hl, Ho, ?Hw0, ?Hw1, ?andb_true_r; simpl;
    (destruct (lp_count _ =? 0); simpl; [done|]); f_equal; by destruct (exec _ _ _ _).
Qed.

(** A body that leaves a counter alone. *)
Lemma exec_count l a i st :
  writes_count l i = false -> is_dret i = false ->
  lp_count (lp l (exec trap a i st)) = lp_count (lp l st).
Proof.
  destruct st as [x0 x1 x2 x3 x4 x5 x6 [y0 y1 y2] [z0 z1 z2] x9],
    i as [| | | | | | | | |[] ? ?|[] ? ?|[] ?|[] ?|[] ?|[] ?], l; intros Hw Hd; try done;
    cbn [exec]; autorewrite with lps; done.
Qed.

Lemma settle_other l st : lp (other l) (settle l st) = lp (other l) st.
Proof. unfold settle. case_match; [done|]. by destruct st, l. Qed.

Lemma other_other l : other (other l) = l.
Proof. by destruct l. Qed.

Lemma iterate_inv (I : mstate -> Prop) f n st : (forall s, I s -> I (f s)) -> I st -> I (iterate n f st).
Proof. intros Hf. revert st. induction n; simpl; auto. Qed.

Lemma eval_count l c : forall a st,
  keeps_count l c = true -> lp_count (lp l (eval c a st)) = lp_count (lp l st).
Proof.
  induction c as [|i c IH|l' b IHb c IHc]; intros a st; simpl; [done| |].
  - rewrite !andb_true_iff, !negb_true_iff. intros [[Hi Hd] Hc]. by rewrite IH, lp_tick, exec_count.
  - rewrite !andb_true_iff, bool_decide_eq_true. intros [[-> Hb] Hc]. rewrite IHc by done.
    apply (iterate_inv (fun s => lp_count (lp l s) = lp_count (lp l st))); [|done].
    intros s <-. rewrite <- (other_other l) at 1. by rewrite settle_other, other_other, IHb.
Qed.

Lemma settle_count l st : 1 <= lp_count (lp l st) -> lp_count (lp l (settle l st)) = lp_count (lp l st) - 1.
Proof using Type.
  clear -l st. intros H. unfold settle. destruct (Z.eqb_spec (lp_count (lp l st)) 0); [lia|]. by destruct st, l.
Qed.

Lemma holds_settle k l st : holds k st -> holds k (settle l st).
Proof. apply holds_lp. intros l'. apply settle_lp. Qed.

Lemma ends_ok_settle l st : ends_ok st -> ends_ok (settle l st).
Proof. apply ends_ok_lp. intros l'. apply settle_lp. Qed.

(** What the simulation of a piece of code says; [leave] ends the body of a loop. *)
Definition simulated (c : code) (a : Z) (ex : option loop) (k' : known) (st : mstate) : Prop :=
  let st' := eval c (base + a) st in
  ends_ok st' /\ holds k' st' /\
  exists n, nsteps next n (base + a, st)
    match ex with
    | None => (base + (a + size c), st')
    | Some l => leave l (base + (a + size c)) st'
    end.

(** The rule of the loops: one body per iteration, by induction on their number. *)
Lemma region_sim l b a k k' :
  (forall st, ends_ok st -> holds k st -> simulated b a (Some l) k' st) ->
  meet k k' = k -> (know l k').1 = Some a -> keeps_count l b = true ->
  forall st, ends_ok st -> holds k st ->
  let st' := iterate (times l st) (fun s => settle l (eval b (base + a) s)) st in
  ends_ok st' /\ holds k' st' /\ exists n, nsteps next n (base + a, st) (base + (a + size b), st').
Proof.
  intros Hbody Hm Hk Hc st. remember (times l st) as m eqn:E. revert st E.
  induction m as [|m IH]; intros st E He Hh; [unfold times in E; lia|]. cbn [iterate].
  destruct (Hbody st He Hh) as (He' & Hh' & n & Hn).
  pose proof (eval_count l b (base + a) st Hc) as Hcnt.
  set (s1 := eval b (base + a) st) in *. unfold leave in Hn. unfold times in E.
  destruct (Z.ltb_spec 1 (lp_count (lp l s1))) as [Hgt|Hle].
  - destruct (IH (settle l s1)) as (Ha & Hb & n' & Hn').
    + unfold times. rewrite settle_count by lia. lia.
    + by apply ends_ok_settle.
    + apply holds_settle. rewrite <- Hm. by apply holds_meet_r.
    + split; [done|]. split; [done|]. exists (n + n')%nat. eapply nsteps_trans; [exact Hn|].
      destruct (Hh' l) as [Hs _]. by rewrite (Hs a Hk).
  - assert (m = O) as -> by lia. simpl.
    split; [by apply ends_ok_settle|]. split; [by apply holds_settle|]. by exists n.
Qed.

Lemma size_cons i c : size (Cons i c) = 4 + size c.
Proof. unfold size. simpl. lia. Qed.
Lemma size_region l b c : size (Region l b c) = size b + size c.
Proof. unfold size. simpl. rewrite length_app. lia. Qed.

Lemma sim_cons i c a ex k k' pre q st :
  (forall pre, p = pre ++ flatten c ++ q -> 4 * Z.of_nat (length pre) = a + 4 ->
   forall st, ends_ok st -> holds (trans a i k) st -> simulated c (a + 4) ex k' st) ->
  insn_ok len (fun l => ends l 0 p) a i = true ->
  p = pre ++ i :: flatten c ++ q -> 4 * Z.of_nat (length pre) = a ->
  ends_ok st -> holds k st -> simulated (Cons i c) a ex k' st.
Proof.
  intros IH Hok Hp Ha He Hh.
  destruct (IH (pre ++ [i])) with (st := tick env (exec trap (base + a) i st)) as (He' & Hh' & n & Hn).
  - by rewrite <- app_assoc.
  - rewrite length_app. simpl. lia.
  - by eapply ends_ok_exec.
  - by apply holds_exec.
  - unfold simulated. cbn [eval]. rewrite <- Z.add_assoc. split; [done|]. split; [done|].
    exists (S n). eapply nsteps_l; [by eapply step_inside|]. rewrite size_cons.
    by rewrite (Z.add_assoc a 4).
Qed.

Lemma sim_last i l a k pre q st :
  plain i && no_end (fun l => ends l 0 p) (other l) (a + 4) &&
    bool_decide ((know l k).2 = Some (a + 4)) = true ->
  p = pre ++ i :: q -> 4 * Z.of_nat (length pre) = a ->
  ends_ok st -> holds k st -> simulated (Cons i Nil) a (Some l) k st.
Proof.
  rewrite !andb_true_iff, bool_decide_eq_true. intros [[Hpl Hn] Hk] Hp Ha He Hh.
  assert (forall l', lp l' (tick env (exec trap (base + a) i st)) = lp l' st) as Hlp.
  { intros l'. by rewrite lp_tick, plain_lp. }
  unfold simulated. cbn [eval].
  split; [by eapply ends_ok_lp; [|exact He]; intros; rewrite Hlp|].
  split; [by eapply holds_lp; [|exact Hh]; intros; rewrite Hlp|].
  exists 1%nat. apply nsteps_once. change (size (Cons i Nil)) with 4. eapply step_last; try done.
  by apply Hh.
Qed.

Theorem simulation c : forall a ex k k' pre q st,
  check len (fun l => ends l 0 p) c a ex k = Some k' ->
  p = pre ++ flatten c ++ q -> 4 * Z.of_nat (length pre) = a ->
  ends_ok st -> holds k st -> simulated c a ex k' st.
Proof.
  induction c as [|i c IH|l b IHb c IHc]; intros a ex k k' pre q st Hck Hp Ha He Hh.
  - destruct ex; [done|]. simpl in Hck. simplify_eq. split; [done|]. split; [done|].
    exists O. unfold size. simpl. rewrite Z.add_0_r. constructor.
  - assert ((exists l, c = Nil /\ ex = Some l) \/
      (if insn_ok len (fun l => ends l 0 p) a i
       then check len (fun l => ends l 0 p) c (a + 4) ex (trans a i k) else None)
        = Some k') as [(l & -> & ->)|Hck'].
    { destruct c, ex; try (right; exact Hck); left; eauto. }
    + cbn [check] in Hck. case_match eqn:Hl; [|done]. injection Hck as <-.
      by apply (sim_last i l a k pre q st Hl).
    + case_match eqn:Hok; [|done]. apply (sim_cons i c a ex k k' pre q st); try done.
      intros pre' Hp' Ha' s Hs1 Hs2. by apply (IH (a + 4) ex (trans a i k) k' pre' q).
  - cbn [check] in Hck. case_match eqn:Hc; [done|].
    apply orb_false_iff in Hc as [Hkn Hc]. apply negb_false_iff in Hkn, Hc.
    apply bool_decide_eq_true in Hkn.
    apply bind_Some in Hck as (k1 & Hk1 & Hck). apply bind_Some in Hck as (k3 & Hk3 & Hck).
    case_match eqn:Hm; [|done]. apply andb_true_iff in Hm as [Hm Hkl].
    apply bool_decide_eq_true in Hm, Hkl. cbn [flatten] in Hp. rewrite <- app_assoc in Hp.
    destruct (region_sim l b a (meet k k1) k3) with (st := st) as (He' & Hh' & n & Hn).
    + intros s Hs1 Hs2. by eapply IHb.
    + done.
    + by rewrite Hkl, Hkn.
    + done.
    + done.
    + by apply holds_meet_l.
    + destruct (IHc (a + size b) ex k3 k' (pre ++ flatten b) q
        (iterate (times l st) (fun s => settle l (eval b (base + a) s)) st)) as (Hx & Hy & n' & Hn').
      * done.
      * by rewrite <- app_assoc.
      * unfold size. rewrite length_app. lia.
      * done.
      * done.
      * unfold simulated. cbn [eval]. rewrite <- Z.add_assoc. split; [done|]. split; [done|].
        exists (n + n')%nat. eapply nsteps_trans; [exact Hn|].
        rewrite size_region, (Z.add_assoc a). exact Hn'.
Qed.

(** A run goes through the machine's steps. *)
Lemma run_nsteps n : forall cfg st',
  nsteps next n cfg (base + len, st') -> forall fuel, (n <= fuel)%nat ->
  run trap env fuel base p cfg = Some st'.
Proof.
  induction n as [|n IH]; intros cfg st' Hn fuel Hf; inversion Hn as [|? ? cfg1 ? Hs Hr]; subst.
  - unfold len. destruct fuel; simpl; by rewrite Z.eqb_refl.
  - destruct fuel as [|fuel]; [lia|]. destruct cfg as [pc st]. cbn [run fst snd].
    assert (pc <> base + len) as Hpc.
    { intros ->. unfold next, step, fetch in Hs.
      replace (base + len - base) with (4 * Z.of_nat (length p)) in Hs by (unfold len; lia).
      rewrite (Z.mul_comm 4), Z_div_mult, Nat2Z.id, lookup_ge_None_2 in Hs by lia.
      by destruct (_ && _). }
    destruct (Z.eqb_spec pc (base + 4 * Z.of_nat (length p))); [done|].
    unfold next in Hs. rewrite Hs. simpl. apply IH; [done|lia].
Qed.
End Simulation.
