(* ===== verification/HwlpProps.v ===== *)
(** * The hardware-loop programs do what their source says

    The shapes of the loops of [hwlp.h], the rules the core's documentation gives for
    loops and what follows from them, and what the interrupt programs return whatever the
    interrupts do to the stack below them. *)
From S2P Require Import Prelude Hwlp HwlpLoops.
#[local] Open Scope Z_scope.

(** ** What the interrupt programs compute

    Their results only depend on the registers, [mcycle], the counters of the loops and
    two words of the stack: an abstract machine on these, which computes. *)

Record view := View {
  v_t0 : Z; v_t1 : Z; v_t2 : Z; v_res : Z; v_w80 : Z; v_w84 : Z; v_mcycle : Z; v_c0 : Z; v_c1 : Z
}.

Definition view_of (st : mstate) : view :=
  View (m_t0 st) (m_t1 st) (m_t2 st) (m_res st) (load_word (m_mem st) (m_sp st - 80))
    (load_word (m_mem st) (m_sp st - 84)) (m_mcycle st) (lp_count (m_lp0 st)) (lp_count (m_lp1 st)).

Definition v_get (v : view) (r : reg) : Z :=
  match r with T0 => v_t0 v | T1 => v_t1 v | T2 => v_t2 v | RES => v_res v | _ => 0 end.
Definition v_set (r : reg) (x : Z) (v : view) : view :=
  let '(View t0 t1 t2 res w80 w84 mc c0 c1) := v in
  match r with
  | T0 => View x t1 t2 res w80 w84 mc c0 c1
  | T1 => View t0 x t2 res w80 w84 mc c0 c1
  | T2 => View t0 t1 x res w80 w84 mc c0 c1
  | RES => View t0 t1 t2 x w80 w84 mc c0 c1
  | _ => v
  end.
Definition v_set_count (l : loop) (x : Z) (v : view) : view :=
  let '(View t0 t1 t2 res w80 w84 mc c0 c1) := v in
  match l with
  | L0 => View t0 t1 t2 res w80 w84 mc x c1
  | L1 => View t0 t1 t2 res w80 w84 mc c0 x
  end.
Definition v_count (l : loop) (v : view) : Z := match l with L0 => v_c0 v | L1 => v_c1 v end.
Definition v_load (off : Z) (v : view) : Z := if off =? -80 then v_w80 v else v_w84 v.
Definition v_store (off x : Z) (v : view) : view :=
  let '(View t0 t1 t2 res w80 w84 mc c0 c1) := v in
  if off =? -80 then View t0 t1 t2 res (u32 x) w84 mc c0 c1
  else if off =? -84 then View t0 t1 t2 res w80 (u32 x) mc c0 c1 else v.
Definition v_set_mcycle (x : Z) (v : view) : view :=
  let '(View t0 t1 t2 res w80 w84 _ c0 c1) := v in View t0 t1 t2 res w80 w84 x c0 c1.

Definition v_exec (i : insn) (v : view) : view :=
  let r := v_get v in
  match i with
  | Addi rd rs imm => v_set rd (u32 (r rs + imm)) v
  | Add rd rs1 rs2 => v_set rd (u32 (r rs1 + r rs2)) v
  | Mul rd rs1 rs2 => v_set rd (u32 (r rs1 * r rs2)) v
  | Div rd rs1 rs2 => v_set rd (div32 (r rs1) (r rs2)) v
  | Lw rd off _ => v_set rd (v_load off v) v
  | Sw rs off _ => v_store off (r rs) v
  | Mv rd rs => v_set rd (r rs) v
  | Csrrw_mcycle rd rs => v_set rd (v_mcycle v) (v_set_mcycle (r rs) v)
  | LpSetupi l n _ | LpCounti l n => v_set_count l (u32 n) v
  | LpSetup l rs _ | LpCount l rs => v_set_count l (u32 (r rs)) v
  | Dret | LpStarti _ _ | LpEndi _ _ => v
  end.

Fixpoint v_iterate (n : nat) (f : view -> view) (v : view) : view :=
  match n with O => v | S n => v_iterate n f (f v) end.
Definition v_settle (l : loop) (v : view) : view :=
  if v_count l v =? 0 then v else v_set_count l (v_count l v - 1) v.
Fixpoint v_eval (c : code) (v : view) : view :=
  match c with
  | Nil => v
  | Cons i c => v_eval c (v_exec i v)
  | Region l b c =>
      v_eval c (v_iterate (Nat.max 1 (Z.to_nat (v_count l v))) (fun u => v_settle l (v_eval b u)) v)
  end.

(** The instructions whose effect shows in the view: [sp] is only a base, the loads are
    of the two words and the stores of one of them or of a word apart. *)
Definition not_sp (r : reg) : bool := match r with SP => false | _ => true end.
Definition apart (off k : Z) : bool := (off + k <=? -4) || (4 <=? off + k).
Definition in_view (i : insn) : bool :=
  match i with
  | Addi rd rs _ | Mv rd rs | Csrrw_mcycle rd rs => not_sp rd && not_sp rs
  | Add rd rs1 rs2 | Mul rd rs1 rs2 | Div rd rs1 rs2 => not_sp rd && not_sp rs1 && not_sp rs2
  | Lw rd off SP => not_sp rd && ((off =? -80) || (off =? -84))
  | Lw _ _ _ => false
  | Sw rs off SP =>
      not_sp rs && (-1024 <=? off) && (off <=? 1024) &&
        ((off =? -80) || (off =? -84) || apart off 80 && apart off 84)
  | Sw _ _ _ => false
  | LpSetup _ rs _ | LpCount _ rs => not_sp rs
  | Dret => false
  | _ => true
  end.
Fixpoint code_in_view (c : code) : bool :=
  match c with
  | Nil => true
  | Cons i c => in_view i && code_in_view c
  | Region _ b c => code_in_view b && code_in_view c
  end.

(** The interrupts write no byte of the stack but the 76 bytes below [sp]. *)
Definition keeps_stack (env : nat -> gmap Z Z -> gmap Z Z) (sp : Z) : Prop :=
  forall n m k, 77 <= k <= 84 -> byte_at (env n m) (sp - k) = byte_at m (sp - k).

Lemma byte_insert m a b x : byte_at (<[u32 a := x]> m) b = if u32 b =? u32 a then x else byte_at m b.
Proof.
  unfold byte_at. destruct (Z.eqb_spec (u32 b) (u32 a)) as [->|H].
  - by rewrite lookup_insert_eq.
  - by rewrite lookup_insert_ne.
Qed.

Lemma u32_near a j k : -2 ^ 31 < k - j < 2 ^ 31 -> (u32 (a + j) =? u32 (a + k)) = (j =? k).
Proof.
  intros H. unfold wrap. destruct (Z.eqb_spec j k) as [->|Hne]; [apply Z.eqb_refl|].
  apply Z.eqb_neq. intros E. apply Hne.
  pose proof (Z.div_mod (a + j) (2 ^ 32)). pose proof (Z.div_mod (a + k) (2 ^ 32)). lia.
Qed.

Lemma byte_store m a v j :
  -2 ^ 30 < j < 2 ^ 30 ->
  byte_at (store_word m a v) (a + j) =
    if j =? 0 then u8 v else if j =? 1 then u8 (v / 256) else if j =? 2 then u8 (v / 65536)
    else if j =? 3 then u8 (v / 16777216) else byte_at m (a + j).
Proof.
  intros Hj. unfold store_word. rewrite !byte_insert. rewrite <- (Z.add_0_r a) at 2.
  rewrite !u32_near by lia. done.
Qed.

Lemma load_store_same m a v : load_word (store_word m a v) a = u32 v.
Proof.
  unfold load_word. rewrite <- (Z.add_0_r a) at 2. rewrite !byte_store by lia. simpl.
  unfold wrap. change (2 ^ 8) with 256. change (2 ^ 32) with 4294967296.
  replace 65536 with (256 * 256) by done. replace 16777216 with (256 * 256 * 256) by done.
  rewrite <- !Z.div_div by lia.
  pose proof (Z.div_mod v 256). pose proof (Z.div_mod (v / 256) 256).
  pose proof (Z.div_mod (v / 256 / 256) 256). pose proof (Z.div_mod (v / 256 / 256 / 256) 256).
  pose proof (Z.mod_pos_bound v 256). pose proof (Z.mod_pos_bound (v / 256) 256).
  pose proof (Z.mod_pos_bound (v / 256 / 256) 256).
  pose proof (Z.mod_pos_bound (v / 256 / 256 / 256) 256).
  apply (Z.mod_unique _ _ (v / 256 / 256 / 256 / 256)); lia.
Qed.

Lemma load_store_apart m sp off k v :
  apart off k = true -> -1024 <= off <= 1024 -> 0 <= k <= 1024 ->
  load_word (store_word m (sp + off) v) (sp - k) = load_word m (sp - k).
Proof.
  unfold apart. rewrite orb_true_iff, !Z.leb_le. intros Ha Ho Hk. unfold load_word.
  assert (forall j, 0 <= j <= 3 ->
    byte_at (store_word m (sp + off) v) (sp - k + j) = byte_at m (sp - k + j)) as E.
  { intros j Hj. replace (sp - k + j) with (sp + off + (j - k - off)) by lia.
    rewrite byte_store by lia. by rewrite !(proj2 (Z.eqb_neq _ _)) by lia. }
  rewrite <- (Z.add_0_r (sp - k)) at 1 5. by rewrite !E by lia.
Qed.

Lemma load_env env sp n m k :
  keeps_stack env sp -> 80 <= k <= 84 -> load_word (env n m) (sp - k) = load_word m (sp - k).
Proof.
  intros He Hk. unfold load_word.
  assert (forall j, 0 <= j <= 3 -> byte_at (env n m) (sp - k + j) = byte_at m (sp - k + j)) as E.
  { intros j Hj. replace (sp - k + j) with (sp - (k - j)) by lia. apply He. lia. }
  rewrite <- (Z.add_0_r (sp - k)) at 1 5. by rewrite !E by lia.
Qed.

Section View.
Context (trap : mstate -> mstate) (env : nat -> gmap Z Z -> gmap Z Z) (sp : Z).
Hypothesis Henv : keeps_stack env sp.

Lemma view_tick st : m_sp st = sp -> view_of (tick env st) = view_of st.
Proof using Henv.
  destruct st as [x0 x1 x2 x3 x4 m c l0 l1 n]. unfold view_of. simpl. intros ->.
  by rewrite !(load_env env sp) by (done || lia).
Qed.

Lemma view_set_reg r x st : not_sp r = true ->
  view_of (set_reg r x st) = v_set r x (view_of st) /\ m_sp (set_reg r x st) = m_sp st.
Proof. by destruct st, r. Qed.

Lemma view_get r st : not_sp r = true -> get_reg st r = v_get (view_of st) r.
Proof. by destruct r. Qed.

Lemma view_exec a i st :
  in_view i = true ->
  view_of (exec trap a i st) = v_exec i (view_of st) /\ m_sp (exec trap a i st) = m_sp st.
Proof.
  destruct i as [rd rs imm|rd r1 r2|rd r1 r2|rd r1 r2|rd off base|rs off base|rd rs|rd rs| |l n k|l rs k|l k|l k|l n|l rs];
    cbn [in_view exec v_exec]; intros H; rewrite ?andb_true_iff in H;
    rewrite ?view_get by tauto; try (by apply view_set_reg; tauto);
    try (by destruct st as [? ? ? ? ? ? ? [] [] ?], l); [| | |done].
  - destruct base; try done. rewrite !andb_true_iff, orb_true_iff, !Z.eqb_eq in H.
    destruct H as [Hr Ho]. cbn [get_reg]. destruct (view_set_reg rd (load_word (m_mem st) (m_sp st + off)) st Hr) as [E ->].
    split; [|done]. rewrite E. by destruct Ho as [-> | ->].
  - destruct base; try done. rewrite !andb_true_iff, !orb_true_iff, !Z.leb_le, !Z.eqb_eq in H.
    destruct H as [[[Hr ?] ?] Ho]. rewrite (view_get rs) by done. cbn [get_reg].
    generalize (v_get (view_of st) rs). intros x. destruct st as [x0 x1 x2 s x4 m c l0 l1 n].
    unfold view_of, v_store. simpl. split; [|done].
    destruct Ho as [[-> | ->]|Ho]; simpl.
    + by rewrite load_store_same, load_store_apart by (done || lia).
    + by rewrite load_store_same, load_store_apart by (done || lia).
    + apply andb_true_iff in Ho as [H80 H84]. rewrite !load_store_apart by (done || lia).
      unfold apart in *. rewrite orb_true_iff, !Z.leb_le in H80, H84.
      by rewrite !(proj2 (Z.eqb_neq _ _)) by lia.
  - destruct H as [H1 H2]. destruct (view_set_reg rd (m_mcycle st) (set_mcycle (v_get (view_of st) rs) st) H1) as [-> ->].
    by destruct st.
Qed.

Lemma v_iterate_view (I : mstate -> Prop) f g n st :
  (forall s, I s -> view_of (f s) = g (view_of s) /\ I (f s)) -> I st ->
  view_of (iterate n f st) = v_iterate n g (view_of st) /\ I (iterate n f st).
Proof.
  intros Hf. revert st. induction n as [|n IH]; intros st H; simpl; [done|].
  destruct (Hf st H) as [<- H']. by apply IH.
Qed.

Lemma view_settle l st :
  view_of (settle l st) = v_settle l (view_of st) /\ m_sp (settle l st) = m_sp st.
Proof. unfold settle, v_settle. destruct st, l; simpl; by case_match. Qed.

(** The view of an execution is the execution of the view. *)
Lemma view_eval c : forall a st,
  code_in_view c = true -> m_sp st = sp ->
  view_of (eval trap env c a st) = v_eval c (view_of st) /\ m_sp (eval trap env c a st) = sp.
Proof using Henv.
  induction c as [|i c IH|l b IHb c IHc]; intros a st; simpl; [done| |].
  - rewrite andb_true_iff. intros [Hi Hc] Hs. destruct (view_exec a i st Hi) as [Ev Es].
    rewrite <- Ev, <- (view_tick (exec trap a i st)) by congruence. apply IH; [done|].
    rewrite <- Hs, <- Es. by destruct (exec trap a i st).
  - rewrite andb_true_iff. intros [Hb Hc] Hs.
    destruct (v_iterate_view (fun s => m_sp s = sp) (fun s => settle l (eval trap env b a s))
      (fun u => v_settle l (v_eval b u)) (times l st) st) as [Ev Es]; [|done|].
    + intros s Hs'. destruct (IHb a s Hb Hs') as [<- Es].
      destruct (view_settle l (eval trap env b a s)) as [-> ->]. done.
    + assert (lp_count (lp l st) = v_count l (view_of st)) as <- by by destruct l.
      unfold times in Ev. rewrite <- Ev. by apply IHc.
Qed.
End View.

(** ** The shapes of the programs *)

Definition nest (a : nat) (s : shape) : shape := Loop L1 (Take a Done) s.
Definition nest2 (a b c : nat) (s : shape) : shape :=
  Loop L1 (Take a (Loop L0 (Take b Done) (Take c Done))) s.

Definition shape0 : shape := Take 1 (nest 3 (Take 2 Done)).
Definition shape1 : shape := Take 1 (nest2 5 2 3 (Take 2 Done)).
Definition shape3 : shape := Take 3 (nest2 6 4 4 (Take 9 Done)).
Definition shape4 : shape := Take 2 (nest2 1 2 2 (Take 2 Done)).
Definition shape5 : shape := Take 7 (nest2 12 9 2 (Take 7 (nest2 1 2 2 (Take 5 Done)))).
Definition shape6 : shape := Take 2 (nest2 1 2 2 (Take 3 Done)).
Definition shape_int0 : shape := Take 5 (nest2 1 2 2 (Take 3 (nest2 1 2 2 (Take 2 Done)))).
Definition shape_int1 : shape := Take 6 (nest2 1 6 2 (Take 3 (nest2 1 7 2 (Take 2 Done)))).
Definition shape_int4 : shape := Take 8 (nest2 1 3 5 (Take 2 (nest2 1 4 5 (Take 2 Done)))).

(** The programs of [hwlp.h] without [dret]. *)
Definition hwlp_programs : list (shape * list insn) :=
  [ (shape0, HWLP_TEST0); (shape1, HWLP_TEST1); (shape1, HWLP_TEST2); (shape3, HWLP_TEST3);
    (shape4, HWLP_TEST4); (shape5, HWLP_TEST5); (shape6, HWLP_TEST6);
    (shape_int0, HWLP_TEST_INTERRUPT0); (shape_int1, HWLP_TEST_INTERRUPT1);
    (shape_int4, HWLP_TEST_INTERRUPT4) ].

Lemma hwlp_programs_ok : forallb (fun sp => program_ok sp.1 sp.2) hwlp_programs = true.
Proof. vm_compute. reflexivity. Qed.

(** An aligned place for the program, at which no loop of the state ends. *)
Definition fits (base : Z) (p : list insn) : Prop :=
  0 <= base /\ base mod 4 = 0 /\ base + 4 * Z.of_nat (length p) < 2 ^ 32.
Definition outside (base : Z) (p : list insn) (st : mstate) : Prop :=
  forall l, ~ base < lp_end (lp l st) <= base + 4 * Z.of_nat (length p).

Lemma asm_eval trap env s p base st :
  program_ok s p = true -> fits base p -> outside base p st ->
  exists fuel0, forall fuel, (fuel0 <= fuel)%nat ->
    asm trap env fuel base p st = Some (eval trap env (build s p).1 base st).
Proof.
  intros Hok Hf Ho. unfold program_ok in Hok. pose proof (flatten_build s p) as Hp.
  destruct (build s p) as [c [|? ?]]; [|done]. apply bool_decide_eq_true in Hok as [k' Hck].
  simpl in Hp. rewrite app_nil_r in Hp.
  destruct (simulation trap env base p Hf c 0 None ((None, None), (None, None)) k' [] [] st)
    as (_ & _ & n & Hn).
  - exact Hck.
  - by rewrite app_nil_r.
  - done.
  - intros l. right. apply Ho.
  - intros l. split; intros ? H; by destruct l.
  - exists n. intros fuel Hfuel. simpl. unfold asm.
    unfold size in Hn. rewrite Hp, !Z.add_0_r, Z.add_0_l in Hn. by apply (run_nsteps trap env base p n).
Qed.

(** The result of a program whose view computes. *)
Lemma asm_result trap env s p base st v :
  program_ok s p = true -> code_in_view (build s p).1 = true ->
  keeps_stack env (m_sp st) -> fits base p -> outside base p st ->
  v_res (v_eval (build s p).1 (view_of st)) = v ->
  exists fuel0, forall fuel, (fuel0 <= fuel)%nat ->
    m_res <$> asm trap env fuel base p st = Some v.
Proof.
  intros Hok Hin Henv Hf Ho Hv. destruct (asm_eval trap env s p base st Hok Hf Ho) as [n Hn].
  exists n. intros fuel Hfuel. rewrite (Hn fuel Hfuel). simpl. f_equal.
  destruct (view_eval trap env (m_sp st) Henv (build s p).1 base st Hin eq_refl) as [Ev _].
  rewrite <- Hv, <- Ev. done.
Qed.

(** ** The rules of the core's documentation ([corev_hw_loop.rst]) *)

(** The code has no loop in it. *)
Fixpoint flat (c : code) : bool :=
  match c with Nil => true | Cons _ c => flat c | Region _ _ _ => false end.
(** Each loop of the code ends two instructions or more before the code does. *)
Fixpoint ends_apart (c : code) : bool :=
  match c with
  | Nil => true
  | Cons _ c => ends_apart c
  | Region _ _ c => (8 <=? size c) && ends_apart c
  end.

(** Of each body: three instructions at least, none of them privileged, none that writes
    the counter of its loop; the inner one of two loops is loop 0, and it ends at least
    8 bytes before the outer one. *)
Fixpoint body_rules (c : code) : bool :=
  match c with
  | Nil => true
  | Cons _ c => body_rules c
  | Region l b c =>
      (12 <=? size b) && forallb (fun i => negb (is_dret i)) (flatten b) && keeps_count l b &&
      (bool_decide (l = L1) || flat b) && ends_apart b && body_rules b && body_rules c
  end.

(** The instruction writes the start or the end of loop [l]. *)
Definition writes_bounds (l : loop) (i : insn) : bool :=
  bool_decide (is_Some (sets_start l 0 i)) || bool_decide (is_Some (sets_end l 0 i)).

(** [quiet l c z]: the start and end of loop [l] are only written while its counter is
    zero, which it is before [c] when [z]; whether it is after [c]. *)
Fixpoint quiet (l : loop) (c : code) (z : bool) : option bool :=
  match c with
  | Nil => Some z
  | Cons i c =>
      if writes_bounds l i && negb z || is_dret i then None
      else quiet l c (negb (writes_count l i) && z)
  | Region l' b c =>
      if bool_decide (l' = l) then
        if keeps_count l b then _ ← quiet l b false; quiet l c true else None
      else z' ← quiet l b z; if implb z z' then quiet l c z' else None
  end.

Definition doc_rules (c : code) : bool :=
  body_rules c && bool_decide (is_Some (quiet L0 c true)) && bool_decide (is_Some (quiet L1 c true)).

Section Rules.
Context (trap : mstate -> mstate) (env : nat -> gmap Z Z -> gmap Z Z).

(** Along the execution, no instruction writes the start or the end of a loop that runs. *)
Fixpoint untouched (l : loop) (c : code) (a : Z) (st : mstate) : Prop :=
  match c with
  | Nil => True
  | Cons i c =>
      (writes_bounds l i = true -> lp_count (lp l st) = 0) /\
      untouched l c (a + 4) (tick env (exec trap a i st))
  | Region l' b c =>
      let body s := settle l' (eval trap env b a s) in
      (forall k, (k < times l' st)%nat -> untouched l b a (iterate k body st)) /\
      untouched l c (a + size b) (iterate (times l' st) body st)
  end.

(** What [z] says of the counter of loop [l]. *)
Definition counter_is (l : loop) (z : bool) (st : mstate) : Prop :=
  0 <= lp_count (lp l st) /\ (z = true -> lp_count (lp l st) = 0).

Lemma counter_exec l a i z st :
  is_dret i = false -> counter_is l z st ->
  counter_is l (negb (writes_count l i) && z) (tick env (exec trap a i st)).
Proof.
  intros Hd [H0 Hz]. unfold counter_is. rewrite lp_tick. destruct (writes_count l i) eqn:Hw.
  - split; [|done].
    assert (forall x, 0 <= u32 x) as Hu by (intros x; apply Z.mod_pos_bound; lia).
    destruct st as [x0 x1 x2 x3 x4 x5 x6 [y0 y1 y2] [z0 z1 z2] x9],
      i as [| | | | | | | | |[] ? ?|[] ? ?|[] ?|[] ?|[] ?|[] ?], l; try done; apply Hu.
  - rewrite exec_count by done. by destruct z.
Qed.

Lemma counter_settle l st : counter_is l false st -> counter_is l false (settle l st).
Proof.
  intros [H _]. split; [|done]. unfold settle. destruct (Z.eqb_spec (lp_count (lp l st)) 0); [done|].
  destruct st, l; simpl in *; lia.
Qed.

Lemma counter_other l l' z st : l' <> l -> counter_is l z st -> counter_is l z (settle l' st).
Proof.
  intros Hl. assert (l = other l') as -> by (destruct l, l'; done).
  unfold counter_is. by rewrite settle_other.
Qed.

(** A loop leaves its counter at zero. *)
Lemma counter_loop l b a st :
  keeps_count l b = true -> counter_is l false st ->
  counter_is l true (iterate (times l st) (fun s => settle l (eval trap env b a s)) st).
Proof.
  intros Hk. remember (times l st) as m eqn:E. revert st E.
  induction m as [|m IH]; intros st E [H _]; [unfold times in E; lia|]. cbn [iterate].
  pose proof (eval_count trap env l b a st Hk) as Hc. set (s1 := eval trap env b a st) in *.
  unfold times in E. destruct (Z.eq_dec (lp_count (lp l st)) 0) as [Hz|Hz].
  - assert (m = O) as -> by lia. cbn [iterate]. unfold counter_is, settle.
    rewrite (proj2 (Z.eqb_eq _ _)) by lia. rewrite Hc, Hz. done.
  - pose proof (settle_count l s1) as Hs. rewrite Hc in Hs.
    destruct (Z.eq_dec (lp_count (lp l st)) 1) as [H1|H1].
    + assert (m = O) as -> by lia. cbn [iterate]. unfold counter_is. rewrite Hs by lia. lia.
    + apply IH; [|unfold counter_is; rewrite Hs by lia; split; [lia|done]].
      unfold times. rewrite Hs by lia. lia.
Qed.

(** The checked code keeps the rule of the starts and ends. *)
Lemma quiet_untouched l c : forall z z' a st,
  quiet l c z = Some z' -> counter_is l z st ->
  untouched l c a st /\ counter_is l z' (eval trap env c a st).
Proof.
  induction c as [|i c IH|l' b IHb c IHc]; intros z z' a st Hq H; simpl in Hq; [by simplify_eq| |].
  - case_match eqn:Hw; [done|]. apply orb_false_iff in Hw as [Hw Hd].
    destruct (IH _ _ (a + 4) _ Hq (counter_exec l a i z st Hd H)) as [Hu Hc].
    split; [split; [|done]|done]. intros Hb. rewrite Hb in Hw. destruct z; [by apply H|done].
  - cbn [untouched eval]. case_bool_decide as Hl; [subst l'|].
    + case_match eqn:Hk; [|done]. apply bind_Some in Hq as (zb & Hb & Hq).
      assert (counter_is l false st) as Hf by by split; [apply H|].
      destruct (IHc _ _ (a + size b) _ Hq (counter_loop l b a st Hk Hf)) as [Hu Hc].
      split; [split; [|done]|done]. intros k _.
      apply (IHb false zb); [done|].
      apply (iterate_inv (counter_is l false)); [|done]. intros s [Hs _]. apply counter_settle.
      unfold counter_is. by rewrite eval_count.
    + apply bind_Some in Hq as (zb & Hb & Hq). case_match eqn:Hi; [|done].
      assert (forall s, counter_is l z s ->
        counter_is l zb (settle l' (eval trap env b a s))) as Hstep.
      { intros s Hs. apply counter_other; [done|]. by apply (IHb z zb). }
      assert (forall s, counter_is l zb s -> counter_is l z s) as Hweak.
      { intros s [Hs Hz]. split; [done|]. destruct z, zb; done || auto. }
      assert (counter_is l zb (iterate (times l' st) (fun s => settle l' (eval trap env b a s)) st)) as Hend.
      { assert (exists m, times l' st = S m) as [m ->] by (exists (pred (times l' st)); unfold times; lia).
        simpl. apply (iterate_inv (counter_is l zb)); auto. }
      destruct (IHc _ _ (a + size b) _ Hq Hend) as [Hu Hc]. split; [split; [|done]|done].
      intros k _. apply (IHb z zb); [done|]. apply (iterate_inv (counter_is l z)); auto.
Qed.
End Rules.

(** ** What the rules leave *)

(** The programs of [hwlp.h] that obey the rules: the others have a body of two
    instructions, or ([HWLP_TEST5]) write the end of a loop whose counter is set. *)
Lemma hwlp_programs_rules :
  map (fun sp => doc_rules (build sp.1 sp.2).1) hwlp_programs =
    [true; false; false; true; false; false; false; false; true; true].
Proof. vm_compute. reflexivity. Qed.

(** No loop ends in the program's place, and none is running. *)
Definition ready (base : Z) (p : list insn) (st : mstate) : Prop :=
  outside base p st /\ forall l, lp_count (lp l st) = 0.

(** The interrupt programs that obey the rules, with what they return. *)
Definition interrupt_programs : list (shape * list insn * Z) :=
  [ (shape_int1, HWLP_TEST_INTERRUPT1, 1643); (shape_int4, HWLP_TEST_INTERRUPT4, RES_EXPECTED4) ].

(** The lengths a program sets its loops up with, and the lengths of the bodies of a
    code, in the order of the source. *)
Definition setup_lengths (p : list insn) : list Z :=
  omap (fun i => match i with LpSetupi _ _ len => Some len | _ => None end) p.
Fixpoint body_lengths (c : code) : list Z :=
  match c with
  | Nil => []
  | Cons _ c => body_lengths c
  | Region _ b c => Z.of_nat (length (flatten b)) :: body_lengths b ++ body_lengths c
  end.

Definition result_ok (x : shape * list insn * Z) : Prop :=
  let c := (build x.1.1 x.1.2).1 in
  program_ok x.1.1 x.1.2 = true /\ code_in_view c = true /\
  (doc_rules c = true /\ body_lengths c = map (fun len => len / 4 - 1) (setup_lengths x.1.2)) /\
  forall v, v_res (v_eval c v) = x.2.

Lemma interrupt_programs_ok : Forall result_ok interrupt_programs.
Proof.
  repeat (apply list.Forall_cons; split); [..|done];
    (split; [vm_compute; reflexivity|]; split; [vm_compute; reflexivity|];
     split; [split; vm_compute; reflexivity|intros []; vm_compute; reflexivity]).
Qed.

Lemma doc_rules_untouched trap env l c a st :
  doc_rules c = true -> (forall l, lp_count (lp l st) = 0) -> untouched trap env l c a st.
Proof.
  unfold doc_rules. rewrite !andb_true_iff, !bool_decide_eq_true. intros [[_ [z0 H0]] [z1 H1]] Hst.
  assert (counter_is l true st) as Hc by (unfold counter_is; rewrite Hst; done).
  destruct l; [by apply (quiet_untouched trap env L0 c true z0)|by apply (quiet_untouched trap env L1 c true z1)].
Qed.

Lemma program_flatten s p : program_ok s p = true -> flatten (build s p).1 = p.
Proof.
  intros Hok. pose proof (flatten_build s p) as Hp. unfold program_ok in Hok.
  destruct (build s p) as [c [|? ?]]; [|done]. by rewrite app_nil_r in Hp.
Qed.

(** C8: the hardware loops execute as structured loops. For every program whose loops the checker finds to be those of a shape and that obeys the rules of the core's documentation (three instructions to a body, the inner loop is loop 0 and ends two instructions before the outer one, no dret, no start or end written while the counter is not zero), at any aligned address and from any registers and memory with no loop running, whatever the interrupts between two instructions do to the memory: the machine, given enough steps, ends with the state of the structured code, which runs each body as many times as its counter says (once for a counter of zero), the inner loop within the outer one; and it never writes the start or end of a loop that runs. *)
Theorem hwlp_follows_source trap env s p base st :
  program_ok s p = true -> doc_rules (build s p).1 = true -> fits base p -> ready base p st ->
  flatten (build s p).1 = p /\
  (forall l, untouched trap env l (build s p).1 base st) /\
  exists fuel0, forall fuel, (fuel0 <= fuel)%nat ->
    asm trap env fuel base p st = Some (eval trap env (build s p).1 base st).
Proof.
  intros Hok Hr Hf [Ho Hz]. split; [by apply program_flatten|]. split; [|by apply asm_eval].
  intros l. by apply doc_rules_untouched.
Qed.

(** C7: the two interrupt programs of hwlp.h that obey the rules of the core's documentation return 1643 (HWLP_TEST_INTERRUPT1, whose comment expects 12733) and 53 (HWLP_TEST_INTERRUPT4, as its comment expects), from any registers, memory and mcycle with no loop running, at any aligned address, under any interrupts that only write the 76 bytes of stack below the stack pointer, which the offset -80 of their data is there for. Each of their loop bodies is one instruction shorter than its length in the source divided by four. *)
Theorem interrupt_results trap env s p v base st :
  (s, p, v) ∈ interrupt_programs ->
  keeps_stack env (m_sp st) -> fits base p -> ready base p st ->
  doc_rules (build s p).1 = true /\
  body_lengths (build s p).1 = map (fun len => len / 4 - 1) (setup_lengths p) /\
  exists fuel0, forall fuel, (fuel0 <= fuel)%nat ->
    m_res <$> asm trap env fuel base p st = Some v.
Proof.
  intros Hx Henv Hf [Ho _]. pose proof interrupt_programs_ok as Hall. rewrite list.Forall_forall in Hall.
  destruct (Hall _ Hx) as (Hok & Hin & [Hr Hb] & Hv). simpl in *.
  split; [done|]. split; [done|]. by eapply asm_result.
Qed.

(** ** Witnesses *)

Definition ex_state : mstate :=
  MState 1 2 3 65536 5 ∅ 0 (LpRegs 0 0 0) (LpRegs 0 0 0) 0.
(** An interrupt that pushes a word below the stack pointer of the example. *)
Definition ex_env (n : nat) (m : gmap Z Z) : gmap Z Z := store_word m (65536 - 16) (Z.of_nat n).
(** A handler that overwrites two registers. *)
Definition ex_trap (st : mstate) : mstate := set_reg T0 2 (set_reg T1 11 st).

Lemma ex_env_keeps : keeps_stack ex_env 65536.
Proof.
  intros n m k Hk. unfold ex_env. replace (65536 - k) with (65536 - 16 + (16 - k)) by lia.
  rewrite byte_store by lia. by rewrite !(proj2 (Z.eqb_neq _ _)) by lia.
Qed.
Lemma ex_fits : fits 4096 HWLP_TEST3 /\ fits 4096 HWLP_TEST_INTERRUPT1.
Proof. unfold fits. split; repeat split; (reflexivity || discriminate). Qed.
Lemma ex_ready p : ready 4096 p ex_state.
Proof. split; [intros []; simpl; lia|by intros []]. Qed.

Lemma hwlp_follows_source_witness :
  exists fuel0, forall fuel, (fuel0 <= fuel)%nat ->
    asm ex_trap ex_env fuel 4096 HWLP_TEST3 ex_state =
    Some (eval ex_trap ex_env (build shape3 HWLP_TEST3).1 4096 ex_state).
Proof.
  refine (proj2 (proj2 (hwlp_follows_source ex_trap ex_env shape3 HWLP_TEST3 4096 ex_state _ _ _ _))).
  - vm_compute. reflexivity.
  - vm_compute. reflexivity.
  - exact (proj1 ex_fits).
  - apply ex_ready.
Defined.

Lemma interrupt_results_witness :
  exists fuel0, forall fuel, (fuel0 <= fuel)%nat ->
    m_res <$> asm ex_trap ex_env fuel 4096 HWLP_TEST_INTERRUPT1 ex_state = Some 1643.
Proof.
  refine (proj2 (proj2 (interrupt_results ex_trap ex_env shape_int1 HWLP_TEST_INTERRUPT1 1643 4096
    ex_state _ _ _ _))).
  - by apply (list_elem_of_lookup_2 _ 0).
  - exact ex_env_keeps.
  - exact (proj2 ex_fits).
  - apply ex_ready.
Defined.
