(* ===== verification/Delays.v ===== *)
(** * The delays of the memory response model ([hpdcache_test_mem_resp_model_base.h])

    Each channel of the model waits for a number of cycles drawn from a distribution
    before it takes or sends a flit. The constructor gives five default
    distributions, which a sequence can replace: the read sequence removes all
    delays. From the distributions follows how many flits a channel moves in a number
    of clock edges. *)
From S2P Require Import Prelude Defs Transaction MemModel Sequence MemResp MemProcs MemProcsProps SeqGen.

(** ** The distributions *)
Record delays := {
  ra_ready_delay : bag (Z * Z);
  rd_valid_delay : bag (Z * Z);
  wa_ready_delay : bag (Z * Z);
  wd_ready_delay : bag (Z * Z);
  wb_valid_delay : bag (Z * Z);
}.

Definition set_ra_ready_delay_distribution (dist : bag (Z * Z)) (d : delays) : delays :=
  Build_delays dist (rd_valid_delay d) (wa_ready_delay d) (wd_ready_delay d) (wb_valid_delay d).
Definition set_rd_valid_delay_distribution (dist : bag (Z * Z)) (d : delays) : delays :=
  Build_delays (ra_ready_delay d) dist (wa_ready_delay d) (wd_ready_delay d) (wb_valid_delay d).
Definition set_wa_ready_delay_distribution (dist : bag (Z * Z)) (d : delays) : delays :=
  Build_delays (ra_ready_delay d) (rd_valid_delay d) dist (wd_ready_delay d) (wb_valid_delay d).
Definition set_wd_ready_delay_distribution (dist : bag (Z * Z)) (d : delays) : delays :=
  Build_delays (ra_ready_delay d) (rd_valid_delay d) (wa_ready_delay d) dist (wb_valid_delay d).
Definition set_wb_valid_delay_distribution (dist : bag (Z * Z)) (d : delays) : delays :=
  Build_delays (ra_ready_delay d) (rd_valid_delay d) (wa_ready_delay d) (wd_ready_delay d) dist.

(** The constructor. *)
Definition ready_delay_init : bag (Z * Z) := push (9, 32) 2 (push (3, 8) 8 (push (0, 2) 90 [])).
Definition valid_delay_init : bag (Z * Z) := push (9, 64) 2 (push (3, 8) 90 (push (0, 2) 8 [])).
Definition delays_init : delays :=
  {| ra_ready_delay := ready_delay_init; rd_valid_delay := valid_delay_init;
     wa_ready_delay := ready_delay_init; wd_ready_delay := ready_delay_init;
     wb_valid_delay := valid_delay_init |}.

(** What the run of the read sequence starts with; it gives the data channel the
    distribution of the address channel. *)
Definition read_seq_delays (d : delays) : delays :=
  let ra_delay_distribution := push (0, 0) 100 [] in
  let rd_delay_distribution := push (0, 0) 100 [] in
  let wa_delay_distribution := push (0, 0) 100 [] in
  let wb_delay_distribution := push (0, 0) 100 [] in
  let d := set_ra_ready_delay_distribution ra_delay_distribution d in
  let d := set_rd_valid_delay_distribution rd_delay_distribution d in
  let d := set_wa_ready_delay_distribution wa_delay_distribution d in
  let d := set_wd_ready_delay_distribution wa_delay_distribution d in
  set_wb_valid_delay_distribution wb_delay_distribution d.

(** What the run of the write sequence starts with; [keep_only(k)] is a constraint of
    the library on a distribution. *)
Definition write_seq_delays (keep_only : Z -> bag (Z * Z) -> bag (Z * Z)) (d : delays) : delays :=
  let wa_delay_distribution := push (0, 0) 100 [] in
  let wb_delay_distribution := push (0, 0) 100 [] in
  let d := set_ra_ready_delay_distribution (keep_only 0 (ra_ready_delay d)) d in
  let d := set_rd_valid_delay_distribution (keep_only 16 (rd_valid_delay d)) d in
  let d := set_wa_ready_delay_distribution wa_delay_distribution d in
  let d := set_wd_ready_delay_distribution wa_delay_distribution d in
  set_wb_valid_delay_distribution wb_delay_distribution d.

(** ** Bounds *)
Definition max_delay (b : bag (Z * Z)) : Z := foldr (fun e m => Z.max e.1.2 m) 0 b.

Lemma drawn_max_delay b x : drawn_range b x -> x <= max_delay b.
Proof.
  intros (lo & hi & w & Hin & _ & Hx). induction b as [|e b IH]; [by apply elem_of_nil in Hin|].
  simpl. apply elem_of_cons in Hin as [<-|Hin]; simpl; [lia|]. specialize (IH Hin). lia.
Qed.

Lemma max_delay_nonneg b : 0 <= max_delay b.
Proof. induction b; simpl; lia. Qed.

(** ** How long a channel takes *)
Section Channels.
Context {A : Type}.

(** Edges until a sink pushes its next flit, when the sender and the FIFO allow it and
    no delay is above [D]. *)
Definition sink_time (D : nat) (pc : sink_pc A) : nat :=
  match pc with Snk_Idle | Snk_Ack => D + 1 | Snk_Delay n => n + 1 | Snk_Push _ => 1 end.

Lemma sink_rate D ins : forall pc,
  Forall (fun i => si_room i = true /\ si_valid i = true /\ (si_delay i <= D)%nat) ins ->
  (length ins < sink_time D pc + (D + 1) * length (sink_run ins pc).1.1)%nat.
Proof.
  induction ins as [|[room valid pins d] ins IH]; intros pc H; [destruct pc; simpl; lia|].
  apply list.Forall_cons in H as [(Hr & Hv & Hd) H]. simpl in Hr, Hv, Hd. subst room valid.
  assert (exists pc' push, sink_step true true pins d pc = (pc', push)
            /\ (length push = 0 /\ sink_time D pc' < sink_time D pc
                \/ length push = 1 /\ sink_time D pc' <= D + 1)%nat) as (pc' & push & E & Ht).
  { unfold sink_step, sink_wait, sink_set_ready.
    destruct pc as [|[|n]|r|], d; do 2 eexists; (split; [reflexivity|]); simpl; lia. }
  cbn [sink_run si_room si_valid si_pins si_delay]. rewrite E. specialize (IH pc' H).
  destruct (sink_run ins pc') as [[pushes takens] pcn]. cbn [fst snd] in *. rewrite length_app. cbn [length].
  assert (1 <= sink_time D pc)%nat by (destruct pc; simpl; lia). nia.
Qed.

(** A source over edges at which its FIFO holds something: what the cache takes. *)
Record source_in := { so_fifo : list A; so_delay : nat; so_ready : bool }.
Fixpoint source_run (ins : list source_in) (pc : source_pc A) : list A * source_pc A :=
  match ins with
  | [] => ([], pc)
  | i :: ins =>
      let '(pc', _, _) := source_step (so_fifo i) (so_delay i) (so_ready i) pc in
      let '(takens, pcn) := source_run ins pc' in
      (source_taken (so_ready i) pc ++ takens, pcn)
  end.

Definition source_time (D : nat) (pc : source_pc A) : nat :=
  match pc with Src_Idle => D + 2 | Src_Delay n _ => n + 2 | Src_Valid _ => 1 end.

Lemma source_rate D ins : forall pc,
  Forall (fun i => so_fifo i <> [] /\ so_ready i = true /\ (so_delay i <= D)%nat) ins ->
  (length ins < source_time D pc + (D + 1) * length (source_run ins pc).1)%nat.
Proof.
  induction ins as [|[fifo d ready] ins IH]; intros pc H; [destruct pc; simpl; lia|].
  apply list.Forall_cons in H as [(Hf & Hr & Hd) H]. simpl in Hf, Hr, Hd. subst ready.
  destruct fifo as [|r fifo]; [done|].
  assert (exists pc' n sb, source_step (r :: fifo) d true pc = (pc', n, sb)
            /\ (length (source_taken true pc) = 0 /\ source_time D pc' < source_time D pc
                \/ length (source_taken true pc) = 1 /\ source_time D pc' <= D + 1)%nat)
    as (pc' & n & sb & E & Ht).
  { unfold source_step, source_top, source_wait, source_taken, on_pins.
    destruct pc as [|[|n] r'|r'], d; do 3 eexists; (split; [reflexivity|]); simpl; lia. }
  cbn [source_run so_fifo so_delay so_ready]. rewrite E. specialize (IH pc' H).
  destruct (source_run ins pc') as [takens pcn]. cbn [fst snd] in *. rewrite length_app. cbn [length].
  assert (1 <= source_time D pc)%nat by (destruct pc; simpl; lia). nia.
Qed.
End Channels.
Arguments source_in : clear implicits.

(** C38: A channel of the memory model never stalls: with the delays drawn from its distribution, a sink whose sender offers flits and whose FIFO has room pushes one at least every [max_delay + 1] edges, and a source whose FIFO is not empty and whose receiver is ready delivers one as often, after the first; by default that is 33 edges for requests and 65 for responses, and one for both under the delays of the read sequence. *)
Theorem channels_progress {A} (b : bag (Z * Z)) (ins : list (sink_in A)) (outs : list (source_in A)) :
  Forall (fun i => si_room i = true /\ si_valid i = true /\ drawn_range b (Z.of_nat (si_delay i))) ins ->
  Forall (fun o => so_fifo o <> [] /\ so_ready o = true /\ drawn_range b (Z.of_nat (so_delay o))) outs ->
  let D := max_delay b in
  let pushed := (sink_run ins Snk_Idle).1.1 in
  let taken := (source_run outs Src_Idle).1 in
  Z.of_nat (length ins) <= D + (D + 1) * Z.of_nat (length pushed)
  /\ Z.of_nat (length outs) <= D + 1 + (D + 1) * Z.of_nat (length taken)
  /\ (b = wa_ready_delay delays_init -> D = 32) /\ (b = wb_valid_delay delays_init -> D = 64)
  /\ (forall d, b = wa_ready_delay (read_seq_delays d) -> D = 0).
Proof.
  intros Hi Ho D pushed taken. pose proof (max_delay_nonneg b) as HD. fold D in HD.
  assert (length ins < sink_time (Z.to_nat D) (@Snk_Idle A) + (Z.to_nat D + 1) * length pushed)%nat as H1.
  { apply sink_rate. eapply list.Forall_impl; [exact Hi|]. intros i (Hr & Hv & Hd). split_and!; [done..|].
    apply drawn_max_delay in Hd. lia. }
  assert (length outs < source_time (Z.to_nat D) (@Src_Idle A) + (Z.to_nat D + 1) * length taken)%nat as H2.
  { apply source_rate. eapply list.Forall_impl; [exact Ho|]. intros o (Hr & Hv & Hd). split_and!; [done..|].
    apply drawn_max_delay in Hd. lia. }
  simpl in H1, H2. split_and!; [nia|nia|..].
  - by intros ->.
  - by intros ->.
  - by intros d ->.
Qed.

Lemma channels_progress_witness :
  let i := {| si_room := true; si_valid := true; si_pins := 7; si_delay := 2 |} in
  let o := {| so_fifo := [7; 8]; so_delay := 1; so_ready := true |} in
  7 <= 32 + 33 * Z.of_nat (length (sink_run (replicate 7 i) Snk_Idle).1.1)
  /\ length (sink_run (replicate 7 i) Snk_Idle).1.1 = 2%nat
  /\ length (source_run (replicate 7 o) Src_Idle).1 = 3%nat.
Proof.
  destruct (channels_progress ready_delay_init
              (replicate 7 {| si_room := true; si_valid := true; si_pins := 7; si_delay := 2 |})
              (replicate 7 {| so_fifo := [7; 8]; so_delay := 1; so_ready := true |})) as (H & _ & _).
  - apply Forall_replicate. split; [reflexivity|]. split; [reflexivity|]. exists 0, 2, 90.
    split; [apply list_elem_of_In; left; reflexivity|]. simpl. lia.
  - apply Forall_replicate. split; [discriminate|]. split; [reflexivity|]. exists 0, 2, 90.
    split; [apply list_elem_of_In; left; reflexivity|]. simpl. lia.
  - split; [exact H|]. split; reflexivity.
Defined.
