(* ===== verification/SeqRuns.v ===== *)
(** * The runs of the other sequences ([sequence_lib/])

    The unique-set sequence draws its set once and runs the loop of the random
    sequence; the read and write sequences send one kind of request, and the read
    sequence first removes the delays of the memory model. *)
From S2P Require Import Prelude Defs Transaction MemModel Sequence MemResp SeqGen SeqProps Delays.

(** ** The runs *)
Section Runs.
Context {cfg : HpdConfig} {fcfg : FaultConfig}.

(** [hpdcache_test_unique_set_seq::run]: [set = rand() % HPDCACHE_SETS]. *)
Definition draw_set (g : rng) : Z * rng := let '(r, g) := rand g in (r mod HPDCACHE_SETS, g).
Definition unique_set_run (max between : nat) (tus : list turn) (q : seq_state)
    : option (list (run_phase * transaction_req * Z) * run_phase * seq_state) :=
  let '(set, g) := draw_set (q_rng q) in
  seq_run max between (create_unique_set_transaction unique_set_seq set) tus (enter max 0)
    {| q_ids := q_ids q; q_rng := g; q_pool := q_pool q |}.

(** [hpdcache_test_read_seq::run] and [hpdcache_test_write_seq::run]: no transaction
    is an LR, so the loop is the main loop only. *)
Definition read_seq_run (max : nat) (tus : list turn) (d : delays) (q : seq_state)
    : option (delays * (list (run_phase * transaction_req * Z) * run_phase * seq_state)) :=
  r ← seq_run max 0 create_read_transaction tus (enter max 0) q; Some (read_seq_delays d, r).
Definition write_seq_run (keep_only : Z -> bag (Z * Z) -> bag (Z * Z)) (max : nat) (tus : list turn)
    (d : delays) (q : seq_state)
    : option (delays * (list (run_phase * transaction_req * Z) * run_phase * seq_state)) :=
  r ← seq_run max 0 create_write_transaction tus (enter max 0) q; Some (write_seq_delays keep_only d, r).
End Runs.

Section Props.
Context {cfg : HpdConfig} {wf : ConfigWf cfg} {fcfg : FaultConfig}.
Context (lg : Z) (Hlg : 2 <= lg <= 5) (Hlg3 : 3 <= lg) (Hbytes : REQ_DATA_BYTES = 2 ^ lg).
Context (Hpa : 32 <= HPDCACHE_PA_WIDTH).

(** ** The unique set *)

(** The SC of an LR is in the set of the LR. *)
Lemma sc_same_set d lr u tid t :
  lg <= HPDCACHE_CL_OFFSET_WIDTH -> is_word HPDCACHE_PA_WIDTH (req_addr lr) ->
  create_sc_transaction d (req_addr lr) u tid = Some t ->
  get_cache_set t = get_cache_set lr /\ is_word HPDCACHE_PA_WIDTH (req_addr t).
Proof using Hlg Hlg3 Hpa wf.
  intros Hline Hlr H.
  pose proof (create_sc_spec lg Hlg Hpa _ _ _ _ _ H Hlr) as (_ & _ & _ & H8 & _).
  split; [|unfold create_sc_transaction in H; apply bind_Some in H as (be & _ & [= <-]);
           apply wrap_word; pose proof cfg_pa; lia].
  unfold get_cache_set. f_equal. rewrite !Z.shiftr_div_pow2 by lia.
  replace HPDCACHE_CL_OFFSET_WIDTH with (3 + (HPDCACHE_CL_OFFSET_WIDTH - 3)) by lia.
  rewrite Z.pow_add_r by lia. change (2 ^ 3) with 8.
  rewrite <- !Z.div_div by (try apply Z.pow_pos_nonneg; lia). by rewrite H8.
Qed.

(** The transaction a phase remembers is in the set. *)
Definition phase_in_set (set : Z) (ph : run_phase) : Prop :=
  match ph with
  | Between _ lr _ | Sc _ lr => get_cache_set lr = set /\ is_word HPDCACHE_PA_WIDTH (req_addr lr)
  | _ => True
  end.

Lemma phase_next_in_set set max between sc_do ph t :
  phase_in_set set ph -> get_cache_set t = set -> is_word HPDCACHE_PA_WIDTH (req_addr t) ->
  phase_in_set set (phase_next max between sc_do ph t).
Proof.
  intros Hph Ht Hw. destruct ph as [n|n lr [|[|k]]|n lr|]; simpl; unfold enter; try done;
    try (by case_match). destruct (is_amo_lr t && sc_do); [by destruct between|by case_match].
Qed.

Lemma draw_set_word g r g' :
  draw_set g = (r, g') -> is_word HPDCACHE_SET_WIDTH r.
Proof using wf.
  clear lg Hlg Hlg3 Hbytes. intros [= <- <-]. destruct cfg_sets as (k & Hk & Hs). unfold HPDCACHE_SET_WIDTH. rewrite Hs.
  rewrite LOG2_pow2 by lia. apply Z.mod_pos_bound. apply Z.pow_pos_nonneg; lia.
Qed.

(** Each turn of the unique-set sequence sends a transaction of the set drawn when the run began, an SC after an LR included: as long as it has not stopped and an identifier is free the turn succeeds, under an identifier nobody used, and one turn less is left. *)
Theorem unique_set_turn max between tu ph q set g0 g :
  draw_set g0 = (set, g) ->
  lg <= HPDCACHE_CL_OFFSET_WIDTH -> HPDCACHE_SET_WIDTH + HPDCACHE_CL_OFFSET_WIDTH <= 14 ->
  phase_ok max between ph -> phase_in_set set ph -> ph <> Stop -> seq_inv q ->
  draw_ok unique_set_seq (tu_draws tu) ->
  is_available_id (release_all (q_ids q) (tu_released tu)) = true ->
  exists t ph' q',
    seq_turn max between (create_unique_set_transaction unique_set_seq set) tu ph q = Some (t, ph', q')
    /\ get_cache_set t = set /\ (match ph with Sc _ _ => is_amo_sc t = true | _ => request_ok lg unique_set_segs t end)
    /\ phase_in_set set ph' /\ phase_ok max between ph' /\ seq_inv q'
    /\ req_tid t ∉ release_all (q_ids q) (tu_released tu)
    /\ (phase_left max between ph' < phase_left max between ph)%nat.
Proof using All.
  intros Hset Hline Hgeo Hok Hin Hns Hinv Hd Hav. apply draw_set_word in Hset.
  assert (forall tid, exists t, create_unique_set_transaction unique_set_seq set (tu_draws tu) tid = Some t
            /\ request_ok lg unique_set_segs t /\ get_cache_set t = set) as Hu.
  { intros tid. by apply unique_set_request_ok. }
  edestruct (seq_turn_steps lg Hlg Hbytes max between
              (create_unique_set_transaction unique_set_seq set) tu ph q)
    as (t & ph' & q' & Hs & -> & Hc & Hq' & Hf & _ & Hok' & Hl); try done.
  { intros tid. destruct (Hu tid) as (t & Ht & _). exists t. split; [done|].
    by apply (create_unique_set_fields lg Hlg Hbytes Hpa) in Ht as [_ Ht]. }
  exists t, (phase_next max between (tu_sc_do tu) ph t), q'. split; [done|].
  assert (get_cache_set t = set /\ is_word HPDCACHE_PA_WIDTH (req_addr t)
          /\ match ph with Sc _ _ => is_amo_sc t = true | _ => request_ok lg unique_set_segs t end) as (Ht & Hw & Hk).
  { destruct ph as [n|n lr rest|n lr|]; [| |destruct Hc as [tid Hc]|done].
    1,2: destruct Hc as [tid Hc]; destruct (Hu tid) as (t' & Ht' & Hrok & Hts);
      assert (t' = t) as -> by congruence; split; [done|]; split; [|done];
      by apply (create_unique_set_fields lg Hlg Hbytes Hpa) in Hc as [].
    destruct Hin as [Hlr Hlrw]. pose proof (create_sc_spec lg Hlg Hpa _ _ _ _ _ Hc Hlrw) as (Hsc & _).
    apply sc_same_set in Hc as [-> Hw]; done. }
  split_and!; try done. by apply phase_next_in_set.
Qed.

(** ** One kind of request *)

(** What the read ([w] false) or write sequence sends. *)
Definition single_create (w : bool) : draws -> Z -> option transaction_req :=
  if w then create_write_transaction else create_read_transaction.
Definition single_setup (w : bool) : setup := if w then write_seq else read_seq.

Definition single_draw_ok (w : bool) (d : draws) : Prop :=
  drawn (su_op (single_setup w)) (d_op d) /\ (su_size (single_setup w)).1 <= d_size d <= (su_size (single_setup w)).2.

Lemma one_segment_ok w : Forall segment_ok (su_segs (single_setup w)).
Proof using Hpa.
  clear lg Hlg Hlg3 Hbytes.
  assert (forall x, 0 <= x < 2 ^ 32 -> wrap HPDCACHE_PA_WIDTH x = x) as Hw.
  { intros x Hx. apply wrap_small. unfold is_word.
    assert (2 ^ 32 <= 2 ^ HPDCACHE_PA_WIDTH) by (apply Z.pow_le_mono_r; lia). lia. }
  destruct w; cbv [single_setup write_seq read_seq single_op_seq one_segment su_segs segs_init on_seg]; simpl;
    cbv [set_base set_length set_uncached memory_segment_init ms_base ms_length ms_uncached ms_amo_supported
         ms_wr_policy_hint]; rewrite !Hw by lia; apply list.Forall_cons; (split; [|constructor]);
    (constructor; cbn [ms_base ms_length]; [lia|lia|lia|..]; apply Z.mod_divide; done).
Qed.

Lemma single_create_ok w d tid :
  single_draw_ok w d ->
  exists t, single_create w d tid = Some t /\ request_ok lg (su_segs (single_setup w)) t
    /\ is_load t = negb w /\ is_store t = w /\ req_need_rsp t = true /\ req_uncacheable t = false
    /\ is_amo_lr t = false /\ req_tid t = wrap HPDCACHE_REQ_TRANS_ID_WIDTH tid.
Proof using All.
  intros [Hop Hsz].
  assert (op_known (d_op d) = true /\ d_op d = op_v (if w then HPDCACHE_REQ_STORE else HPDCACHE_REQ_LOAD)) as [Hk Hv].
  { assert (d_op d = op_v (if w then HPDCACHE_REQ_STORE else HPDCACHE_REQ_LOAD)) as ->; [|by destruct w].
    destruct w, Hop as (x & Hin & _); apply list_elem_of_singleton in Hin; congruence. }
  destruct (wrap_op lg (d_op d) Hk) as [Hwop Hsome].
  pose proof (one_segment_ok w) as Hseg.
  assert (exists seg, su_segs (single_setup w) = [seg]) as [seg Hs] by (destruct w; by eexists).
  rewrite Hs in Hseg. apply list.Forall_cons in Hseg as [Hseg _].
  assert (0 <= d_size d <= 3) as Hd by by destruct w.
  assert (u32 (d_size d) = d_size d) as Hu by (apply wrap_small; unfold is_word; lia).
  destruct (segment_address_spec lg Hlg seg (d_addr d) (d_size d) Hseg ltac:(lia)) as (a & Ha & Hin & Hdiv).
  destruct (aligned_in_request lg Hlg Hbytes a (d_size d) ltac:(lia) Hdiv) as [Hf0 Hf].
  destruct (request_be_spec lg Hlg Hbytes (d_size d) (a mod REQ_DATA_BYTES)) as (be & Hbe & Hbit); [lia..|].
  assert (exists wd, single_create w d tid = create_single_transaction (single_setup w) wd d tid) as [wd ->].
  { destruct w; by eexists. }
  unfold create_single_transaction. rewrite Hs. simpl. rewrite Hu, Z.shiftl_mul_pow2, Z.mul_1_l, Ha by lia.
  simpl. rewrite Hbe. simpl. eexists. split; [done|].
  destruct Hseg as [Hb Hl He _ _].
  assert (wrap HPDCACHE_PA_WIDTH a = a) as Hwa.
  { apply wrap_small. unfold is_word.
    assert (2 ^ 32 <= 2 ^ HPDCACHE_PA_WIDTH) by (apply Z.pow_le_mono_r; lia). lia. }
  assert (wrap HPDCACHE_REQ_SIZE_WIDTH (d_size d) = d_size d) as Hws.
  { apply wrap_small. unfold is_word, HPDCACHE_REQ_SIZE_WIDTH. lia. }
  assert (ms_uncached seg = false) as -> by (destruct w; by injection Hs as <-).
  rewrite Hv in *. split; [|by destruct w].
  constructor; cbn [build req_addr req_op req_be req_size req_need_rsp req_uncacheable];
    rewrite ?Hwa, ?Hwop, ?Hws; auto; [exists seg; split; [by apply list_elem_of_singleton|done]|lia|by destruct w|by destruct w].
Qed.

(** The read and write sequences send exactly [max_transactions] requests of their one kind: as long as fewer were sent and an identifier is free a turn succeeds, with a load (or a store) under an identifier nobody used, cacheable, well formed, in the one segment and wanting its response; after the last the sequence stops. *)
Theorem single_turn w (max n : nat) tu q :
  (n < max)%nat -> seq_inv q -> single_draw_ok w (tu_draws tu) ->
  is_available_id (release_all (q_ids q) (tu_released tu)) = true ->
  exists t q', seq_turn max 0 (single_create w) tu (Main n) q = Some (t, enter max (S n), q')
    /\ request_ok lg (su_segs (single_setup w)) t /\ is_load t = negb w /\ is_store t = w
    /\ req_need_rsp t = true /\ req_uncacheable t = false
    /\ seq_inv q' /\ req_tid t ∉ release_all (q_ids q) (tu_released tu)
    /\ (enter max (S n) = Stop <-> S n = max).
Proof using All.
  intros Hn Hinv Hd Hav.
  edestruct (seq_turn_steps lg Hlg Hbytes max 0 (single_create w) tu (Main n) q)
    as (t & ph' & q' & Hs & -> & [tid Hc] & Hq' & Hf & _); try done.
  { intros tid. destruct (single_create_ok w (tu_draws tu) tid Hd) as (t & Ht & _ & _ & _ & _ & _ & _ & Htid). eauto. }
  destruct (single_create_ok w (tu_draws tu) tid Hd) as (t' & Ht & Hrok & Hl & Hst & Hr & Hu & Hlr & _).
  assert (t' = t) as -> by congruence. exists t, q'. cbn [phase_next] in Hs. rewrite Hlr in Hs. split; [done|]. split_and!; try done.
  unfold enter. destruct (Nat.ltb_spec (S n) max); (split; [done || lia|intros; done || lia]).
Qed.
End Props.

(** ** Witnesses *)
#[local] Existing Instance default_config.
#[local] Existing Instance ex_fault_config.
Definition ex_single : turn :=
  {| tu_released := []; tu_delay := 0; tu_sc_do := false;
     tu_draws := {| d_seg := 0; d_addr := 0x1235; d_op := op_v HPDCACHE_REQ_STORE; d_op_amo := 0; d_data := 0xab;
                    d_size := 1; d_wr_policy := HPDCACHE_WR_POLICY_AUTO; d_need_rsp := false; d_fault := false;
                    d_fault_way := 0; d_fault_domain := CACHE_DAT; d_fault_double := false |} |}.

Lemma ex_state_inv : seq_inv ex_state.
Proof. constructor; [exact ex_ids_wf|exact ex_pool_inv]. Qed.

Lemma single_turn_witness :
  exists t q', seq_turn 1 0 (single_create true) ex_single (Main 0) ex_state = Some (t, Stop, q')
    /\ is_store t = true /\ req_tid t ∉ [4].
Proof.
  destruct (@single_turn default_config _ ex_fault_config 3 ltac:(lia) ltac:(lia) ltac:(reflexivity)
              ltac:(vm_compute; discriminate) true 1 0 ex_single ex_state)
    as (t & q' & H1 & _ & _ & H2 & _ & _ & _ & H3 & _).
  - lia.
  - exact ex_state_inv.
  - split; [exists 1; split; [apply list_elem_of_In; left; reflexivity|lia]|split; vm_compute; discriminate].
  - reflexivity.
  - exists t, q'. split; [exact H1|]. split; [exact H2|exact H3].
Defined.

Lemma unique_set_turn_witness :
  exists t ph' q', seq_turn 1 1
      (create_unique_set_transaction unique_set_seq (draw_set ex_seq_rng).1)
      (ex_turn HPDCACHE_REQ_AMO_LR 0x2f8) (Main 0) ex_state = Some (t, ph', q')
    /\ get_cache_set t = (draw_set ex_seq_rng).1.
Proof.
  destruct (@unique_set_turn default_config _ ex_fault_config 3 ltac:(lia) ltac:(lia) ltac:(reflexivity)
              ltac:(vm_compute; discriminate) 1 1 (ex_turn HPDCACHE_REQ_AMO_LR 0x2f8) (Main 0) ex_state
              (draw_set ex_seq_rng).1 ex_seq_rng (draw_set ex_seq_rng).2)
    as (t & ph' & q' & H1 & H2 & _).
  - reflexivity.
  - vm_compute; discriminate.
  - vm_compute; discriminate.
  - simpl. lia.
  - exact I.
  - discriminate.
  - exact ex_state_inv.
  - apply ex_draw_ok; [right; reflexivity|left; reflexivity].
  - reflexivity.
  - exists t, ph', q'. split; [exact H1|exact H2].
Defined.
