(* ===== verification/SeqRegion.v ===== *)
(** * The addresses of the sequences and the reference memory

    The scoreboard keeps 16 MiB, and an address is taken modulo that size: two addresses
    of the segments of a sequence must not share a byte. What the sequences send is what
    the device of [Device] accepts. *)
From S2P Require Import Prelude Defs Transaction RamModel MemModel Sequence MemResp.
From S2P Require Import Scoreboard ScoreboardProps ScoreboardData Device DeviceSb.
From S2P Require Import SeqGen SeqProps SeqRuns.

#[local] Open Scope Z_scope.

(** The addresses of the segments. *)
Definition seg_region (segs : list memory_segment) (a : Z) : Prop :=
  exists seg, seg ∈ segs /\ ms_base seg <= a < ms_base seg + ms_length seg.

(** Intervals whose places modulo [N] do not wrap and are apart. *)
Definition places_apart (N : Z) (l : list (Z * Z)) : bool :=
  forallb (fun x => x.1 mod N + x.2 <=? N) l
  && forallb (fun x => forallb (fun y => bool_decide (x = y)
       || (x.1 mod N + x.2 <=? y.1 mod N) || (y.1 mod N + y.2 <=? x.1 mod N)) l) l.

Lemma places_apart_inj N l a b x y :
  0 < N -> places_apart N l = true -> x ∈ l -> y ∈ l -> x.1 <= a < x.1 + x.2 -> y.1 <= b < y.1 + y.2 ->
  a mod N = b mod N -> a = b.
Proof.
  intros HN [Hf Hp]%andb_prop Hx Hy Ha Hb E. rewrite forallb_forall in Hf, Hp.
  pose proof (Hf x (proj1 (list_elem_of_In _ _) Hx)) as Fx. pose proof (Hf y (proj1 (list_elem_of_In _ _) Hy)) as Fy.
  pose proof (Hp x (proj1 (list_elem_of_In _ _) Hx)) as Pxy. rewrite forallb_forall in Pxy.
  specialize (Pxy y (proj1 (list_elem_of_In _ _) Hy)). apply Z.leb_le in Fx, Fy.
  assert (forall z c, z.1 <= c < z.1 + z.2 -> z.1 mod N + z.2 <= N -> c mod N = z.1 mod N + (c - z.1)) as Hm.
  { intros z c Hc Hz. pose proof (Z.mod_pos_bound z.1 N HN). pose proof (Z.div_mod z.1 N ltac:(lia)).
    symmetry. apply (Z.mod_unique _ _ (z.1 / N)); lia. }
  rewrite (Hm x a), (Hm y b) in E by done. rewrite !orb_true_iff, bool_decide_eq_true, !Z.leb_le in Pxy.
  destruct Pxy as [[-> |H]|H]; lia.
Qed.

Definition seg_bounds (segs : list memory_segment) : list (Z * Z) := (fun s => (ms_base s, ms_length s)) <$> segs.

Lemma seg_region_inj N segs a b :
  0 < N -> places_apart N (seg_bounds segs) = true ->
  seg_region segs a -> seg_region segs b -> a mod N = b mod N -> a = b.
Proof.
  intros HN Hp (x & Hx & Ha) (y & Hy & Hb) E.
  eapply (places_apart_inj N _ a b (ms_base x, ms_length x) (ms_base y, ms_length y)); try done;
    apply list_elem_of_fmap; [by exists x|by exists y].
Qed.

(** ** Bounds *)
Section Bounds.
Context {cfg : HpdConfig} {wf : ConfigWf cfg} {fcfg : FaultConfig}.
Context (Hpa : 32 <= HPDCACHE_PA_WIDTH).

Definition sequences : list setup := [random_seq; unique_set_seq; read_seq; write_seq].

Lemma sequence_bounds su : su ∈ sequences -> places_apart SCOREBOARD_RAM_SIZE (seg_bounds (su_segs su)) = true.
Proof using Hpa.
  assert (forall x, 0 <= x < 2 ^ 32 -> wrap HPDCACHE_PA_WIDTH x = x) as Hw.
  { intros x Hx. apply wrap_small. unfold is_word.
    assert (2 ^ 32 <= 2 ^ HPDCACHE_PA_WIDTH) by (apply Z.pow_le_mono_r; lia). lia. }
  intros Hsu. unfold sequences in Hsu.
  repeat (apply elem_of_cons in Hsu as [->|Hsu]); [..|by apply not_elem_of_nil in Hsu];
    cbv [random_seq unique_set_seq read_seq write_seq single_op_seq one_segment su_segs random_segs unique_set_segs
      segs_init on_seg seg_bounds]; simpl;
    cbv [set_base set_length set_uncached set_amo_supported set_wr_policy_hint memory_segment_init
      ms_base ms_length ms_uncached ms_amo_supported ms_wr_policy_hint]; rewrite !Hw by lia; by vm_compute.
Qed.

Lemma sequence_segments su : su ∈ sequences -> Forall segment_ok (su_segs su).
Proof using Hpa.
  intros Hsu. unfold sequences in Hsu.
  repeat (apply elem_of_cons in Hsu as [->|Hsu]); [..|by apply not_elem_of_nil in Hsu].
  - by apply (segments_ok 2 ltac:(lia) Hpa); left.
  - by apply (segments_ok 2 ltac:(lia) Hpa); right.
  - by apply (one_segment_ok Hpa false).
  - by apply (one_segment_ok Hpa true).
Qed.

(** A block of at most 2^14 bytes is inside its segment. *)
Lemma seg_region_block segs a n k :
  Forall segment_ok segs -> seg_region segs a -> 0 < n -> (n | 2 ^ 14) -> 0 <= k < n -> seg_region segs (align_to a n + k).
Proof.
  intros Hok (seg & Hseg & Ha) Hn Hdiv Hk. exists seg. split; [done|]. rewrite list.Forall_forall in Hok.
  destruct (Hok seg Hseg) as [_ _ _ Hb Hl].
  assert ((n | ms_base seg)) as [b Eb] by (by etrans). assert ((n | ms_length seg)) as [l El] by (by etrans).
  unfold align_to. pose proof (Z.div_mod a n ltac:(lia)) as Hdm. pose proof (Z.mod_pos_bound a n Hn).
  assert (b <= a / n) by (apply Z.div_le_lower_bound; lia). assert (a / n < b + l) by (apply Z.div_lt_upper_bound; nia).
  nia.
Qed.

(** C17: The reference memory has a byte for every address of a sequence. Whatever the width of addresses, 32 bits or more, no two addresses in the segments of a random, unique-set, read or write sequence share a byte of the 16 MiB of the scoreboard, although it takes addresses modulo its size; they are below 2^32; and an aligned block of up to 2^14 bytes around one, as a request or a bus word is, stays inside the segments and does not wrap in the memory. *)
Theorem sequence_fits_ram su :
  su ∈ sequences ->
  (forall a b, seg_region (su_segs su) a -> seg_region (su_segs su) b ->
     a mod SCOREBOARD_RAM_SIZE = b mod SCOREBOARD_RAM_SIZE -> a = b)
  /\ (forall a, seg_region (su_segs su) a -> 0 <= a < 2 ^ 32)
  /\ (forall a n k, seg_region (su_segs su) a -> 0 < n -> (n | 2 ^ 14) -> 0 <= k < n ->
       seg_region (su_segs su) (align_to a n + k)
       /\ (align_to a n + k) mod SCOREBOARD_RAM_SIZE = align_to a n mod SCOREBOARD_RAM_SIZE + k).
Proof using Hpa.
  intros Hsu. pose proof (sequence_segments su Hsu) as Hok. split_and!.
  - intros a b. by apply seg_region_inj, sequence_bounds.
  - intros a (seg & Hseg & Ha). rewrite list.Forall_forall in Hok. destruct (Hok seg Hseg). lia.
  - intros a n k Ha Hn Hdiv Hk. split; [by apply seg_region_block|].
    pose proof RAM_SIZE_pos as HS. assert ((n | SCOREBOARD_RAM_SIZE)) as HN by (etrans; [exact Hdiv|by exists 1024]).
    assert ((n | align_to a n)) as Hal by (by exists (a / n)).
    pose proof (aligned_in_range SCOREBOARD_RAM_SIZE HS n _ Hn HN Hal). pose proof (Z.mod_pos_bound (align_to a n) _ HS).
    rewrite Z.add_mod by lia. rewrite (Z.mod_small k) by lia. apply Z.mod_small. lia.
Qed.
End Bounds.

(** ** The requests *)
Section Requests.
Context {cfg : HpdConfig} {wf : ConfigWf cfg}.
Context (lg : Z) (Hlg : 2 <= lg <= 5) (Hlg3 : 3 <= lg) (Hbytes : REQ_DATA_BYTES = 2 ^ lg).
Context (Hpa : 32 <= HPDCACHE_PA_WIDTH) (Hline : lg <= HPDCACHE_CL_OFFSET_WIDTH).
Hypothesis Hword : HPDCACHE_WORD_WIDTH = 64.

Lemma core_bytes : CORE_REQ_BYTES = REQ_DATA_BYTES /\ (CORE_REQ_BYTES | 2 ^ 14) /\ 0 < CORE_REQ_BYTES.
Proof using Hlg Hbytes Hword.
  destruct (req_bytes_8 Hword) as [_ Hb]. unfold REQ_DATA_BYTES in *. rewrite <-Hb, Hbytes. split_and!.
  - done.
  - exists (2 ^ (14 - lg)). rewrite <-Z.pow_add_r by lia. f_equal. lia.
  - apply Z.pow_pos_nonneg; lia.
Qed.

Lemma small_size sz : 0 <= sz <= lg -> u8 (Z.shiftl 1 sz) = 2 ^ sz.
Proof using Hlg.
  intros Hs. rewrite Z.shiftl_mul_pow2, Z.mul_1_l by lia. apply wrap_small. split; [apply Z.pow_nonneg; lia|].
  apply (Z.lt_le_trans _ (2 ^ 8)); [apply Z.pow_lt_mono_r; lia|done].
Qed.

(** What the sequences create, the device accepts. *)
Lemma request_ok_good segs t :
  Forall segment_ok segs -> request_ok lg segs t -> req_good (seg_region segs) t.
Proof using All.
  intros Hok [(seg & Hseg & Ha) _ Hsz Hal Hfit Hbe _ Hat]. destruct core_bytes as (HB & HB14 & HB0).
  assert (0 <= req_addr t) as H0 by (rewrite list.Forall_forall in Hok; destruct (Hok seg Hseg); lia).
  assert (req_bytes t = 2 ^ req_size t) as Hb by (by apply small_size).
  assert (is_atomic_op t = (is_amo t || is_amo_sc t || is_amo_lr t)) as Eat.
  { unfold is_atomic_op. by destruct (is_amo t), (is_amo_lr t), (is_amo_sc t). }
  split.
  - done.
  - intros _. lia.
  - done.
  - intros Hc. unfold req_offset. rewrite HB, Hb. by apply Hfit.
  - intros _ k Hk. apply (seg_region_block segs (req_addr t) CORE_REQ_BYTES k); try done. by exists seg.
  - rewrite Eat. apply Hat.
  - intros Hx k Hk. rewrite Eat in Hx. destruct (kinds t) as (_ & _ & K3 & K4 & K5).
    assert (is_cmo t = false) as Hc.
    { apply orb_true_iff in Hx as [Hx|Hx]; [apply orb_true_iff in Hx as [Hx|Hx]|]; naive_solver. }
    rewrite Hbe by done. unfold accessed, req_offset. rewrite HB, Hb, andb_true_iff, Z.leb_le, Z.ltb_lt. lia.
Qed.

(** The SC that follows an LR accesses the block of the LR. *)
Lemma sc_good region d lr u tid t :
  req_good region lr -> is_amo_lr lr = true -> is_word HPDCACHE_PA_WIDTH (req_addr lr) ->
  create_sc_transaction d (req_addr lr) u tid = Some t -> req_good region t.
Proof using All.
  intros Hg Hlr Hw Hsc. destruct core_bytes as (HB & _ & HB0).
  destruct (create_sc_spec lg Hlg Hpa _ _ _ _ _ Hsc Hw) as (Hk & _ & Hn & _).
  unfold create_sc_transaction in Hsc. set (sz := create_random_size d true) in *.
  assert (sz = 2 \/ sz = 3) as Hsz by (unfold sz, create_random_size; destruct (3 <=? u32 (d_size d)); auto).
  rewrite Z.shiftl_mul_pow2, Z.mul_1_l in Hsc by lia. set (x := req_addr lr / 2 ^ sz * 2 ^ sz) in *.
  assert (0 < 2 ^ sz) as Hp by (apply Z.pow_pos_nonneg; lia). assert ((2 ^ sz | x)) as Hdx by (by eexists).
  assert (0 <= x <= req_addr lr) as Hx by (apply align_to_range; [done|apply Hg]).
  destruct (aligned_in_request lg Hlg Hbytes x sz ltac:(lia) Hdx) as [Hf0 Hf].
  destruct (request_be_spec lg Hlg Hbytes sz (x mod REQ_DATA_BYTES) ltac:(lia) Hf0 Hf) as (be & Hbe & Hbit).
  rewrite Hbe in Hsc. simpl in Hsc. injection Hsc as <-.
  assert (wrap HPDCACHE_PA_WIDTH x = x) as Ex by (apply wrap_small; unfold is_word in *; lia).
  assert (wrap HPDCACHE_REQ_SIZE_WIDTH sz = sz) as Es by (by destruct Hsz as [-> | ->]).
  assert (align_to x CORE_REQ_BYTES = align_to (req_addr lr) CORE_REQ_BYTES) as Eb.
  { assert (CORE_REQ_BYTES = 2 ^ sz * 2 ^ (lg - sz)) as E by (rewrite HB, Hbytes, <-Z.pow_add_r by lia; f_equal; lia).
    assert (0 < 2 ^ (lg - sz)) by (apply Z.pow_pos_nonneg; lia).
    unfold align_to. rewrite E, <-!Z.div_div by lia. unfold x. by rewrite Z.div_mul by lia. }
  split; unfold req_offset, req_base, req_bytes, accessed, req_bytes, req_offset; cbn [build req_addr req_size req_be req_need_rsp];
    rewrite ?Ex, ?Es, ?HB, ?(small_size sz) by lia.
  - lia.
  - intros _. lia.
  - done.
  - done.
  - intros _ k Hk'. rewrite <-HB, Eb. destruct (kinds lr) as (_ & _ & K & _).
    apply (rg_region _ _ Hg); [by apply K|lia].
  - done.
  - intros _ k Hk'. rewrite Hbit, andb_true_iff, Z.leb_le, Z.ltb_lt by done. lia.
Qed.
End Requests.

(** ** Witness: two segments of the random sequence *)
#[local] Existing Instance default_config.
#[local] Existing Instance ex_fault_config.

Lemma ex_segment_1 a : 0x40004000 <= a < 0x40008000 -> seg_region (su_segs random_seq) a.
Proof.
  intros Ha. destruct (su_segs random_seq !! 1%nat) as [seg|] eqn:E; [|by vm_compute in E].
  exists seg. split; [by eapply list_elem_of_lookup_2|]. vm_compute in E. injection E as <-. exact Ha.
Qed.
Lemma ex_segment_2 a : 0x80008000 <= a < 0x8000C000 -> seg_region (su_segs random_seq) a.
Proof.
  intros Ha. destruct (su_segs random_seq !! 2%nat) as [seg|] eqn:E; [|by vm_compute in E].
  exists seg. split; [by eapply list_elem_of_lookup_2|]. vm_compute in E. injection E as <-. exact Ha.
Qed.

Lemma sequence_fits_ram_witness :
  seg_region (su_segs random_seq) (align_to 0x40004013 8 + 5)
  /\ 0x40004013 mod SCOREBOARD_RAM_SIZE <> 0x80008013 mod SCOREBOARD_RAM_SIZE.
Proof.
  destruct (@sequence_fits_ram default_config ex_fault_config ltac:(vm_compute; discriminate) random_seq
    (list_elem_of_here _ _)) as (H1 & _ & H3). split.
  - apply H3; [apply ex_segment_1; lia|lia|by exists 2048|lia].
  - intros E. discriminate (H1 0x40004013 0x80008013 ltac:(apply ex_segment_1; lia) ltac:(apply ex_segment_2; lia) E).
Defined.
