(* ===== verification/Bench.v ===== *)
(** * The test bench with a faithful cache

    The loop of [System] with the device of [Device] in the place of the environment. The
    device accepts a request when the scoreboard takes it from its FIFO, which is in the
    instant of the edge that granted it: the device is not ready before, nor while it
    handles an atomic operation. *)
From S2P Require Import Prelude Defs Transaction RamModel Amo MemModel MemResp Sequence.
From S2P Require Import Scoreboard ScoreboardProps ScoreboardLrsc ScoreboardData ScoreboardSafe.
From S2P Require Import Device DeviceSb DeviceProps DeviceMem DeviceRuns.
From S2P Require Import SeqGen SeqProps Driver System SystemLive SeqRuns SeqRegion.

#[local] Open Scope Z_scope.
#[local] Arguments drive_request : simpl never.
#[local] Arguments phase_left : simpl never.

Record bench := { bn_sys : system; bn_dev : device }.

Section Bench.
Context {cfg : HpdConfig} {wf : ConfigWf cfg}.
Hypothesis Hword : HPDCACHE_WORD_WIDTH = 64.
Hypothesis Hwords : 1 <= HPDCACHE_REQ_WORDS.
Hypothesis Hdiv : (CORE_REQ_BYTES | SCOREBOARD_RAM_SIZE).
Hypothesis Hmem : (MEM_BYTES | SCOREBOARD_RAM_SIZE).
Context (lg : Z) (Hlg : 2 <= lg <= 5) (Hlg3 : 3 <= lg) (Hbytes : REQ_DATA_BYTES = 2 ^ lg).
Context (Hpa : 32 <= HPDCACHE_PA_WIDTH) (Hline : lg <= HPDCACHE_CL_OFFSET_WIDTH).
Context (segs : list segment_t) (region : Z -> Prop).
Hypothesis Hinj : forall a b,
  region a -> region b -> a mod SCOREBOARD_RAM_SIZE = b mod SCOREBOARD_RAM_SIZE -> a = b.
Hypothesis Hbus : forall a, region a -> bus_good region a.

(** A sequence whose requests the device accepts, and that can always create one. *)
Context (max between : nat) (create : draws -> Z -> option transaction_req).
Hypothesis create_tid : forall d tid t,
  create d tid = Some t -> req_tid t = wrap HPDCACHE_REQ_TRANS_ID_WIDTH tid.
Hypothesis create_good : forall d tid t,
  create d tid = Some t -> req_good region t /\ is_word HPDCACHE_PA_WIDTH (req_addr t).
Hypothesis create_total : exists d, forall tid, is_Some (create d tid).

(** ** Steps *)

(** The actions of the sequence and the driver, and of the process that samples
    [no_inflight_requests]. *)
Definition loop_action (a : action) : bool :=
  match a with CoreReq _ | Device _ => false | _ => true end.
Definition may_grant (b : bench) : Prop :=
  dv_uc (bn_dev b) = UC_IDLE /\ sy_taken (bn_sys b) = length (dr_sb (sy_driver (bn_sys b))).

Inductive bench_step (b : bench) : bench -> Prop :=
  | bench_loop a y' :
      loop_action a = true -> (a = ClockEdge true -> may_grant b) -> exec max between create a (bn_sys b) = Some y' ->
      bench_step b {| bn_sys := y'; bn_dev := bn_dev b |}
  | bench_accept junk t s d' :
      dr_sb (sy_driver (bn_sys b)) !! sy_taken (bn_sys b) = Some t ->
      dev_step segs region (bn_dev b) (EvCoreReq junk t) d' ->
      handle (EvCoreReq junk t) (sy_sb (bn_sys b)) = Done tt s ->
      bench_step b {| bn_sys := set_sb (S (sy_taken (bn_sys b))) s (bn_sys b); bn_dev := d' |}
  | bench_device ev s d' :
      device_event ev = true -> dev_step segs region (bn_dev b) ev d' -> handle ev (sy_sb (bn_sys b)) = Done tt s ->
      bench_step b {| bn_sys := set_sb (sy_taken (bn_sys b)) s (bn_sys b); bn_dev := d' |}.

Definition bench_init (m : memory) (g : rng) (bundle : nat) (lrsc : lrsc_reservation_buf_t) (limit : Z) : bench :=
  {| bn_sys := sys_init max g bundle (sb_built lrsc segs limit); bn_dev := device_init m |}.

(** The loop takes its own steps, with answers of a device. *)
Lemma bench_sys b b' : bench_step b b' -> sys_step max between create (bn_sys b) (bn_sys b').
Proof.
  intros [a y' _ _ He|junk t s d' Ht _ Hs|ev s d' Hev _ Hs]; simpl.
  - by eapply exec_step.
  - by eapply sys_core_req.
  - by eapply sys_device.
Qed.

(** ** Invariant *)

(** The transaction a phase of the sequence remembers. *)
Definition phase_good (ph : run_phase) : Prop :=
  match ph with
  | Between _ lr _ | Sc _ lr => req_good region lr /\ is_amo_lr lr = true /\ is_word HPDCACHE_PA_WIDTH (req_addr lr)
  | _ => True
  end.

Definition bytes_mem (m : memory) : Prop := forall a, is_word 8 (m a).

Record bench_inv (b : bench) : Prop := {
  bi_live : live_inv max between (bn_sys b);
  bi_related : related segs region (bn_dev b) (sy_sb (bn_sys b));
  bi_given : Forall (req_good region) (given (sy_driver (bn_sys b)));
  bi_phase : phase_good (sy_phase (bn_sys b));
  bi_granted : (sy_taken (bn_sys b) < length (dr_sb (sy_driver (bn_sys b))))%nat ->
    dv_uc (bn_dev b) = UC_IDLE /\ length (dr_sb (sy_driver (bn_sys b))) = S (sy_taken (bn_sys b));
  bi_mem : bytes_mem (dv_mem (bn_dev b));
  bi_owed : forall tid o, dv_owed (bn_dev b) !! tid = Some o -> bytes_mem (ow_mem o);
}.

Lemma good_fits t : req_good region t -> req_fits t.
Proof.
  intros Hg Hk. destruct (kinds t) as (K1 & _ & K3 & _ & K5).
  assert (is_cmo t = false) as Hc.
  { apply orb_true_iff in Hk as [Hk|Hk]; [apply orb_true_iff in Hk as [Hk|Hk]|]; naive_solver. }
  exact (rg_fits _ _ Hg Hc).
Qed.

Lemma create_fits d tid t : create d tid = Some t -> req_fits t.
Proof using All. intros H. by apply good_fits, (create_good d tid). Qed.

(** What a turn sends, and the transaction it remembers. *)
Lemma turn_good d dl sc ph q t ph' q' :
  seq_turn max between create {| tu_released := []; tu_draws := d; tu_delay := dl; tu_sc_do := sc |} ph q
    = Some (t, ph', q') ->
  phase_good ph -> req_good region t /\ phase_good ph'.
Proof using All.
  intros H Hph. unfold seq_turn in H. simpl in H.
  apply bind_Some in H as (c & Hc & H). apply bind_Some in H as ([t' q1] & Hs & [= <- <- <-]).
  assert (exists tid, c tid = Some t') as [tid Ht].
  { unfold create_and_send in Hs. apply bind_Some in Hs as ([r p] & _ & Hs).
    apply bind_Some in Hs as ([[tid ids] g] & _ & Hs). apply bind_Some in Hs as (t0 & Ht & [= <- _]). eauto. }
  assert (forall n, phase_good (enter max n)) as He by (intros n; unfold enter; by destruct (_ <? _)%nat).
  destruct ph as [n|n lr rest|n lr|]; simplify_eq; cbn [phase_next].
  - destruct (create_good d tid t' Ht) as [Hg Hw]. split; [done|].
    destruct (is_amo_lr t' && sc) eqn:E; [|done]. apply andb_prop in E as [Hlr _]. by destruct between.
  - split; [by apply (create_good d tid t' Ht)|]. by destruct rest as [|[|k]].
  - destruct Hph as (Hg & Hlr & Hw). split; [|done]. by eapply (sc_good lg Hlg Hlg3 Hbytes Hpa Hline Hword region).
Qed.

(** *** Bytes *)
Lemma write_enabled_bytes t f d :
  (forall a, is_word 8 (f a)) -> bytes_mem (dv_mem d) -> bytes_mem (dv_mem (write_enabled t f d)).
Proof. intros Hf Hd a. simpl. by destruct (enabled t a). Qed.

Lemma store_bytes t d : bytes_mem (dv_mem d) -> bytes_mem (dv_mem (store t d)).
Proof. apply write_enabled_bytes. intros a. apply byte_of_word. Qed.
Lemma amo_bytes t d : bytes_mem (dv_mem d) -> bytes_mem (dv_mem (Device.amo t d)).
Proof. apply write_enabled_bytes. intros a. apply byte_of_word. Qed.

Lemma step_bytes d ev d' :
  dev_step segs region d ev d' -> bytes_mem (dv_mem d) ->
  (forall tid o, dv_owed d !! tid = Some o -> bytes_mem (ow_mem o)) ->
  bytes_mem (dv_mem d') /\ forall tid o, dv_owed d' !! tid = Some o -> bytes_mem (ow_mem o).
Proof.
  intros Hst Hm Ho.
  destruct Hst as [junk t|r o|r o t ok|req|req t|resp a Ha Ht|wr|wr t|resp|id|i]; try done.
  - destruct (accept_fields segs t d) as (-> & _ & _ & -> & _). split.
    + destruct (is_store t && _); [by apply store_bytes|done].
    + intros tid o. destruct (req_need_rsp t); [|apply Ho].
      intros [[<- <-]|[_ Hx]]%lookup_insert_Some; [done|by eapply Ho].
  - split; [done|]. intros tid o' Hx. simpl in Hx. apply lookup_delete_Some in Hx as [_ Hx]. by eapply Ho.
  - destruct (commit_fields o ok d) as (_ & -> & _). split.
    + unfold commit. simpl. destruct (ow_error o); [done|]. destruct (is_amo (ow_req o)); [by apply amo_bytes|].
      destruct (is_amo_sc (ow_req o) && ok); [by apply store_bytes|done].
    + intros tid o' [_ Hx]%lookup_delete_Some. by eapply Ho.
  - unfold beat. by destruct (rresp_last resp), (rresp_error resp =? 0).
Qed.

(** *** Every step keeps it *)
Lemma related_ids d s ids : related segs region d s -> related segs region d (set_ids ids s).
Proof. intros []. by constructor. Qed.

Lemma loop_step b a y' :
  bench_inv b -> loop_action a = true -> (a = ClockEdge true -> may_grant b) ->
  exec max between create a (bn_sys b) = Some y' -> live_inv max between y' ->
  bench_inv {| bn_sys := y'; bn_dev := bn_dev b |}.
Proof using All.
  intros [Hl Hr Hg Hp Hgr Hm Ho] Hla Hgrant He Hl'. set (y := bn_sys b) in *. pose proof (lv_sys _ _ _ Hl) as Hs.
  destruct a as [d dl sc| | |ready| |junk|ev]; try done; simpl in He.
  - destruct (sy_wait y) eqn:Hw, (sy_done y) eqn:Hd; try done. simpl in He.
    apply bind_Some in He as ([[t ph] q] & Ht & [= <-]). destruct (turn_good _ _ _ _ _ _ _ _ Ht Hp) as [Ht' Hp'].
    constructor; simpl; try done; [by apply related_ids| |by rewrite push_sb].
    rewrite given_send by done. apply list.Forall_app. split; [done|]. by apply list.Forall_singleton.
  - destruct (_ && _); [|done]. injection He as <-. by constructor.
  - destruct (sy_wait y) eqn:Hw, (sy_done y) eqn:Hd; try done. simpl in He.
    destruct (sy_phase y) eqn:Hph; try done. injection He as <-. constructor; simpl; try done.
    + by rewrite given_stop.
    + by rewrite push_sb.
  - injection He as <-. constructor; simpl; try done; [by rewrite given_edge|]. fold y.
    rewrite edge_sb. destruct ready; simpl; [|by rewrite Nat.add_0_r].
    destruct Hgrant as [Hidle Htk]; [done|]. fold y in Htk. intros Hlt. split; [done|].
    destruct (requesting (sy_driver y)); lia.
  - injection He as <-. by constructor.
Qed.

Lemma related_step d ev d' s s' :
  related segs region d s -> dev_step segs region d ev d' -> handle ev s = Done tt s' -> related segs region d' s'.
Proof using All.
  intros Hr Hst Hs. destruct (step_related Hword Hwords Hdiv Hmem segs region Hinj _ _ _ _ Hr Hst) as [(s1 & Hs1 & Hr')|Hb].
  - congruence.
  - apply bad_refill_undef in Hb. congruence.
Qed.

Lemma idle_step d ev d' :
  dev_step segs region d ev d' -> device_event ev = true -> dv_uc d = UC_IDLE -> dv_uc d' = UC_IDLE.
Proof.
  intros Hst Hev Hi. destruct Hst as [junk t|r o|r o t ok|req|req t|resp a Ha Ht|wr|wr t|resp|id|i]; try done; try congruence; simpl.
  - unfold beat. destruct (rresp_last resp), (rresp_error resp =? 0); simpl; by rewrite ?Hi.
  - by rewrite Hi.
Qed.

Lemma bench_step_inv b b' : bench_step b b' -> bench_inv b -> bench_inv b'.
Proof using All.
  intros Hst Hb. pose proof (bench_sys _ _ Hst) as Hsy. pose proof Hb as [Hl Hr Hg Hp Hgr Hm Ho].
  assert (live_inv max between (bn_sys b')) as Hl'.
  { eapply (live_step Hword Hwords Hdiv lg Hlg); [exact create_tid|exact create_fits|exact Hsy|exact Hl]. }
  destruct Hst as [a y' Hla Hgrant He|junk t s d' Ht Hst Hs|ev s d' Hev Hst Hs]; [by eapply loop_step|..].
  - pose proof (related_step _ _ _ _ _ Hr Hst Hs) as Hr'. destruct (step_bytes _ _ _ Hst Hm Ho) as [Hm' Ho'].
    constructor; simpl; try done. apply lookup_lt_Some in Ht as Hlt. destruct (Hgr Hlt) as [_ ->]. lia.
  - pose proof (related_step _ _ _ _ _ Hr Hst Hs) as Hr'. destruct (step_bytes _ _ _ Hst Hm Ho) as [Hm' Ho'].
    constructor; simpl; try done. intros Hlt. destruct (Hgr Hlt) as [Hidle ->]. split; [|done]. by eapply idle_step.
Qed.

Lemma bench_reachable m g bundle lrsc limit b :
  (0 < bundle)%nat -> 0 <= limit -> lrsc_valid lrsc = false -> bytes_mem m ->
  rtc bench_step (bench_init m g bundle lrsc limit) b -> bench_inv b.
Proof using All.
  intros Hb Hlim Hv Hm H. apply (rtc_ind_r bench_inv) in H; [done| |eauto using bench_step_inv].
  constructor; simpl; try done.
  - eapply (live_reachable Hword Hwords Hdiv lg Hlg); [exact create_tid|exact create_fits|exact Hb|by apply built_fresh|apply rtc_refl].
  - by apply related_init.
  - unfold enter. by destruct (0 <? max)%nat.
  - lia.
Qed.

(** ** The scoreboard takes what was granted *)

Lemma next_tid b t :
  bench_inv b -> dr_sb (sy_driver (bn_sys b)) !! sy_taken (bn_sys b) = Some t -> dv_owed (bn_dev b) !! req_tid t = None.
Proof.
  intros Hb Ht. apply (flight_none _ _ _ _ _ (bi_related _ Hb)).
  destruct (lv_sys _ _ _ (bi_live _ Hb)) as [_ _ [Hwf Hsp _ _] _ _ _ _].
  assert (unseen (bn_sys b) = t :: drop (S (sy_taken (bn_sys b))) (given (sy_driver (bn_sys b)))) as Hu.
  { unfold unseen. apply drop_S. unfold given. by apply lookup_app_l_Some. }
  rewrite Hu in Hsp. eapply unseen_not_tracked, Hsp. apply Hwf.
Qed.

Lemma accept_enabled b junk t :
  bench_inv b -> dr_sb (sy_driver (bn_sys b)) !! sy_taken (bn_sys b) = Some t ->
  dev_step segs region (bn_dev b) (EvCoreReq junk t) (Device.accept segs t (bn_dev b))
  /\ exists s, handle (EvCoreReq junk t) (sy_sb (bn_sys b)) = Done tt s.
Proof using All.
  intros Hb Ht. pose proof (lookup_lt_Some _ _ _ Ht) as Hlt. destruct (bi_granted _ Hb Hlt) as [Hidle _].
  assert (req_good region t) as Hg.
  { pose proof (bi_given _ Hb) as Hf. rewrite list.Forall_forall in Hf. apply Hf. unfold given. apply elem_of_app. left.
    by eapply list_elem_of_lookup_2. }
  assert (dev_step segs region (bn_dev b) (EvCoreReq junk t) (Device.accept segs t (bn_dev b))) as Hst.
  { apply dev_accept; [done|done|by apply next_tid]. }
  split; [done|].
  destruct (step_related Hword Hwords Hdiv Hmem segs region Hinj _ _ _ _ (bi_related _ Hb) Hst) as [(s' & Hs' & _)|(r & e & E & _)];
    [by exists s'|done].
Qed.

Lemma take_next b :
  bench_inv b -> (sy_taken (bn_sys b) < length (dr_sb (sy_driver (bn_sys b))))%nat ->
  exists b', bench_step b b' /\ (work max between (bn_sys b') < work max between (bn_sys b))%nat.
Proof using All.
  intros Hb Hlt. apply lookup_lt_is_Some in Hlt as [t Ht].
  destruct (accept_enabled b ScoreboardProps.ex_stale t Hb Ht) as [Hst [s Hs]].
  eexists. split; [by eapply bench_accept|]. apply lookup_lt_Some in Ht. unfold work. simpl. lia.
Qed.

(** ** The device can answer *)

(** A response that keeps the promises, for a request [o] of the device. *)
Definition answer_to (o : owed) (ok : bool) : transaction_resp :=
  let t := ow_req o in
  {| rsp_rdata := if is_amo_sc t then Z.shiftl (if ok then 0 else 1) (req_word t * 64)
                  else load_bytes CORE_REQ_BYTES (ow_mem o) (req_base t);
     rsp_sid := req_sid t; rsp_tid := req_tid t; rsp_error := ow_error o; rsp_aborted := false |}.

Lemma byte_of_combine l k x :
  Forall (is_word 8) l -> l !! k = Some x -> byte_of (le_combine l) (Z.of_nat k) = x.
Proof.
  intros Hl. revert k. induction Hl as [|b l Hb Hl IH]; intros k Hk; [done|]. simpl.
  assert (forall i, 8 <= i -> Z.testbit b i = false) as Hhi.
  { intros i Hi. rewrite <-(wrap_small 8 b Hb), testbit_wrap by lia. by rewrite (proj2 (Z.ltb_ge i 8)). }
  destruct k as [|k]; simpl in Hk.
  - injection Hk as <-. apply Z.bits_inj'. intros i Hi. rewrite testbit_byte_of, Z.lor_spec, testbit_shiftl by lia.
    replace (i + 8 * Z.of_nat 0) with i by lia. rewrite (proj2 (Z.leb_le 0 i)) by lia.
    destruct (Z.ltb_spec i 8); simpl; [|by rewrite Hhi].
    rewrite (Z.testbit_neg_r _ (i - 8)) by lia. apply orb_false_r.
  - rewrite <-(IH k Hk). apply Z.bits_inj'. intros i Hi. rewrite !testbit_byte_of, Z.lor_spec, testbit_shiftl by lia.
    replace (i + 8 * Z.of_nat (S k)) with (i + 8 * Z.of_nat k + 8) by lia. rewrite Hhi by lia.
    replace (i + 8 * Z.of_nat k + 8 - 8) with (i + 8 * Z.of_nat k) by lia.
    by rewrite (proj2 (Z.leb_le 0 (i + 8 * Z.of_nat k + 8))) by lia.
Qed.

Lemma byte_of_load n m a k : bytes_mem m -> 0 <= k < n -> byte_of (load_bytes n m a) k = m (a + k).
Proof.
  intros Hm Hk. rewrite <-(Z2Nat.id k) at 1 by lia. apply byte_of_combine.
  - apply list.Forall_fmap, list.Forall_true. intros j. apply Hm.
  - rewrite list_lookup_fmap, lookup_seqZ_lt by lia. simpl. do 2 f_equal. lia.
Qed.

Lemma answer_right o ok : bytes_mem (ow_mem o) -> req_good region (ow_req o) -> right o ok (answer_to o ok).
Proof using All.
  intros Hm Hg. destruct (kinds (ow_req o)) as (K1 & _ & K3 & _ & K5). split; [done|..]; unfold answer_to; simpl.
  - intros _ Hk k Hacc. assert (is_amo_sc (ow_req o) = false /\ is_cmo (ow_req o) = false) as [-> Hc].
    { apply orb_true_iff in Hk as [Hk|Hk]; [apply orb_true_iff in Hk as [Hk|Hk]|]; naive_solver. }
    apply byte_of_load; [done|]. pose proof (rg_fits _ _ Hg Hc). unfold accessed in Hacc.
    destruct (req_bytes_8' Hword) as [_ HB]. pose proof (Z.mod_pos_bound (req_addr (ow_req o)) CORE_REQ_BYTES).
    unfold req_offset in *. lia.
  - intros _ Hsc. rewrite Hsc. unfold req_word. set (i := (req_addr (ow_req o) / 8) mod CORE_REQ_WORDS).
    assert (0 <= i) by (apply Z.mod_pos_bound; unfold CORE_REQ_WORDS; lia).
    assert (range ((i + 1) * 64 - 1) (i * 64) (Z.shiftl (if ok then 0 else 1) (i * 64)) = if ok then 0 else 1) as ->;
      [|by destruct ok, (req_bytes (ow_req o) =? 4)].
    apply Z.bits_inj'. intros j Hj. rewrite testbit_range, testbit_shiftl by lia.
    replace (j + i * 64 - i * 64) with j by lia. destruct ok; [by rewrite !Z.testbit_0_l, ?andb_false_r|].
    rewrite testbit_1. split_cmps; simpl; try done; lia.
Qed.

(** *** What is left for the device *)
Definition uc_left (u : uc_state) : nat :=
  match u with UC_IDLE => 0 | UC_CORE_RSP _ _ => 1 | UC_MEM_WAIT_RSP _ _ _ _ => 2 | UC_MEM_REQ _ => 6 end.
Definition dev_left (d : device) : nat :=
  (size (dv_owed d) + size (dv_reads d) + size (dv_writes d) + uc_left (dv_uc d))%nat.
Definition drained (d : device) : Prop :=
  dv_uc d = UC_IDLE /\ dv_owed d = ∅ /\ dv_reads d = ∅ /\ dv_writes d = ∅.

(** The device has a step, which never is a refill. *)
Definition dev_advances (d : device) : Prop :=
  exists ev d', device_event ev = true /\ dev_step segs region d ev d' /\ (forall s, ~ bad_refill ev s)
    /\ (dev_left d' < dev_left d)%nat.

Lemma uc_read_left id u : (uc_left (uc_read id u) <= uc_left u)%nat.
Proof. destruct u as [| |t [i|] wr ok|]; simpl; try lia. destruct (i =? id), wr; simpl; lia. Qed.
Lemma uc_write_left id a u : (uc_left (uc_write id a u) <= uc_left u)%nat.
Proof. destruct u as [| |t rd [i|] ok|]; simpl; try lia. destruct (i =? id), rd; simpl; lia. Qed.

Lemma reads_advance d : dv_reads d <> ∅ -> dev_advances d.
Proof.
  intros H. apply map_choose in H as (id & a & Ha).
  set (resp := {| rresp_error := 1; rresp_id := id; rresp_data := 0; rresp_last := true |}).
  exists (EvMemReadResp resp). eexists. split_and!; [done|by apply (dev_read_resp _ _ _ resp a)| |].
  - intros s (r & e & E & _ & Herr & _). injection E as <-. done.
  - simpl. unfold dev_left. simpl. pose proof (delete_size _ _ _ Ha). pose proof (uc_read_left id (dv_uc d)). lia.
Qed.

Lemma writes_advance d : dv_writes d <> ∅ -> dev_advances d.
Proof.
  intros H. apply set_choose_L in H as [id Hid].
  set (resp := {| wresp_error := 0; wresp_id := id; wresp_is_atomic := false |}).
  exists (EvMemWriteResp resp). eexists. split_and!; [done|by apply (dev_write_resp _ _ _ resp)| |].
  - intros s (r & e & E & _). done.
  - simpl. unfold dev_left. simpl. pose proof (uc_write_left id false (dv_uc d)).
    rewrite size_difference by set_solver. rewrite size_singleton.
    assert (size (dv_writes d) <> 0%nat) by (intros E; apply size_empty_inv in E; set_solver). lia.
Qed.

(** The request of an atomic operation to the memory. *)
Definition atomic_req (t : transaction_req) : mem_req :=
  {| mreq_addr := req_addr t; mreq_len := 0; mreq_size := req_size t; mreq_id := 0;
     mreq_command := HPDCACHE_MEM_ATOMIC;
     mreq_atomic := if is_amo_lr t then HPDCACHE_MEM_ATOMIC_LDEX else if is_amo_sc t then HPDCACHE_MEM_ATOMIC_STEX
                    else HPDCACHE_MEM_ATOMIC_ADD;
     mreq_cacheable := false |}.

Lemma request_advance d t :
  dv_uc d = UC_MEM_REQ t -> is_atomic_op t = true -> req_good region t -> dv_reads d = ∅ -> dv_writes d = ∅ ->
  dev_advances d.
Proof using All.
  intros Huc Ha Hg Hr Hw.
  assert (bus_good region (mreq_addr (atomic_req t))) as Hb.
  { apply Hbus. simpl. pose proof (atomic_not_cmo Hword Hwords Hdiv segs region Hinj t Ha) as Hc.
    assert (0 < CORE_REQ_BYTES) as HB by (destruct (req_bytes_8' Hword) as [_ HB]; lia).
    pose proof (rg_region _ _ Hg Hc _ (Z.mod_pos_bound (req_addr t) CORE_REQ_BYTES HB)) as Hreg.
    unfold req_base, align_to in Hreg. rewrite Z.mul_comm, <-Z.div_mod in Hreg by lia. done. }
  destruct (kinds t) as (_ & _ & K3 & K4 & K5). destruct (is_amo_lr t) eqn:Hlr.
  - exists (EvMemReadReq (atomic_req t)). eexists. split_and!; [done|apply (dev_ldex _ _ _ _ t); try done| |].
    + unfold mem_is_ldex, atomic_req. simpl. by rewrite Hlr.
    + intros s (r & e & E & _). done.
    + unfold dev_left. simpl. rewrite Huc, Hr, Hw, map_size_empty, map_size_singleton, size_empty. simpl. lia.
  - exists (EvMemWriteReq {| wreq := atomic_req t; wreq_data := 0; wreq_be := 0; wreq_last := true |}). eexists.
    split_and!; [done|apply (dev_atomic _ _ _ _ t); try done| |].
    + unfold atomic_write, mem_is_amo, mem_is_stex, atomic_req. simpl. rewrite Hlr. unfold is_atomic_op in Ha. rewrite Hlr in Ha.
      destruct (is_amo_sc t) eqn:Hsc; [by rewrite orb_true_r|]. by rewrite !orb_false_r in Ha; rewrite Ha.
    + intros s (r & e & E & _). done.
    + unfold dev_left. cbn [dv_owed dv_reads dv_writes dv_uc set_uc set_reads set_writes uc_left].
      rewrite Huc, Hr, Hw, map_size_empty, size_singleton, size_empty.
      destruct (is_amo t); rewrite ?map_size_singleton, ?map_size_empty; simpl; lia.
Qed.

Lemma answer_advance d s o ok :
  related segs region d s -> bytes_mem (ow_mem o) -> dv_owed d !! req_tid (ow_req o) = Some o ->
  (is_atomic_op (ow_req o) = false /\ ok = false) \/ dv_uc d = UC_CORE_RSP (ow_req o) ok ->
  dev_advances d.
Proof using All.
  intros Hr Hm Ho Hc. destruct (flight_resp segs region d s (answer_to o ok) o Hr Ho) as (e & c & _ & _ & Hg & _).
  pose proof (answer_right o ok Hm Hg) as Hright. pose proof (delete_size _ _ _ Ho) as Hsz.
  exists (EvCoreResp (answer_to o ok)). destruct Hc as [[Ha ->]|Huc].
  - eexists. split_and!; [done|by eapply dev_respond| |].
    + intros s' (r & e' & E & _). done.
    + unfold dev_left. simpl. lia.
  - exists (commit o ok d). split_and!; [done|by eapply dev_finish| |].
    + intros s' (r & e' & E & _). done.
    + destruct (commit_fields o ok d) as (_ & E1 & E2 & E3 & _ & E4). unfold dev_left. rewrite E1, E2, E3, E4, Huc. simpl. lia.
Qed.

Lemma dev_next d s :
  related segs region d s -> (forall tid o, dv_owed d !! tid = Some o -> bytes_mem (ow_mem o)) ->
  drained d \/ dev_advances d.
Proof using All.
  intros Hr Hm. destruct (decide (dv_reads d = ∅)) as [Er|Er]; [|right; by apply reads_advance].
  destruct (decide (dv_writes d = ∅)) as [Ew|Ew]; [|right; by apply writes_advance].
  assert (forall t, uc_req (dv_uc d) = Some t -> exists o, dv_owed d !! req_tid (ow_req o) = Some o /\ ow_req o = t
    /\ is_atomic_op t = true /\ req_good region t /\ handler_ok (dv_uc d) o d s) as Hu.
  { intros t Ht. destruct (rl_uc _ _ _ _ Hr t Ht) as (o & Ho & Et & Ha & _ & Hp). exists o. rewrite Et.
    destruct (flight_entry d s _ o Hr Ho) as (e & _ & _ & [Hg _ _]). rewrite Et in Hg. done. }
  destruct (dv_uc d) as [|t|t rd wr ok|t ok] eqn:Huc.
  - destruct (decide (dv_owed d = ∅)) as [Eo|Eo]; [by left|right]. apply map_choose in Eo as (tid & o & Ho).
    destruct (flight_entry d s _ o Hr Ho) as (e & _ & Ht & _). apply (answer_advance d s o false Hr); [by eapply Hm|by rewrite Ht|].
    left. split; [|done]. destruct (is_atomic_op (ow_req o)) eqn:Ha; [|done].
    pose proof (rl_atomic _ _ _ _ Hr tid o Ho Ha) as Hx. by rewrite Huc in Hx.
  - right. destruct (Hu t eq_refl) as (o & _ & _ & Ha & Hg & _). by apply (request_advance d t).
  - exfalso. destruct (Hu t eq_refl) as (o & _ & _ & _ & _ & (_ & _ & _ & _ & P1 & P2 & P3)).
    apply P3; [destruct rd as [i|]; [|done]|destruct wr as [i|]; [|done]].
    + destruct (P1 i eq_refl) as [x Hx]. by rewrite Er in Hx.
    + specialize (P2 i eq_refl). rewrite Ew in P2. set_solver.
  - right. destruct (Hu t eq_refl) as (o & Ho & Et & _). apply (answer_advance d s o ok Hr); [by eapply Hm|done|].
    right. by rewrite Et.
Qed.

(** ** The end of the test *)

Abbreviation work := (work max between).

Lemma bench_drain b :
  bench_inv b -> sy_taken (bn_sys b) = length (dr_sb (sy_driver (bn_sys b))) ->
  exists b', rtc bench_step b b' /\ bench_inv b' /\ drained (bn_dev b') /\ work (bn_sys b') = work (bn_sys b)
    /\ sy_taken (bn_sys b') = length (dr_sb (sy_driver (bn_sys b'))).
Proof using All.
  remember (dev_left (bn_dev b)) as n eqn:Hn. revert b Hn. induction n as [n IH] using lt_wf_ind. intros b -> Hb Htk.
  destruct (dev_next _ _ (bi_related _ Hb) (bi_owed _ Hb)) as [Hd|(ev & d' & Hev & Hst & Hnb & Hlt)]; [by exists b|].
  destruct (step_related Hword Hwords Hdiv Hmem segs region Hinj _ _ _ _ (bi_related _ Hb) Hst) as [(s & Hs & _)|Hbad];
    [|by apply Hnb in Hbad].
  assert (bench_step b {| bn_sys := set_sb (sy_taken (bn_sys b)) s (bn_sys b); bn_dev := d' |}) as Hb1
    by (by eapply bench_device).
  destruct (IH _ Hlt {| bn_sys := set_sb (sy_taken (bn_sys b)) s (bn_sys b); bn_dev := d' |}) as (b2 & H1 & H2 & H3 & H4 & H5);
    [done|by eapply bench_step_inv|done|].
  exists b2. split_and!; [by eapply rtc_l|done..].
Qed.

(** The driver has finished, everything was taken and answered, and nothing reported. *)
Record passed (b : bench) : Prop := {
  ps_driver : dr_pc (sy_driver (bn_sys b)) = Finished;
  ps_taken : sy_taken (bn_sys b) = length (dr_sb (sy_driver (bn_sys b)));
  ps_drained : drained (bn_dev b);
  ps_inflight : check_inflight_requests (sy_sb (bn_sys b)) = true;
  ps_log : sb_log (sy_sb (bn_sys b)) = [];
}.

Lemma drained_inflight b : bench_inv b -> drained (bn_dev b) ->
  inflight_m (sy_sb (bn_sys b)) = ∅ /\ check_inflight_requests (sy_sb (bn_sys b)) = true.
Proof.
  intros Hb (_ & Eo & Er & Ew). pose proof (bi_related _ Hb) as Hr.
  assert (inflight_m (sy_sb (bn_sys b)) = ∅) as E1.
  { apply map_empty. intros tid. apply (flight_none _ _ _ _ _ Hr). by rewrite Eo. }
  assert (inflight_mem_read_m (sy_sb (bn_sys b)) = ∅) as E2.
  { apply map_empty. intros id. apply (no_read _ _ _ _ _ Hr). by rewrite Er. }
  assert (inflight_mem_write_m (sy_sb (bn_sys b)) = ∅) as E3.
  { apply map_empty. intros id. apply (no_write _ _ _ _ _ Hr). rewrite Ew. set_solver. }
  split; [done|]. unfold check_inflight_requests. by rewrite E1, E2, E3.
Qed.

Lemma own_bench b y' :
  bench_inv b -> may_grant b -> own_step max between create (bn_sys b) y' ->
  bench_step b {| bn_sys := y'; bn_dev := bn_dev b |}.
Proof.
  intros Hb Hg (a & Ha & He). pose proof Hg as [_ Htk].
  destruct a as [d dl sc| | |ready| |junk|ev]; try done; try (refine (bench_loop b _ y' _ (fun _ => Hg) He); done).
  exfalso. cbn [exec] in He. rewrite Htk, lookup_ge_None_2 in He by done. done.
Qed.

Lemma bench_next b :
  bench_inv b -> drained (bn_dev b) -> sy_taken (bn_sys b) = length (dr_sb (sy_driver (bn_sys b))) ->
  passed b \/ exists b', rtc bench_step b b' /\ (work (bn_sys b') < work (bn_sys b))%nat.
Proof using All.
  intros Hb Hd Htk. destruct (drained_inflight b Hb Hd) as [Hi Hc]. pose proof (rl_log _ _ _ _ (bi_related _ Hb)) as Hlog.
  assert (may_grant b) as Hgr by (split; [apply Hd|done]).
  destruct (next_step Hword Hwords Hdiv lg Hlg Hbytes max between create create_tid create_fits create_total (bn_sys b)
    (bi_live _ Hb) Htk) as [Hh|[(y' & Ho & Hl)|Hf]].
  - left. destruct Hh as [Hpc _|_ _ Hne|_ _ Hne|Hne _|junk t s Ht _]; [by constructor|done|congruence|done|].
    rewrite Htk, lookup_ge_None_2 in Ht by done. done.
  - right. exists {| bn_sys := y'; bn_dev := bn_dev b |}. split; [by apply rtc_once, own_bench|done].
  - right. eexists {| bn_sys := _; bn_dev := bn_dev b |}. split; [|exact (finish_edge Hword Hwords Hdiv lg Hlg Hbytes max between
      create create_tid create_fits create_total (bn_sys b) (bi_live _ Hb) Hf)].
    apply (rtc_l _ _ {| bn_sys := set_no_inflight true (bn_sys b); bn_dev := bn_dev b |}).
    + apply (bench_loop b Sample); [done|done|]. simpl. by rewrite Hc.
    + apply rtc_once. by apply (bench_loop {| bn_sys := set_no_inflight true (bn_sys b); bn_dev := bn_dev b |} (ClockEdge true)).
Qed.

Lemma bench_steps b b' : rtc bench_step b b' -> bench_inv b -> bench_inv b'.
Proof using All. induction 1; eauto using bench_step_inv. Qed.

Lemma bench_finishes b : bench_inv b -> exists b', rtc bench_step b b' /\ passed b'.
Proof using All.
  remember (work (bn_sys b)) as n eqn:Hn. revert b Hn. induction n as [n IH] using lt_wf_ind. intros b -> Hb.
  assert (exists b1, rtc bench_step b b1 /\ (passed b1 \/ (work (bn_sys b1) < work (bn_sys b))%nat)) as (b1 & Hr & [Hp|Hl]).
  { pose proof (sv_taken _ (lv_sys _ _ _ (bi_live _ Hb))) as Htk.
    destruct (decide (sy_taken (bn_sys b) < length (dr_sb (sy_driver (bn_sys b))))%nat) as [Hlt|Hge].
    - destruct (take_next b Hb Hlt) as (b' & Hst & Hl). exists b'. split; [by apply rtc_once|by right].
    - destruct (bench_drain b Hb) as (b1 & Hr1 & Hb1 & Hd & Hw & Htk1); [lia|].
      destruct (bench_next b1 Hb1 Hd Htk1) as [Hp|(b2 & Hr2 & Hl)]; [exists b1; auto|].
      exists b2. split; [by etrans|right; lia]. }
  - by exists b1.
  - destruct (IH _ Hl b1 eq_refl (bench_steps _ _ Hr Hb)) as (b2 & Hr2 & Hp). exists b2. split; [by etrans|done].
Qed.

(** C1: The test passes with a faithful cache. From every state that the sequence, the driver, the scoreboard and a device that keeps its promises can reach together: the scoreboard has reported nothing; it can take the request just granted, whatever its stack holds; it handles whatever the device does next, unless a refill mask is undefined; and the bench can run on to the end of the test, where the driver has finished and every request was taken and answered. At the end every transaction created was seen, and the final checks report nothing if the counters of misses are at most those of requests. *)
Theorem faithful_cache_passes m g bundle lrsc limit b :
  (0 < bundle)%nat -> 0 <= limit -> lrsc_valid lrsc = false -> bytes_mem m ->
  rtc bench_step (bench_init m g bundle lrsc limit) b ->
  sb_log (sy_sb (bn_sys b)) = []
  /\ (forall junk t, dr_sb (sy_driver (bn_sys b)) !! sy_taken (bn_sys b) = Some t ->
       exists s, core_req_process junk t (sy_sb (bn_sys b)) = Done tt s /\
       bench_step b {| bn_sys := set_sb (S (sy_taken (bn_sys b))) s (bn_sys b); bn_dev := accept segs t (bn_dev b) |})
  /\ (forall ev d', dev_step segs region (bn_dev b) ev d' ->
       (exists s, handle ev (sy_sb (bn_sys b)) = Done tt s) \/ bad_refill ev (sy_sb (bn_sys b)))
  /\ (exists b', rtc bench_step b b' /\ passed b')
  /\ (passed b -> evt_cache_write_miss (sb_events (sy_sb (bn_sys b))) <= evt_write_req (sb_events (sy_sb (bn_sys b))) ->
       evt_cache_read_miss (sb_events (sy_sb (bn_sys b))) <= evt_read_req (sb_events (sy_sb (bn_sys b))) ->
       unseen (bn_sys b) = [] /\ final_checks (sy_sb (bn_sys b)) = Done tt (sy_sb (bn_sys b))).
Proof using All.
  intros Hb Hlim Hv Hm Hr. pose proof (bench_reachable _ _ _ _ _ _ Hb Hlim Hv Hm Hr) as Hi. split_and!.
  - apply (bi_related _ Hi).
  - intros junk t Ht. destruct (accept_enabled b junk t Hi Ht) as [Hst [s Hs]].
    exists s. split; [done|by eapply bench_accept].
  - intros ev d' Hst.
    destruct (step_related Hword Hwords Hdiv Hmem segs region Hinj _ _ _ _ (bi_related _ Hi) Hst) as [(s & Hs & _)|Hbad]; eauto.
  - by apply bench_finishes.
  - intros [P1 P2 P3 P4 P5] Hw Hrd. destruct (drained_inflight b Hi P3) as [He _].
    destruct (finished_clean create create_tid (bn_sys b) (lv_sys _ _ _ (bi_live _ Hi)) P1 P2 He P5 Hw Hrd) as (H1 & _ & H3). done.
Qed.
End Bench.

(** ** Witness: the random sequence, whose first request was granted *)
#[local] Existing Instance default_config.
#[local] Existing Instance ex_fault_config.

Definition ex_segments : Z -> Prop := seg_region (su_segs random_seq).

Lemma ex_segments_inj a b :
  ex_segments a -> ex_segments b -> a mod SCOREBOARD_RAM_SIZE = b mod SCOREBOARD_RAM_SIZE -> a = b.
Proof. apply seg_region_inj; [done|]. apply sequence_bounds; [by vm_compute|apply list_elem_of_here]. Qed.

Lemma ex_segments_ok : Forall segment_ok random_segs.
Proof. change random_segs with (su_segs random_seq). apply sequence_segments; [by vm_compute|apply list_elem_of_here]. Qed.

Lemma ex_segments_bus a : ex_segments a -> bus_good ex_segments a.
Proof.
  intros Ha. pose proof Ha as (seg & Hseg & Hin). pose proof ex_segments_ok as Hok. rewrite list.Forall_forall in Hok.
  destruct (Hok seg Hseg) as [H0 H1 H2 _ _]. split; [lia|]. change MEM_BYTES with 64. split; [lia|].
  intros k Hk. apply (seg_region_block random_segs a 64 k ex_segments_ok Ha); [done|by exists 256|done].
Qed.

Lemma ex_drawn_good d tid t :
  ex_drawn_create d tid = Some t -> req_good ex_segments t /\ is_word HPDCACHE_PA_WIDTH (req_addr t).
Proof.
  unfold ex_drawn_create. destruct (draw_okb random_seq d) eqn:E; [|done]. apply draw_okb_ok in E.
  intros Ht. destruct (@random_ok default_config ex_fault_config 3 ltac:(lia) eq_refl ltac:(vm_compute; discriminate) d tid E)
    as (t' & Ht' & Hok).
  unfold ex_create in Ht. assert (t' = t) as -> by congruence. split.
  - apply (@request_ok_good default_config _ 3 ltac:(lia) ltac:(lia) eq_refl ltac:(vm_compute; discriminate)
      ltac:(vm_compute; discriminate) eq_refl random_segs t ex_segments_ok Hok).
  - by apply (@create_random_fields default_config _ ex_fault_config 3 ltac:(lia) eq_refl ltac:(vm_compute; discriminate)) in Ht as [? _].
Qed.

(** The transaction is sent, and granted at the first edge. *)
Definition ex_start : bench :=
  bench_init [] 1 ex_memory ex_seq_rng 10 ex_lrsc 1.
Definition ex_send : action := Send (ex_draws HPDCACHE_REQ_LOAD 0x2f8) 0 false.

(** The states after the two, and what is checked on the way. *)
Lemma two_states {A B} (o : option A) (f : A -> option A) (g : A -> A -> B) v :
  (y1 ← o; y ← f y1; Some (g y1 y)) = Some v -> exists y1 y, o = Some y1 /\ f y1 = Some y /\ g y1 y = v.
Proof.
  destruct o as [y1|]; [|done]. simpl. destruct (f y1) as [y|] eqn:E; [|done]. intros [= <-]. by exists y1, y.
Qed.

Lemma ex_view_value :
  (y1 ← exec 1 0 ex_drawn_create ex_send (bn_sys ex_start); y ← exec 1 0 ex_drawn_create (ClockEdge true) y1;
   Some (sy_taken y1, length (dr_sb (sy_driver y1)), length (dr_sb (sy_driver y)))) = Some (0%nat, 0%nat, 1%nat).
Proof. vm_compute. reflexivity. Qed.

Lemma ex_granted_reachable y1 y :
  exec 1 0 ex_drawn_create ex_send (bn_sys ex_start) = Some y1 -> exec 1 0 ex_drawn_create (ClockEdge true) y1 = Some y ->
  sy_taken y1 = length (dr_sb (sy_driver y1)) ->
  rtc (bench_step [] ex_segments 1 0 ex_drawn_create) ex_start {| bn_sys := y; bn_dev := bn_dev ex_start |}.
Proof.
  intros E1 E Hl. apply (rtc_l _ _ {| bn_sys := y1; bn_dev := bn_dev ex_start |}).
  - apply (bench_loop [] ex_segments 1 0 ex_drawn_create ex_start ex_send y1); [reflexivity|discriminate|exact E1].
  - apply rtc_once. apply (bench_loop [] ex_segments 1 0 ex_drawn_create {| bn_sys := y1; bn_dev := bn_dev ex_start |}
      (ClockEdge true) y); [reflexivity| |exact E].
    intros _. split; [reflexivity|exact Hl].
Qed.

Lemma faithful_cache_passes_witness :
  exists b b', rtc (bench_step [] ex_segments 1 0 ex_drawn_create) ex_start b
    /\ length (dr_sb (sy_driver (bn_sys b))) = 1%nat /\ sb_log (sy_sb (bn_sys b)) = []
    /\ rtc (bench_step [] ex_segments 1 0 ex_drawn_create) b b' /\ passed b'.
Proof.
  destruct (two_states _ _ _ _ ex_view_value) as (y1 & y & E1 & E & V). injection V as V1 V2 V3.
  pose proof (ex_granted_reachable y1 y E1 E (eq_trans V1 (eq_sym V2))) as Hr0.
  destruct (@faithful_cache_passes default_config _ eq_refl ltac:(vm_compute; discriminate) default_div default_mem_div
    3 ltac:(lia) ltac:(lia) eq_refl ltac:(vm_compute; discriminate) ltac:(vm_compute; discriminate)
    [] ex_segments ex_segments_inj ex_segments_bus 1 0 ex_drawn_create ex_drawn_tid ex_drawn_good ex_drawn_total
    ex_memory ex_seq_rng 10 ex_lrsc 1 {| bn_sys := y; bn_dev := bn_dev ex_start |}
    ltac:(repeat constructor) ltac:(discriminate) eq_refl ltac:(intros a; split; reflexivity || discriminate)
    Hr0) as (Hlog & _ & _ & (b' & Hr & Hp) & _).
  exists {| bn_sys := y; bn_dev := bn_dev ex_start |}, b'. split; [exact Hr0|]. split; [exact V3|]. split; [exact Hlog|]. split; [exact Hr|exact Hp].
Defined.
