(* ===== verification/Tb.v ===== *)
(** * The top of the test bench ([hpdcache_tb.cpp], [logger.h])

    The options of the command line, the choice of the sequence, what [build] hands
    to the components, the reset and the clock of [simulate], and the levels of the
    logger. The connections of the ports are those of [Netlist]; the options are what [getopt_long] returns, in order. *)
From Stdlib Require Import Ascii String.
From S2P Require Import Prelude.

#[local] Open Scope string_scope.
#[local] Open Scope Z_scope.
#[local] Open Scope list_scope.

(** ** Numbers of the command line *)

(** [strtol] of the C library, and [atoll] and [atoi], which are [strtol] in base 10. *)
Definition code (c : ascii) : Z := Z.of_N (N_of_ascii c).
Definition is_space (c : ascii) : bool := (code c =? 32) || ((9 <=? code c) && (code c <=? 13)).
Definition digit (base : Z) (c : ascii) : option Z :=
  let n := code c in
  let d := if (48 <=? n) && (n <=? 57) then n - 48
           else if (97 <=? n) && (n <=? 122) then n - 87
           else if (65 <=? n) && (n <=? 90) then n - 55 else 36 in
  if d <? base then Some d else None.
Fixpoint digits (base acc : Z) (s : string) : Z :=
  match s with
  | EmptyString => acc
  | String c s => match digit base c with Some d => digits base (base * acc + d) s | None => acc end
  end.
Fixpoint skip_spaces (s : string) : string :=
  match s with String c r => if is_space c then skip_spaces r else s | EmptyString => s end.
Definition unsigned_number (base : Z) (s : string) : Z :=
  match s with
  | String "0" (String x (String c _ as r)) =>
      if ((base =? 0) || (base =? 16)) && (Ascii.eqb x "x" || Ascii.eqb x "X")
         && (if digit 16 c then true else false)
      then digits 16 0 r
      else digits (if base =? 0 then 8 else base) 0 s
  | String "0" _ => digits (if base =? 0 then 8 else base) 0 s
  | _ => digits (if base =? 0 then 10 else base) 0 s
  end.
Definition clamp64 (x : Z) : Z := Z.max (- 2 ^ 63) (Z.min (2 ^ 63 - 1) x).
Definition strtol (base : Z) (s : string) : Z :=
  clamp64 match skip_spaces s with
  | String "-" r => - unsigned_number base r
  | String "+" r => unsigned_number base r
  | r => unsigned_number base r
  end.
Definition atoll (s : string) : Z := strtol 10 s.
Definition atoi (s : string) : Z := to_signed 32 (strtol 10 s).

Example ex_numbers :
  atoll " -42x" = -42 /\ strtol 0 "0x1F" = 31 /\ strtol 0 "017" = 15 /\ strtol 0 "0x" = 0
  /\ atoll "99999999999999999999" = 2 ^ 63 - 1 /\ atoi "" = 0.
Proof. by vm_compute. Qed.

(** ** The logger *)
Module Logger.
Definition LOG_NONE : Z := 0.
Definition LOG_LOW : Z := 1.
Definition LOG_MEDIUM : Z := 2.
Definition LOG_HIGH : Z := 3.
Definition LOG_WARNING : Z := LOG_LOW.
Definition LOG_INFO : Z := LOG_MEDIUM.
Definition LOG_DEBUG : Z := LOG_HIGH.
Definition log_level_init : Z := LOG_INFO.

Definition is_warning_enabled (log_level : Z) : bool := LOG_WARNING <=? log_level.
Definition is_info_enabled (log_level : Z) : bool := LOG_INFO <=? log_level.
Definition is_debug_enabled (log_level : Z) : bool := LOG_DEBUG <=? log_level.

(** What each function prints. *)
Definition info (log_level : Z) (msg : string) : string := if LOG_INFO <=? log_level then msg else "".
Definition warning (log_level : Z) (msg : string) : string := if LOG_WARNING <=? log_level then msg else "".
Definition debug (log_level : Z) (msg : string) : string := if LOG_DEBUG <=? log_level then msg else "".
End Logger.

(** ** State *)
Inductive sequence :=
  | RandomSeq | ReadSeq | WriteSeq | UniqueSetSeq | FromTraceSeq (file_name : string).

Inductive verbosity := SC_NONE | SC_LOW | SC_MEDIUM | SC_HIGH | SC_FULL | SC_DEBUG.

(** [hpdcache_test], and the globals the options set. *)
Record hpdcache_test := {
  max_cycles : Z;                 (* uint64_t *)
  max_trans : Z;                  (* uint64_t *)
  error_limit : Z;                (* size_t *)
  trace_on : option bool;         (* None: not initialised *)
  trace_name : string;
  file_name : string;
  covname : string;
  test_seq : option sequence;     (* None: nullptr *)
  seed : option Z;                (* of [srand] and [scv_random] *)
  log_level : Z;
  report_verbosity : verbosity;   (* of [sc_report_handler] *)
}.

Definition test_init : hpdcache_test :=
  {| max_cycles := 2 ^ 30; max_trans := 100; error_limit := 0; trace_on := None; trace_name := "";
     file_name := ""; covname := ""; test_seq := None; seed := None;
     log_level := Logger.log_level_init; report_verbosity := SC_MEDIUM |}.

Inductive option_t :=
  | Opt_help | Opt_m (optarg : string) | Opt_n (optarg : string) | Opt_r (optarg : string)
  | Opt_t (optarg : string) | Opt_c (optarg : string) | Opt_l (optarg : string)
  | Opt_s (optarg : string) | Opt_f (optarg : string) | Opt_e (optarg : string).

(** [exit(status)], or the state with the option taken into account. *)
Inductive parsed := Exits (status : Z) | Parsed (t : hpdcache_test).

Definition EXIT_FAILURE : Z := 1.

Definition sequence_of_name (seq_name file : string) : option sequence :=
  if String.eqb seq_name "random" then Some RandomSeq
  else if String.eqb seq_name "read" then Some ReadSeq
  else if String.eqb seq_name "write" then Some WriteSeq
  else if String.eqb seq_name "unique_set" then Some UniqueSetSeq
  else if String.eqb seq_name "from_trace" then Some (FromTraceSeq file)
  else None.

Section CommandLine.
(** Whether a stream on a file is good once opened, and whether [open] opens it for reading. *)
Context (good opens : string -> bool).

(** The constructor of the sequence returns: the one that replays a trace makes a
    [trace_reader], which exits when it cannot open the file. *)
Definition constructs (q : sequence) : bool :=
  match q with FromTraceSeq file => opens file | _ => true end.

Definition set_sequence (seq_name : string) (t : hpdcache_test) : parsed :=
  match test_seq t with
  | Some _ => Exits EXIT_FAILURE
  | None =>
      match sequence_of_name seq_name (file_name t) with
      | Some q =>
          if negb (constructs q) then Exits EXIT_FAILURE else
          Parsed {| max_cycles := max_cycles t; max_trans := max_trans t; error_limit := error_limit t;
                    trace_on := trace_on t; trace_name := trace_name t; file_name := file_name t;
                    covname := covname t; test_seq := Some q; seed := seed t; log_level := log_level t;
                    report_verbosity := report_verbosity t |}
      | None => Exits EXIT_FAILURE
      end
  end.

Definition verbosity_of_level (level : Z) : option verbosity :=
  if level =? 0 then Some SC_NONE else if level =? 1 then Some SC_LOW
  else if level =? 2 then Some SC_MEDIUM else if level =? 3 then Some SC_HIGH
  else if level =? 4 then Some SC_FULL else if level =? 5 then Some SC_DEBUG else None.

(** The body of the [switch]. *)
Definition do_option (o : option_t) (t : hpdcache_test) : parsed :=
  let 'Build_hpdcache_test mc mt el on tn fn cn q sd ll vb := t in
  match o with
  | Opt_help => Exits 0
  | Opt_m a => Parsed (Build_hpdcache_test (u64 (atoll a)) mt el on tn fn cn q sd ll vb)
  | Opt_n a => Parsed (Build_hpdcache_test mc (u64 (atoll a)) el on tn fn cn q sd ll vb)
  | Opt_r a => Parsed (Build_hpdcache_test mc mt el on tn fn cn q (Some (u64 (strtol 0 a))) ll vb)
  | Opt_t a => Parsed (Build_hpdcache_test mc mt el (Some true) a fn cn q sd ll vb)
  | Opt_c a => Parsed (Build_hpdcache_test mc mt el on tn fn a q sd ll vb)
  | Opt_l a =>
      match verbosity_of_level (atoi a) with
      | Some v => Parsed (Build_hpdcache_test mc mt el on tn fn cn q sd (atoi a) v)
      | None => Exits EXIT_FAILURE
      end
  | Opt_s a => set_sequence a t
  | Opt_f a =>
      if good a then Parsed (Build_hpdcache_test mc mt el on tn a cn q sd ll vb) else Exits EXIT_FAILURE
  | Opt_e a => Parsed (Build_hpdcache_test mc mt (u64 (atoll a)) on tn fn cn q sd ll vb)
  end.

Fixpoint parse_options (opts : list option_t) (t : hpdcache_test) : parsed :=
  match opts with
  | [] => Parsed t
  | o :: opts => match do_option o t with Exits st => Exits st | Parsed t => parse_options opts t end
  end.

(** What [build] gives the sequence and the scoreboard; None dereferences a null
    pointer. *)
Record bench := { bn_seq : sequence; bn_max_transactions : Z; bn_error_limit : Z }.
Definition build (t : hpdcache_test) : option bench :=
  q ← test_seq t;
  Some {| bn_seq := q; bn_max_transactions := max_trans t; bn_error_limit := error_limit t |}.
End CommandLine.

(** ** The clock *)

(** What the signals are during one [sc_start] of 500 ps. *)
Record half := { assert_on : bool; rst_ni : bool; clk_i : bool }.
Definition reset_cycles (on rst : bool) : list half :=
  c ← List.seq 0 5; [Build_half on rst false; Build_half on rst true].

Section Simulate.
(** [Verilated::gotFinish()] after half cycle [k] of the main loop. *)
Context (gotFinish : nat -> bool).

(** The main loop; [k] counts its half cycles. None is out of fuel. *)
Fixpoint main_loop (fuel k : nat) (cycles max : Z) : option (list half * Z) :=
  if cycles <? max then
    match fuel with
    | O => None
    | S fuel =>
        let low := Build_half true true false in
        let high := Build_half true true true in
        if gotFinish k then Some ([low], cycles)
        else if gotFinish (S k) then Some ([low; high], cycles)
        else '(l, c) ← main_loop fuel (S (S k)) (cycles + 1) max; Some (low :: high :: l, c)
    end
  else Some ([], cycles).

(** [simulate]: the half cycles, and [cycles] at the end. *)
Definition simulate (fuel : nat) (max : Z) : option (list half * Z) :=
  '(l, c) ← main_loop fuel 0 5 max;
  Some (reset_cycles false true ++ reset_cycles true false ++ l, c).
End Simulate.

(** [sc_main]: its status, the settings and the simulation it ran; None is the null pointer. *)
Definition sc_main (good opens : string -> bool) (gotFinish : nat -> bool) (opts : list option_t)
    : option (Z * option (hpdcache_test * bench * list half * Z)) :=
  match parse_options good opens opts test_init with
  | Exits st => Some (st, None)
  | Parsed t =>
      b ← build t;
      '(l, c) ← simulate gotFinish (Z.to_nat (max_cycles t)) (max_cycles t);
      Some (0, Some (t, b, l, c))
  end.

(** ** Correctness of the command line *)

(** The options taken one by one, without the state they act on. *)
Section Accepted.
Context (good opens : string -> bool).

(** [file] is the file named last. *)
Definition accepted (file : string) (o : option_t) : Prop :=
  match o with
  | Opt_help => False
  | Opt_l a => 0 <= atoi a <= 5
  | Opt_s a => exists q, sequence_of_name a file = Some q /\ constructs opens q = true
  | Opt_f a => good a = true
  | _ => True
  end.

Definition file_of (o : option_t) : option string := match o with Opt_f a => Some a | _ => None end.
Fixpoint all_accepted (file : string) (opts : list option_t) : Prop :=
  match opts with
  | [] => True
  | o :: opts => accepted file o /\ all_accepted (default file (file_of o)) opts
  end.
End Accepted.

(** The last value an option gives to a setting. *)
Definition last_set {A} (f : option_t -> option A) (opts : list option_t) (d : A) : A :=
  foldl (fun d o => default d (f o)) d opts.

Definition sequence_names (opts : list option_t) : list string :=
  omap (fun o => match o with Opt_s a => Some a | _ => None end) opts.

(** The sequence: that of the last [-s], on the file of the last [-f] before it. *)
Fixpoint sequence_of (file : string) (opts : list option_t) (d : option sequence) : option sequence :=
  match opts with
  | [] => d
  | Opt_s a :: opts => sequence_of file opts (sequence_of_name a file)
  | o :: opts => sequence_of (default file (file_of o)) opts d
  end.

Definition settings (opts : list option_t) (t : hpdcache_test) : hpdcache_test :=
  {| max_cycles := last_set (fun o => match o with Opt_m a => Some (u64 (atoll a)) | _ => None end) opts (max_cycles t);
     max_trans := last_set (fun o => match o with Opt_n a => Some (u64 (atoll a)) | _ => None end) opts (max_trans t);
     error_limit := last_set (fun o => match o with Opt_e a => Some (u64 (atoll a)) | _ => None end) opts (error_limit t);
     trace_on := last_set (fun o => match o with Opt_t _ => Some (Some true) | _ => None end) opts (trace_on t);
     trace_name := last_set (fun o => match o with Opt_t a => Some a | _ => None end) opts (trace_name t);
     file_name := last_set file_of opts (file_name t);
     covname := last_set (fun o => match o with Opt_c a => Some a | _ => None end) opts (covname t);
     test_seq := sequence_of (file_name t) opts (test_seq t);
     seed := last_set (fun o => match o with Opt_r a => Some (Some (u64 (strtol 0 a))) | _ => None end) opts (seed t);
     log_level := last_set (fun o => match o with Opt_l a => Some (atoi a) | _ => None end) opts (log_level t);
     report_verbosity := last_set (fun o => match o with Opt_l a => verbosity_of_level (atoi a) | _ => None end)
                           opts (report_verbosity t) |}.

Lemma verbosity_some level : (exists v, verbosity_of_level level = Some v) <-> 0 <= level <= 5.
Proof.
  unfold verbosity_of_level.
  repeat match goal with |- context [?x =? ?k] => destruct (Z.eqb_spec x k); [split; [lia|eauto]|] end.
  split; [by intros []|lia].
Qed.

(** One [-s] at most is left to take, one less when there is a sequence already. *)
Definition room_for (q : option sequence) : nat := match q with Some _ => 0 | None => 1 end.

Section Parsing.
Context (good opens : string -> bool).

(** One option: taken exactly when it is accepted and there is room for a sequence,
    with the settings it alone makes. *)
Lemma do_option_parsed o t t' :
  do_option good opens o t = Parsed t' <->
  accepted good opens (file_name t) o /\ (length (sequence_names [o]) <= room_for (test_seq t))%nat /\
  t' = settings [o] t.
Proof.
  destruct t as [mc mt el on tn fn cn q sd ll vb].
  destruct o as [|a|a|a|a|a|a|a|a|a]; unfold settings, last_set; simpl;
    try (split; [intros [= <-]; repeat split; lia|by intros (_ & _ & ->)]).
  - split; [done|by intros []].
  - pose proof (verbosity_some (atoi a)) as Hv.
    destruct (verbosity_of_level (atoi a)) as [v|]; simpl.
    + split; [intros [= <-]; refine (conj _ (conj _ eq_refl)); [apply Hv; eauto|lia]|by intros (_ & _ & ->)].
    + split; [done|]. intros (Ha & _). apply Hv in Ha as [v Ha]. done.
  - unfold set_sequence. simpl. destruct q as [q|]; simpl; [split; [done|lia]|].
    destruct (sequence_of_name a fn) as [q|] eqn:E; simpl.
    + destruct (constructs opens q) eqn:Ec; simpl.
      * split; [intros [= <-]; refine (conj _ (conj _ eq_refl)); [eauto|lia]|by intros (_ & _ & ->)].
      * split; [done|]. intros ((q' & [= <-] & Hc) & _). congruence.
    + split; [done|]. by intros ((q' & ? & _) & _).
  - destruct (good a); simpl; [|split; [done|by intros []]].
    split; [intros [= <-]; repeat split; lia|by intros (_ & _ & ->)].
Qed.

Lemma settings_cons o opts t : settings opts (settings [o] t) = settings (o :: opts) t.
Proof. unfold settings, last_set. simpl. f_equal. by destruct o. Qed.

Lemma sequence_names_cons o opts : sequence_names (o :: opts) = sequence_names [o] ++ sequence_names opts.
Proof. by destruct o. Qed.

(** The options after [o] find the room that [o] leaves. *)
Lemma room_after o t opts :
  accepted good opens (file_name t) o -> (length (sequence_names [o]) <= room_for (test_seq t))%nat ->
  (length (sequence_names opts) <= room_for (test_seq (settings [o] t)))%nat <->
  (length (sequence_names (o :: opts)) <= room_for (test_seq t))%nat.
Proof.
  rewrite sequence_names_cons, length_app. destruct o as [|a|a|a|a|a|a|a|a|a]; simpl; try lia.
  intros Ha. destruct (test_seq t); simpl; [lia|]. intros _.
  destruct Ha as (q & -> & _). simpl. lia.
Qed.

Lemma parse_options_parsed opts : forall t t',
  parse_options good opens opts t = Parsed t' <->
  all_accepted good opens (file_name t) opts /\ (length (sequence_names opts) <= room_for (test_seq t))%nat
  /\ t' = settings opts t.
Proof.
  induction opts as [|o opts IH]; intros t t'; cbn [parse_options].
  - assert (settings [] t = t) as -> by by destruct t.
    split; [intros [= ->]; repeat split; simpl; lia|by intros (_ & _ & ->)].
  - pose proof (do_option_parsed o t) as Ho. rewrite <- settings_cons. cbn [all_accepted].
    destruct (do_option good opens o t) as [st|t1].
    + split; [done|]. intros ((Ha & _) & Hn & _). rewrite sequence_names_cons, length_app in Hn.
      assert (Exits st = Parsed (settings [o] t)) by (apply Ho; split_and!; [done|lia|done]). done.
    + destruct (proj1 (Ho t1) eq_refl) as (Ha & Hn & ->). rewrite IH, room_after by done.
      assert (file_name (settings [o] t) = default (file_name t) (file_of o)) as -> by done.
      naive_solver.
Qed.

Lemma parse_options_exits opts : forall t st,
  parse_options good opens opts t = Exits st -> st = 0 \/ st = EXIT_FAILURE.
Proof.
  induction opts as [|o opts IH]; intros t st; cbn [parse_options]; [done|].
  destruct (do_option good opens o t) as [st'|t'] eqn:E; [|apply IH]. intros [= <-].
  destruct t, o; simpl in E; unfold set_sequence in E; repeat case_match; naive_solver.
Qed.

(** No sequence is chosen exactly when there is no [-s]. *)
Lemma sequence_of_none opts : forall file d,
  all_accepted good opens file opts ->
  sequence_of file opts d = None <-> sequence_names opts = [] /\ d = None.
Proof.
  induction opts as [|o opts IH]; intros file d H; simpl; [naive_solver|].
  destruct H as [Ho H].
  destruct o as [|a|a|a|a|a|a|a|a|a]; simpl in *; rewrite ?IH by done; try done.
  split; [|naive_solver]. intros (_ & Ha). by destruct Ho as (q & Hq & _); rewrite Hq in Ha.
Qed.
End Parsing.

(** ** Correctness of the clock *)

Lemma find_first_cons n p :
  find_first (S n) p = if p O then Some O else S <$> find_first n (fun k => p (S k)).
Proof.
  induction n as [|n IH]; [by simpl; destruct (p O)|].
  change (find_first (S (S n)) p) with
    (match find_first (S n) p with Some i => Some i | None => if p (S n) then Some (S n) else None end).
  rewrite IH. simpl. destruct (p O); [done|].
  by destruct (find_first n (fun k => p (S k))); simpl; [|destruct (p (S n))].
Qed.

Section Clock.
Context (gotFinish : nat -> bool).

(** Half cycle [k] of the main loop; how many of [n] are run from [k] on, and the
    number of cycles at the end. *)
Definition half_cycle (k : nat) : half := Build_half true true (Nat.odd k).
Definition first_finish (n k : nat) : option nat := find_first n (fun j => gotFinish (k + j)).
Definition halves_run (n k : nat) : nat := match first_finish n k with Some j => S j | None => n end.
Definition cycles_run (n k : nat) (cycles : Z) : Z :=
  match first_finish n k with Some j => cycles + Z.of_nat j / 2 | None => cycles + Z.of_nat n / 2 end.

Lemma first_finish_SS n k :
  first_finish (S (S n)) k =
  if gotFinish k then Some O else if gotFinish (S k) then Some 1%nat
  else S <$> (S <$> first_finish n (S (S k))).
Proof.
  unfold first_finish. rewrite !find_first_cons, Nat.add_0_r, Nat.add_1_r.
  destruct (gotFinish k); [done|]. destruct (gotFinish (S k)); [done|].
  rewrite (find_first_ext n (fun j => gotFinish (k + S (S j))) (fun j => gotFinish (S (S k) + j)));
    [done|]. intros j Hj. f_equal. lia.
Qed.

Lemma div2_SS j : Z.of_nat (S (S j)) / 2 = 1 + Z.of_nat j / 2.
Proof. replace (Z.of_nat (S (S j))) with (Z.of_nat j + 1 * 2) by lia. rewrite Z.div_add by lia. lia. Qed.

Lemma main_loop_spec max fuel : forall k cycles,
  (Z.to_nat (max - cycles) <= fuel)%nat -> Nat.even k = true ->
  main_loop gotFinish fuel k cycles max =
    Some (half_cycle <$> List.seq k (halves_run (2 * Z.to_nat (max - cycles)) k),
          cycles_run (2 * Z.to_nat (max - cycles)) k cycles).
Proof.
  induction fuel as [|fuel IH]; intros k cycles Hf Hk; cbn [main_loop];
    (destruct (Z.ltb_spec cycles max) as [Hc|Hc];
     [|replace (Z.to_nat (max - cycles)) with O by lia; unfold halves_run, cycles_run; simpl;
       by rewrite Z.add_0_r]); [lia|].
  pose proof (Nat.odd_succ k) as Ho. rewrite Hk in Ho.
  assert (Nat.odd k = false) as Hk' by by rewrite <- Nat.negb_even, Hk.
  assert (2 * Z.to_nat (max - cycles) = S (S (2 * Z.to_nat (max - (cycles + 1)))))%nat as -> by lia.
  unfold halves_run, cycles_run. rewrite first_finish_SS.
  destruct (gotFinish k); [|destruct (gotFinish (S k))].
  - unfold half_cycle. simpl. by rewrite Hk', Z.add_0_r.
  - unfold half_cycle. simpl. by rewrite Hk', Ho, Z.add_0_r.
  - rewrite IH by (simpl; lia || done). unfold halves_run, cycles_run, half_cycle.
    destruct (first_finish _ (S (S k))) as [j|]; simpl; rewrite Hk', Ho, div2_SS; do 2 f_equal; lia.
Qed.

(** [simulate] ends, after ten cycles of reset, five with the reset signal high and the assertions off and five with it low, and one half cycle after the other of a clock that is low first: up to the first after which Verilator finished, and otherwise for the cycles of [max_cycles] that are left, the second half of the reset counted among them. *)
Theorem simulation_clock (max : Z) :
  let n := (2 * Z.to_nat (max - 5))%nat in
  simulate gotFinish (Z.to_nat max) max =
    Some (reset_cycles false true ++ reset_cycles true false ++ (half_cycle <$> List.seq 0 (halves_run n 0)),
          cycles_run n 0 5)
  /\ (halves_run n 0 <= n)%nat
  /\ forall k, (S k < halves_run n 0)%nat -> gotFinish k = false.
Proof.
  intros n. unfold simulate. rewrite main_loop_spec by (lia || done). split; [done|].
  unfold halves_run, first_finish. destruct (find_first n _) as [j|] eqn:E.
  - apply find_first_Some in E as (Hj & _ & Hmin). split; [lia|]. intros k Hk. apply Hmin. lia.
  - rewrite find_first_None in E. split; [lia|]. intros k Hk. apply E. lia.
Qed.
End Clock.

(** C40: The simulation runs exactly when every option is accepted and there is one [-s]: a level in 0..5, a file that can be read, the name of a sequence, and, for a trace, the last file given before the [-s] (the empty name if none is), which must open. It runs with the last value given to each setting, the defaults for the others: cycles, transactions, error limit, seed, log level and verbosity, trace, coverage, file and sequence. Without [-s] the program dereferences a null pointer, in the other cases it exits with a status. *)
Theorem command_line good opens gotFinish opts :
  let t := settings opts test_init in
  let ok := all_accepted good opens "" opts in
  match sc_main good opens gotFinish opts with
  | None => ok /\ sequence_names opts = []
  | Some (st, None) =>
      (st = 0 \/ st = EXIT_FAILURE) /\ ~ (ok /\ (length (sequence_names opts) <= 1)%nat)
  | Some (st, Some (t', b, l, c)) =>
      st = 0 /\ ok /\ length (sequence_names opts) = 1%nat
      /\ t' = t /\ test_seq t = Some (bn_seq b)
      /\ bn_max_transactions b = max_trans t /\ bn_error_limit b = error_limit t
      /\ simulate gotFinish (Z.to_nat (max_cycles t)) (max_cycles t) = Some (l, c)
  end.
Proof.
  intros t ok. unfold sc_main. pose proof (parse_options_parsed good opens opts test_init) as Hp.
  destruct (parse_options good opens opts test_init) as [st|t'] eqn:E.
  - split; [by eapply parse_options_exits|]. intros [Hok Hn].
    assert (Exits st = Parsed t) by by apply Hp. done.
  - destruct (proj1 (Hp t') eq_refl) as (Hok & Hn & ->). fold t.
    assert (test_seq t = None <-> sequence_names opts = []) as Hs.
    { unfold t, settings. simpl. rewrite (sequence_of_none good opens) by done. naive_solver. }
    unfold build. destruct (test_seq t) as [q|] eqn:Eq; simpl; [|by split; [|apply Hs]].
    unfold simulate. rewrite main_loop_spec by (lia || done). simpl. split_and!; try done.
    assert (sequence_names opts <> []) by by rewrite <- Hs.
    destruct (sequence_names opts) as [|a [|]]; simpl in *; [done|done|lia].
Qed.

(** A trace replayed with a file; a file that comes too late, when the empty name does not
    open; and no sequence. *)
Definition ex_opens (file : string) : bool := negb (String.eqb file "").
Example ex_late_file :
  option_map (fun x => option_map (fun y => (seed y.1.1.1, y.1.1.2, y.2)) x.2)
      (sc_main (fun _ => true) ex_opens (fun _ => true)
        [Opt_f "a.bin"; Opt_m "6"; Opt_r "7"; Opt_s "from_trace"; Opt_f "b.bin"])
    = Some (Some (Some 7,
        {| bn_seq := FromTraceSeq "a.bin"; bn_max_transactions := 100; bn_error_limit := 0 |}, 5))
  /\ sc_main (fun _ => true) ex_opens (fun _ => true) [Opt_s "from_trace"; Opt_f "b.bin"]
    = Some (EXIT_FAILURE, None)
  /\ sc_main (fun _ => true) ex_opens (fun _ => true) [Opt_m "6"] = None.
Proof. by vm_compute. Qed.
