(* ===== verification/Netlist.v ===== *)
(** * The interfaces and the wiring of the test bench

    The packed structures of the RTL and the ports of its wrapper; the ports of the
    components of the test bench, the channels of [hpdcache_test] and of the agent, and
    the bindings made by [build], by the agent and by [add_sequence]. *)
From Stdlib Require Import String.
From S2P Require Import Prelude Defs Transaction Driver.

#[local] Open Scope string_scope.
#[local] Open Scope Z_scope.
#[local] Open Scope list_scope.

(** ** Packed structures *)

(** A packed structure lists its fields from the most significant one down. *)
Definition packed : Type := list (string * Z).

Definition sv_width (s : packed) : Z := foldr (fun f n => f.2 + n) 0 s.

(** The position and the width of a field. *)
Fixpoint sv_field (name : string) (s : packed) : option (Z * Z) :=
  match s with
  | [] => None
  | (n, w) :: s => if String.eqb n name then Some (sv_width s, w) else sv_field name s
  end.

Definition sv_get (name : string) (s : packed) (bv : Z) : Z :=
  match sv_field name s with Some (pos, w) => range (pos + w - 1) pos bv | None => 0 end.

(** [$clog2]. *)
Definition clog2 (x : Z) : Z := Z.log2_up x.

Ltac positions :=
  unfold ADDR_POS, WDATA_POS, OP_POS, BE_POS, SIZE_POS, SRC_ID_POS, TRANS_ID_POS,
    NEED_RSP_POS, PHYS_INDEXED_POS, TAG_POS, PMA_POS, RSP_RDATA_POS, RSP_SRC_ID_POS,
    RSP_TRANS_ID_POS, RSP_ERROR_POS, RSP_ABORTED_POS, HPDCACHE_CORE_REQ_WIDTH,
    HPDCACHE_CORE_RSP_WIDTH, HPDCACHE_REQ_OP_WIDTH, HPDCACHE_REQ_SIZE_WIDTH,
    HPDCACHE_REQ_PMA_WIDTH, HPDCACHE_REQ_NEED_RSP_WIDTH, HPDCACHE_REQ_PHYS_INDEXED_WIDTH,
    HPDCACHE_RSP_ERROR_WIDTH, HPDCACHE_RSP_ABORTED_WIDTH, HPDCACHE_REQ_DATA_WIDTH in *; lia.

Section Rtl.
Context {cfg : HpdConfig}.

(** [UserCfg] of the wrapper and [hpdcacheBuildConfig]. *)
Definition paWidth : Z := HPDCACHE_PA_WIDTH.
Definition wordWidth : Z := HPDCACHE_WORD_WIDTH.
Definition reqWords : Z := HPDCACHE_REQ_WORDS.
Definition reqTransIdWidth : Z := HPDCACHE_REQ_TRANS_ID_WIDTH.
Definition reqSrcIdWidth : Z := HPDCACHE_REQ_SRC_ID_WIDTH.
Definition memAddrWidth : Z := HPDCACHE_MEM_ADDR_WIDTH.
Definition memIdWidth : Z := HPDCACHE_MEM_ID_WIDTH.
Definition memDataWidth : Z := HPDCACHE_MEM_DATA_WIDTH.

Definition clWidth : Z := HPDCACHE_CL_WORDS * wordWidth.
Definition clOffsetWidth : Z := clog2 (clWidth / 8).
Definition setWidth : Z := clog2 HPDCACHE_SETS.
Definition nlineWidth : Z := paWidth - clOffsetWidth.
Definition tagWidth : Z := nlineWidth - setWidth.
Definition reqOffsetWidth : Z := paWidth - tagWidth.

Definition hpdcache_pma_t : packed := [("uncacheable", 1); ("io", 1); ("wr_policy_hint", 3)].

Definition hpdcache_req_t : packed :=
  [ ("addr_offset", reqOffsetWidth); ("wdata", reqWords * wordWidth); ("op", 5);
    ("be", reqWords * (wordWidth / 8)); ("size", 3); ("sid", reqSrcIdWidth); ("tid", reqTransIdWidth);
    ("need_rsp", 1); ("phys_indexed", 1); ("addr_tag", tagWidth); ("pma", sv_width hpdcache_pma_t) ].

Definition hpdcache_rsp_t : packed :=
  [ ("rdata", reqWords * wordWidth); ("sid", reqSrcIdWidth); ("tid", reqTransIdWidth);
    ("error", 1); ("aborted", 1) ].

(** [hpdcache_wr_policy_hint_t]. *)
Definition policy_code (h : hpdcache_wr_policy_hint_e) : Z :=
  match h with HPDCACHE_WR_POLICY_AUTO => 1 | HPDCACHE_WR_POLICY_WB => 2 | HPDCACHE_WR_POLICY_WT => 4 end.

Section Layout.
Context {wf : ConfigWf cfg}.

Lemma clog2_pow2 k : 0 <= k -> clog2 (2 ^ k) = k.
Proof. apply Z.log2_up_pow2. Qed.

Lemma setWidth_spec : setWidth = HPDCACHE_SET_WIDTH.
Proof using wf.
  unfold setWidth, HPDCACHE_SET_WIDTH. destruct cfg_sets as (k & Hk & ->).
  by rewrite clog2_pow2, LOG2_pow2 by lia.
Qed.

Lemma clOffsetWidth_spec : clOffsetWidth = HPDCACHE_CL_OFFSET_WIDTH.
Proof using wf.
  unfold clOffsetWidth, HPDCACHE_CL_OFFSET_WIDTH, clWidth, wordWidth. destruct cfg_line as (k & Hk & ->).
  by rewrite clog2_pow2, LOG2_pow2 by lia.
Qed.

Lemma tagWidth_spec : tagWidth = HPDCACHE_TAG_WIDTH.
Proof using wf.
  unfold tagWidth, nlineWidth. by rewrite setWidth_spec, clOffsetWidth_spec.
Qed.

Lemma reqOffsetWidth_spec : reqOffsetWidth = HPDCACHE_ADDR_OFFSET_WIDTH.
Proof using wf. unfold reqOffsetWidth. by rewrite tagWidth_spec. Qed.

Lemma be_width : reqWords * (wordWidth / 8) = HPDCACHE_REQ_DATA_WIDTH / 8.
Proof using wf.
  unfold reqWords, wordWidth, HPDCACHE_REQ_DATA_WIDTH.
  destruct cfg_word as [E|E]; rewrite E; [change 32 with (4 * 8)|change 64 with (8 * 8)];
    rewrite Z.mul_assoc, !Z.div_mul; lia.
Qed.

(** The fields of the request and of the response are where the driver puts them. *)
Lemma sv_req_field name pos w bv :
  sv_field name hpdcache_req_t = Some (pos, w) -> sv_get name hpdcache_req_t bv = get_field pos w bv.
Proof. unfold sv_get, get_field. by intros ->. Qed.

Lemma sv_req_fields :
  sv_field "addr_offset" hpdcache_req_t = Some (ADDR_POS, HPDCACHE_ADDR_OFFSET_WIDTH)
  /\ sv_field "wdata" hpdcache_req_t = Some (WDATA_POS, HPDCACHE_REQ_DATA_WIDTH)
  /\ sv_field "op" hpdcache_req_t = Some (OP_POS, HPDCACHE_REQ_OP_WIDTH)
  /\ sv_field "be" hpdcache_req_t = Some (BE_POS, HPDCACHE_REQ_DATA_WIDTH / 8)
  /\ sv_field "size" hpdcache_req_t = Some (SIZE_POS, HPDCACHE_REQ_SIZE_WIDTH)
  /\ sv_field "sid" hpdcache_req_t = Some (SRC_ID_POS, HPDCACHE_REQ_SRC_ID_WIDTH)
  /\ sv_field "tid" hpdcache_req_t = Some (TRANS_ID_POS, HPDCACHE_REQ_TRANS_ID_WIDTH)
  /\ sv_field "need_rsp" hpdcache_req_t = Some (NEED_RSP_POS, HPDCACHE_REQ_NEED_RSP_WIDTH)
  /\ sv_field "phys_indexed" hpdcache_req_t = Some (PHYS_INDEXED_POS, HPDCACHE_REQ_PHYS_INDEXED_WIDTH)
  /\ sv_field "addr_tag" hpdcache_req_t = Some (TAG_POS, HPDCACHE_TAG_WIDTH)
  /\ sv_field "pma" hpdcache_req_t = Some (PMA_POS, HPDCACHE_REQ_PMA_WIDTH).
Proof using wf.
  unfold hpdcache_req_t. rewrite reqOffsetWidth_spec, tagWidth_spec, be_width.
  cbn [sv_field String.eqb Ascii.eqb Bool.eqb sv_width foldr snd fst].
  unfold hpdcache_pma_t. cbn [sv_width foldr snd].
  split_and!; do 2 f_equal; unfold reqWords, wordWidth, reqSrcIdWidth, reqTransIdWidth; positions.
Qed.

Lemma sv_rsp_fields :
  sv_field "rdata" hpdcache_rsp_t = Some (RSP_RDATA_POS, HPDCACHE_REQ_DATA_WIDTH)
  /\ sv_field "sid" hpdcache_rsp_t = Some (RSP_SRC_ID_POS, HPDCACHE_REQ_SRC_ID_WIDTH)
  /\ sv_field "tid" hpdcache_rsp_t = Some (RSP_TRANS_ID_POS, HPDCACHE_REQ_TRANS_ID_WIDTH)
  /\ sv_field "error" hpdcache_rsp_t = Some (RSP_ERROR_POS, HPDCACHE_RSP_ERROR_WIDTH)
  /\ sv_field "aborted" hpdcache_rsp_t = Some (RSP_ABORTED_POS, HPDCACHE_RSP_ABORTED_WIDTH).
Proof.
  unfold hpdcache_rsp_t. cbn [sv_field String.eqb Ascii.eqb Bool.eqb sv_width foldr snd fst].
  split_and!; do 2 f_equal; unfold reqWords, wordWidth, reqSrcIdWidth, reqTransIdWidth; positions.
Qed.

Lemma sv_req_width : sv_width hpdcache_req_t = HPDCACHE_CORE_REQ_WIDTH.
Proof using wf.
  unfold hpdcache_req_t. rewrite reqOffsetWidth_spec, tagWidth_spec, be_width.
  cbn [sv_width foldr snd]. unfold reqWords, wordWidth, reqSrcIdWidth, reqTransIdWidth.
  change (sv_width hpdcache_pma_t) with 5. positions.
Qed.

Lemma sv_rsp_width : sv_width hpdcache_rsp_t = HPDCACHE_CORE_RSP_WIDTH.
Proof.
  unfold hpdcache_rsp_t. cbn [sv_width foldr snd].
  unfold reqWords, wordWidth, reqSrcIdWidth, reqTransIdWidth. positions.
Qed.

Lemma pma_fields t :
  sv_get "uncacheable" hpdcache_pma_t (core_get_req_pma t) = Z.b2z (req_uncacheable t)
  /\ sv_get "io" hpdcache_pma_t (core_get_req_pma t) = Z.b2z (req_io t)
  /\ sv_get "wr_policy_hint" hpdcache_pma_t (core_get_req_pma t) = policy_code (req_wr_policy_hint t).
Proof.
  unfold core_get_req_pma, is_wr_policy_auto, is_wr_policy_wb, is_wr_policy_wt.
  destruct (req_wr_policy_hint t), (req_io t), (req_uncacheable t); vm_compute; auto.
Qed.

(** A response as the RTL packs it. *)
Definition sv_put (name : string) (s : packed) (v bv : Z) : Z :=
  match sv_field name s with Some (pos, w) => set_range (pos + w - 1) pos bv v | None => bv end.
Definition sv_response (r : transaction_resp) : Z :=
  sv_put "aborted" hpdcache_rsp_t (Z.b2z (rsp_aborted r))
    (sv_put "error" hpdcache_rsp_t (Z.b2z (rsp_error r))
      (sv_put "tid" hpdcache_rsp_t (rsp_tid r)
        (sv_put "sid" hpdcache_rsp_t (rsp_sid r)
          (sv_put "rdata" hpdcache_rsp_t (rsp_rdata r) 0)))).

(** C9: The test bench and the RTL agree on the core interface. For every configuration, the packed structure hpdcache_req_t of the RTL has the width of the vector the driver sends, and its fields, read from that vector, are those of the transaction, each cut to its width: the tag and the offset make up the physical address, and the three PMA fields are the two flags and the one-hot code of the write policy. The response the RTL packs is the one the driver unpacks. *)
Theorem rtl_reads_request t r :
  let bv := core_req_to_bv t in
  let rd name := sv_get name hpdcache_req_t bv in
  is_word (sv_width hpdcache_req_t) bv
  /\ rd "op" = wrap 5 (req_op t) /\ rd "size" = wrap 3 (req_size t)
  /\ rd "wdata" = wrap HPDCACHE_REQ_DATA_WIDTH (req_wdata t)
  /\ rd "be" = wrap (HPDCACHE_REQ_DATA_WIDTH / 8) (req_be t)
  /\ rd "sid" = wrap reqSrcIdWidth (req_sid t) /\ rd "tid" = wrap reqTransIdWidth (req_tid t)
  /\ rd "need_rsp" = Z.b2z (req_need_rsp t) /\ rd "phys_indexed" = Z.b2z (req_phys_indexed t)
  /\ Z.shiftl (rd "addr_tag") reqOffsetWidth + rd "addr_offset" = wrap paWidth (req_addr t)
  /\ sv_get "uncacheable" hpdcache_pma_t (rd "pma") = Z.b2z (req_uncacheable t)
  /\ sv_get "io" hpdcache_pma_t (rd "pma") = Z.b2z (req_io t)
  /\ sv_get "wr_policy_hint" hpdcache_pma_t (rd "pma") = policy_code (req_wr_policy_hint t)
  /\ sv_width hpdcache_rsp_t = HPDCACHE_CORE_RSP_WIDTH
  /\ (is_word HPDCACHE_REQ_DATA_WIDTH (rsp_rdata r) -> is_word reqSrcIdWidth (rsp_sid r) ->
      is_word reqTransIdWidth (rsp_tid r) -> core_resp_to_struct (sv_response r) = r).
Proof using wf.
  intros bv rd. subst bv rd. cbv beta.
  destruct (core_req_to_bv_fields t) as (H1&H2&H3&H4&H5&H6&H7&H8&H9&H10&H11).
  destruct sv_req_fields as (F1&F2&F3&F4&F5&F6&F7&F8&F9&F10&F11).
  rewrite (sv_req_field _ _ _ _ F1), (sv_req_field _ _ _ _ F2), (sv_req_field _ _ _ _ F3),
    (sv_req_field _ _ _ _ F4), (sv_req_field _ _ _ _ F5), (sv_req_field _ _ _ _ F6),
    (sv_req_field _ _ _ _ F7), (sv_req_field _ _ _ _ F8), (sv_req_field _ _ _ _ F9),
    (sv_req_field _ _ _ _ F10), (sv_req_field _ _ _ _ F11).
  rewrite H2, sv_req_width, reqOffsetWidth_spec.
  destruct (pma_fields t) as (P1 & P2 & P3). destruct sv_rsp_fields as (R1&R2&R3&R4&R5).
  split_and!; try done; [apply sv_rsp_width|]. intros Hd Hs Ht.
  rewrite <- (proj2 core_resp_roundtrip r Hd Hs Ht) at 2. f_equal. unfold sv_response, sv_put.
  by rewrite R1, R2, R3, R4, R5.
Qed.

End Layout.

(** ** Ports and channels *)

Inductive ptype :=
  | TBool | TBv (width : Z) | TReq | TResp | TMemReadReq | TMemReadResp | TMemWriteReq
  | TMemWriteResp | TTransaction | TU64.
Inductive pkind := sc_in | sc_out | sc_fifo_in | sc_fifo_out.
Inductive ckind := sc_signal | sc_fifo.
Record port := Port { p_name : string; p_kind : pkind; p_type : ptype }.
Record channel := Channel { ch_name : string; ch_kind : ckind; ch_type : ptype }.

(** *** The components of the test bench *)

Definition sequence_ports : list port :=
  [ Port "clk_i" sc_in TBool; Port "rst_ni" sc_in TBool;
    Port "transaction_fifo_o" sc_fifo_out TTransaction;
    Port "transaction_ret_i" sc_fifo_in TU64 ].

Definition base_driver_ports : list port :=
  [ Port "clk_i" sc_in TBool; Port "rst_ni" sc_in TBool;
    Port "transaction_fifo_i" sc_fifo_in TTransaction;
    Port "transaction_ret_o" sc_fifo_out TU64 ].

Definition driver_ports : list port :=
  [ Port "core_req_valid_o" sc_out TBool; Port "core_req_ready_i" sc_in TBool;
    Port "core_req_o" sc_out (TBv HPDCACHE_CORE_REQ_WIDTH); Port "core_req_abort_o" sc_out TBool;
    Port "core_req_tag_o" sc_out (TBv HPDCACHE_TAG_WIDTH);
    Port "core_req_pma_o" sc_out (TBv HPDCACHE_REQ_PMA_WIDTH);
    Port "core_rsp_valid_i" sc_in TBool; Port "core_rsp_i" sc_in (TBv HPDCACHE_CORE_RSP_WIDTH);
    Port "no_inflight_requests_i" sc_in TBool; Port "sb_core_req_o" sc_fifo_out TReq;
    Port "sb_core_resp_o" sc_fifo_out TResp ].

Definition base_agent_ports : list port :=
  [ Port "clk_i" sc_in TBool; Port "rst_ni" sc_in TBool ].

Definition agent_ports : list port :=
  [ Port "core_req_valid_o" sc_out TBool; Port "core_req_ready_i" sc_in TBool;
    Port "core_req_o" sc_out (TBv HPDCACHE_CORE_REQ_WIDTH);
    Port "core_req_tag_o" sc_out (TBv HPDCACHE_TAG_WIDTH);
    Port "core_req_pma_o" sc_out (TBv HPDCACHE_REQ_PMA_WIDTH);
    Port "core_req_abort_o" sc_out TBool; Port "core_rsp_valid_i" sc_in TBool;
    Port "core_rsp_i" sc_in (TBv HPDCACHE_CORE_RSP_WIDTH);
    Port "no_inflight_requests_i" sc_in TBool; Port "sb_core_req_o" sc_fifo_out TReq;
    Port "sb_core_resp_o" sc_fifo_out TResp ].

Definition mem_resp_model_ports : list port :=
  [ Port "clk_i" sc_in TBool; Port "rst_ni" sc_in TBool;
    Port "mem_req_read_ready_o" sc_out TBool; Port "mem_req_read_valid_i" sc_in TBool;
    Port "mem_req_read_addr_i" sc_in (TBv HPDCACHE_MEM_ADDR_WIDTH);
    Port "mem_req_read_len_i" sc_in (TBv 8); Port "mem_req_read_size_i" sc_in (TBv 3);
    Port "mem_req_read_id_i" sc_in (TBv HPDCACHE_MEM_ID_WIDTH);
    Port "mem_req_read_command_i" sc_in (TBv 2); Port "mem_req_read_atomic_i" sc_in (TBv 4);
    Port "mem_req_read_cacheable_i" sc_in TBool; Port "mem_resp_read_ready_i" sc_in TBool;
    Port "mem_resp_read_valid_o" sc_out TBool; Port "mem_resp_read_error_o" sc_out (TBv 2);
    Port "mem_resp_read_id_o" sc_out (TBv HPDCACHE_MEM_ID_WIDTH);
    Port "mem_resp_read_data_o" sc_out (TBv HPDCACHE_MEM_DATA_WIDTH);
    Port "mem_resp_read_last_o" sc_out TBool; Port "mem_req_write_ready_o" sc_out TBool;
    Port "mem_req_write_valid_i" sc_in TBool;
    Port "mem_req_write_addr_i" sc_in (TBv HPDCACHE_MEM_ADDR_WIDTH);
    Port "mem_req_write_len_i" sc_in (TBv 8); Port "mem_req_write_size_i" sc_in (TBv 3);
    Port "mem_req_write_id_i" sc_in (TBv HPDCACHE_MEM_ID_WIDTH);
    Port "mem_req_write_command_i" sc_in (TBv 2); Port "mem_req_write_atomic_i" sc_in (TBv 4);
    Port "mem_req_write_cacheable_i" sc_in TBool; Port "mem_req_write_data_ready_o" sc_out TBool;
    Port "mem_req_write_data_valid_i" sc_in TBool;
    Port "mem_req_write_data_i" sc_in (TBv HPDCACHE_MEM_DATA_WIDTH);
    Port "mem_req_write_be_i" sc_in (TBv (HPDCACHE_MEM_DATA_WIDTH / 8));
    Port "mem_req_write_last_i" sc_in TBool; Port "mem_resp_write_ready_i" sc_in TBool;
    Port "mem_resp_write_valid_o" sc_out TBool; Port "mem_resp_write_is_atomic_o" sc_out TBool;
    Port "mem_resp_write_error_o" sc_out (TBv 2);
    Port "mem_resp_write_id_o" sc_out (TBv HPDCACHE_MEM_ID_WIDTH);
    Port "sb_mem_read_req_o" sc_fifo_out TMemReadReq;
    Port "sb_mem_read_resp_o" sc_fifo_out TMemReadResp;
    Port "sb_mem_write_req_o" sc_fifo_out TMemWriteReq;
    Port "sb_mem_write_resp_o" sc_fifo_out TMemWriteResp ].

Definition scoreboard_ports : list port :=
  [ Port "clk_i" sc_in TBool; Port "core_req_i" sc_fifo_in TReq;
    Port "core_resp_i" sc_fifo_in TResp; Port "mem_read_req_i" sc_fifo_in TMemReadReq;
    Port "mem_read_resp_i" sc_fifo_in TMemReadResp;
    Port "mem_write_req_i" sc_fifo_in TMemWriteReq;
    Port "mem_write_resp_i" sc_fifo_in TMemWriteResp; Port "evt_cache_write_miss_i" sc_in TBool;
    Port "evt_cache_read_miss_i" sc_in TBool; Port "evt_cache_dir_unc_err_i" sc_in TBool;
    Port "evt_cache_dir_cor_err_i" sc_in TBool; Port "evt_cache_dat_unc_err_i" sc_in TBool;
    Port "evt_cache_dat_cor_err_i" sc_in TBool; Port "evt_scrub_complete_i" sc_in TBool;
    Port "evt_uncached_req_i" sc_in TBool; Port "evt_cmo_req_i" sc_in TBool;
    Port "evt_write_req_i" sc_in TBool; Port "evt_read_req_i" sc_in TBool;
    Port "evt_prefetch_req_i" sc_in TBool; Port "evt_req_on_hold_i" sc_in TBool;
    Port "evt_rtab_rollback_i" sc_in TBool; Port "evt_stall_refill_i" sc_in TBool;
    Port "evt_stall_i" sc_in TBool; Port "no_inflight_requests_o" sc_out TBool ].

(** *** The wrapper of the RTL *)

Context (wbufTimecntWidth : Z).

Definition wrapper_ports : list port :=
  [ Port "clk_i" sc_in TBool; Port "rst_ni" sc_in TBool; Port "wbuf_flush_i" sc_in TBool;
    Port "core_req_valid_i" sc_in TBool; Port "core_req_ready_o" sc_out TBool;
    Port "core_req_i" sc_in (TBv (sv_width hpdcache_req_t)); Port "core_req_abort_i" sc_in TBool;
    Port "core_req_tag_i" sc_in (TBv tagWidth);
    Port "core_req_pma_i" sc_in (TBv (sv_width hpdcache_pma_t));
    Port "core_rsp_valid_o" sc_out TBool;
    Port "core_rsp_o" sc_out (TBv (sv_width hpdcache_rsp_t));
    Port "mem_req_read_ready_i" sc_in TBool; Port "mem_req_read_valid_o" sc_out TBool;
    Port "mem_req_read_addr_o" sc_out (TBv memAddrWidth);
    Port "mem_req_read_len_o" sc_out (TBv 8); Port "mem_req_read_size_o" sc_out (TBv 3);
    Port "mem_req_read_id_o" sc_out (TBv memIdWidth);
    Port "mem_req_read_command_o" sc_out (TBv 2); Port "mem_req_read_atomic_o" sc_out (TBv 4);
    Port "mem_req_read_cacheable_o" sc_out TBool; Port "mem_resp_read_ready_o" sc_out TBool;
    Port "mem_resp_read_valid_i" sc_in TBool; Port "mem_resp_read_error_i" sc_in (TBv 2);
    Port "mem_resp_read_id_i" sc_in (TBv memIdWidth);
    Port "mem_resp_read_data_i" sc_in (TBv memDataWidth);
    Port "mem_resp_read_last_i" sc_in TBool; Port "mem_req_write_ready_i" sc_in TBool;
    Port "mem_req_write_valid_o" sc_out TBool;
    Port "mem_req_write_addr_o" sc_out (TBv memAddrWidth);
    Port "mem_req_write_len_o" sc_out (TBv 8); Port "mem_req_write_size_o" sc_out (TBv 3);
    Port "mem_req_write_id_o" sc_out (TBv memIdWidth);
    Port "mem_req_write_command_o" sc_out (TBv 2); Port "mem_req_write_atomic_o" sc_out (TBv 4);
    Port "mem_req_write_cacheable_o" sc_out TBool; Port "mem_req_write_data_ready_i" sc_in TBool;
    Port "mem_req_write_data_valid_o" sc_out TBool;
    Port "mem_req_write_data_o" sc_out (TBv memDataWidth);
    Port "mem_req_write_be_o" sc_out (TBv (memDataWidth / 8));
    Port "mem_req_write_last_o" sc_out TBool; Port "mem_resp_write_ready_o" sc_out TBool;
    Port "mem_resp_write_valid_i" sc_in TBool; Port "mem_resp_write_is_atomic_i" sc_in TBool;
    Port "mem_resp_write_error_i" sc_in (TBv 2);
    Port "mem_resp_write_id_i" sc_in (TBv memIdWidth);
    Port "evt_cache_write_miss_o" sc_out TBool; Port "evt_cache_read_miss_o" sc_out TBool;
    Port "evt_cache_dir_unc_err_o" sc_out TBool; Port "evt_cache_dir_cor_err_o" sc_out TBool;
    Port "evt_cache_dat_unc_err_o" sc_out TBool; Port "evt_cache_dat_cor_err_o" sc_out TBool;
    Port "evt_scrub_complete_o" sc_out TBool; Port "evt_uncached_req_o" sc_out TBool;
    Port "evt_cmo_req_o" sc_out TBool; Port "evt_write_req_o" sc_out TBool;
    Port "evt_read_req_o" sc_out TBool; Port "evt_prefetch_req_o" sc_out TBool;
    Port "evt_req_on_hold_o" sc_out TBool; Port "evt_rtab_rollback_o" sc_out TBool;
    Port "evt_stall_refill_o" sc_out TBool; Port "evt_stall_o" sc_out TBool;
    Port "wbuf_empty_o" sc_out TBool; Port "cfg_enable_i" sc_in TBool;
    Port "cfg_wbuf_threshold_i" sc_in (TBv wbufTimecntWidth);
    Port "cfg_wbuf_reset_timecnt_on_write_i" sc_in TBool;
    Port "cfg_wbuf_sequential_waw_i" sc_in TBool;
    Port "cfg_wbuf_inhibit_write_coalescing_i" sc_in TBool;
    Port "cfg_prefetch_updt_plru_i" sc_in TBool; Port "cfg_error_on_cacheable_amo_i" sc_in TBool;
    Port "cfg_rtab_single_entry_i" sc_in TBool; Port "cfg_default_wb_i" sc_in TBool;
    Port "cfg_scrub_enable_i" sc_in TBool; Port "cfg_scrub_period_i" sc_in (TBv 6);
    Port "cfg_scrub_restart_i" sc_in TBool ].

(** *** The channels of [hpdcache_test] and of [Agent] *)

Definition test_channels : list channel :=
  [ Channel "clk_i" sc_signal TBool; Channel "rst_ni" sc_signal TBool;
    Channel "wbuf_flush" sc_signal TBool; Channel "core_req_valid" sc_signal TBool;
    Channel "core_req_ready" sc_signal TBool;
    Channel "core_req" sc_signal (TBv HPDCACHE_CORE_REQ_WIDTH);
    Channel "core_req_abort" sc_signal TBool;
    Channel "core_req_tag" sc_signal (TBv HPDCACHE_TAG_WIDTH);
    Channel "core_req_pma" sc_signal (TBv HPDCACHE_REQ_PMA_WIDTH);
    Channel "core_rsp_valid" sc_signal TBool;
    Channel "core_rsp" sc_signal (TBv HPDCACHE_CORE_RSP_WIDTH);
    Channel "mem_req_read_ready" sc_signal TBool; Channel "mem_req_read_valid" sc_signal TBool;
    Channel "mem_req_read_addr" sc_signal (TBv HPDCACHE_MEM_ADDR_WIDTH);
    Channel "mem_req_read_len" sc_signal (TBv 8); Channel "mem_req_read_size" sc_signal (TBv 3);
    Channel "mem_req_read_id" sc_signal (TBv HPDCACHE_MEM_ID_WIDTH);
    Channel "mem_req_read_command" sc_signal (TBv 2);
    Channel "mem_req_read_atomic" sc_signal (TBv 4);
    Channel "mem_req_read_cacheable" sc_signal TBool;
    Channel "mem_resp_read_ready" sc_signal TBool; Channel "mem_resp_read_valid" sc_signal TBool;
    Channel "mem_resp_read_error" sc_signal (TBv 2);
    Channel "mem_resp_read_id" sc_signal (TBv HPDCACHE_MEM_ID_WIDTH);
    Channel "mem_resp_read_data" sc_signal (TBv HPDCACHE_MEM_DATA_WIDTH);
    Channel "mem_resp_read_last" sc_signal TBool; Channel "mem_req_write_ready" sc_signal TBool;
    Channel "mem_req_write_valid" sc_signal TBool;
    Channel "mem_req_write_addr" sc_signal (TBv HPDCACHE_MEM_ADDR_WIDTH);
    Channel "mem_req_write_len" sc_signal (TBv 8);
    Channel "mem_req_write_size" sc_signal (TBv 3);
    Channel "mem_req_write_id" sc_signal (TBv HPDCACHE_MEM_ID_WIDTH);
    Channel "mem_req_write_command" sc_signal (TBv 2);
    Channel "mem_req_write_atomic" sc_signal (TBv 4);
    Channel "mem_req_write_cacheable" sc_signal TBool;
    Channel "mem_req_write_data_ready" sc_signal TBool;
    Channel "mem_req_write_data_valid" sc_signal TBool;
    Channel "mem_req_write_data" sc_signal (TBv HPDCACHE_MEM_DATA_WIDTH);
    Channel "mem_req_write_be" sc_signal (TBv (HPDCACHE_MEM_DATA_WIDTH / 8));
    Channel "mem_req_write_last" sc_signal TBool; Channel "mem_resp_write_ready" sc_signal TBool;
    Channel "mem_resp_write_valid" sc_signal TBool;
    Channel "mem_resp_write_is_atomic" sc_signal TBool;
    Channel "mem_resp_write_error" sc_signal (TBv 2);
    Channel "mem_resp_write_id" sc_signal (TBv HPDCACHE_MEM_ID_WIDTH);
    Channel "sb_core_req" sc_fifo TReq; Channel "sb_core_resp" sc_fifo TResp;
    Channel "sb_mem_read_req" sc_fifo TMemReadReq;
    Channel "sb_mem_read_resp" sc_fifo TMemReadResp;
    Channel "sb_mem_write_req" sc_fifo TMemWriteReq;
    Channel "sb_mem_write_resp" sc_fifo TMemWriteResp;
    Channel "evt_cache_write_miss" sc_signal TBool;
    Channel "evt_cache_read_miss" sc_signal TBool;
    Channel "evt_cache_dir_unc_err" sc_signal TBool;
    Channel "evt_cache_dir_cor_err" sc_signal TBool;
    Channel "evt_cache_dat_unc_err" sc_signal TBool;
    Channel "evt_cache_dat_cor_err" sc_signal TBool;
    Channel "evt_scrub_complete" sc_signal TBool; Channel "evt_uncached_req" sc_signal TBool;
    Channel "evt_cmo_req" sc_signal TBool; Channel "evt_write_req" sc_signal TBool;
    Channel "evt_read_req" sc_signal TBool; Channel "evt_prefetch_req" sc_signal TBool;
    Channel "evt_req_on_hold" sc_signal TBool; Channel "evt_rtab_rollback" sc_signal TBool;
    Channel "evt_stall_refill" sc_signal TBool; Channel "evt_stall" sc_signal TBool;
    Channel "no_inflight_requests" sc_signal TBool; Channel "wbuf_empty" sc_signal TBool;
    Channel "cfg_enable" sc_signal TBool; Channel "cfg_wbuf_threshold" sc_signal (TBv 3);
    Channel "cfg_wbuf_reset_timecnt_on_write" sc_signal TBool;
    Channel "cfg_wbuf_sequential_waw" sc_signal TBool;
    Channel "cfg_wbuf_inhibit_write_coalescing" sc_signal TBool;
    Channel "cfg_prefetch_updt_plru" sc_signal TBool;
    Channel "cfg_error_on_cacheable_amo" sc_signal TBool;
    Channel "cfg_rtab_single_entry" sc_signal TBool; Channel "cfg_default_wb" sc_signal TBool;
    Channel "cfg_scrub_enable" sc_signal TBool; Channel "cfg_scrub_period" sc_signal (TBv 6);
    Channel "cfg_scrub_restart" sc_signal TBool ].

Definition agent_channels : list channel :=
  [ Channel "transaction_fifo" sc_fifo TTransaction; Channel "transaction_ret" sc_fifo TU64 ].

Definition channels : list channel := test_channels ++ agent_channels.
End Rtl.

(** ** Bindings *)

Definition top_bindings : list (string * string) :=
  [ ("clk_i", "clk_i"); ("rst_ni", "rst_ni"); ("wbuf_flush_i", "wbuf_flush");
    ("core_req_valid_i", "core_req_valid"); ("core_req_ready_o", "core_req_ready");
    ("core_req_i", "core_req"); ("core_req_abort_i", "core_req_abort");
    ("core_req_tag_i", "core_req_tag"); ("core_req_pma_i", "core_req_pma");
    ("core_rsp_valid_o", "core_rsp_valid"); ("core_rsp_o", "core_rsp");
    ("mem_req_read_ready_i", "mem_req_read_ready");
    ("mem_req_read_valid_o", "mem_req_read_valid"); ("mem_req_read_addr_o", "mem_req_read_addr");
    ("mem_req_read_len_o", "mem_req_read_len"); ("mem_req_read_size_o", "mem_req_read_size");
    ("mem_req_read_id_o", "mem_req_read_id"); ("mem_req_read_command_o", "mem_req_read_command");
    ("mem_req_read_atomic_o", "mem_req_read_atomic");
    ("mem_req_read_cacheable_o", "mem_req_read_cacheable");
    ("mem_resp_read_ready_o", "mem_resp_read_ready");
    ("mem_resp_read_valid_i", "mem_resp_read_valid");
    ("mem_resp_read_error_i", "mem_resp_read_error"); ("mem_resp_read_id_i", "mem_resp_read_id");
    ("mem_resp_read_data_i", "mem_resp_read_data");
    ("mem_resp_read_last_i", "mem_resp_read_last");
    ("mem_req_write_ready_i", "mem_req_write_ready");
    ("mem_req_write_valid_o", "mem_req_write_valid");
    ("mem_req_write_addr_o", "mem_req_write_addr"); ("mem_req_write_len_o", "mem_req_write_len");
    ("mem_req_write_size_o", "mem_req_write_size"); ("mem_req_write_id_o", "mem_req_write_id");
    ("mem_req_write_command_o", "mem_req_write_command");
    ("mem_req_write_atomic_o", "mem_req_write_atomic");
    ("mem_req_write_cacheable_o", "mem_req_write_cacheable");
    ("mem_req_write_data_ready_i", "mem_req_write_data_ready");
    ("mem_req_write_data_valid_o", "mem_req_write_data_valid");
    ("mem_req_write_data_o", "mem_req_write_data"); ("mem_req_write_be_o", "mem_req_write_be");
    ("mem_req_write_last_o", "mem_req_write_last");
    ("mem_resp_write_ready_o", "mem_resp_write_ready");
    ("mem_resp_write_valid_i", "mem_resp_write_valid");
    ("mem_resp_write_is_atomic_i", "mem_resp_write_is_atomic");
    ("mem_resp_write_error_i", "mem_resp_write_error");
    ("mem_resp_write_id_i", "mem_resp_write_id");
    ("evt_cache_write_miss_o", "evt_cache_write_miss");
    ("evt_cache_read_miss_o", "evt_cache_read_miss");
    ("evt_cache_dir_unc_err_o", "evt_cache_dir_unc_err");
    ("evt_cache_dir_cor_err_o", "evt_cache_dir_cor_err");
    ("evt_cache_dat_unc_err_o", "evt_cache_dat_unc_err");
    ("evt_cache_dat_cor_err_o", "evt_cache_dat_cor_err");
    ("evt_scrub_complete_o", "evt_scrub_complete"); ("evt_uncached_req_o", "evt_uncached_req");
    ("evt_cmo_req_o", "evt_cmo_req"); ("evt_write_req_o", "evt_write_req");
    ("evt_read_req_o", "evt_read_req"); ("evt_prefetch_req_o", "evt_prefetch_req");
    ("evt_req_on_hold_o", "evt_req_on_hold"); ("evt_rtab_rollback_o", "evt_rtab_rollback");
    ("evt_stall_refill_o", "evt_stall_refill"); ("evt_stall_o", "evt_stall");
    ("wbuf_empty_o", "wbuf_empty"); ("cfg_enable_i", "cfg_enable");
    ("cfg_wbuf_threshold_i", "cfg_wbuf_threshold");
    ("cfg_wbuf_reset_timecnt_on_write_i", "cfg_wbuf_reset_timecnt_on_write");
    ("cfg_wbuf_sequential_waw_i", "cfg_wbuf_sequential_waw");
    ("cfg_wbuf_inhibit_write_coalescing_i", "cfg_wbuf_inhibit_write_coalescing");
    ("cfg_prefetch_updt_plru_i", "cfg_prefetch_updt_plru");
    ("cfg_error_on_cacheable_amo_i", "cfg_error_on_cacheable_amo");
    ("cfg_rtab_single_entry_i", "cfg_rtab_single_entry"); ("cfg_default_wb_i", "cfg_default_wb");
    ("cfg_scrub_enable_i", "cfg_scrub_enable"); ("cfg_scrub_period_i", "cfg_scrub_period");
    ("cfg_scrub_restart_i", "cfg_scrub_restart") ].

Definition agent_bindings : list (string * string) :=
  [ ("clk_i", "clk_i"); ("rst_ni", "rst_ni"); ("core_req_valid_o", "core_req_valid");
    ("core_req_ready_i", "core_req_ready"); ("core_req_o", "core_req");
    ("core_req_tag_o", "core_req_tag"); ("core_req_pma_o", "core_req_pma");
    ("core_req_abort_o", "core_req_abort"); ("core_rsp_valid_i", "core_rsp_valid");
    ("core_rsp_i", "core_rsp"); ("sb_core_req_o", "sb_core_req");
    ("sb_core_resp_o", "sb_core_resp"); ("no_inflight_requests_i", "no_inflight_requests") ].

Definition mem_bindings : list (string * string) :=
  [ ("clk_i", "clk_i"); ("rst_ni", "rst_ni"); ("mem_req_read_ready_o", "mem_req_read_ready");
    ("mem_req_read_valid_i", "mem_req_read_valid"); ("mem_req_read_addr_i", "mem_req_read_addr");
    ("mem_req_read_len_i", "mem_req_read_len"); ("mem_req_read_size_i", "mem_req_read_size");
    ("mem_req_read_id_i", "mem_req_read_id"); ("mem_req_read_command_i", "mem_req_read_command");
    ("mem_req_read_atomic_i", "mem_req_read_atomic");
    ("mem_req_read_cacheable_i", "mem_req_read_cacheable");
    ("mem_resp_read_ready_i", "mem_resp_read_ready");
    ("mem_resp_read_valid_o", "mem_resp_read_valid");
    ("mem_resp_read_error_o", "mem_resp_read_error"); ("mem_resp_read_id_o", "mem_resp_read_id");
    ("mem_resp_read_data_o", "mem_resp_read_data");
    ("mem_resp_read_last_o", "mem_resp_read_last");
    ("mem_req_write_ready_o", "mem_req_write_ready");
    ("mem_req_write_valid_i", "mem_req_write_valid");
    ("mem_req_write_addr_i", "mem_req_write_addr"); ("mem_req_write_len_i", "mem_req_write_len");
    ("mem_req_write_size_i", "mem_req_write_size"); ("mem_req_write_id_i", "mem_req_write_id");
    ("mem_req_write_command_i", "mem_req_write_command");
    ("mem_req_write_atomic_i", "mem_req_write_atomic");
    ("mem_req_write_cacheable_i", "mem_req_write_cacheable");
    ("mem_req_write_data_ready_o", "mem_req_write_data_ready");
    ("mem_req_write_data_valid_i", "mem_req_write_data_valid");
    ("mem_req_write_data_i", "mem_req_write_data"); ("mem_req_write_be_i", "mem_req_write_be");
    ("mem_req_write_last_i", "mem_req_write_last");
    ("mem_resp_write_ready_i", "mem_resp_write_ready");
    ("mem_resp_write_valid_o", "mem_resp_write_valid");
    ("mem_resp_write_is_atomic_o", "mem_resp_write_is_atomic");
    ("mem_resp_write_error_o", "mem_resp_write_error");
    ("mem_resp_write_id_o", "mem_resp_write_id"); ("sb_mem_read_req_o", "sb_mem_read_req");
    ("sb_mem_read_resp_o", "sb_mem_read_resp"); ("sb_mem_write_req_o", "sb_mem_write_req");
    ("sb_mem_write_resp_o", "sb_mem_write_resp") ].

Definition sb_bindings : list (string * string) :=
  [ ("clk_i", "clk_i"); ("core_req_i", "sb_core_req"); ("core_resp_i", "sb_core_resp");
    ("mem_read_req_i", "sb_mem_read_req"); ("mem_read_resp_i", "sb_mem_read_resp");
    ("mem_write_req_i", "sb_mem_write_req"); ("mem_write_resp_i", "sb_mem_write_resp");
    ("evt_cache_write_miss_i", "evt_cache_write_miss");
    ("evt_cache_read_miss_i", "evt_cache_read_miss");
    ("evt_cache_dir_unc_err_i", "evt_cache_dir_unc_err");
    ("evt_cache_dir_cor_err_i", "evt_cache_dir_cor_err");
    ("evt_cache_dat_unc_err_i", "evt_cache_dat_unc_err");
    ("evt_cache_dat_cor_err_i", "evt_cache_dat_cor_err");
    ("evt_scrub_complete_i", "evt_scrub_complete"); ("evt_uncached_req_i", "evt_uncached_req");
    ("evt_cmo_req_i", "evt_cmo_req"); ("evt_write_req_i", "evt_write_req");
    ("evt_read_req_i", "evt_read_req"); ("evt_prefetch_req_i", "evt_prefetch_req");
    ("evt_req_on_hold_i", "evt_req_on_hold"); ("evt_rtab_rollback_i", "evt_rtab_rollback");
    ("evt_stall_refill_i", "evt_stall_refill"); ("evt_stall_i", "evt_stall");
    ("no_inflight_requests_o", "no_inflight_requests") ].

Definition driver_bindings : list (string * string) :=
  [ ("clk_i", "clk_i"); ("rst_ni", "rst_ni"); ("core_req_valid_o", "core_req_valid_o");
    ("core_req_ready_i", "core_req_ready_i"); ("core_req_o", "core_req_o");
    ("core_req_tag_o", "core_req_tag_o"); ("core_req_pma_o", "core_req_pma_o");
    ("core_req_abort_o", "core_req_abort_o"); ("core_rsp_valid_i", "core_rsp_valid_i");
    ("core_rsp_i", "core_rsp_i"); ("sb_core_req_o", "sb_core_req_o");
    ("sb_core_resp_o", "sb_core_resp_o"); ("no_inflight_requests_i", "no_inflight_requests_i");
    ("transaction_fifo_i", "transaction_fifo"); ("transaction_ret_o", "transaction_ret") ].

Definition sequence_bindings : list (string * string) :=
  [ ("clk_i", "clk_i"); ("rst_ni", "rst_ni"); ("transaction_fifo_o", "transaction_fifo");
    ("transaction_ret_i", "transaction_ret") ].

(** *** The signals [simulate] writes *)

Definition simulate_writes : list string :=
  [ "wbuf_flush"; "cfg_enable"; "cfg_wbuf_threshold"; "cfg_wbuf_reset_timecnt_on_write";
    "cfg_wbuf_sequential_waw"; "cfg_wbuf_inhibit_write_coalescing"; "cfg_prefetch_updt_plru";
    "cfg_error_on_cacheable_amo"; "cfg_rtab_single_entry"; "cfg_default_wb"; "cfg_scrub_enable";
    "cfg_scrub_period"; "cfg_scrub_restart"; "clk_i"; "rst_ni" ].

(** ** Elaboration *)

Inductive instance := Top | Agent | Driver | Mem | Scoreboard | Sequence.
#[export] Instance instance_eq_dec : EqDecision instance.
Proof. solve_decision. Defined.
Definition instances : list instance := [Top; Agent; Driver; Mem; Scoreboard; Sequence].

Section Elaboration.
Context {cfg : HpdConfig} (wbufTimecntWidth : Z).

Definition ports (i : instance) : list port :=
  match i with
  | Top => wrapper_ports wbufTimecntWidth
  | Agent => base_agent_ports ++ agent_ports
  | Driver => base_driver_ports ++ driver_ports
  | Mem => mem_resp_model_ports
  | Scoreboard => scoreboard_ports
  | Sequence => sequence_ports
  end.

Definition bindings (i : instance) : list (string * string) :=
  match i with
  | Top => top_bindings
  | Agent => agent_bindings
  | Driver => driver_bindings
  | Mem => mem_bindings
  | Scoreboard => sb_bindings
  | Sequence => sequence_bindings
  end.

Definition assoc (n : string) (l : list (string * string)) : option string :=
  snd <$> List.find (fun b => String.eqb b.1 n) l.

(** A name in the agent is one of its ports, then the channel the port is bound to, or one
    of its FIFOs. The driver and the sequences are bound there. *)
Definition in_agent (x : string) : option string :=
  if existsb (fun p => String.eqb (p_name p) x) (ports Agent) then assoc x agent_bindings else Some x.

Definition channel_of (i : instance) (p : string) : option string :=
  x ← assoc p (bindings i);
  match i with Driver | Sequence => in_agent x | _ => Some x end.

Definition find_channel (n : string) : option channel :=
  List.find (fun c => String.eqb (ch_name c) n) channels.

Definition kinds_agree (p : pkind) (c : ckind) : bool :=
  match p, c with
  | (sc_in | sc_out), sc_signal | (sc_fifo_in | sc_fifo_out), sc_fifo => true
  | _, _ => false
  end.

(** A port reaches a channel of its kind and type, ... *)
Definition wired (i : instance) (p : port) : Prop :=
  match channel_of i (p_name p) with
  | Some n =>
      match find_channel n with
      | Some c => kinds_agree (p_kind p) (ch_kind c) = true /\ ch_type c = p_type p
      | None => False
      end
  | None => False
  end.

(** ... through one binding, and every binding is of a port. *)
Definition bound_once (i : instance) : bool :=
  forallb (fun p => Nat.eqb (count_occ string_dec (map fst (bindings i)) (p_name p)) 1) (ports i) &&
  forallb (fun b => existsb (fun p => String.eqb (p_name p) b.1) (ports i)) (bindings i).

(** Who writes to a channel and who reads it; the ports of the agent are those of its
    driver, and None is [simulate]. *)
Definition leaves : list instance := [Top; Driver; Mem; Scoreboard; Sequence].
Definition is_output (k : pkind) : bool := match k with sc_out | sc_fifo_out => true | _ => false end.
Definition ends_at (out : bool) (n : string) : list (option instance * string) :=
  i ← leaves;
  p ← ports i;
  if Bool.eqb (is_output (p_kind p)) out && bool_decide (channel_of i (p_name p) = Some n)
  then [(Some i, p_name p)] else [].
Definition writers (n : string) : list (option instance * string) :=
  ends_at true n ++ map (fun x => (None, x)) (List.filter (String.eqb n) simulate_writes).
Definition readers (n : string) : list (option instance * string) := ends_at false n.

(** The wires of a channel with one writer and one reader. *)
Definition link (n : string) : option (option instance * option instance) :=
  match writers n, readers n with [(w, _)], [(r, _)] => Some (w, r) | _, _ => None end.

(** The channels from one component to another one. *)
Definition between (w r : option instance) : list string :=
  List.filter (fun n => bool_decide (link n = Some (w, r))) (map ch_name channels).

(** The signal a port carries, by its name: without the suffix that gives its direction;
    the scoreboard names its FIFOs without the [sb_] of the other components. *)
Definition ends_with (suffix s : string) : bool :=
  String.eqb (String.substring (String.length s - 2) 2 s) suffix.
Definition stem (s : string) : string :=
  if ends_with "_i" s || ends_with "_o" s then String.substring 0 (String.length s - 2) s else s.
Definition signal (i : option instance) (p : string) : string :=
  match i with
  | Some Scoreboard =>
      if String.prefix "core_" p || String.prefix "mem_" p then String.append "sb_" (stem p) else stem p
  | _ => stem p
  end.

(** What an input port reads when each component drives its outputs with [drive]. *)
Definition input {V} (drive : option instance -> string -> V) (i : instance) (p : string) : option V :=
  n ← channel_of i p;
  match writers n with [(w, q)] => Some (drive w q) | _ => None end.

(** The signals of the memory interface, as the suffixes of their ports. *)
Definition mem_requests : list string :=
  [ "mem_req_read_valid"; "mem_req_read_addr"; "mem_req_read_len"; "mem_req_read_size";
    "mem_req_read_id"; "mem_req_read_command"; "mem_req_read_atomic"; "mem_req_read_cacheable";
    "mem_resp_read_ready"; "mem_req_write_valid"; "mem_req_write_addr"; "mem_req_write_len";
    "mem_req_write_size"; "mem_req_write_id"; "mem_req_write_command"; "mem_req_write_atomic";
    "mem_req_write_cacheable"; "mem_req_write_data_valid"; "mem_req_write_data";
    "mem_req_write_be"; "mem_req_write_last"; "mem_resp_write_ready" ].
Definition mem_responses : list string :=
  [ "mem_req_read_ready"; "mem_resp_read_valid"; "mem_resp_read_error"; "mem_resp_read_id";
    "mem_resp_read_data"; "mem_resp_read_last"; "mem_req_write_ready"; "mem_req_write_data_ready";
    "mem_resp_write_valid"; "mem_resp_write_is_atomic"; "mem_resp_write_error";
    "mem_resp_write_id" ].
Definition events : list string :=
  [ "evt_cache_write_miss"; "evt_cache_read_miss"; "evt_cache_dir_unc_err"; "evt_cache_dir_cor_err";
    "evt_cache_dat_unc_err"; "evt_cache_dat_cor_err"; "evt_scrub_complete"; "evt_uncached_req";
    "evt_cmo_req"; "evt_write_req"; "evt_read_req"; "evt_prefetch_req"; "evt_req_on_hold";
    "evt_rtab_rollback"; "evt_stall_refill"; "evt_stall" ].
Definition settings_of_simulate : list string :=
  List.filter (fun n => negb (existsb (String.eqb n) ["clk_i"; "rst_ni"])) simulate_writes.

Section Wired.
Context {wf : ConfigWf cfg}.

Ltac wire :=
  lazy -[HPDCACHE_CORE_REQ_WIDTH HPDCACHE_CORE_RSP_WIDTH HPDCACHE_TAG_WIDTH HPDCACHE_REQ_PMA_WIDTH
    HPDCACHE_MEM_ADDR_WIDTH HPDCACHE_MEM_ID_WIDTH HPDCACHE_MEM_DATA_WIDTH Z.div];
  split; reflexivity.
Ltac all_of tac := repeat (apply list.Forall_cons; split; [tac|]); apply list.Forall_nil_2.

(** Wired, but for the threshold of the write buffer, whose width must be the one the
    test bench writes. *)
Definition wired_at (i : instance) (p : port) : Prop :=
  if String.eqb (p_name p) "cfg_wbuf_threshold_i" then wired i p <-> wbufTimecntWidth = 3
  else wired i p.

Lemma wired_others i : i <> Top -> Forall (wired_at i) (ports i).
Proof using Type. intros Hi. destruct i; [done|..]; all_of wire. Qed.

Lemma wired_threshold :
  wired Top (Port "cfg_wbuf_threshold_i" sc_in (TBv wbufTimecntWidth)) <-> wbufTimecntWidth = 3.
Proof using Type.
  transitivity (true = true /\ TBv 3 = TBv wbufTimecntWidth); [by lazy|]. split.
  - intros [_ H]. by injection H.
  - by intros ->.
Qed.

Lemma wired_top : Forall (wired_at Top) (ports Top).
Proof using wf.
  cbn [ports]. unfold wrapper_ports. rewrite sv_req_width, sv_rsp_width, tagWidth_spec.
  all_of ltac:(first [exact wired_threshold | wire]).
Qed.

Lemma one_writer : Forall (fun c => length (writers (ch_name c)) = 1%nat) channels.
Proof using Type. all_of ltac:(vm_compute; reflexivity). Qed.

(** Every input reads an output that carries its signal. *)
Lemma inputs_read :
  Forall (fun i =>
    Forall (fun p => exists n w q, channel_of i (p_name p) = Some n /\ writers n = [(w, q)] /\
        signal (Some i) (p_name p) = signal w q)
      (List.filter (fun p => negb (is_output (p_kind p))) (ports i))) leaves.
Proof using Type.
  all_of ltac:(
    match goal with |- Forall ?P ?l =>
      let l' := eval lazy -[HPDCACHE_CORE_REQ_WIDTH HPDCACHE_CORE_RSP_WIDTH HPDCACHE_TAG_WIDTH
        HPDCACHE_REQ_PMA_WIDTH HPDCACHE_MEM_ADDR_WIDTH HPDCACHE_MEM_ID_WIDTH HPDCACHE_MEM_DATA_WIDTH
        sv_width tagWidth Z.div] in l in change (Forall P l') end;
    all_of ltac:(do 3 eexists; split; [vm_compute; reflexivity|split; vm_compute; reflexivity])).
Qed.

Lemma top_threshold : Port "cfg_wbuf_threshold_i" sc_in (TBv wbufTimecntWidth) ∈ ports Top.
Proof using Type. apply (list_elem_of_lookup_2 _ 63). reflexivity. Qed.

Lemma all_wired_at i p : p ∈ ports i -> wired_at i p.
Proof using wf.
  revert p. rewrite <- list.Forall_forall.
  destruct (decide (i = Top)) as [->|Hi]; [apply wired_top|by apply wired_others].
Qed.

(** C10: The test bench is wired as its components assume. For every configuration of the cache and every width of the timer of the write buffer: each port of the wrapper of the RTL, the agent, the driver, the memory model, the scoreboard and the sequence is bound exactly once, to a channel of its kind and of its type, widths included, but for the port of the write-buffer threshold, whose type agrees exactly when that width is the 3 the test bench writes; every channel has exactly one writer; whatever the components drive, each input of a component reads an output that carries the same signal by its name; and the channels between two components are those listed, both sides of the core and of the memory interface, the events of the cache, the settings written by simulate, and the FIFOs the closed loop and the memory loop are composed by. *)
Theorem netlist_connected :
  ((forall i p, p ∈ ports i -> wired i p) <-> wbufTimecntWidth = 3)
  /\ (forall i p, p ∈ ports i -> p_name p <> "cfg_wbuf_threshold_i" -> wired i p)
  /\ (forall i, bound_once i = true)
  /\ (forall c, c ∈ channels -> exists w, writers (ch_name c) = [w])
  /\ (forall V (drive : option instance -> string -> V) i p,
       i ∈ leaves -> p ∈ ports i -> is_output (p_kind p) = false ->
       exists w q, input drive i (p_name p) = Some (drive w q) /\
         signal (Some i) (p_name p) = signal w q)
  /\ between (Some Sequence) (Some Driver) = ["transaction_fifo"]
  /\ between (Some Driver) (Some Sequence) = ["transaction_ret"]
  /\ between (Some Driver) (Some Top) =
       ["core_req_valid"; "core_req"; "core_req_abort"; "core_req_tag"; "core_req_pma"]
  /\ between (Some Top) (Some Driver) = ["core_req_ready"; "core_rsp_valid"; "core_rsp"]
  /\ between (Some Top) (Some Mem) = mem_requests /\ between (Some Mem) (Some Top) = mem_responses
  /\ between (Some Top) (Some Scoreboard) = events
  /\ between None (Some Top) = settings_of_simulate
  /\ between (Some Driver) (Some Scoreboard) = ["sb_core_req"; "sb_core_resp"]
  /\ between (Some Scoreboard) (Some Driver) = ["no_inflight_requests"]
  /\ between (Some Mem) (Some Scoreboard) =
       ["sb_mem_read_req"; "sb_mem_read_resp"; "sb_mem_write_req"; "sb_mem_write_resp"].
Proof using wf.
  split.
  { split; intros H.
    - apply (proj1 wired_threshold), H, top_threshold.
    - intros i p Hp. pose proof (all_wired_at i p Hp) as Hw. unfold wired_at in Hw.
      destruct (String.eqb _ _); tauto. }
  split.
  { intros i p Hp Hn. pose proof (all_wired_at i p Hp) as Hw. unfold wired_at in Hw.
    by rewrite (proj2 (String.eqb_neq _ _)) in Hw. }
  split; [by intros []; vm_compute|]. split.
  { intros c Hc. pose proof one_writer as H. rewrite list.Forall_forall in H. specialize (H c Hc).
    destruct (writers (ch_name c)) as [|w [|]]; try done. by exists w. }
  split.
  { intros V drive i p Hi Hp Ho. pose proof inputs_read as H. rewrite list.Forall_forall in H.
    specialize (H i Hi). rewrite list.Forall_forall in H.
    destruct (H p) as (n & w & q & Hn & Hw & Hs).
    - apply list_elem_of_In, filter_In. rewrite Ho. by rewrite <- list_elem_of_In.
    - exists w, q. unfold input. by rewrite Hn; simpl; rewrite Hw. }
  split_and!; vm_compute; reflexivity.
Qed.
End Wired.
End Elaboration.

(** ** Witnesses *)

Lemma rtl_reads_request_witness :
  sv_get "tid" (@hpdcache_req_t default_config) (@core_req_to_bv default_config ex_req) = 5.
Proof.
  pose proof (@rtl_reads_request default_config default_config_wf ex_req
    {| rsp_rdata := 77; rsp_sid := 1; rsp_tid := 9; rsp_error := true; rsp_aborted := false |})
    as (_&_&_&_&_&_&H&_).
  exact H.
Defined.

Lemma netlist_connected_witness :
  wired (cfg := default_config) 4 Top (Port "core_req_tag_i" sc_in (TBv 37)).
Proof.
  apply (proj1 (proj2 (netlist_connected (cfg := default_config) (wf := default_config_wf) 4)) Top);
    [by apply (list_elem_of_lookup_2 _ 7)|done].
Defined.
