(* ===== verification/MemLoop.v ===== *)
(** * The memory model and the scoreboard together

    The scoreboard reads, in the delta cycles after each clock edge, what the processes
    of the memory model wrote to the four FIFOs between them; the order of its four
    processes is free, and its other processes run between the edges. The cache is the
    environment: it drives the pins of the memory model, under the rule that an
    identifier is not reused while it is in flight. *)
From S2P Require Import Prelude Defs Transaction MemModel Amo MemResp MemProcs MemProcsProps.
From S2P Require Import Scoreboard ScoreboardProps.

#[local] Open Scope Z_scope.

Section MemLoop.
Context {cfg : HpdConfig}.

(** ** The loop *)

Record memloop := { ml_procs : procs; ml_sb : scoreboard }.

(** What the memory model sends to the scoreboard at an edge. *)
Definition sent (o : outputs) : list sb_event :=
  (EvMemReadReq <$> sb_mem_read_req_o o) ++ (EvMemReadResp <$> sb_mem_read_resp_o o) ++
  (EvMemWriteReq <$> sb_mem_write_req_o o) ++ (EvMemWriteResp <$> sb_mem_write_resp_o o).

(** The scoreboard's other processes. *)
Definition core_side (ev : sb_event) : bool :=
  match ev with EvAllocate _ | EvCoreReq _ _ | EvCoreResp _ | EvCycle _ => true | _ => false end.

(** *** Identifiers in flight *)

(** The identifiers whose last beat is in a list of beats. *)
Definition lastids (l : list (Z * bool)) : list Z := omap (fun f : Z * bool => if f.2 then Some f.1 else None) l.
Definition amo_ids (l : list mem_req) : list Z := mreq_id <$> List.filter write_is_amo l.

(** The responses that have not been sent to the scoreboard. *)
Definition held_read (p : procs) : list (Z * bool) :=
  flag <$> source_held (mp_rresp p) ++ read_resp_fifo p.
Definition pending_read (p : procs) : list Z :=
  lastids (held_read p ++ owed (mp_read p) ++ (flag <$> wp_resps (mp_write p))).
Definition pending_write (p : procs) : list Z :=
  wresp_id <$> source_held (mp_bresp p) ++ write_resp_fifo p ++ wp_ack (mp_write p).
(** With the writes accepted and not executed. *)
Definition accepted (p : procs) : list mem_req := wp_meta (mp_write p) ++ write_req_fifo p.
Definition inflight_read (p : procs) : list Z := pending_read p ++ amo_ids (accepted p).
Definition inflight_write (p : procs) : list Z := pending_write p ++ (mreq_id <$> accepted p).

(** The rule the cache follows at an edge: the identifiers of the requests accepted are
    not in flight, and a load-exclusive is a read. *)
Record disciplined (p : procs) (o : outputs) : Prop := {
  dis_read : NoDup (inflight_read p ++ (mreq_id <$> sb_mem_read_req_o o) ++ amo_ids (out_aw o));
  dis_write : NoDup (inflight_write p ++ (mreq_id <$> out_aw o));
  dis_len : Forall (fun r => 0 <= mreq_len r) (sb_mem_read_req_o o);
  dis_ldex : Forall (fun r => mem_is_ldex r = false) (out_aw o);
}.

Inductive ml_step : memloop -> memloop -> Prop :=
  | ml_edge e p p' o evs s s' :
      mem_edge e p = Some (p', o) -> disciplined p o -> evs ≡ₚ sent o ->
      for_each handle evs s = Done tt s' ->
      ml_step {| ml_procs := p; ml_sb := s |} {| ml_procs := p'; ml_sb := s' |}
  | ml_core ev p s s' :
      core_side ev = true -> handle ev s = Done tt s' ->
      ml_step {| ml_procs := p; ml_sb := s |} {| ml_procs := p; ml_sb := s' |}.

(** ** The scoreboard's side *)

Definition id_error (m : sb_error) : bool :=
  match m with
  | E_mem_read_id_inflight _ | E_mem_read_resp_unmatched _
  | E_mem_write_id_inflight _ | E_mem_write_resp_unmatched _ => true
  | _ => false
  end.
Definition no_id_error (k : list sb_error) : Prop := Forall (fun m => id_error m = false) k.

Definition logs (s s' : scoreboard) : Prop := exists k, log_extends k s s' /\ no_id_error k.

#[export] Instance logs_preorder : PreOrder logs.
Proof.
  split.
  - intros s. exists []. split; [symmetry; apply app_nil_r|constructor].
  - intros a b c (k1&Hk1&?) (k2&Hk2&?). exists (k1 ++ k2). split; [|by apply Forall_app_2].
    unfold log_extends in *. by rewrite Hk2, Hk1, app_assoc.
Qed.

(** Computations that leave the memory tables alone. *)
Definition same_mem (s s' : scoreboard) : Prop :=
  inflight_mem_read_m s' = inflight_mem_read_m s /\
  inflight_mem_write_m s' = inflight_mem_write_m s /\ logs s s'.

#[export] Instance same_mem_preorder : PreOrder same_mem.
Proof.
  split; [by intros s; split_and!|]. intros a b c (?&?&?) (?&?&?). split_and!; try congruence. by etrans.
Qed.

Lemma add_error_mem m s : id_error m = false -> same_mem s (add_error m s).
Proof. intros Hm. split_and!; try done. exists [m]. split; [done|]. by repeat constructor. Qed.

Abbreviation mframes := (keeps same_mem).

#[local] Hint Resolve keeps_ret keeps_bind keeps_get keeps_undef keeps_when keeps_for_each
  same_mem_preorder : mframes.
#[local] Hint Extern 1 (mframes (print_error _)) =>
  apply keeps_print; intros; apply add_error_mem; reflexivity : mframes.
#[local] Hint Extern 1 (mframes (modify _)) =>
  apply keeps_modify; intros s0; exact (reflexivity (R := same_mem) s0) : mframes.

Ltac keeps_tac :=
  repeat first
    [ progress intros
    | apply keeps_bind; [apply _|..]
    | apply keeps_for_each; [apply _|]
    | apply keeps_when; [apply _|]
    | match goal with |- keeps _ (if ?b then _ else _) => destruct b end
    | match goal with |- keeps _ (match ?x with _ => _ end) => destruct x end
    | match goal with |- keeps _ (let '(_, _) := ?x in _) => destruct x end ];
  auto with mframes.

Lemma mframes_ram_write buf be n addr : mframes (sb_ram_write buf be n addr).
Proof. unfold sb_ram_write. keeps_tac. Qed.
#[local] Hint Resolve mframes_ram_write : mframes.

Lemma mframes_core_req junk req : mframes (core_req_process junk req).
Proof. unfold core_req_process, upd_count, expect_data, core_req_finish, release_id. keeps_tac. Qed.
Lemma mframes_core_resp resp : mframes (core_resp_process resp).
Proof.
  unfold core_resp_process, check_sc, check_data, check_byte, update_amo, release_id, upd_count.
  keeps_tac.
Qed.
Lemma mframes_perf i : mframes (perf_events_process i).
Proof. unfold perf_events_process, upd_count. keeps_tac. Qed.

Lemma core_side_same ev : core_side ev = true -> mframes (handle ev).
Proof.
  destruct ev; simpl; try done; intros _;
    auto using mframes_core_req, mframes_core_resp, mframes_perf with mframes.
Qed.

Lemma mframes_pop empty k : id_error empty = false -> (forall e, mframes (k e)) -> mframes (pop_amo empty k).
Proof.
  intros He Hk. unfold pop_amo. keeps_tac. apply keeps_print. intros. by apply add_error_mem.
Qed.

Lemma mframes_refill resp e : mframes (refill resp e).
Proof. unfold refill. keeps_tac. Qed.

(** The tables by their identifiers. *)
Definition reads (s : scoreboard) : gset Z := dom (inflight_mem_read_m s).
Definition writes (s : scoreboard) : gset Z := dom (inflight_mem_write_m s).

Lemma same_mem_sets s s' : same_mem s s' -> reads s' = reads s /\ writes s' = writes s /\ logs s s'.
Proof. unfold reads, writes. by intros (-> & -> & ?). Qed.

(** A computation that may then log, after the tables became those of [s]. *)
Lemma post_keeps {A} (m : SB A) s R W :
  mframes m -> reads s = R -> writes s = W ->
  post m s (fun _ s' => reads s' = R /\ writes s' = W /\ logs s s').
Proof.
  intros Hm <- <-. eapply post_weaken; [|apply Hm]. intros a s' H. by apply same_mem_sets.
Qed.

Lemma lookup_dom {A} (m : gmap Z A) i : bool_decide (is_Some (m !! i)) = bool_decide (i ∈ dom m).
Proof. apply bool_decide_ext. by rewrite elem_of_dom. Qed.

Lemma read_req_sets req s :
  mreq_id req ∉ reads s ->
  post (mem_read_req_process req) s (fun _ s' =>
    reads s' = {[mreq_id req]} ∪ reads s /\ writes s' = writes s /\ logs s s').
Proof.
  intros Hid. unfold mem_read_req_process, upd_count.
  apply post_bind, post_modify, post_bind, post_get. simpl.
  rewrite lookup_dom, bool_decide_eq_false_2 by done.
  apply post_bind, post_undef. intros segs _. apply post_bind, post_modify.
  eapply post_weaken; [|apply post_keeps; [|reflexivity|reflexivity]].
  - intros [] s' (HR & HW & HL). simpl in *. rewrite HR, HW. unfold reads at 1. simpl.
    rewrite dom_insert_L. split; [done|]. split; [done|]. exact HL.
  - apply keeps_when; [apply _|]. apply mframes_pop; [done|]. intros. apply keeps_ret, _.
Qed.

Lemma read_resp_sets resp s :
  rresp_id resp ∈ reads s ->
  post (mem_read_resp_process resp) s (fun _ s' =>
    reads s' = (if rresp_last resp then reads s ∖ {[rresp_id resp]} else reads s) /\
    writes s' = writes s /\ logs s s').
Proof.
  intros Hid. unfold mem_read_resp_process, upd_count.
  apply post_bind, post_modify, post_bind, post_get. simpl.
  unfold reads in Hid. apply elem_of_dom in Hid as [e He]. rewrite He.
  apply post_bind. eapply post_weaken; [|apply post_keeps; [|reflexivity|reflexivity]].
  2: { apply keeps_when; [apply _|]. apply mframes_refill. }
  intros [] s' (HR & HW & HL). change (logs s s') in HL.
  apply post_when; intros ->; [apply post_modify|].
  - unfold reads, writes in *. simpl in *. rewrite dom_delete_L, HR. split; [done|]. by split.
  - by rewrite HR, HW.
Qed.

(** The part of an atomic write after the table was updated. *)
Lemma amo_tail id e core s :
  id ∉ reads s ->
  post (pop_amo E_unexpected_amo (fun _ =>
          when core (print_error E_amo_no_core_request);;
          modify (fun s => set_mem_read (map_insert id e (inflight_mem_read_m s)) s))) s
    (fun _ s' => writes s' = writes s /\ logs s s' /\ (sb_log s' = [] -> reads s' = {[id]} ∪ reads s)).
Proof.
  intros Hid. unfold pop_amo. apply post_bind, post_get, post_bind.
  eapply post_weaken; [|apply post_keeps; [|reflexivity|reflexivity]].
  2: { keeps_tac. }
  intros [] s1 (HR & HW & HL). destruct (inflight_amo_req_m s) as [|x rest].
  - apply post_print. split; [done|]. split; [|by intros []%app_nil].
    etrans; [exact HL|]. exists [E_unexpected_amo]. split; [done|]. by constructor.
  - apply post_bind, post_modify, post_bind.
    eapply post_weaken; [|apply post_keeps; [|reflexivity|reflexivity]].
    2: { keeps_tac. }
    intros [] s2 (HR2 & HW2 & HL2). apply post_modify. unfold reads, writes in *. simpl in *.
    split; [congruence|]. split; [by etrans; [exact HL|]|]. intros _.
    assert (id ∉ dom (inflight_mem_read_m s2)) as Hn by (rewrite HR2, HR; done).
    unfold map_insert. rewrite (proj1 (not_elem_of_dom _ _) Hn), dom_insert_L. by rewrite HR2, HR.
Qed.

Lemma write_req_sets wr s :
  mreq_id (wreq wr) ∉ writes s ->
  (mem_is_amo (wreq wr) = true -> mreq_id (wreq wr) ∉ reads s) ->
  post (mem_write_req_process wr) s (fun _ s' =>
    writes s' = {[mreq_id (wreq wr)]} ∪ writes s /\ logs s s' /\
    (sb_log s' = [] ->
     reads s' = if mem_is_amo (wreq wr) then {[mreq_id (wreq wr)]} ∪ reads s else reads s)).
Proof.
  intros Hid Hamo. unfold mem_write_req_process, upd_count.
  apply post_bind, post_modify, post_bind, post_get. simpl.
  rewrite lookup_dom, bool_decide_eq_false_2 by done.
  apply post_bind, post_undef. intros segs _. apply post_bind, post_modify.
  set (e := mk_mem_entry _ _ _). set (core := find_core_req _ _).
  set (s1 := set_mem_write _ _).
  assert (writes s1 = {[mreq_id (wreq wr)]} ∪ writes s) as HW1.
  { unfold writes, s1. simpl. by rewrite dom_insert_L. }
  assert (logs s s1) as HL1 by (exact (reflexivity (R := logs) s)).
  destruct (mem_is_amo (wreq wr)) eqn:Ea.
  - eapply post_weaken; [|apply (amo_tail _ e (bool_decide (core = None)) s1); by apply Hamo].
    intros [] s' (HW & HL & HR). rewrite HW. split; [done|]. split; [by etrans|]. exact HR.
  - eapply post_weaken; [|apply (post_keeps _ s1); [|reflexivity|reflexivity]].
    + intros [] s' (HR & HW & HL). rewrite HW. split; [done|]. split; [by etrans|]. by intros _.
    + destruct (mem_is_stex (wreq wr)); [|apply keeps_ret, _]. apply mframes_pop; [done|].
      intros x. keeps_tac.
Qed.

Lemma write_resp_sets resp s :
  wresp_id resp ∈ writes s ->
  post (mem_write_resp_process resp) s (fun _ s' =>
    reads s' = reads s /\ writes s' = writes s ∖ {[wresp_id resp]} /\ logs s s').
Proof.
  intros Hid. unfold mem_write_resp_process, upd_count.
  apply post_bind, post_modify, post_bind, post_get. simpl.
  unfold writes in Hid. apply elem_of_dom in Hid as [e He]. rewrite He.
  apply post_bind, post_modify, post_modify. unfold reads, writes. simpl.
  rewrite dom_delete_L. split; [done|]. split; [done|]. exact (reflexivity (R := logs) s).
Qed.

(** *** The log only grows *)
Definition grows (s s' : scoreboard) : Prop := sb_log s `prefix_of` sb_log s'.
#[export] Instance grows_preorder : PreOrder grows.
Proof. unfold grows. split; [by intros s|intros a b c; apply transitivity]. Qed.

Lemma add_error_grows m s : grows s (add_error m s).
Proof. by exists [m]. Qed.
#[local] Hint Resolve grows_preorder : mframes.
#[local] Hint Extern 1 (keeps grows (print_error _)) =>
  apply keeps_print; intros; apply add_error_grows : mframes.
#[local] Hint Extern 1 (keeps grows (modify _)) =>
  apply keeps_modify; intros s0; exact (reflexivity (R := grows) s0) : mframes.

Lemma grows_ram_write buf be n addr : keeps grows (sb_ram_write buf be n addr).
Proof. unfold sb_ram_write. keeps_tac. Qed.
#[local] Hint Resolve grows_ram_write : mframes.

Lemma handle_grows ev : keeps grows (handle ev).
Proof.
  destruct ev; cbn [handle]; unfold core_req_process, core_resp_process, mem_read_req_process,
    mem_read_resp_process, mem_write_req_process, mem_write_resp_process, perf_events_process,
    check_sc, check_data, check_byte, update_amo, refill, pop_amo, expect_data, core_req_finish,
    release_id, upd_count; keeps_tac.
Qed.

Lemma done_post {A} (m : SB A) s a s' (Q : A -> scoreboard -> Prop) : post m s Q -> m s = Done a s' -> Q a s'.
Proof. unfold post. by intros H E; rewrite E in H. Qed.

Lemma for_each_cons ev evs s s' :
  for_each handle (ev :: evs) s = Done tt s' ->
  exists s1, handle ev s = Done tt s1 /\ for_each handle evs s1 = Done tt s'.
Proof.
  simpl. unfold mbind, SB_bind. destruct (handle ev s) as [[] s1| |]; try done. eauto.
Qed.

Lemma for_each_grows evs s s' : for_each handle evs s = Done tt s' -> grows s s'.
Proof.
  intros H. refine (done_post _ _ _ _ (fun _ s' => grows s s') _ H).
  apply (keeps_for_each grows). intros. apply handle_grows.
Qed.

(** The first message is not about an identifier. *)
Definition first_ok (s : scoreboard) : Prop := forall m, head (sb_log s) = Some m -> id_error m = false.

Lemma first_ok_grows s s' : sb_log s <> [] -> grows s s' -> first_ok s -> first_ok s'.
Proof.
  unfold grows, first_ok. intros Hn [k ->] H m. destruct (sb_log s) as [|x l]; [done|]. apply H.
Qed.

Lemma first_ok_logs s s' : sb_log s = [] -> logs s s' -> first_ok s'.
Proof.
  intros Hn (k & Hk & Hok) m Hm. unfold log_extends in Hk. rewrite Hn in Hk. simpl in Hk.
  rewrite Hk in Hm. destruct k as [|x k]; [done|]. simplify_eq/=. by inversion Hok.
Qed.

(** *** What an event does to the tables *)
Definition mem_side (ev : sb_event) : bool := negb (core_side ev).
Definition new_r (ev : sb_event) : list Z :=
  match ev with
  | EvMemReadReq r => [mreq_id r]
  | EvMemWriteReq w => if mem_is_amo (wreq w) then [mreq_id (wreq w)] else []
  | _ => []
  end.
Definition gone_r (ev : sb_event) : list Z :=
  match ev with EvMemReadResp r => if rresp_last r then [rresp_id r] else [] | _ => [] end.
Definition more_r (ev : sb_event) : list Z :=
  match ev with EvMemReadResp r => if rresp_last r then [] else [rresp_id r] | _ => [] end.
Definition new_w (ev : sb_event) : list Z :=
  match ev with EvMemWriteReq w => [mreq_id (wreq w)] | _ => [] end.
Definition gone_w (ev : sb_event) : list Z :=
  match ev with EvMemWriteResp r => [wresp_id r] | _ => [] end.

Notation ids f evs := (list_to_set (evs ≫= f) : gset Z).

Lemma handle_sets ev s s' :
  mem_side ev = true -> sb_log s = [] -> handle ev s = Done tt s' ->
  (forall x, x ∈ new_r ev -> x ∉ reads s) -> (forall x, x ∈ gone_r ev ++ more_r ev -> x ∈ reads s) ->
  (forall x, x ∈ new_w ev -> x ∉ writes s) -> (forall x, x ∈ gone_w ev -> x ∈ writes s) ->
  first_ok s' /\
  (sb_log s' = [] ->
   reads s' = (list_to_set (new_r ev) ∪ reads s) ∖ list_to_set (gone_r ev) /\
   writes s' = (list_to_set (new_w ev) ∪ writes s) ∖ list_to_set (gone_w ev)).
Proof.
  intros Hm Hl H Hnr Hgr Hnw Hgw.
  assert (forall s', logs s s' -> first_ok s') as Hfirst by (intros; by eapply first_ok_logs).
  destruct ev as [| | |req|resp|wr|resp|]; try done; cbn [handle new_r gone_r more_r new_w gone_w] in *.
  - apply (done_post _ _ _ _ _ (read_req_sets req s (Hnr _ (list_elem_of_here _ _)))) in H as (HR & HW & HL).
    split; [auto|]. intros _. rewrite HR, HW. set_solver.
  - assert (rresp_id resp ∈ reads s) as Hin by (apply Hgr; destruct (rresp_last resp); set_solver).
    apply (done_post _ _ _ _ _ (read_resp_sets resp s Hin)) in H as (HR & HW & HL).
    split; [auto|]. intros _. rewrite HR, HW. destruct (rresp_last resp); set_solver.
  - assert (mem_is_amo (wreq wr) = true -> mreq_id (wreq wr) ∉ reads s) as Ha.
    { intros E. apply Hnr. rewrite E. set_solver. }
    apply (done_post _ _ _ _ _ (write_req_sets wr s (Hnw _ (list_elem_of_here _ _)) Ha)) in H as (HW & HL & HR).
    split; [auto|]. intros E. rewrite (HR E), HW. destruct (mem_is_amo (wreq wr)); set_solver.
  - apply (done_post _ _ _ _ _ (write_resp_sets resp s (Hgw _ (list_elem_of_here _ _)))) in H as (HR & HW & HL).
    split; [auto|]. intros _. rewrite HR, HW. set_solver.
Qed.

(** The events of an edge, in any order, lead from the tables before it to the tables
    after it: every new identifier is of the tables after and not of those before. *)
Record batch (evs : list sb_event) (P W : gset Z) : Prop := {
  ba_side : Forall (fun ev => mem_side ev = true) evs;
  ba_new_r : NoDup (evs ≫= new_r);
  ba_gone_r : NoDup (evs ≫= gone_r);
  ba_new_w : NoDup (evs ≫= new_w);
  ba_gone_w : NoDup (evs ≫= gone_w);
  ba_in_r : forall x, x ∈ evs ≫= new_r -> x ∈ P;
  ba_out_r : forall x, x ∈ evs ≫= gone_r -> x ∉ P;
  ba_more_r : forall x, x ∈ evs ≫= more_r -> x ∈ P ∖ ids new_r evs;
  ba_in_w : forall x, x ∈ evs ≫= new_w -> x ∈ W;
  ba_out_w : forall x, x ∈ evs ≫= gone_w -> x ∉ W;
}.

(** Membership of [x], in the hypotheses of a batch and in the goal. *)
Ltac member x :=
  repeat match goal with H : forall y : Z, _ |- _ => specialize (H x) end;
  rewrite ?elem_of_app in *.
Ltac sets :=
  repeat rewrite ?elem_of_difference, ?elem_of_union, ?elem_of_list_to_set, ?elem_of_app in *.

Lemma handle_events evs : forall P W s s',
  batch evs P W -> sb_log s = [] -> for_each handle evs s = Done tt s' ->
  reads s = (P ∖ ids new_r evs) ∪ ids gone_r evs ->
  writes s = (W ∖ ids new_w evs) ∪ ids gone_w evs ->
  first_ok s' /\ (sb_log s' = [] -> reads s' = P /\ writes s' = W).
Proof.
  induction evs as [|ev evs IH]; intros P W s s' Hb Hl H HR HW.
  { simpl in H. injection H as <-. split; [intros m; by rewrite Hl|]. intros _. simpl in *. set_solver. }
  apply for_each_cons in H as (s1 & H1 & H2). destruct Hb as [Hs N1 N2 N3 N4 I1 I2 I3 I4 I5]. simpl in *.
  apply list.Forall_cons in Hs as [Hev Hs].
  apply list.NoDup_app in N1 as (N1a & N1b & N1c). apply list.NoDup_app in N2 as (N2a & N2b & N2c).
  apply list.NoDup_app in N3 as (N3a & N3b & N3c). apply list.NoDup_app in N4 as (N4a & N4b & N4c).
  rewrite !list_to_set_app_L in *.
  destruct (handle_sets ev s s1 Hev Hl H1) as [Hf Hsets];
    [intros x; member x; rewrite ?HR, ?HW; sets; tauto..|].
  destruct (decide (sb_log s1 = [])) as [Hl1|Hl1].
  - destruct (Hsets Hl1) as [HR1 HW1]. apply (IH P W s1 s'); try done.
    + constructor; try done; intros x; member x; sets; tauto.
    + rewrite HR1, HR. apply set_eq. intros x. member x. sets.
      destruct (decide (x ∈ new_r ev)), (decide (x ∈ gone_r ev)); tauto.
    + rewrite HW1, HW. apply set_eq. intros x. member x. sets.
      destruct (decide (x ∈ new_w ev)), (decide (x ∈ gone_w ev)); tauto.
  - apply for_each_grows in H2.
    assert (sb_log s' <> []) as Hl'.
    { destruct H2 as [k Hk]. rewrite Hk. by destruct (sb_log s1). }
    split; [exact (first_ok_grows s1 s' Hl1 H2 Hf)|done].
Qed.

Lemma bind_perm {A B} (f : A -> list B) l k : l ≡ₚ k -> l ≫= f ≡ₚ k ≫= f.
Proof. by intros ->. Qed.

Lemma batch_perm evs evs' P W : evs ≡ₚ evs' -> batch evs' P W -> batch evs P W.
Proof.
  intros He [Hs N1 N2 N3 N4 I1 I2 I3 I4 I5].
  assert (forall f : sb_event -> list Z, evs ≫= f ≡ₚ evs' ≫= f) as Hf by (intros; by apply bind_perm).
  constructor; try (by rewrite He); rewrite ?Hf; try done; intros x; rewrite ?Hf; auto.
Qed.

(** ** The beats *)

Lemma lastids_app l k : lastids (l ++ k) = lastids l ++ lastids k.
Proof. apply omap_app. Qed.

(** Every beat is followed by the last one of its burst. *)
Fixpoint covered (l : list (Z * bool)) : Prop :=
  match l with [] => True | f :: l => (f.2 = false -> f.1 ∈ lastids l) /\ covered l end.

Lemma covered_suffix l k : covered (l ++ k) -> covered k.
Proof. induction l as [|f l IH]; simpl; [done|]. intros [_ H]. auto. Qed.

Lemma covered_app l k : covered l -> covered k -> covered (l ++ k).
Proof.
  induction l as [|f l IH]; simpl; [done|]. intros [H1 H2] Hk. split; [|auto].
  intros Hf. rewrite lastids_app. apply elem_of_app. auto.
Qed.

Lemma covered_insert l a k : covered (l ++ k) -> Forall (fun f => f.2 = true) a -> covered (l ++ a ++ k).
Proof.
  intros H Ha. induction l as [|f l IH]; simpl in *.
  - induction Ha as [|x a Hx Ha IH]; simpl; [done|]. split; [congruence|done].
  - destruct H as [H1 H2]. split; [|auto]. intros Hf. specialize (H1 Hf).
    rewrite !lastids_app in *. rewrite !elem_of_app in *. tauto.
Qed.

Lemma beats_ok req n : forall i, i + Z.of_nat n = mreq_len req ->
  lastids (beats req i (S n)) = [mreq_id req] /\ covered (beats req i (S n)).
Proof.
  induction n as [|n IH]; intros i Hi; rewrite beats_S.
  - rewrite (proj2 (Z.eqb_eq i _)) by lia. done.
  - rewrite (proj2 (Z.eqb_neq i _)) by lia. destruct (IH (i + 1)) as [H1 H2]; [lia|].
    simpl. rewrite H1. split; [done|]. split; [|done]. intros _. apply list_elem_of_here.
Qed.

Lemma all_beats_ok req : 0 <= mreq_len req ->
  lastids (all_beats req) = [mreq_id req] /\ covered (all_beats req).
Proof.
  intros H. unfold all_beats. replace (Z.to_nat (mreq_len req + 1)) with (S (Z.to_nat (mreq_len req))) by lia.
  apply beats_ok. lia.
Qed.

Lemma bursts_ok reqs : Forall (fun r => 0 <= mreq_len r) reqs ->
  lastids (reqs ≫= all_beats) = mreq_id <$> reqs /\ covered (reqs ≫= all_beats).
Proof.
  induction 1 as [|r reqs Hr _ [IH1 IH2]]; [done|]. destruct (all_beats_ok r Hr) as [H1 H2].
  rewrite bind_cons, lastids_app, H1, IH1. split; [done|]. by apply covered_app.
Qed.

Lemma amo_ids_app l k : amo_ids (l ++ k) = amo_ids l ++ amo_ids k.
Proof. unfold amo_ids. by rewrite List.filter_app, fmap_app. Qed.

Lemma amo_flags_ok wrs :
  lastids (wrs ≫= amo_flag) = amo_ids (wreq <$> wrs) /\ Forall (fun f => f.2 = true) (wrs ≫= amo_flag).
Proof.
  induction wrs as [|w wrs [IH1 IH2]]; [done|]. rewrite bind_cons, lastids_app, IH1. unfold amo_flag, amo_ids.
  simpl. destruct (write_is_amo (wreq w)); simpl; split; try done. by constructor.
Qed.

Lemma source_step_one {A} (fifo : list A) delay ready pc pc' n sb :
  source_step fifo delay ready pc = (pc', n, sb) -> (length sb <= 1)%nat.
Proof.
  unfold source_step, source_top, source_wait.
  destruct pc as [|[|d] r|r], ready, fifo as [|x fifo], delay; intros [= <- <- <-]; simpl; lia.
Qed.

(** ** The invariant *)

Record procs_ok (p : procs) : Prop := {
  po_read_pc : read_pc_ok (mp_read p);
  po_sampled : Forall sampled (wp_meta (mp_write p) ++ write_req_fifo p);
  po_push : forall r, mp_aw p = Snk_Push r -> sampled r;
  po_covered : covered (held_read p ++ owed (mp_read p));
  po_amo : Forall (fun f => f.2 = true) (flag <$> wp_resps (mp_write p));
  po_ldex : Forall (fun r => mem_is_ldex r = false) (accepted p);
  po_read : NoDup (inflight_read p);
  po_write : NoDup (inflight_write p);
}.

(** The tables hold the identifiers of the responses to come. *)
Definition tables_agree (p : procs) (s : scoreboard) : Prop :=
  reads s = list_to_set (pending_read p) /\ writes s = list_to_set (pending_write p).

Record ml_inv (y : memloop) : Prop := {
  mli_procs : procs_ok (ml_procs y);
  mli_first : first_ok (ml_sb y);
  mli_tables : sb_log (ml_sb y) = [] -> tables_agree (ml_procs y) (ml_sb y);
}.

(** What an edge does to the identifiers: [gone] responses are sent, [new] requests
    come in. *)
Record edge_ids (p p' : procs) (o : outputs) (new gone more : list Z) (neww gonew : list Z) : Prop := {
  ei_read : gone ++ pending_read p' ≡ₚ pending_read p ++ new;
  ei_write : gonew ++ pending_write p' ≡ₚ pending_write p ++ neww;
  ei_disj : NoDup (gone ++ pending_read p');
  ei_disjw : NoDup (gonew ++ pending_write p');
  ei_sent : forall x, x ∈ gone -> x ∈ pending_read p;
  ei_sentw : forall x, x ∈ gonew -> x ∈ pending_write p;
  ei_more : forall x, x ∈ more -> x ∈ pending_read p' /\ x ∉ new;
  ei_side : Forall (fun ev => mem_side ev = true) (sent o);
  ei_new : sent o ≫= new_r = new;
  ei_gone : sent o ≫= gone_r = gone;
  ei_more_r : sent o ≫= more_r = more;
  ei_new_w : sent o ≫= new_w = neww;
  ei_gone_w : sent o ≫= gone_w = gonew;
}.

Lemma edge_batch p p' o new gone more neww gonew s :
  edge_ids p p' o new gone more neww gonew -> tables_agree p s ->
  batch (sent o) (list_to_set (pending_read p')) (list_to_set (pending_write p')) /\
  reads s = (list_to_set (pending_read p') ∖ ids new_r (sent o)) ∪ ids gone_r (sent o) /\
  writes s = (list_to_set (pending_write p') ∖ ids new_w (sent o)) ∪ ids gone_w (sent o).
Proof.
  intros [Er Ew Hd Hdw Hg Hgw Hm Hs <- <- <- <- <-] [HR HW].
  pose proof Hd as Hd'. rewrite Er in Hd'. pose proof Hdw as Hdw'. rewrite Ew in Hdw'.
  apply list.NoDup_app in Hd as (D1 & D2 & D3), Hdw as (D4 & D5 & D6), Hd' as (D7 & D8 & D9),
    Hdw' as (D10 & D11 & D12).
  assert (forall x, x ∈ (sent o ≫= gone_r) \/ x ∈ pending_read p' <->
                    x ∈ pending_read p \/ x ∈ (sent o ≫= new_r)) as Ir.
  { intros x. rewrite <- !elem_of_app. by rewrite Er. }
  assert (forall x, x ∈ (sent o ≫= gone_w) \/ x ∈ pending_write p' <->
                    x ∈ pending_write p \/ x ∈ (sent o ≫= new_w)) as Iw.
  { intros x. rewrite <- !elem_of_app. by rewrite Ew. }
  split_and!.
  - constructor; try done; intros x; member x; sets; tauto.
  - rewrite HR. apply set_eq. intros x. member x. sets. tauto.
  - rewrite HW. apply set_eq. intros x. member x. sets. tauto.
Qed.
End MemLoop.
