(* ===== verification/MemLoopProps.v ===== *)
(** * The memory model and the scoreboard agree on what is in flight

    Over any run of [MemLoop] the tables of the scoreboard hold the identifiers of the
    responses the memory model still owes, and no message is about an identifier. *)
From S2P Require Import Prelude Defs Transaction MemModel Amo MemResp MemProcs MemProcsProps.
From S2P Require Import Scoreboard ScoreboardProps MemLoop.

#[local] Open Scope Z_scope.

Section Edges.
Context {cfg : HpdConfig}.

(** ** A falling edge: requests come in *)

Lemma neg_held i p p' o :
  procs_ok p -> neg_edge i p = Some (p', o) ->
  held_read p' ++ owed (mp_read p') = held_read p ++ owed (mp_read p) ++ (sb_mem_read_req_o o ≫= all_beats)
  /\ read_pc_ok (mp_read p') /\ Forall sampled (out_aw o)
  /\ (forall r, mp_aw p' = Snk_Push r -> sampled r)
  /\ write_req_fifo p' = write_req_fifo p ++ out_aw o /\ mp_write p' = mp_write p
  /\ pending_write p' = pending_write p /\ sent o = EvMemReadReq <$> sb_mem_read_req_o o.
Proof.
  intros Hp H. unfold neg_edge in H.
  destruct (read_step _ _ _ _ _ _) as [[[[rd rs] sb] m]|] eqn:R; [|done]. simpl in H.
  destruct (sink_step _ _ (sample_req _) _ _) as [aw la] eqn:A.
  destruct (sink_step _ _ (ni_w i) _ _) as [w lw] eqn:W. simplify_eq.
  destruct (read_step_spec _ _ _ _ _ _ _ _ _ _ R (po_read_pc _ Hp)) as (R1 & R2 & R3).
  destruct (sink_step_sampled _ _ _ _ _ _ _ A (po_push _ Hp)) as [A1 A2].
  split_and!; try done.
  - unfold held_read. simpl. rewrite R1, !fmap_app, <-!app_assoc. done.
  - unfold sent. simpl. by rewrite app_nil_r.
Qed.

Lemma neg_pending i p p' o :
  procs_ok p -> neg_edge i p = Some (p', o) -> disciplined p o ->
  pending_read p' ≡ₚ pending_read p ++ (mreq_id <$> sb_mem_read_req_o o).
Proof.
  intros Hp H Hd. destruct (neg_held i p p' o Hp H) as (E & _ & _ & _ & _ & Ew & _ & _).
  destruct (bursts_ok _ (dis_len _ _ Hd)) as [Hb _].
  unfold pending_read. rewrite Ew, !(app_assoc (held_read _)), E, !lastids_app, Hb. solve_Permutation.
Qed.

Lemma neg_ok i p p' o :
  procs_ok p -> neg_edge i p = Some (p', o) -> disciplined p o ->
  procs_ok p' /\ edge_ids p p' o (mreq_id <$> sb_mem_read_req_o o) [] [] [] [].
Proof.
  intros Hp H Hd. pose proof (neg_pending i p p' o Hp H Hd) as Hr.
  destruct (neg_held i p p' o Hp H) as (E & Hpc & Hs & Hps & Ef & Ew & Epw & Es).
  destruct (bursts_ok _ (dis_len _ _ Hd)) as [_ Hcov]. destruct Hp as [P1 P2 P3 P4 P5 P6 P7 P8].
  assert (accepted p' = accepted p ++ out_aw o) as Ea.
  { unfold accepted. by rewrite Ew, Ef, app_assoc. }
  assert (NoDup (inflight_read p')) as Hnr.
  { unfold inflight_read. rewrite Hr, Ea, amo_ids_app.
    eapply list.NoDup_Permutation_proper; [|apply (dis_read _ _ Hd)].
    unfold inflight_read. solve_Permutation. }
  assert (NoDup (inflight_write p')) as Hnw.
  { unfold inflight_write. rewrite Epw, Ea, fmap_app, app_assoc. apply (dis_write _ _ Hd). }
  split.
  - constructor; try done.
    + rewrite Ew, Ef, app_assoc. by apply Forall_app_2.
    + rewrite E, app_assoc. by apply covered_app.
    + by rewrite Ew.
    + rewrite Ea. apply Forall_app_2; [done|apply (dis_ldex _ _ Hd)].
  - assert (forall f : sb_event -> list Z, (forall r, f (EvMemReadReq r) = []) ->
      (EvMemReadReq <$> sb_mem_read_req_o o) ≫= f = []) as Hnil.
    { intros f Hf. generalize (sb_mem_read_req_o o). intros l. induction l as [|r l IH]; [done|].
      simpl. by rewrite Hf. }
    constructor; rewrite ?Es; try (by apply Hnil); try set_solver.
    + by rewrite Epw, app_nil_r.
    + simpl. unfold inflight_read in Hnr. by apply list.NoDup_app in Hnr as [? _].
    + simpl. unfold inflight_write in Hnw. by apply list.NoDup_app in Hnw as [? _].
    + apply Forall_fmap, Forall_true. done.
    + generalize (sb_mem_read_req_o o). intros l. induction l as [|r l IH]; [done|]. simpl. by f_equal.
Qed.

(** ** A rising edge: requests are executed, responses go out *)

(** The identifiers of the beats that are not the last one of their burst. *)
Definition moreids (l : list (Z * bool)) : list Z := omap (fun f : Z * bool => if f.2 then None else Some f.1) l.

Lemma pos_held i p p' o :
  procs_ok p -> pos_edge i p = Some (p', o) ->
  exists h ra, held_read p = (flag <$> sb_mem_read_resp_o o) ++ h /\ held_read p' = h ++ ra
  /\ (flag <$> wp_resps (mp_write p)) ++ (sb_mem_write_req_o o ≫= amo_flag)
     = ra ++ (flag <$> wp_resps (mp_write p'))
  /\ accepted p = (wreq <$> sb_mem_write_req_o o) ++ accepted p'
  /\ (wresp_id <$> sb_mem_write_resp_o o) ++ pending_write p'
     = pending_write p ++ (mreq_id ∘ wreq <$> sb_mem_write_req_o o)
  /\ (wresp_id <$> sb_mem_write_resp_o o) `prefix_of` pending_write p
  /\ mp_read p' = mp_read p /\ mp_aw p' = mp_aw p /\ (length (sb_mem_read_resp_o o) <= 1)%nat
  /\ sent o = (EvMemReadResp <$> sb_mem_read_resp_o o) ++ (EvMemWriteReq <$> sb_mem_write_req_o o)
               ++ (EvMemWriteResp <$> sb_mem_write_resp_o o) /\ out_aw o = [].
Proof.
  intros Hp H. unfold pos_edge in H.
  destruct (write_step _ _ _ _ _ _) as [[[wp e] m]|] eqn:E; [|done]. simpl in H.
  destruct (source_step (read_resp_fifo p) _ _ _) as [[rr nr] sr] eqn:R.
  destruct (source_step (write_resp_fifo p) _ _ _) as [[br nb] sb] eqn:B. simplify_eq.
  pose proof (source_step_one _ _ _ _ _ _ _ R) as Hlen.
  apply source_step_spec in R as [R1 _]. apply source_step_spec in B as [B1 _].
  pose proof (po_sampled _ Hp) as Hs. apply Forall_app in Hs as [Hs _].
  apply write_step_spec in E as (E1 & E2 & E3 & E4 & _ & _); [|done].
  exists (flag <$> source_held rr ++ drop nr (read_resp_fifo p)), (flag <$> we_r e).
  unfold held_read, accepted, pending_write. simpl. split_and!; try done.
  - by rewrite R1, fmap_app.
  - by rewrite !fmap_app, <-app_assoc.
  - rewrite !fmap_app in *. rewrite !app_assoc, <-!fmap_app, B1, !fmap_app, <-!app_assoc in *.
    rewrite E4. done.
  - rewrite app_assoc, B1, <-app_assoc, fmap_app. by eexists.
Qed.

Lemma pos_pending i p p' o :
  procs_ok p -> pos_edge i p = Some (p', o) ->
  lastids (flag <$> sb_mem_read_resp_o o) ++ pending_read p'
    ≡ₚ pending_read p ++ amo_ids (wreq <$> sb_mem_write_req_o o).
Proof.
  intros Hp H. destruct (pos_held i p p' o Hp H) as (h & ra & E1 & E2 & E3 & _ & _ & _ & Er & _).
  destruct (amo_flags_ok (sb_mem_write_req_o o)) as [<- _].
  apply (f_equal lastids) in E3. rewrite !lastids_app in E3.
  unfold pending_read. rewrite E1, E2, Er, !lastids_app. rewrite <-!app_assoc, E3. solve_Permutation.
Qed.

(** The messages of a rising edge. *)
Lemma sent_reads l :
  Forall (fun ev => mem_side ev = true) (EvMemReadResp <$> l)
  /\ (EvMemReadResp <$> l) ≫= new_r = [] /\ (EvMemReadResp <$> l) ≫= gone_r = lastids (flag <$> l)
  /\ (EvMemReadResp <$> l) ≫= more_r = moreids (flag <$> l)
  /\ (EvMemReadResp <$> l) ≫= new_w = [] /\ (EvMemReadResp <$> l) ≫= gone_w = [].
Proof.
  induction l as [|r l (I0 & I1 & I2 & I3 & I4 & I5)]; [done|].
  rewrite !fmap_cons, !bind_cons, I1, I2, I3, I4, I5. unfold lastids, moreids. simpl.
  split_and!; try done; [by constructor|..]; by destruct (rresp_last r).
Qed.

Lemma sent_writes l :
  Forall (fun r => mem_is_ldex r = false) (wreq <$> l) ->
  Forall (fun ev => mem_side ev = true) (EvMemWriteReq <$> l)
  /\ (EvMemWriteReq <$> l) ≫= new_r = amo_ids (wreq <$> l) /\ (EvMemWriteReq <$> l) ≫= gone_r = []
  /\ (EvMemWriteReq <$> l) ≫= more_r = [] /\ (EvMemWriteReq <$> l) ≫= new_w = (mreq_id ∘ wreq <$> l)
  /\ (EvMemWriteReq <$> l) ≫= gone_w = [].
Proof.
  induction l as [|r l IH]; [done|]. rewrite !fmap_cons, !bind_cons. intros [Hr Hl]%list.Forall_cons.
  destruct (IH Hl) as (I0 & I1 & I2 & I3 & I4 & I5). rewrite I1, I2, I3, I4, I5.
  cbn [new_r gone_r more_r new_w gone_w].
  assert (mem_is_amo (wreq r) = write_is_amo (wreq r)) as ->.
  { unfold mem_is_ldex in Hr. unfold mem_is_amo, write_is_amo.
    destruct (mreq_command (wreq r) =? _); simpl in *; [|done].
    destruct (mreq_atomic (wreq r) =? HPDCACHE_MEM_ATOMIC_STEX); simpl; [done|]. by rewrite Hr. }
  unfold amo_ids. simpl. split_and!; try done; [by constructor|]. by destruct (write_is_amo (wreq r)).
Qed.

Lemma sent_acks l :
  Forall (fun ev => mem_side ev = true) (EvMemWriteResp <$> l)
  /\ (EvMemWriteResp <$> l) ≫= new_r = [] /\ (EvMemWriteResp <$> l) ≫= gone_r = []
  /\ (EvMemWriteResp <$> l) ≫= more_r = [] /\ (EvMemWriteResp <$> l) ≫= new_w = []
  /\ (EvMemWriteResp <$> l) ≫= gone_w = (wresp_id <$> l).
Proof.
  induction l as [|r l (I0 & I1 & I2 & I3 & I4 & I5)]; [done|].
  rewrite !fmap_cons, !bind_cons, I1, I2, I3, I4, I5. split_and!; try done. by constructor.
Qed.

Lemma pos_procs_ok i p p' o :
  procs_ok p -> pos_edge i p = Some (p', o) ->
  procs_ok p' /\ NoDup (lastids (flag <$> sb_mem_read_resp_o o) ++ inflight_read p')
  /\ NoDup ((wresp_id <$> sb_mem_write_resp_o o) ++ inflight_write p').
Proof.
  intros Hp H. pose proof (pos_pending i p p' o Hp H) as Hr.
  destruct (pos_held i p p' o Hp H) as (h & ra & E1 & E2 & E3 & Ea & Ew & _ & Er & Eaw & _).
  destruct Hp as [P1 P2 P3 P4 P5 P6 P7 P8]. fold (accepted p) in P2. rewrite Ea in P2, P6.
  apply Forall_app in P2 as [_ P2], P6 as [_ P6].
  destruct (amo_flags_ok (sb_mem_write_req_o o)) as [_ Hf].
  assert (Forall (fun f => f.2 = true) (ra ++ (flag <$> wp_resps (mp_write p')))) as Hall.
  { rewrite <- E3. by apply Forall_app_2. }
  apply Forall_app in Hall as [Hra Hwr].
  assert (NoDup (lastids (flag <$> sb_mem_read_resp_o o) ++ inflight_read p')) as Hnr.
  { eapply list.NoDup_Permutation_proper; [|apply P7]. unfold inflight_read.
    rewrite app_assoc, Hr, Ea, amo_ids_app. solve_Permutation. }
  assert (NoDup ((wresp_id <$> sb_mem_write_resp_o o) ++ inflight_write p')) as Hnw.
  { eapply list.NoDup_Permutation_proper; [|apply P8]. unfold inflight_write.
    rewrite app_assoc, Ew, Ea, fmap_app, list_fmap_compose. solve_Permutation. }
  split; [|by split]. constructor; rewrite ?Er, ?Eaw; try done.
  - rewrite E2, <-app_assoc. apply covered_insert; [|done]. rewrite E1, <-app_assoc in P4.
    by eapply covered_suffix.
  - by apply list.NoDup_app in Hnr as (_ & _ & ?).
  - by apply list.NoDup_app in Hnw as (_ & _ & ?).
Qed.

(** A response that is not the last of its burst leaves the last one pending. *)
Lemma more_pending i p p' o x :
  procs_ok p -> pos_edge i p = Some (p', o) ->
  x ∈ moreids (flag <$> sb_mem_read_resp_o o) -> x ∈ pending_read p' /\ x ∈ pending_read p.
Proof.
  intros Hp H Hx. destruct (pos_held i p p' o Hp H) as (h & ra & E1 & E2 & _ & _ & _ & _ & Er & _ & Hl & _).
  pose proof (po_covered _ Hp) as Hc. rewrite E1, <-app_assoc in Hc.
  destruct (sb_mem_read_resp_o o) as [|r [|]]; [by apply elem_of_nil in Hx| |simpl in Hl; lia].
  unfold moreids in Hx. simpl in Hx. simpl in Hc. destruct (rresp_last r) eqn:El; [by apply elem_of_nil in Hx|].
  apply list_elem_of_singleton in Hx as ->. destruct Hc as [Hc _]. specialize (Hc eq_refl).
  rewrite lastids_app, elem_of_app in Hc. unfold pending_read.
  rewrite E1, E2, Er, !lastids_app, !elem_of_app. tauto.
Qed.

Lemma pos_ok i p p' o :
  procs_ok p -> pos_edge i p = Some (p', o) ->
  procs_ok p' /\
  edge_ids p p' o (amo_ids (wreq <$> sb_mem_write_req_o o)) (lastids (flag <$> sb_mem_read_resp_o o))
    (moreids (flag <$> sb_mem_read_resp_o o)) (mreq_id ∘ wreq <$> sb_mem_write_req_o o)
    (wresp_id <$> sb_mem_write_resp_o o).
Proof.
  intros Hp H. pose proof (pos_pending i p p' o Hp H) as Hr.
  destruct (pos_procs_ok i p p' o Hp H) as (Hp' & Hnr & Hnw). split; [done|].
  pose proof (more_pending i p p' o) as Hmore.
  destruct (pos_held i p p' o Hp H) as (h & ra & E1 & E2 & E3 & Ea & Ew & [t Et] & Er & Eaw & Hl & Es & _).
  pose proof (po_ldex _ Hp) as Hx. rewrite Ea in Hx. apply Forall_app in Hx as [Hx _].
  destruct (sent_reads (sb_mem_read_resp_o o)) as (A0 & A1 & A2 & A3 & A4 & A5).
  destruct (sent_writes (sb_mem_write_req_o o) Hx) as (B0 & B1 & B2 & B3 & B4 & B5).
  destruct (sent_acks (sb_mem_write_resp_o o)) as (C0 & C1 & C2 & C3 & C4 & C5).
  constructor; rewrite ?Es, ?bind_app, ?A1, ?A2, ?A3, ?A4, ?A5, ?B1, ?B2, ?B3, ?B4, ?B5, ?C1, ?C2, ?C3,
    ?C4, ?C5, ?app_nil_r; try done.
  - by rewrite Ew.
  - unfold inflight_read in Hnr. rewrite app_assoc in Hnr. by apply list.NoDup_app in Hnr as [? _].
  - unfold inflight_write in Hnw. rewrite app_assoc in Hnw. by apply list.NoDup_app in Hnw as [? _].
  - intros x Hin. unfold pending_read. rewrite E1, !lastids_app, !elem_of_app. auto.
  - intros x Hin. rewrite Et. apply elem_of_app. by left.
  - intros x Hin. destruct (Hmore x Hp H Hin) as [Hin' Hin0]. split; [done|]. intros Hn.
    pose proof (po_read _ Hp) as Hn0. unfold inflight_read in Hn0. rewrite Ea, amo_ids_app in Hn0.
    apply list.NoDup_app in Hn0 as (_ & Hn0 & _). apply (Hn0 x Hin0), elem_of_app. by left.
  - by repeat apply Forall_app_2.
Qed.
End Edges.

(** ** Runs *)
Section Runs.
Context {cfg : HpdConfig}.

Lemma bind_set {A} (f : A -> list Z) l k :
  l ≡ₚ k -> (list_to_set (l ≫= f) : gset Z) = list_to_set (k ≫= f).
Proof. intros H. apply list_to_set_perm_L. by apply bind_perm. Qed.

Lemma edge_inv e p p' o evs s s' :
  ml_inv {| ml_procs := p; ml_sb := s |} -> mem_edge e p = Some (p', o) -> disciplined p o ->
  evs ≡ₚ sent o -> for_each handle evs s = Done tt s' -> ml_inv {| ml_procs := p'; ml_sb := s' |}.
Proof.
  intros [Hp Hf Ht] He Hd Hperm Hs. simpl in *.
  assert (procs_ok p' /\ exists new gone more neww gonew, edge_ids p p' o new gone more neww gonew)
    as (Hp' & new & gone & more & neww & gonew & Hids).
  { destruct e as [i|i]; simpl in He.
    - destruct (neg_ok i p p' o Hp He Hd) as [? ?]. split; [done|]. do 5 eexists; eassumption.
    - destruct (pos_ok i p p' o Hp He) as [? ?]. split; [done|]. do 5 eexists; eassumption. }
  destruct (decide (sb_log s = [])) as [Hl|Hl].
  - destruct (edge_batch _ _ _ _ _ _ _ _ s Hids (Ht Hl)) as (Hb & HR & HW).
    rewrite <- !(bind_set _ _ _ Hperm) in HR. rewrite <- !(bind_set _ _ _ Hperm) in HW.
    apply (batch_perm _ _ _ _ Hperm) in Hb.
    destruct (handle_events _ _ _ _ _ Hb Hl Hs HR HW) as [H1 H2]. by constructor.
  - pose proof (for_each_grows _ _ _ Hs) as Hg. constructor; simpl; [done|exact (first_ok_grows s s' Hl Hg Hf)|].
    intros Hl'. exfalso. destruct Hg as [k Hk]. rewrite Hl' in Hk. by destruct (sb_log s).
Qed.

Lemma core_inv ev p s s' :
  ml_inv {| ml_procs := p; ml_sb := s |} -> core_side ev = true -> handle ev s = Done tt s' ->
  ml_inv {| ml_procs := p; ml_sb := s' |}.
Proof.
  intros [Hp Hf Ht] Hc Hs. simpl in *.
  pose proof (done_post _ _ _ _ _ (core_side_same ev Hc s) Hs) as Hk. simpl in Hk.
  apply same_mem_sets in Hk as (HR & HW & k & Hk & Hok). unfold log_extends in Hk.
  constructor; simpl; [done| |].
  - intros m. rewrite Hk. destruct (sb_log s) as [|x l] eqn:E; simpl.
    + intros Hm. destruct k as [|x k]; [done|]. simplify_eq/=. by inversion Hok.
    + intros [= <-]. apply Hf. by rewrite E.
  - intros Hl. rewrite Hl in Hk. destruct (sb_log s) eqn:E; [|done].
    destruct (Ht eq_refl) as [HR0 HW0]. split; congruence.
Qed.

Lemma run_inv y y' : rtc ml_step y y' -> ml_inv y -> ml_inv y'.
Proof.
  induction 1 as [|y y1 y' Hs _ IH]; [done|]. intros Hi. apply IH.
  destruct Hs; [by eapply edge_inv|by eapply core_inv].
Qed.

(** The start: nothing in flight and nothing logged. *)
Definition quiet (s : scoreboard) : Prop :=
  inflight_mem_read_m s = ∅ /\ inflight_mem_write_m s = ∅ /\ sb_log s = [].

Lemma start_inv m s : quiet s -> ml_inv {| ml_procs := procs_init m; ml_sb := s |}.
Proof.
  intros (HR & HW & Hl). constructor; simpl.
  - constructor; simpl; try done; constructor.
  - intros x. by rewrite Hl.
  - intros _. unfold tables_agree, reads, writes. by rewrite HR, HW, !dom_empty_L.
Qed.

(** Nothing is left in the processes. *)
Definition drained (p : procs) : Prop :=
  mp_read p = Rd_Idle /\ wp_resps (mp_write p) = [] /\ wp_ack (mp_write p) = [] /\
  source_held (mp_rresp p) = [] /\ source_held (mp_bresp p) = [] /\
  read_resp_fifo p = [] /\ write_resp_fifo p = [].

(** C6: The memory model and the scoreboard agree on what is in flight. In any run in which the cache does not reuse an identifier in flight, whatever it drives on the pins, in whatever order the four memory processes of the scoreboard run after an edge and however its other processes are interleaved, the first error reported, if any, is not about an identifier of the memory; and as long as none is, its two tables hold exactly the identifiers of the read and write responses the memory model has not sent, without duplicates. So both are empty when the processes are drained. *)
Theorem mem_scoreboard_agree m s p' s' :
  rtc ml_step {| ml_procs := procs_init m; ml_sb := s |} {| ml_procs := p'; ml_sb := s' |} -> quiet s ->
  (forall err, head (sb_log s') = Some err -> id_error err = false)
  /\ NoDup (pending_read p') /\ NoDup (pending_write p')
  /\ (sb_log s' = [] ->
      dom (inflight_mem_read_m s') = list_to_set (pending_read p')
      /\ dom (inflight_mem_write_m s') = list_to_set (pending_write p')
      /\ (drained p' -> inflight_mem_read_m s' = ∅ /\ inflight_mem_write_m s' = ∅)).
Proof.
  intros Hrun Hs. destruct (run_inv _ _ Hrun (start_inv m s Hs)) as [Hp Hf Ht]. simpl in *.
  split; [exact Hf|]. split; [|split].
  { pose proof (po_read _ Hp) as H. unfold inflight_read in H. by apply list.NoDup_app in H as [? _]. }
  { pose proof (po_write _ Hp) as H. unfold inflight_write in H. by apply list.NoDup_app in H as [? _]. }
  intros Hl. destruct (Ht Hl) as [HR HW]. split; [exact HR|]. split; [exact HW|].
  intros (D1 & D2 & D3 & D4 & D5 & D6 & D7). unfold reads, writes, pending_read, pending_write, held_read in *.
  rewrite D1, D2, D4, D6 in HR. rewrite D3, D5, D7 in HW. split; by apply dom_empty_iff_L.
Qed.
End Runs.

(** ** Witness: a read of two beats and a store *)
#[local] Existing Instance default_config.

(** The edges with the scoreboard's processes in the order of [sent]. *)
Definition ml_exec (e : edge) (y : memloop) : option memloop :=
  '(p, o) ← mem_edge e (ml_procs y);
  if bool_decide (NoDup (inflight_read (ml_procs y) ++ (mreq_id <$> sb_mem_read_req_o o) ++ amo_ids (out_aw o)))
     && bool_decide (NoDup (inflight_write (ml_procs y) ++ (mreq_id <$> out_aw o)))
     && forallb (fun r => 0 <=? mreq_len r) (sb_mem_read_req_o o)
     && forallb (fun r => negb (mem_is_ldex r)) (out_aw o)
  then match for_each handle (sent o) (ml_sb y) with
       | Done _ s => Some {| ml_procs := p; ml_sb := s |}
       | _ => None
       end
  else None.

Lemma ml_exec_step e y y' : ml_exec e y = Some y' -> ml_step y y'.
Proof.
  unfold ml_exec. destruct y as [p s]. simpl. destruct (mem_edge e p) as [[p1 o]|] eqn:E; [|done]. simpl.
  destruct (_ && _) eqn:Hd; [|done]. rewrite !andb_true_iff, !bool_decide_eq_true, !forallb_forall in Hd.
  destruct Hd as [[[H1 H2] H3] H4]. destruct (for_each handle (sent o) s) as [[] s1| |] eqn:Hs; try done.
  intros [= <-]. eapply ml_edge; [exact E| |reflexivity|exact Hs]. constructor; [done|done|..].
  - apply Forall_forall. intros r Hr. apply Z.leb_le, H3, Hr.
  - apply Forall_forall. intros r Hr. apply negb_true_iff, H4, Hr.
Qed.

Fixpoint ml_execs (es : list edge) (y : memloop) : option memloop :=
  match es with [] => Some y | e :: es => y ← ml_exec e y; ml_execs es y end.

Lemma ml_execs_steps es : forall y y', ml_execs es y = Some y' -> rtc ml_step y y'.
Proof.
  induction es as [|e es IH]; intros y y' H; simpl in H.
  { injection H as <-. apply rtc_refl. }
  destruct (ml_exec e y) as [y1|] eqn:E; [|done]. eapply rtc_l; [by eapply ml_exec_step|by apply IH].
Qed.

Definition ex_loop : memloop := {| ml_procs := procs_init ex_model; ml_sb := ex_sb 0 |}.

Definition is_drained (y : memloop) : bool :=
  let p := ml_procs y in
  match mp_read p, wp_resps (mp_write p) ++ source_held (mp_rresp p) ++ read_resp_fifo p,
    wp_ack (mp_write p) ++ source_held (mp_bresp p) ++ write_resp_fifo p, sb_log (ml_sb y) with
  | Rd_Idle, [], [], [] => nb_mem_read_resp (sb_count (ml_sb y)) =? 2
  | _, _, _, _ => false
  end.

Lemma is_drained_spec y : is_drained y = true ->
  drained (ml_procs y) /\ sb_log (ml_sb y) = [] /\ nb_mem_read_resp (sb_count (ml_sb y)) = 2.
Proof.
  unfold is_drained, drained. intros H.
  destruct (mp_read _), (wp_resps _), (source_held (mp_rresp _)), (read_resp_fifo _), (wp_ack _),
    (source_held (mp_bresp _)), (write_resp_fifo _), (sb_log _); simpl in H; try discriminate.
  apply Z.eqb_eq in H. by split_and!.
Qed.

Lemma ex_ml_run : exists p s, ml_execs ex_edges ex_loop = Some {| ml_procs := p; ml_sb := s |} /\
  drained p /\ sb_log s = [] /\ nb_mem_read_resp (sb_count s) = 2.
Proof.
  assert (is_drained <$> ml_execs ex_edges ex_loop = Some true) as H by (vm_compute; reflexivity).
  destruct (ml_execs ex_edges ex_loop) as [[p s]|]; [|done]. exists p, s. split; [done|].
  simpl in H. injection H as H. by apply (is_drained_spec {| ml_procs := p; ml_sb := s |}).
Qed.

Lemma mem_scoreboard_agree_witness : exists p s,
  ml_execs ex_edges ex_loop = Some {| ml_procs := p; ml_sb := s |} /\
  nb_mem_read_resp (sb_count s) = 2 /\ inflight_mem_read_m s = ∅ /\ inflight_mem_write_m s = ∅.
Proof.
  destruct ex_ml_run as (p & s & H & Hd & Hl & Hn). exists p, s.
  pose proof (ml_execs_steps _ _ _ H) as Hr.
  destruct (mem_scoreboard_agree ex_model (ex_sb 0) p s Hr) as (_ & _ & _ & Ht).
  { split; [reflexivity|split; reflexivity]. }
  destruct (Ht Hl) as (_ & _ & He). split; [exact H|split; [exact Hn|exact (He Hd)]].
Defined.
