(* ===== verification/Messages.v ===== *)
(** * The printed form of transactions

    The [to_string] of the transactions, of the entries of the scoreboard and of the
    flits of the memory model, which make up the log of a run; and what a line of the
    log determines. *)
From Stdlib Require Import Ascii String.
From Stdlib Require HexadecimalString HexadecimalN DecimalString DecimalN.
From S2P Require Import Prelude Defs Transaction MemProcs Sequence Scoreboard FaultInj.

#[local] Open Scope string_scope.
#[local] Open Scope Z_scope.
#[local] Open Scope list_scope.

(** ** Streams *)

(** An insertion chain [os << a << b]. *)
Definition cat (l : list string) : string := foldr String.append EmptyString l.

(** An unsigned integer under [std::hex] and under [std::dec]. *)
Definition hex (x : Z) : string := HexadecimalString.NilEmpty.string_of_uint (N.to_hex_uint (Z.to_N x)).
Definition dec (x : Z) : string := DecimalString.NilEmpty.string_of_uint (N.to_uint (Z.to_N x)).

(** What SystemC prints of a bit vector of [w] bits: [to_string(SC_HEX)], and the
    insertion in a stream under [std::hex]. *)
Class ScPrint := {
  sc_hex : Z -> Z -> string;
  sc_stream_hex : Z -> Z -> string;
}.

Definition newline : string := String (ascii_of_nat 10) EmptyString.

Section Lines.
Context {cfg : HpdConfig} {sc : ScPrint}.

(** ** Core transactions *)

Definition wr_policy_to_string (hint : hpdcache_wr_policy_hint_e) : string :=
  match hint with
  | HPDCACHE_WR_POLICY_AUTO => "WR_POLICY_AUTO"
  | HPDCACHE_WR_POLICY_WB => "WR_POLICY_WB"
  | HPDCACHE_WR_POLICY_WT => "WR_POLICY_WT"
  end.

Definition contains_data (op : Z) : bool :=
  match req_op_of_value op with
  | Some (HPDCACHE_REQ_STORE | HPDCACHE_REQ_AMO_SC | HPDCACHE_REQ_AMO_SWAP | HPDCACHE_REQ_AMO_ADD
         | HPDCACHE_REQ_AMO_AND | HPDCACHE_REQ_AMO_OR | HPDCACHE_REQ_AMO_XOR | HPDCACHE_REQ_AMO_MAX
         | HPDCACHE_REQ_AMO_MAXU | HPDCACHE_REQ_AMO_MIN | HPDCACHE_REQ_AMO_MINU) => true
  | _ => false
  end.

Definition core_req_to_string (t : transaction_req) : string :=
  cat ([ "CORE_REQ / @ = "; sc_hex HPDCACHE_PA_WIDTH (req_addr t); " / "; op_to_string (req_op t);
         " / SET = 0x"; hex (get_cache_set t); " / WORD = 0x"; hex (get_cache_word t);
         " / TAG = 0x"; hex (get_cache_tag t); " / SID = 0x"; hex (req_sid t);
         " / TID = 0x"; hex (req_tid t);
         " / WR_POLICY_HINT = "; wr_policy_to_string (req_wr_policy_hint t) ] ++
       (if negb (is_cmo t) then
          [ (if req_uncacheable t then " / UNCACHED" else " / CACHED");
            " / SIZE = "; sc_hex HPDCACHE_REQ_SIZE_WIDTH (req_size t);
            (if req_need_rsp t then " / NEED_RSP" else " / NO NEED_RSP");
            (if req_phys_indexed t then " / PHYS_INDEXED" else " / VIRT_INDEXED") ] ++
          (if contains_data (req_op t) then
             [ " / WDATA = "; sc_hex HPDCACHE_REQ_DATA_WIDTH (req_wdata t);
               " / BE = "; sc_hex (HPDCACHE_REQ_DATA_WIDTH / 8) (req_be t) ]
           else [])
        else [ " / "; cmo_to_string (req_op t) ]) ++
       (if fault_valid (req_fault t) then
          [ " / FAULT INJECTION / WAY = "; dec (fault_way (req_fault t));
            match fault_dom (req_fault t) with CACHE_DIR => " / CACHE_DIR" | CACHE_DAT => " / CACHE_DAT" end ]
        else [])).

Definition core_resp_to_string (r : transaction_resp) : string :=
  cat [ "CORE_RESP / RDATA = "; sc_hex HPDCACHE_REQ_DATA_WIDTH (rsp_rdata r);
        " / SID = 0x"; hex (rsp_sid r); " / TID = 0x"; hex (rsp_tid r);
        (if rsp_error r then " / ERROR" else ""); (if rsp_aborted r then " / ABORTED" else "") ].

(** ** Memory transactions *)

Definition atomic_to_string (atomic : Z) : string :=
  if atomic =? HPDCACHE_MEM_ATOMIC_ADD then "ATOMIC_ADD"
  else if atomic =? HPDCACHE_MEM_ATOMIC_CLR then "ATOMIC_CLR"
  else if atomic =? HPDCACHE_MEM_ATOMIC_SET then "ATOMIC_SET"
  else if atomic =? HPDCACHE_MEM_ATOMIC_EOR then "ATOMIC_EOR"
  else if atomic =? HPDCACHE_MEM_ATOMIC_SMAX then "ATOMIC_SMAX"
  else if atomic =? HPDCACHE_MEM_ATOMIC_SMIN then "ATOMIC_SMIN"
  else if atomic =? HPDCACHE_MEM_ATOMIC_UMAX then "ATOMIC_UMAX"
  else if atomic =? HPDCACHE_MEM_ATOMIC_UMIN then "ATOMIC_UMIN"
  else if atomic =? HPDCACHE_MEM_ATOMIC_SWAP then "ATOMIC_SWAP"
  else if atomic =? HPDCACHE_MEM_ATOMIC_LDEX then "ATOMIC_LDEX"
  else if atomic =? HPDCACHE_MEM_ATOMIC_STEX then "ATOMIC_STEX"
  else "UNKNOWN".

Definition mem_read_req_to_string (r : mem_req) : string :=
  cat [ "MEM_READ_REQ / @ = "; hex (mreq_addr r); " / CMD = "; command_to_string (mreq_command r);
        " / LEN = "; hex (mreq_len r); " / SIZE = "; hex (mreq_size r); " / ID = 0x"; hex (mreq_id r);
        (if mreq_cacheable r then " / CACHEABLE" else " / UNCACHEABLE") ].

Definition mem_write_req_to_string (w : mem_write_req) : string :=
  let r := wreq w in
  cat ([ "MEM_WRITE_REQ / @ = "; hex (mreq_addr r); " / COMMAND = "; command_to_string (mreq_command r) ] ++
       (if mreq_command r =? HPDCACHE_MEM_ATOMIC
        then [ " / ATOMIC = "; atomic_to_string (mreq_atomic r) ] else []) ++
       [ " / LEN = "; hex (mreq_len r); " / SIZE = "; hex (mreq_size r); " / ID = 0x"; hex (mreq_id r);
         " / DATA = "; sc_hex HPDCACHE_MEM_DATA_WIDTH (wreq_data w);
         " / BE = "; sc_hex (HPDCACHE_MEM_DATA_WIDTH / 8) (wreq_be w);
         (if wreq_last w then " / LAST" else " ");
         (if mreq_cacheable r then " / CACHEABLE" else " / UNCACHEABLE") ]).

Definition mem_read_resp_to_string (r : mem_read_resp) : string :=
  cat [ "MEM_READ_RESP / RDATA = "; sc_hex HPDCACHE_MEM_DATA_WIDTH (rresp_data r);
        " / ID = 0x"; hex (rresp_id r); (if rresp_last r then " / LAST" else "");
        (if negb (rresp_error r =? 0) then " / ERROR" else "") ].

Definition mem_write_resp_to_string (r : mem_write_resp) : string :=
  cat [ "MEM_WRITE_RESP / ID = 0x"; hex (wresp_id r);
        (if negb (wresp_error r =? 0) then " / ERROR" else "");
        (if wresp_is_atomic r then " / ATOMIC" else "") ].

(** The flits of the memory model. *)
Definition mem_write_req_flit_to_string (r : mem_req) : string :=
  cat [ "MEM_WRITE / ADDR = 0x"; hex (mreq_addr r); " / LEN = 0d"; dec (mreq_len r);
        " / ID = 0x"; hex (mreq_id r) ].
Definition mem_write_req_data_flit_to_string (r : mem_write_req_data_flit_t) : string :=
  cat [ "MEM_WRITE_DATA / DATA = 0x"; sc_stream_hex HPDCACHE_MEM_DATA_WIDTH (df_data r);
        " / BE = 0x"; sc_stream_hex (HPDCACHE_MEM_DATA_WIDTH / 8) (df_be r);
        (if df_last r then " / LAST" else "") ].

(** ** Other printers *)

(** [inflight_entry_t::to_string] of the scoreboard. *)
Definition inflight_entry_to_string (e : inflight_entry_t) : string :=
  cat [ "@0x"; hex (e_addr e); (if e_hit e then " / hit" else " / miss");
        (if e_is_read e then " / read" else if e_is_write e then " / write"
         else if e_is_amo e then " / amo" else if e_is_amo_sc e then " / sc"
         else if e_is_amo_lr e then " / lr" else "");
        " / "; op_to_string (e_op e); (if e_is_uncacheable e then " / uncacheable" else "");
        " / bytes = "; dec (e_bytes e) ].

(** [to_string] of a sequence, and the message of the destructor of the pool. *)
Definition sequence_to_string (name : string) (max_transactions : Z) : string :=
  cat [ "Sequence "; name; " / Max Transactions = "; dec max_transactions; newline ].
Definition pool_to_string (p : Transaction_pool) : string :=
  cat [ "TRANSACTION POOL"; newline;
        "Number of allocated transactions: "; dec (nb_allocated p); newline;
        "Number of acquired transactions : "; dec (nb_trans p); newline;
        "Number of released transactions : "; dec (nb_release p); newline ].

(** [display_binary] of the trace reader: the characters between its two messages. *)
Definition display_binary (value : Z) : list bool :=
  (fun i => negb (Z.land (Z.shiftr (u32 (Z.shiftl value (8 - i))) 7) 1 =? 0)) <$> [8; 7; 6; 5; 4; 3; 2; 1].
End Lines.

(** ** Tokens *)
Create HintDb tokens.

Fixpoint avoids (x : ascii) (s : string) : bool :=
  match s with EmptyString => true | String c s => negb (Ascii.eqb c x) && avoids x s end.
Abbreviation no_space := (avoids " ").

(** A token ends where the string does, or at a delimiter. *)
Definition ends_at (x : ascii) (s : string) : Prop := s = EmptyString \/ exists r, s = String x r.
Abbreviation ended := (ends_at " ").

Lemma token x a a' s s' :
  avoids x a = true -> avoids x a' = true -> ends_at x s -> ends_at x s' ->
  String.append a s = String.append a' s' -> a = a' /\ s = s'.
Proof.
  revert a'. induction a as [|c a IH]; intros [|c' a'] Ha Ha' Hs Hs' H; simpl in *; [done| | |].
  - destruct Hs as [-> |[r ->]]; [done|]. injection H as <- _. by rewrite Ascii.eqb_refl in Ha'.
  - destruct Hs' as [-> |[r ->]]; [done|]. injection H as -> _. by rewrite Ascii.eqb_refl in Ha.
  - injection H as <- H. apply andb_prop in Ha as [_ Ha], Ha' as [_ Ha'].
    by destruct (IH a' Ha Ha' Hs Hs' H) as [-> ->].
Qed.

Lemma hex_no_space x : no_space (hex x) = true.
Proof. unfold hex. by induction (N.to_hex_uint (Z.to_N x)). Qed.
Lemma dec_no_space x : no_space (dec x) = true.
Proof. unfold dec. by induction (N.to_uint (Z.to_N x)). Qed.
Lemma dec_no_bracket x : avoids "]" (dec x) = true.
Proof. unfold dec. by induction (N.to_uint (Z.to_N x)). Qed.

Lemma hex_inj x y : 0 <= x -> 0 <= y -> hex x = hex y -> x = y.
Proof.
  unfold hex. intros Hx Hy H. apply (f_equal HexadecimalString.NilEmpty.uint_of_string) in H.
  rewrite !HexadecimalString.NilEmpty.usu in H. injection H as H.
  apply HexadecimalN.Unsigned.to_uint_inj in H. by apply Z2N.inj.
Qed.
Lemma dec_inj x y : 0 <= x -> 0 <= y -> dec x = dec y -> x = y.
Proof.
  unfold dec. intros Hx Hy H. apply (f_equal DecimalString.NilEmpty.uint_of_string) in H.
  rewrite !DecimalString.NilEmpty.usu in H. injection H as H.
  apply DecimalN.Unsigned.to_uint_inj in H. by apply Z2N.inj.
Qed.

Lemma op_no_space op : no_space (op_to_string op) = true.
Proof. unfold op_to_string. by destruct (req_op_of_value op) as [[]|]. Qed.
Lemma cmo_no_space op : no_space (cmo_to_string op) = true.
Proof. unfold cmo_to_string. by destruct (req_op_of_value op) as [[]|]. Qed.
Lemma policy_no_space h : no_space (wr_policy_to_string h) = true.
Proof. by destruct h. Qed.
Lemma command_no_space c : no_space (command_to_string c) = true.
Proof. unfold command_to_string. by repeat case_match. Qed.
Lemma atomic_no_space c : no_space (atomic_to_string c) = true.
Proof. unfold atomic_to_string. by repeat case_match. Qed.

Lemma policy_inj h h' : wr_policy_to_string h = wr_policy_to_string h' -> h = h'.
Proof. by destruct h, h'. Qed.

(** The two classes of operations a line depends on. *)
Lemma op_to_string_same o o' :
  op_to_string o = op_to_string o' -> req_op_of_value o = req_op_of_value o'.
Proof.
  unfold op_to_string. by destruct (req_op_of_value o) as [[]|], (req_op_of_value o') as [[]|].
Qed.
Lemma is_cmo_value t :
  is_cmo t = match req_op_of_value (req_op t) with
             | Some (HPDCACHE_REQ_CMO_FENCE | HPDCACHE_REQ_CMO_PREFETCH | HPDCACHE_REQ_CMO_INVAL_NLINE
                    | HPDCACHE_REQ_CMO_INVAL_ALL | HPDCACHE_REQ_CMO_FLUSH_NLINE | HPDCACHE_REQ_CMO_FLUSH_ALL
                    | HPDCACHE_REQ_CMO_FLUSH_INVAL_NLINE | HPDCACHE_REQ_CMO_FLUSH_INVAL_ALL) => true
             | _ => false
             end.
Proof.
  unfold is_cmo. destruct (req_op_of_value (req_op t)) as [op|] eqn:E.
  - apply req_op_of_value_Some in E as ->. by destruct op.
  - assert (forall o, (req_op t =? req_op_value o) = false) as Hne.
    { intros o. apply Z.eqb_neq. intros Ho. apply req_op_of_value_Some in Ho. congruence. }
    by rewrite !Hne.
Qed.

(** ** What a line determines *)

Class ScPrintLaws {sc : ScPrint} := {
  sc_hex_inj w x y : is_word w x -> is_word w y -> sc_hex w x = sc_hex w y -> x = y;
  sc_hex_no_space w x : no_space (sc_hex w x) = true;
}.
Arguments ScPrintLaws : clear implicits.

#[export] Instance sc_plain : ScPrint := {
  sc_hex w x := String.append "0x0" (hex x);
  sc_stream_hex w x := hex x;
}.
#[export] Instance sc_plain_laws : ScPrintLaws sc_plain.
Proof.
  split.
  - intros w x y [Hx _] [Hy _] H. apply (inj (String.append "0x0")) in H. by apply hex_inj.
  - intros w x. simpl. apply hex_no_space.
Qed.

Inductive log_line :=
  | CoreReq (t : transaction_req)
  | CoreResp (r : transaction_resp)
  | MemReadReq (r : mem_req)
  | MemWriteReq (r : mem_write_req)
  | MemReadResp (r : mem_read_resp)
  | MemWriteResp (r : mem_write_resp).

Section Unambiguous.
Context {cfg : HpdConfig} {sc : ScPrint} {laws : ScPrintLaws sc}.

Definition print_line (l : log_line) : string :=
  match l with
  | CoreReq t => core_req_to_string t
  | CoreResp r => core_resp_to_string r
  | MemReadReq r => mem_read_req_to_string r
  | MemWriteReq r => mem_write_req_to_string r
  | MemReadResp r => mem_read_resp_to_string r
  | MemWriteResp r => mem_write_resp_to_string r
  end.

(** The fields have their widths. *)
Record resp_wf (r : transaction_resp) : Prop := {
  wf_rdata : is_word HPDCACHE_REQ_DATA_WIDTH (rsp_rdata r);
  wf_rsp_sid : 0 <= rsp_sid r; wf_rsp_tid : 0 <= rsp_tid r }.
Record mem_req_wf (r : mem_req) : Prop := {
  wf_maddr : 0 <= mreq_addr r; wf_mlen : 0 <= mreq_len r; wf_msize : 0 <= mreq_size r; wf_mid : 0 <= mreq_id r }.
Definition line_wf (l : log_line) : Prop :=
  match l with
  | CoreReq t => req_wf t /\ 0 <= fault_way (req_fault t)
  | CoreResp r => resp_wf r
  | MemReadReq r => mem_req_wf r
  | MemWriteReq r => mem_req_wf (wreq r) /\ is_word HPDCACHE_MEM_DATA_WIDTH (wreq_data r)
                     /\ is_word (HPDCACHE_MEM_DATA_WIDTH / 8) (wreq_be r)
  | MemReadResp r => is_word HPDCACHE_MEM_DATA_WIDTH (rresp_data r) /\ 0 <= rresp_id r
  | MemWriteResp r => 0 <= wresp_id r
  end.

(** Two transactions that only differ in what a line does not show. *)
Record same_core_req (t t' : transaction_req) : Prop := {
  sr_addr : req_addr t = req_addr t';
  sr_op : req_op_of_value (req_op t) = req_op_of_value (req_op t');
  sr_sid : req_sid t = req_sid t';
  sr_tid : req_tid t = req_tid t';
  sr_policy : req_wr_policy_hint t = req_wr_policy_hint t';
  sr_access : is_cmo t = false ->
    req_uncacheable t = req_uncacheable t' /\ req_size t = req_size t'
    /\ req_need_rsp t = req_need_rsp t' /\ req_phys_indexed t = req_phys_indexed t';
  sr_data : contains_data (req_op t) = true -> req_wdata t = req_wdata t' /\ req_be t = req_be t';
  sr_fault : fault_valid (req_fault t) = fault_valid (req_fault t');
  sr_where : fault_valid (req_fault t) = true ->
    fault_way (req_fault t) = fault_way (req_fault t') /\ fault_dom (req_fault t) = fault_dom (req_fault t');
}.
Definition same_mem_req (r r' : mem_req) : Prop :=
  mreq_addr r = mreq_addr r' /\ command_to_string (mreq_command r) = command_to_string (mreq_command r')
  /\ mreq_len r = mreq_len r' /\ mreq_size r = mreq_size r' /\ mreq_id r = mreq_id r'
  /\ mreq_cacheable r = mreq_cacheable r'.
Definition same_line (l l' : log_line) : Prop :=
  match l, l' with
  | CoreReq t, CoreReq t' => same_core_req t t'
  | CoreResp r, CoreResp r' => r = r'
  | MemReadReq r, MemReadReq r' => same_mem_req r r'
  | MemWriteReq r, MemWriteReq r' =>
      same_mem_req (wreq r) (wreq r') /\ wreq_data r = wreq_data r' /\ wreq_be r = wreq_be r'
      /\ wreq_last r = wreq_last r'
      /\ (mreq_command (wreq r) = HPDCACHE_MEM_ATOMIC ->
          atomic_to_string (mreq_atomic (wreq r)) = atomic_to_string (mreq_atomic (wreq r')))
  | MemReadResp r, MemReadResp r' =>
      rresp_data r = rresp_data r' /\ rresp_id r = rresp_id r' /\ rresp_last r = rresp_last r'
      /\ (rresp_error r = 0 <-> rresp_error r' = 0)
  | MemWriteResp r, MemWriteResp r' =>
      wresp_id r = wresp_id r' /\ wresp_is_atomic r = wresp_is_atomic r'
      /\ (wresp_error r = 0 <-> wresp_error r' = 0)
  | _, _ => False
  end.

#[local] Hint Resolve hex_no_space dec_no_space op_no_space cmo_no_space policy_no_space
  command_no_space atomic_no_space sc_hex_no_space : tokens.

Ltac ended := repeat case_match; solve [ left; reflexivity | right; eexists; reflexivity ].

(** Takes the next literal or token off both sides of an equality of lines. *)
Ltac peel H E :=
  lazymatch type of H with
  | String.append ?a _ = String.append ?a _ => apply (inj (String.append a)) in H
  | String.append _ _ = String.append _ _ =>
      apply (token " ") in H; [destruct H as [E H]|auto with tokens|auto with tokens|ended|ended]
  end.

Lemma command_atomic c c' :
  command_to_string c = command_to_string c' -> (c =? HPDCACHE_MEM_ATOMIC) = (c' =? HPDCACHE_MEM_ATOMIC).
Proof.
  unfold command_to_string, HPDCACHE_MEM_READ, HPDCACHE_MEM_WRITE, HPDCACHE_MEM_ATOMIC.
  destruct (Z.eqb_spec c 0), (Z.eqb_spec c' 0), (Z.eqb_spec c 1), (Z.eqb_spec c' 1),
    (Z.eqb_spec c 2), (Z.eqb_spec c' 2); subst; done || lia.
Qed.

Lemma core_resp_line r r' : resp_wf r -> resp_wf r' -> core_resp_to_string r = core_resp_to_string r' -> r = r'.
Proof.
  intros [] [] H. unfold core_resp_to_string, cat in H. cbn [foldr] in H.
  destruct r as [d s t e a], r' as [d' s' t' e' a']. cbn [rsp_rdata rsp_sid rsp_tid rsp_error rsp_aborted] in *.
  assert (e = e' /\ a = a' /\ d = d' /\ s = s' /\ t = t') as (-> & -> & -> & -> & ->); [|done].
  destruct e, a, e', a';
    (peel H E; peel H E0; peel H E; peel H E1; peel H E; peel H E2; try discriminate H);
    split_and!; eauto using hex_inj, sc_hex_inj.
Qed.

Lemma mem_read_resp_line r r' :
  line_wf (MemReadResp r) -> line_wf (MemReadResp r') ->
  mem_read_resp_to_string r = mem_read_resp_to_string r' -> same_line (MemReadResp r) (MemReadResp r').
Proof.
  intros [Hd Hi] [Hd' Hi'] H. unfold mem_read_resp_to_string, cat in H. cbn [foldr] in H. simpl.
  peel H E; peel H E1; peel H E; peel H E2.
  destruct (rresp_last r), (rresp_last r'), (Z.eqb_spec (rresp_error r) 0), (Z.eqb_spec (rresp_error r') 0);
    try discriminate H; split_and!; eauto using hex_inj, sc_hex_inj; tauto.
Qed.

Lemma mem_write_resp_line r r' :
  line_wf (MemWriteResp r) -> line_wf (MemWriteResp r') ->
  mem_write_resp_to_string r = mem_write_resp_to_string r' -> same_line (MemWriteResp r) (MemWriteResp r').
Proof.
  intros Hi Hi' H. unfold mem_write_resp_to_string, cat in H. cbn [foldr] in H. simpl in *.
  peel H E; peel H E1.
  destruct (wresp_is_atomic r), (wresp_is_atomic r'), (Z.eqb_spec (wresp_error r) 0), (Z.eqb_spec (wresp_error r') 0);
    try discriminate H; split_and!; eauto using hex_inj; tauto.
Qed.

Lemma mem_read_req_line r r' :
  mem_req_wf r -> mem_req_wf r' -> mem_read_req_to_string r = mem_read_req_to_string r' -> same_mem_req r r'.
Proof.
  intros [] [] H. unfold mem_read_req_to_string, cat in H. cbn [foldr] in H.
  peel H E; peel H E1; peel H E; peel H E2; peel H E; peel H E3; peel H E; peel H E4; peel H E; peel H E5.
  unfold same_mem_req. destruct (mreq_cacheable r), (mreq_cacheable r');
    try discriminate H; split_and!; eauto using hex_inj.
Qed.

Definition mem_write_tail (w : mem_write_req) : string :=
  let r := wreq w in
  cat [ " / LEN = "; hex (mreq_len r); " / SIZE = "; hex (mreq_size r); " / ID = 0x"; hex (mreq_id r);
        " / DATA = "; sc_hex HPDCACHE_MEM_DATA_WIDTH (wreq_data w);
        " / BE = "; sc_hex (HPDCACHE_MEM_DATA_WIDTH / 8) (wreq_be w);
        (if wreq_last w then " / LAST" else " ");
        (if mreq_cacheable r then " / CACHEABLE" else " / UNCACHEABLE") ].

Lemma mem_write_req_line r r' :
  line_wf (MemWriteReq r) -> line_wf (MemWriteReq r') ->
  mem_write_req_to_string r = mem_write_req_to_string r' -> same_line (MemWriteReq r) (MemWriteReq r').
Proof.
  intros ([] & Hd & Hb) ([] & Hd' & Hb') H. unfold mem_write_req_to_string, cat in H. cbn [foldr app] in H.
  peel H E; peel H E1; peel H E; peel H E2.
  rewrite <-(command_atomic _ _ E2) in H.
  assert ((mreq_command (wreq r) = HPDCACHE_MEM_ATOMIC ->
           atomic_to_string (mreq_atomic (wreq r)) = atomic_to_string (mreq_atomic (wreq r')))
          /\ mem_write_tail r = mem_write_tail r') as [Hat Ht].
  { destruct (Z.eqb_spec (mreq_command (wreq r)) HPDCACHE_MEM_ATOMIC); cbn [foldr app] in H.
    - peel H E; peel H E3. by split.
    - by split. }
  clear H. unfold mem_write_tail, cat in Ht. cbn [foldr] in Ht.
  peel Ht E; peel Ht E3; peel Ht E; peel Ht E4; peel Ht E; peel Ht E5; peel Ht E; peel Ht E6; peel Ht E; peel Ht E7.
  simpl. unfold same_mem_req.
  destruct (wreq_last r), (wreq_last r'), (mreq_cacheable (wreq r)), (mreq_cacheable (wreq r'));
    try discriminate Ht; split_and!; eauto using hex_inj, sc_hex_inj.
Qed.

(** The part of the line of a request that depends on its kind, and the fault. *)
Definition core_req_access (t : transaction_req) : list string :=
  [ (if req_uncacheable t then " / UNCACHED" else " / CACHED");
    " / SIZE = "; sc_hex HPDCACHE_REQ_SIZE_WIDTH (req_size t);
    (if req_need_rsp t then " / NEED_RSP" else " / NO NEED_RSP");
    (if req_phys_indexed t then " / PHYS_INDEXED" else " / VIRT_INDEXED") ].
Definition core_req_fault (t : transaction_req) : list string :=
  if fault_valid (req_fault t) then
    [ " / FAULT INJECTION / WAY = "; dec (fault_way (req_fault t));
      match fault_dom (req_fault t) with CACHE_DIR => " / CACHE_DIR" | CACHE_DAT => " / CACHE_DAT" end ]
  else [].

Lemma fault_line t t' :
  0 <= fault_way (req_fault t) -> 0 <= fault_way (req_fault t') ->
  cat (core_req_fault t) = cat (core_req_fault t') ->
  fault_valid (req_fault t) = fault_valid (req_fault t') /\
  (fault_valid (req_fault t) = true ->
    fault_way (req_fault t) = fault_way (req_fault t') /\ fault_dom (req_fault t) = fault_dom (req_fault t')).
Proof.
  unfold core_req_fault, cat. intros Hw Hw' H.
  destruct (fault_valid (req_fault t)), (fault_valid (req_fault t')); try discriminate H; [|done].
  cbn [foldr] in H. peel H E; peel H E1.
  destruct (fault_dom (req_fault t)), (fault_dom (req_fault t')); try discriminate H; eauto using dec_inj.
Qed.

Lemma ended_fault t : ended (cat (core_req_fault t)).
Proof. unfold core_req_fault. ended. Qed.

Lemma access_line t t' l l' :
  req_wf t -> req_wf t' -> cat (core_req_access t ++ l) = cat (core_req_access t' ++ l') ->
  (req_uncacheable t = req_uncacheable t' /\ req_size t = req_size t'
   /\ req_need_rsp t = req_need_rsp t' /\ req_phys_indexed t = req_phys_indexed t') /\ cat l = cat l'.
Proof.
  intros [] [] H. unfold core_req_access, cat in H. cbn [foldr app] in H. unfold cat.
  destruct (req_uncacheable t), (req_uncacheable t'); try discriminate H;
    (peel H E; peel H E; peel H E1);
    (destruct (req_need_rsp t), (req_need_rsp t'); try discriminate H);
    peel H E; (destruct (req_phys_indexed t), (req_phys_indexed t'); try discriminate H);
    peel H E; split_and!; eauto using sc_hex_inj.
Qed.

Definition core_req_data (t : transaction_req) : list string :=
  [ " / WDATA = "; sc_hex HPDCACHE_REQ_DATA_WIDTH (req_wdata t);
    " / BE = "; sc_hex (HPDCACHE_REQ_DATA_WIDTH / 8) (req_be t) ].

Lemma data_line t t' :
  req_wf t -> req_wf t' ->
  cat (core_req_data t ++ core_req_fault t) = cat (core_req_data t' ++ core_req_fault t') ->
  (req_wdata t = req_wdata t' /\ req_be t = req_be t') /\ cat (core_req_fault t) = cat (core_req_fault t').
Proof.
  intros [] [] H. unfold core_req_data, cat in H. cbn [foldr app] in H. unfold cat.
  peel H E; peel H E1; peel H E.
  apply (token " ") in H as [E2 H]; [|apply sc_hex_no_space..|apply ended_fault|apply ended_fault].
  split_and!; eauto using sc_hex_inj.
Qed.

Lemma contains_data_not_cmo t : contains_data (req_op t) = true -> is_cmo t = false.
Proof. rewrite is_cmo_value. unfold contains_data. by destruct (req_op_of_value (req_op t)) as [[]|]. Qed.

Definition core_req_kind (t : transaction_req) : list string :=
  if negb (is_cmo t)
  then core_req_access t ++ (if contains_data (req_op t) then core_req_data t else [])
  else [ " / "; cmo_to_string (req_op t) ].

Lemma ended_kind t : ended (cat (core_req_kind t ++ core_req_fault t)).
Proof. unfold core_req_kind, core_req_access, core_req_fault. ended. Qed.

Lemma kind_line t t' :
  req_wf t -> req_wf t' -> req_op_of_value (req_op t) = req_op_of_value (req_op t') ->
  cat (core_req_kind t ++ core_req_fault t) = cat (core_req_kind t' ++ core_req_fault t') ->
  (is_cmo t = false ->
    req_uncacheable t = req_uncacheable t' /\ req_size t = req_size t'
    /\ req_need_rsp t = req_need_rsp t' /\ req_phys_indexed t = req_phys_indexed t')
  /\ (contains_data (req_op t) = true -> req_wdata t = req_wdata t' /\ req_be t = req_be t')
  /\ cat (core_req_fault t) = cat (core_req_fault t').
Proof.
  intros Hwf Hwf' Hop H. unfold core_req_kind in H.
  assert (is_cmo t' = is_cmo t) as Hc by (by rewrite !is_cmo_value, Hop).
  assert (contains_data (req_op t') = contains_data (req_op t)) as Hd by (unfold contains_data; by rewrite Hop).
  pose proof (contains_data_not_cmo t) as Hn. rewrite Hc, Hd in H.
  destruct (is_cmo t); simpl negb in H; cbn match in H.
  - unfold cat in H. cbn [foldr app] in H. peel H E.
    apply (token " ") in H as [_ H]; [|apply cmo_no_space..|apply ended_fault|apply ended_fault].
    split; [done|]. split; [|exact H]. intros Hdata. by apply Hn in Hdata.
  - rewrite <-!app_assoc in H. apply access_line in H as [Ha H]; [|done..]. split; [done|].
    destruct (contains_data (req_op t)); [|by split].
    apply data_line in H as [Hv H]; [|done..]. by split.
Qed.

Lemma core_req_line t t' :
  line_wf (CoreReq t) -> line_wf (CoreReq t') ->
  core_req_to_string t = core_req_to_string t' -> same_core_req t t'.
Proof.
  intros [Hwf Hw] [Hwf' Hw'] H. unfold core_req_to_string in H.
  fold (core_req_fault t) (core_req_fault t') (core_req_data t) (core_req_data t')
    (core_req_access t) (core_req_access t') in H.
  fold (core_req_kind t) (core_req_kind t') in H.
  unfold cat in H. cbn [foldr app] in H. fold (cat (core_req_kind t ++ core_req_fault t))
    (cat (core_req_kind t' ++ core_req_fault t')) in H.
  peel H E; peel H Eaddr; peel H E; peel H Eop; peel H E; peel H E1; peel H E; peel H E2;
  peel H E; peel H E3; peel H E; peel H Esid; peel H E; peel H Etid; peel H E.
  apply (token " ") in H as [Epol H]; [|apply policy_no_space..|apply ended_kind|apply ended_kind].
  apply op_to_string_same in Eop. destruct (kind_line t t' Hwf Hwf' Eop H) as (Ha & Hd & Hf).
  apply fault_line in Hf as [Hv Hf]; [|done..]. destruct Hwf, Hwf'.
  split; eauto using sc_hex_inj, policy_inj.
  all: apply hex_inj; unfold is_word in *; lia || done.
Qed.

(** C26: The log is unambiguous. Two lines are the same only if they print transactions of the same kind that agree on every field a line of that kind shows: address, operation, identifiers, sizes, data and byte enables where the operation has some, attributes, flags and the place of an injected fault; of an error, whether it is one; of a reserved operation or command, that it is reserved. *)
Theorem log_unambiguous l l' :
  line_wf l -> line_wf l' -> print_line l = print_line l' -> same_line l l'.
Proof.
  destruct l, l'; simpl print_line; intros Hl Hl' H; try discriminate H.
  - by apply core_req_line.
  - by apply core_resp_line.
  - by apply mem_read_req_line.
  - by apply mem_write_req_line.
  - by apply mem_read_resp_line.
  - by apply mem_write_resp_line.
Qed.
End Unambiguous.

(** ** Scopes of the RAMs *)

Section Scopes.
Context {cfg : HpdConfig} {ram : RamConfig}.

(** [snprintf] into [n] characters. *)
Definition snprintf (n : nat) (s : string) : string := substring 0 (n - 1) s.

(** The name the constructor of [hpdcache_fault_injection] looks a scope up by. *)
Definition full_name (s : scope) : string :=
  cat ([ "i_top.hpdcache_wrapper.i_hpdcache"; ".hpdcache_ctrl_i.hpdcache_memctrl_i" ] ++
       match s with
       | DirScope w => [ ".gen_dir_sram["; dec w; "].dir_sram.gen_sram_ecc"; ".i_sram.i_sram" ]
       | DatScope w m => [ ".gen_data_sram_row["; dec w; "]"; ".gen_data_sram_col["; dec m; "]";
                           ".data_sram.gen_sram_ecc.ram_i.i_sram" ]
       end).
Definition hier_name (s : scope) : string := snprintf 256 (full_name s).

(** The scopes it looks up, in order; it asserts that each is found, and the width of a
    word. *)
Definition scopes : list scope :=
  (DirScope <$> seqZ 0 HPDCACHE_WAYS) ++
  (w ← seqZ 0 (HPDCACHE_WAYS / CONF_HPDCACHE_DATA_WAYS_PER_RAM_WORD);
   m ← seqZ 0 CONF_HPDCACHE_ACCESS_WORDS; [DatScope w m]).
Definition hpdcache_fault_injection (svGetScopeFromName : string -> bool) : bool :=
  forallb (fun s => svGetScopeFromName (hier_name s)) scopes
  && ((HPDCACHE_WORD_WIDTH =? 64) || (HPDCACHE_WORD_WIDTH =? 32)).

(** Every scope an injection uses was looked up. *)
Lemma getScope_known domain way word s : getScope domain way word = Some s -> s ∈ scopes.
Proof.
  unfold getScope, scopes. intros H. apply elem_of_app. destruct domain; case_match; simplify_eq;
    rewrite !andb_true_iff, ?Z.leb_le, ?Z.ltb_lt in *; unfold DATA_ROWS, DATA_COLS in *.
  - left. apply list_elem_of_fmap. eexists. split; [done|]. apply elem_of_seqZ. lia.
  - right. apply list_elem_of_bind. exists (getDatRow way). split; [|apply elem_of_seqZ; lia].
    apply list_elem_of_bind. exists (getDatCol word). split; [by apply list_elem_of_singleton|].
    apply elem_of_seqZ. lia.
Qed.

(** A decimal has no more digits than the number has bits. *)
Lemma succ_double_digits d :
  (Decimal.nb_digits (Decimal.Little.double d) <= S (Decimal.nb_digits d))%nat
  /\ (Decimal.nb_digits (Decimal.Little.succ_double d) <= S (Decimal.nb_digits d))%nat.
Proof. induction d; simpl in *; lia. Qed.

Lemma pos_digits p : (Decimal.nb_digits (Pos.to_uint p) <= Pos.size_nat p)%nat.
Proof.
  unfold Pos.to_uint. rewrite DecimalFacts.nb_digits_rev.
  induction p as [p IH|p IH|]; simpl; [| |lia];
    (etrans; [apply succ_double_digits|lia]).
Qed.

Lemma length_uint d : String.length (DecimalString.NilEmpty.string_of_uint d) = Decimal.nb_digits d.
Proof. induction d; simpl; congruence. Qed.

Lemma dec_length x : 0 <= x < 2 ^ 31 -> (String.length (dec x) <= 32)%nat.
Proof.
  intros Hx. unfold dec. rewrite length_uint. destruct x as [|p|p]; [simpl; lia| |lia]. simpl.
  etrans; [apply pos_digits|]. etrans; [apply (Pos.size_nat_monotone p (2 ^ 31)); lia|done].
Qed.

Lemma append_length a b : String.length (String.append a b) = (String.length a + String.length b)%nat.
Proof. induction a as [|c a IH]; simpl; [done|]. rewrite IH. lia. Qed.

Lemma substring_all n s : (String.length s <= n)%nat -> substring 0 n s = s.
Proof.
  revert n. induction s as [|c s IH]; intros [|n] H; simpl in *; try done; [lia|]. by rewrite IH by lia.
Qed.

(** A coordinate is a nonnegative int. *)
Definition int_scope (s : scope) : Prop :=
  match s with
  | DirScope w => 0 <= w < 2 ^ 31
  | DatScope w m => 0 <= w < 2 ^ 31 /\ 0 <= m < 2 ^ 31
  end.

(** No name is cut. *)
Lemma hier_name_full s : int_scope s -> hier_name s = full_name s.
Proof.
  intros Hs. apply substring_all. unfold full_name, cat.
  destruct s as [w|w m]; simpl in Hs; cbn [foldr app]; rewrite !append_length.
  - pose proof (dec_length w Hs). simpl. lia.
  - destruct Hs as [Hw Hm]. pose proof (dec_length w Hw). pose proof (dec_length m Hm). simpl. lia.
Qed.

(** Two RAMs have two names. *)
Lemma hier_name_inj s s' : int_scope s -> int_scope s' -> hier_name s = hier_name s' -> s = s'.
Proof.
  intros Hs Hs'. rewrite !hier_name_full by done. unfold full_name, cat.
  destruct s as [w|w m], s' as [w'|w' m']; cbn [foldr app]; intros H;
    (do 2 apply (inj (String.append _)) in H); try discriminate H; simpl in Hs, Hs'.
  - apply (inj (String.append ".gen_dir_sram[")) in H.
    apply (token "]") in H as [E _]; [|apply dec_no_bracket..|right; by eexists|right; by eexists].
    apply dec_inj in E; [|lia..]. congruence.
  - apply (inj (String.append ".gen_data_sram_row[")) in H.
    apply (token "]") in H as [E H]; [|apply dec_no_bracket..|right; by eexists|right; by eexists].
    apply (inj (String.append "]")), (inj (String.append ".gen_data_sram_col[")) in H.
    apply (token "]") in H as [E' _]; [|apply dec_no_bracket..|right; by eexists|right; by eexists].
    apply dec_inj in E; [|lia..]. apply dec_inj in E'; [|lia..]. congruence.
Qed.
End Scopes.

(** ** Bits of the trace reader *)

(** It displays the eight low bits, the highest one first. *)
Lemma display_binary_bits v :
  display_binary v = Z.testbit v <$> [7; 6; 5; 4; 3; 2; 1; 0].
Proof.
  unfold display_binary. cbn [fmap list_fmap].
  assert (forall k, 1 <= k <= 8 ->
    negb (Z.land (Z.shiftr (u32 (Z.shiftl v (8 - k))) 7) 1 =? 0) = Z.testbit v (k - 1)) as H.
  { intros k Hk. change 1 with (Z.ones 1) at 1. rewrite Z.land_ones by lia.
    rewrite <-Z.bit0_mod, Z.shiftr_spec, testbit_wrap, testbit_shiftl by lia.
    replace (0 + 7 - (8 - k)) with (k - 1) by lia. simpl.
    by destruct (Z.testbit v (k - 1)). }
  by rewrite !H by lia.
Qed.

(** ** Witness *)

Definition ex_req (io : bool) : transaction_req :=
  {| req_id := 0; req_addr := 4096; req_wdata := 255; req_op := 1; req_be := 15; req_size := 2;
     req_sid := 3; req_tid := 10; req_need_rsp := true; req_phys_indexed := true;
     req_uncacheable := true; req_io := io; req_wr_policy_hint := HPDCACHE_WR_POLICY_WB;
     req_abort := false; req_fault := fault_req_init |}.

(** A line does not show the input-output attribute, but shows the data of a store. *)
Lemma log_unambiguous_witness :
  core_req_to_string (cfg := default_config) (ex_req true) =
    "CORE_REQ / @ = 0x01000 / STORE / SET = 0x0 / WORD = 0x0 / TAG = 0x1 / SID = 0x3 / TID = 0xa / WR_POLICY_HINT = WR_POLICY_WB / UNCACHED / SIZE = 0x02 / NEED_RSP / PHYS_INDEXED / WDATA = 0x0ff / BE = 0x0f"
  /\ req_wdata (ex_req true) = req_wdata (ex_req false).
Proof.
  split; [vm_compute; reflexivity|].
  refine (proj1 (sr_data _ _ (log_unambiguous (cfg := default_config)
    (CoreReq (ex_req true)) (CoreReq (ex_req false)) _ _ _) _)).
  - split; [split; vm_compute; split; discriminate || reflexivity|discriminate].
  - split; [split; vm_compute; split; discriminate || reflexivity|discriminate].
  - vm_compute; reflexivity.
  - reflexivity.
Defined.

(** ** The statistics of the scoreboard

    Printed by its destructor when the verbosity is at least [SC_LOW]. What a stream
    prints of the quotient of two integers as a [double] is an argument. *)
Section Statistics.
Context (quotient : Z -> Z -> string).

Definition row (label value : string) : string := cat [ label; ": "; value; newline ].
Definition computed (label : string) (num den : Z) : string :=
  row label (if 0 <? den then quotient num den else "0").

Definition statistics_to_string (s : scoreboard) : string :=
  let c := sb_count s in
  let e := sb_events s in
  cat [ "SCOREBOARD STATISTICS"; newline; "Status"; newline;
        "--------------------------------------------------"; newline;
        row "SB.NB_ERROR             " (dec (nb_error s)); newline;
        "Instrumentation"; newline;
        "--------------------------------------------------"; newline;
        row "SB.NB_CYCLES            " (dec (nb_cycles_effective c));
        row "SB.NB_CORE_REQ          " (dec (nb_core_req c));
        row "SB.NB_CORE_RESP         " (dec (nb_core_resp c));
        row "SB.NB_MEM_READ_REQ      " (dec (nb_mem_read_req c));
        row "SB.NB_MEM_READ_RESP     " (dec (nb_mem_read_resp c));
        row "SB.NB_MEM_WRITE_REQ     " (dec (nb_mem_write_req c));
        row "SB.NB_MEM_WRITE_RESP    " (dec (nb_mem_write_resp c));
        row "CACHE.WRITE_MISSES      " (dec (evt_cache_write_miss e));
        row "CACHE.READ_MISSES       " (dec (evt_cache_read_miss e));
        row "CACHE.DIR_UNC_ERRORS    " (dec (evt_cache_dir_unc_err e));
        row "CACHE.DIR_COR_ERRORS    " (dec (evt_cache_dir_cor_err e));
        row "CACHE.DAT_UNC_ERRORS    " (dec (evt_cache_dat_unc_err e));
        row "CACHE.DAT_COR_ERRORS    " (dec (evt_cache_dat_cor_err e));
        row "CACHE.SCRUBBER_COMPLETE " (dec (evt_scrub_complete e));
        row "CACHE.UNCACHED_REQUESTS " (dec (evt_uncached_req e));
        row "CACHE.CMO_REQUESTS      " (dec (evt_cmo_req e));
        row "CACHE.WRITE_REQUESTS    " (dec (evt_write_req e));
        row "CACHE.READ_REQUESTS     " (dec (evt_read_req e));
        row "CACHE.PREFETCH_REQUESTS " (dec (evt_prefetch_req e));
        row "CACHE.ON_HOLD_REQUESTS  " (dec (evt_req_on_hold e));
        row "CACHE.RTAB_ROLLBACK     " (dec (evt_rtab_rollback e));
        row "CACHE.STALL_REFILL      " (dec (evt_stall_refill e));
        row "CACHE.STALL             " (dec (evt_stall e)); newline;
        "Computed values"; newline; "---------------"; newline;
        computed "Cycles per request      " (nb_cycles_effective c) (nb_core_req c);
        computed "Read miss rate          " (evt_cache_read_miss e) (evt_read_req e);
        computed "Write miss rate         " (evt_cache_write_miss e) (evt_write_req e) ].
End Statistics.

(** No quotient by zero is computed. *)
Lemma statistics_quotients q q' s :
  (forall a b, 0 < b -> q a b = q' a b) -> statistics_to_string q s = statistics_to_string q' s.
Proof.
  intros H. assert (forall l a b, computed q l a b = computed q' l a b) as Hc.
  { intros l a b. unfold computed. destruct (Z.ltb_spec 0 b); [by rewrite H|done]. }
  unfold statistics_to_string. by rewrite !Hc.
Qed.
